(** * AWS-Cost-Optimizer: the tag-driven grace-period lifecycle

    A shallow embedding of the three Lambda handlers of the repository
    ([cost_analyzer.py], the Finder; [resource_cleanup.py], the Reaper;
    [cost_savings_query.py], the ledger Aggregator) and the properties of
    the specification that concern them.

    Layout: the parts of the Python runtime the handlers rely on
    ([Py]: text, binary64 arithmetic, calendar dates), the AWS data model
    and the remote services as an oracle ([Aws]), one module per source
    file, the vocabulary the theorems are stated in and the sample
    accounts they are tried on, then the theorems: the Reaper, the
    deadline tag, the Finder, the Aggregator. *)

From Stdlib Require Import ZArith Lia Bool Ascii String.
From Stdlib Require Import PrimFloat FloatOps SpecFloat Uint63.
From stdpp Require Import base option list strings gmap.

Set Warnings "-inexact-float".
Local Open Scope Z_scope.

(* ===================================================================== *)
(** * The Python runtime *)
(* ===================================================================== *)

Module Py.

(** ** Text *)

(** [str(n)] for a non-negative integer: its decimal digits. *)
Fixpoint digits_go (fuel : nat) (n : N) (acc : string) : string :=
  match fuel with
  | O => acc
  | S fuel' =>
      let acc' := String (Ascii.ascii_of_N (48 + n mod 10)%N) acc in
      if (n / 10 =? 0)%N then acc' else digits_go fuel' (n / 10)%N acc'
  end.

Definition str_N (n : N) : string :=
  digits_go (S (N.to_nat (N.log2 n))) n "".

(** [str(z)] for an integer. *)
Definition str_int (z : Z) : string :=
  if z <? 0 then "-" +:+ str_N (Z.to_N (- z)) else str_N (Z.to_N z).

Fixpoint zeros (k : nat) : string :=
  match k with O => "" | S k' => String "0"%char (zeros k') end.

(** ["%0<w>d" % z] for [0 <= z]: decimal digits, zero-filled on the left up
    to [w] characters (longer numbers are not cut). *)
Definition zfill (w : nat) (z : Z) : string :=
  let s := str_N (Z.to_N z) in
  zeros (w - String.length s) +:+ s.

(** [s.replace(old, '')] for a non-empty [old]: every occurrence of [old],
    found from the left without overlap, is dropped. [skip] counts the
    characters of the current occurrence still to drop. *)
Fixpoint remove_go (old : string) (skip : nat) (s : string) : string :=
  match s with
  | EmptyString => EmptyString
  | String c s' =>
      match skip with
      | S k => remove_go old k s'
      | O =>
          if String.prefix old s
          then remove_go old (String.length old - 1) s'
          else String c (remove_go old 0 s')
      end
  end.

Definition str_remove (old s : string) : string := remove_go old 0 s.

(** The line feed of ["\n..."]. *)
Definition nl : string := String (ascii_of_nat 10) "".

(** [str(b)] *)
Definition str_bool (b : bool) : string := if b then "True" else "False".

(** [len(l)] as printed. *)
Definition str_len {A} (l : list A) : string := str_N (N.of_nat (length l)).

(** The value of an ASCII decimal digit. *)
Definition digit_of (c : ascii) : option Z :=
  let n := Z.of_N (N_of_ascii c) in
  if (48 <=? n) && (n <=? 57) then Some (n - 48) else None.

(** *** Characters beyond ASCII

    A [string] holds the UTF-8 bytes of a Python [str]. Beyond ASCII the
    runtime tells two kinds of characters apart: the decimal digits of
    other scripts, which [float], [int] and the [\d] of a regular
    expression read as digits, and white space, which [float] strips. *)

(** The six bits a continuation byte [10xxxxxx] carries. *)
Definition continuation (c : ascii) : option N :=
  let n := N_of_ascii c in
  if ((128 <=? n) && (n <=? 191))%N then Some (n - 128)%N else None.

(** The first character of [s], as its code point, and the text after
    it; [None] at the end of the text and where the bytes are no UTF-8
    (a lone continuation byte, a cut or overlong sequence, a surrogate, a
    value past U+10FFFF). *)
Definition next_char (s : string) : option (N * string) :=
  match s with
  | EmptyString => None
  | String a s1 =>
      let n := N_of_ascii a in
      if (n <? 128)%N then Some (n, s1)
      else if ((194 <=? n) && (n <=? 223))%N then
        match s1 with
        | String b s2 =>
            match continuation b with
            | Some x => Some (((n - 192) * 64 + x)%N, s2)
            | None => None
            end
        | _ => None
        end
      else if ((224 <=? n) && (n <=? 239))%N then
        match s1 with
        | String b (String c s3) =>
            match continuation b, continuation c with
            | Some x, Some y =>
                let cp := ((n - 224) * 4096 + x * 64 + y)%N in
                if ((2048 <=? cp) && negb ((55296 <=? cp) && (cp <=? 57343)))%N
                then Some (cp, s3) else None
            | _, _ => None
            end
        | _ => None
        end
      else if ((240 <=? n) && (n <=? 244))%N then
        match s1 with
        | String b (String c (String d s4)) =>
            match continuation b, continuation c, continuation d with
            | Some x, Some y, Some z =>
                let cp := ((n - 240) * 262144 + x * 4096 + y * 64 + z)%N in
                if ((65536 <=? cp) && (cp <=? 1114111))%N
                then Some (cp, s4) else None
            | _, _, _ => None
            end
        | _ => None
        end
      else None
  end.

(** The characters of category [Nd] (Unicode 14.0, the table of CPython
    3.11): every script's digits are ten consecutive code points, listed
    here by their zero. *)
Definition decimal_zeros : list N :=
  [48; 1632; 1776; 1984; 2406; 2534; 2662; 2790; 2918; 3046; 3174; 3302;
   3430; 3558; 3664; 3792; 3872; 4160; 4240; 6112; 6160; 6470; 6608; 6784;
   6800; 6992; 7088; 7232; 7248; 42528; 43216; 43264; 43472; 43504; 43600;
   44016; 65296; 66720; 68912; 69734; 69872; 69942; 70096; 70384; 70736;
   70864; 71248; 71360; 71472; 71904; 72016; 72784; 73040; 73120; 92768;
   92864; 93008; 120782; 120792; 120802; 120812; 120822; 123200; 123632;
   125264; 130032]%N.

(** [unicodedata.decimal(chr(cp))]: the value of a decimal digit of any
    script. *)
Definition decimal_value (cp : N) : option Z :=
  match List.find (fun z => (z <=? cp) && (cp <? z + 10))%N decimal_zeros with
  | Some z => Some (Z.of_N (cp - z))
  | None => None
  end.

(** [chr(cp).isspace()] *)
Definition unicode_space (cp : N) : bool :=
  ((9 <=? cp) && (cp <=? 13) || (28 <=? cp) && (cp <=? 32)
   || (cp =? 133) || (cp =? 160) || (cp =? 5760)
   || (8192 <=? cp) && (cp <=? 8202) || (cp =? 8232) || (cp =? 8233)
   || (cp =? 8239) || (cp =? 8287) || (cp =? 12288))%N.

(** One character that [\d] matches, at the start of [s]: its value as
    [int] reads it, and the text after it. *)
Definition decimal (s : string) : option (Z * string) :=
  match next_char s with
  | Some (cp, rest) =>
      match decimal_value cp with
      | Some v => Some (v, rest)
      | None => None
      end
  | None => None
  end.

(** The text as [float] takes it in: ASCII as it is, a decimal digit of
    another script as the ASCII digit of its value, white space beyond
    ASCII as a space; the first other character becomes [?] and ends the
    text. [fuel] bounds the characters read. *)
Fixpoint ascii_text (fuel : nat) (s : string) : list ascii :=
  match fuel, s with
  | S fuel', String a s1 =>
      if (N_of_ascii a <? 128)%N then a :: ascii_text fuel' s1
      else
        match next_char s with
        | Some (cp, rest) =>
            if unicode_space cp then " "%char :: ascii_text fuel' rest
            else
              match decimal_value cp with
              | Some v => ascii_of_N (48 + Z.to_N v) :: ascii_text fuel' rest
              | None => ["?"%char]
              end
        | None => ["?"%char]
        end
  | _, _ => []
  end.

(** [min(l)] and [max(l)] of a non-empty list of strings [x :: l]; on ties
    both keep the first. Python compares [str] by code point, which on the
    bytes of UTF-8 text is the lexicographic byte order. *)
Definition str_min (x : string) (l : list string) : string :=
  fold_left (fun m y => if String.ltb y m then y else m) l x.

Definition str_max (x : string) (l : list string) : string :=
  fold_left (fun m y => if String.ltb m y then y else m) l x.

(** ** Exceptions *)

(** The outcome of a call that may raise: a value, or the raised exception
    with its text [str(e)]. *)
Inductive result (A : Type) : Type :=
| Ok (a : A)
| Raise (msg : string).
Arguments Ok {A} a.
Arguments Raise {A} msg.

(** ** Binary64 arithmetic *)

(** [num / den] rounded to the nearest integer, ties to the even one
    ([0 <= num], [0 < den]). *)
Definition rne_div (num den : Z) : Z :=
  let q := num / den in
  let r := num mod den in
  match (2 * r ?= den) with
  | Lt => q
  | Gt => q + 1
  | Eq => if Z.even q then q else q + 1
  end.

(** [p / q] for a binary exponent [e]: the fraction [p / (q * 2^e)]. *)
Definition scale2 (p q e : Z) : Z * Z :=
  if 0 <=? e then (p, q * 2 ^ e) else (p * 2 ^ (- e), q).

(** The double nearest to the rational [p / q] ([0 <= p], [0 < q]), ties to
    even; beyond the largest double the result is infinity. This is what
    the runtime's correctly rounded decimal-to-binary conversion returns. *)
Definition nearest_double (p q : Z) : float :=
  if p =? 0 then 0%float
  else
    let e0 := Z.log2 p - Z.log2 q - 52 in
    let '(n0, d0) := scale2 p q e0 in
    let e1 := if n0 <? d0 * 2 ^ 52 then e0 - 1 else e0 in
    let e := Z.max e1 (-1074) in
    let '(n, d) := scale2 p q e in
    Z.ldexp (of_uint63 (Uint63.of_Z (rne_div n d))) e.

(** [float(z)] for an integer, as in [z * 0.114]: the nearest double. The
    sizes the handlers convert are the inventory API's 32-bit integers,
    all exact; Python raises OverflowError past the largest double, where
    this function yields infinity. *)
Definition float_of_int (z : Z) : float :=
  if z <? 0 then (- nearest_double (- z) 1)%float else nearest_double z 1.

(** [round(x, ndigits)] for a float and [0 <= ndigits]: the decimal with
    [ndigits] places nearest to the exact value of [x] (ties to even),
    converted back to the nearest double, keeping the sign; zeros,
    infinities and NaN round to themselves. *)
Definition round_digits (x : float) (ndigits : Z) : float :=
  match Prim2SF x with
  | S754_finite s m e =>
      let k := 10 ^ ndigits in
      let n := if 0 <=? e then Zpos m * 2 ^ e * k
               else rne_div (Zpos m * k) (2 ^ (- e)) in
      let r := nearest_double n k in
      if s then (- r)%float else r
  | _ => x
  end.

(** [f"{x:.2f}"]: the exact value of [x] rounded to two places (ties to
    even), printed in fixed notation. *)
Definition format_2f (x : float) : string :=
  match Prim2SF x with
  | S754_finite s m e =>
      let n := if 0 <=? e then Zpos m * 2 ^ e * 100
               else rne_div (Zpos m * 100) (2 ^ (- e)) in
      (if s then "-" else "") +:+ str_int (n / 100) +:+ "." +:+ zfill 2 (n mod 100)
  | S754_zero s => (if s then "-" else "") +:+ "0.00"
  | S754_infinity s => (if s then "-" else "") +:+ "inf"
  | S754_nan => "nan"
  end.

(** ** [float(text)] *)

(** The white space [float] strips from both ends: TAB to CR, and the
    space. *)
Definition is_space (c : ascii) : bool :=
  let n := N_of_ascii c in
  ((9 <=? n) && (n <=? 13) || (n =? 32))%N.

Definition strip (l : list ascii) : list ascii :=
  let drop := fix drop (l : list ascii) : list ascii :=
    match l with
    | c :: l' => if is_space c then drop l' else l
    | [] => []
    end in
  rev (drop (rev (drop l))).

(** ASCII lower case of a letter. *)
Definition lower (c : ascii) : ascii :=
  let n := N_of_ascii c in
  if ((65 <=? n) && (n <=? 90))%N then ascii_of_N (n + 32) else c.

(** [digit (["_"] digit)*]: the digits read, most significant first, and
    the text after them; [None] when [l] does not start with a digit. An
    underscore counts only between two digits. *)
Fixpoint digitpart (l : list ascii) : option (list Z * list ascii) :=
  match l with
  | c :: l' =>
      match digit_of c with
      | Some d =>
          let more :=
            match l' with
            | "_"%char :: l'' => digitpart l''
            | _ => digitpart l'
            end in
          match more, l' with
          | Some (ds, rest), _ => Some (d :: ds, rest)
          | None, _ => Some ([d], l')
          end
      | None => None
      end
  | [] => None
  end.

Definition int_of_digits (ds : list Z) : Z :=
  fold_left (fun acc d => 10 * acc + d) ds 0.

(** An optional sign: [true] for [-]. *)
Definition sign_of (l : list ascii) : bool * list ascii :=
  match l with
  | "-"%char :: l' => (true, l')
  | "+"%char :: l' => (false, l')
  | _ => (false, l)
  end.

(** [[digitpart] "." digitpart | digitpart ["."]]: the digits before and
    after the point. *)
Definition number (l : list ascii) : option (list Z * list Z * list ascii) :=
  match digitpart l with
  | Some (ip, "."%char :: rest) =>
      match digitpart rest with
      | Some (fp, rest') => Some (ip, fp, rest')
      | None => Some (ip, [], rest)
      end
  | Some (ip, rest) => Some (ip, [], rest)
  | None =>
      match l with
      | "."%char :: rest =>
          match digitpart rest with
          | Some (fp, rest') => Some ([], fp, rest')
          | None => None
          end
      | _ => None
      end
  end.

(** [("e" | "E") [sign] digitpart], or nothing: the exponent. *)
Definition exponent (l : list ascii) : option (Z * list ascii) :=
  match l with
  | c :: l' =>
      if Ascii.eqb (lower c) "e" then
        let '(neg, l'') := sign_of l' in
        match digitpart l'' with
        | Some (ds, rest) =>
            Some (if neg then - int_of_digits ds else int_of_digits ds, rest)
        | None => None
        end
      else Some (0, l)
  | [] => Some (0, [])
  end.

Definition signed (neg : bool) (x : float) : float :=
  if neg then (- x)%float else x.

(** [float(s)]: the digits and the white space of other scripts are read
    as their ASCII counterparts, surrounding white space is dropped, then a
    sign and [inf], [infinity], [nan] (in any case) or a decimal number
    with optional exponent, converted to the nearest double. [None] stands
    for the [ValueError] on any other text. *)
Definition float_of_str (s : string) : option float :=
  let '(neg, l) := sign_of (strip (ascii_text (String.length s) s)) in
  let word := string_of_list_ascii (map lower l) in
  if String.eqb word "inf" || String.eqb word "infinity"
  then Some (signed neg infinity)
  else if String.eqb word "nan" then Some nan
  else
    match number l with
    | Some (ip, fp, rest) =>
        match exponent rest with
        | Some (e, []) =>
            let m := int_of_digits (ip ++ fp) in
            let e10 := e - Z.of_nat (length fp) in
            Some (signed neg
                    (if 0 <=? e10 then nearest_double (m * 10 ^ e10) 1
                     else nearest_double m (10 ^ (- e10))))
        | _ => None
        end
    | None => None
    end.

(** ** [str(x)] of a float *)

(** The exact value of a finite non-zero double as a fraction. *)
Definition fraction_of (m : positive) (e : Z) : Z * Z :=
  if 0 <=? e then (Zpos m * 2 ^ e, 1) else (Zpos m, 2 ^ (- e)).

(** [c * 10^k] read back as a double. *)
Definition double_of_decimal (c k : Z) : float :=
  if 0 <=? k then nearest_double (c * 10 ^ k) 1 else nearest_double c (10 ^ (- k)).

(** The decimal exponent [k] with [10^(k-1) <= p/q < 10^k], searched
    upwards from an estimate that is never too high. *)
Definition decimal_exponent (p q : Z) : Z :=
  let k0 := (Z.log2 p - Z.log2 q - 1) * 30103 / 100000 in
  let below k := if 0 <=? k then p <? q * 10 ^ k else p * 10 ^ (- k) <? q in
  if below k0 then k0 else if below (k0 + 1) then k0 + 1 else k0 + 2.

(** The [n]-digit decimal [c * 10^(k-n)] that reads back as [x], if any:
    of the two decimals around [p/q] the one nearer to it (on a tie the
    even one) among those that read back as [x]. *)
Definition shortest_at (x : float) (p q k : Z) (n : Z) : option Z :=
  let '(num, den) := if 0 <=? k - n then (p, q * 10 ^ (k - n))
                     else (p * 10 ^ (n - k), q) in
  let lo := num / den in
  let near := rne_div num den in
  let far := if near =? lo then lo + 1 else lo in
  let reads c := PrimFloat.eqb (double_of_decimal c (k - n)) x in
  if reads near then Some near
  else if reads far then Some far
  else None.

Fixpoint shortest_go (x : float) (p q k : Z) (fuel : nat) (n : Z) : Z * Z :=
  match fuel with
  | O => (rne_div (p * 10 ^ (17 - k)) q, 17)
  | S fuel' =>
      match shortest_at x p q k n with
      | Some c => (c, n)
      | None => shortest_go x p q k fuel' (n + 1)
      end
  end.

Fixpoint strip_zeros (fuel : nat) (c : Z) : Z :=
  match fuel with
  | O => c
  | S fuel' => if (c mod 10 =? 0) && negb (c =? 0) then strip_zeros fuel' (c / 10) else c
  end.

(** The shortest digits that read back as [x = p/q], and the position
    [decpt] of the decimal point: [x = 0.DIGITS * 10^decpt]. *)
Definition shortest_digits (x : float) (p q : Z) : string * Z :=
  let k := decimal_exponent p q in
  let '(c, n) := shortest_go x p q k 17 1 in
  let ds := str_N (Z.to_N (strip_zeros 20 c)) in
  let len_c := Z.of_nat (String.length (str_N (Z.to_N c))) in
  (ds, k + (len_c - n)).

(** [repr(x)] and [str(x)]: the shortest digits that read back as [x], in
    fixed notation when [-4 < decpt <= 16] and in exponent notation
    otherwise. *)
Definition str_float (x : float) : string :=
  match Prim2SF x with
  | S754_zero s => (if s then "-" else "") +:+ "0.0"
  | S754_infinity s => (if s then "-" else "") +:+ "inf"
  | S754_nan => "nan"
  | S754_finite s m e =>
      let '(p, q) := fraction_of m e in
      let '(ds, decpt) := shortest_digits (abs x) p q in
      let len := Z.of_nat (String.length ds) in
      let body :=
        if (-4 <? decpt) && (decpt <=? 16) then
          if decpt <=? 0 then "0." +:+ zeros (Z.to_nat (- decpt)) +:+ ds
          else if len <=? decpt then ds +:+ zeros (Z.to_nat (decpt - len)) +:+ ".0"
          else substring 0 (Z.to_nat decpt) ds +:+ "."
               +:+ substring (Z.to_nat decpt) (Z.to_nat (len - decpt)) ds
        else
          let ex := decpt - 1 in
          substring 0 1 ds
          +:+ (if 1 <? len then "." +:+ substring 1 (Z.to_nat (len - 1)) ds else "")
          +:+ "e" +:+ (if ex <? 0 then "-" else "+") +:+ zfill 2 (Z.abs ex) in
      (if s then "-" else "") +:+ body
  end.

(** A Python number: the handlers' totals start as the [int] [0] and turn
    into a [float] with the first float added. *)
Inductive num : Type :=
| Int (z : Z)
| Float (x : float).

Definition to_float (a : num) : float :=
  match a with Int z => float_of_int z | Float x => x end.

(** [a + b] *)
Definition num_add (a b : num) : num :=
  match a, b with
  | Int x, Int y => Int (x + y)
  | _, _ => Float (to_float a + to_float b)
  end.

(** [a * b] *)
Definition num_mul (a b : num) : num :=
  match a, b with
  | Int x, Int y => Int (x * y)
  | _, _ => Float (to_float a * to_float b)
  end.

(** [a / b] on a float [a] and a non-zero [b] (true division). *)
Definition num_div (a b : num) : num :=
  Float (to_float a / to_float b).

(** [a > 0] *)
Definition num_pos (a : num) : bool :=
  match a with
  | Int z => 0 <? z
  | Float x => PrimFloat.ltb 0 x
  end.

(** [round(a, 2)]: an [int] is returned as it is. *)
Definition num_round2 (a : num) : num :=
  match a with
  | Int z => Int z
  | Float x => Float (round_digits x 2)
  end.

(** ** Calendar dates (the [datetime] module) *)

(** A [date]: proleptic Gregorian year, month and day. *)
Record date : Type := Date { year : Z; month : Z; day : Z }.

Definition is_leap (y : Z) : bool :=
  (y mod 4 =? 0) && (negb (y mod 100 =? 0) || (y mod 400 =? 0)).

Definition days_in_month (y m : Z) : Z :=
  if m =? 2 then (if is_leap y then 29 else 28)
  else if (m =? 4) || (m =? 6) || (m =? 9) || (m =? 11) then 30
  else 31.

(** Days of a common year before the first of month [m]. *)
Definition days_before_month_common (m : Z) : Z :=
  match m with
  | 1 => 0 | 2 => 31 | 3 => 59 | 4 => 90 | 5 => 120 | 6 => 151
  | 7 => 181 | 8 => 212 | 9 => 243 | 10 => 273 | 11 => 304 | 12 => 334
  | _ => 365
  end.

Definition days_before_year (y : Z) : Z :=
  let p := y - 1 in p * 365 + p / 4 - p / 100 + p / 400.

Definition days_before_month (y m : Z) : Z :=
  days_before_month_common m + (if (2 <? m) && is_leap y then 1 else 0).

(** [date.toordinal()]: 0001-01-01 is day 1. *)
Definition ymd2ord (d : date) : Z :=
  days_before_year (year d) + days_before_month (year d) (month d) + day d.

(** [date.fromordinal(n)], the library's division by 400-, 100-, 4- and
    1-year cycles. *)
Definition ord2ymd (n : Z) : date :=
  let n := n - 1 in
  let n400 := n / 146097 in
  let n := n mod 146097 in
  let n100 := n / 36524 in
  let n := n mod 36524 in
  let n4 := n / 1461 in
  let n := n mod 1461 in
  let n1 := n / 365 in
  let n := n mod 365 in
  let y := n400 * 400 + 1 + n100 * 100 + n4 * 4 + n1 in
  if (n1 =? 4) || (n100 =? 4) then Date (y - 1) 12 31
  else
    let leapyear := (n1 =? 3) && (negb (n4 =? 24) || (n100 =? 3)) in
    let m := Z.shiftr (n + 50) 5 in
    let preceding :=
      days_before_month_common m + (if (2 <? m) && leapyear then 1 else 0) in
    if n <? preceding then
      let m' := m - 1 in
      let preceding' :=
        preceding
        - (days_in_month 1 m' + (if (m' =? 2) && leapyear then 1 else 0)) in
      Date y m' (n - preceding' + 1)
    else Date y m (n - preceding + 1).

(** [a <= b] on dates: by year, then month, then day. *)
Definition date_le (a b : date) : bool :=
  (year a <? year b)
  || ((year a =? year b)
      && ((month a <? month b)
          || ((month a =? month b) && (day a <=? day b)))).

(** [d.isoformat()] and [d.strftime('%Y-%m-%d')]: [YYYY-MM-DD], each field
    zero-filled. *)
Definition isoformat (d : date) : string :=
  zfill 4 (year d) +:+ "-" +:+ zfill 2 (month d) +:+ "-" +:+ zfill 2 (day d).

(** A point in time, in microseconds since 0001-01-01T00:00:00: what
    [datetime.now(timezone.utc)] (UTC) and [datetime.now()] (local wall
    clock) return. *)
Definition datetime : Type := Z.

Definition us_per_day : Z := 86400000000.

(** [t + timedelta(days=n)] *)
Definition add_days (t : datetime) (n : Z) : datetime := t + n * us_per_day.

(** [(a - b).days]: the whole days of the difference, rounded down. *)
Definition delta_days (a b : datetime) : Z := (a - b) / us_per_day.

(** [t.date()] *)
Definition date_of (t : datetime) : date := ord2ymd (t / us_per_day + 1).

(** [(a - b).days] on dates. *)
Definition date_diff_days (a b : date) : Z := ymd2ord a - ymd2ord b.

(** [t.isoformat()] for a time in UTC:
    [YYYY-MM-DDTHH:MM:SS+00:00], with [.ffffff] after the seconds when
    the microseconds are not zero. *)
Definition isoformat_utc (t : datetime) : string :=
  let us := t mod us_per_day in
  let secs := us / 1000000 in
  let frac := us mod 1000000 in
  isoformat (date_of t) +:+ "T" +:+ zfill 2 (secs / 3600) +:+ ":"
  +:+ zfill 2 (secs / 60 mod 60) +:+ ":" +:+ zfill 2 (secs mod 60)
  +:+ (if frac =? 0 then "" else "." +:+ zfill 6 frac) +:+ "+00:00".

(** *** [datetime.strptime(s, '%Y-%m-%d')] *)

Definition in_range (lo hi : Z) (o : option Z) : option Z :=
  match o with
  | Some v => if (lo <=? v) && (v <=? hi) then Some v else None
  | None => None
  end.

(** One alternative of a directive: two ASCII digits [a b] with [a] in
    [alo..ahi] and [b] in [blo..bhi]. *)
Definition two_digits (alo ahi blo bhi : Z) (s : string) : option (Z * string) :=
  match s with
  | String a (String b rest) =>
      match in_range alo ahi (digit_of a), in_range blo bhi (digit_of b) with
      | Some x, Some y => Some (10 * x + y, rest)
      | _, _ => None
      end
  | _ => None
  end.

(** An ASCII digit in [lo..hi] followed by any [\d]. *)
Definition digit_decimal (lo hi : Z) (s : string) : option (Z * string) :=
  match s with
  | String a rest =>
      match in_range lo hi (digit_of a), decimal rest with
      | Some x, Some (y, rest') => Some (10 * x + y, rest')
      | _, _ => None
      end
  | _ => None
  end.

Definition one_digit (lo hi : Z) (s : string) : option (Z * string) :=
  match s with
  | String a rest =>
      match in_range lo hi (digit_of a) with
      | Some x => Some (x, rest)
      | None => None
      end
  | _ => None
  end.

(** The first alternative of [alts] that matches and after which [k]
    matches: the regular expression's ordered choice with backtracking. *)
Fixpoint first_alt {A} (alts : list (string -> option (Z * string)))
    (k : Z -> string -> option A) (s : string) : option A :=
  match alts with
  | [] => None
  | p :: alts' =>
      match p s with
      | Some (v, rest) =>
          match k v rest with
          | Some r => Some r
          | None => first_alt alts' k s
          end
      | None => first_alt alts' k s
      end
  end.

(** [%Y] is [\d\d\d\d]: four decimal digits of any script, read as
    [int] reads them. *)
Definition directive_Y (s : string) : option (Z * string) :=
  match decimal s with
  | Some (w, s1) =>
      match decimal s1 with
      | Some (x, s2) =>
          match decimal s2 with
          | Some (y, s3) =>
              match decimal s3 with
              | Some (z, rest) => Some (1000 * w + 100 * x + 10 * y + z, rest)
              | None => None
              end
          | None => None
          end
      | None => None
      end
  | None => None
  end.

(** [%m] is [1[0-2]|0[1-9]|[1-9]]. *)
Definition directive_m : list (string -> option (Z * string)) :=
  [two_digits 1 1 0 2; two_digits 0 0 1 9; one_digit 1 9].

(** [%d] is [3[01]|[12]\d|0[1-9]|[1-9]| [1-9]]. *)
Definition directive_d : list (string -> option (Z * string)) :=
  [two_digits 3 3 0 1; digit_decimal 1 2; two_digits 0 0 1 9; one_digit 1 9;
   fun s => match s with
            | String " " rest => one_digit 1 9 rest
            | _ => None
            end].

Definition literal (c : ascii) (s : string) : option string :=
  match s with
  | String a rest => if Ascii.eqb a c then Some rest else None
  | _ => None
  end.

(** The text left over once the format has matched, with the three fields.
    The match need not reach the end of [s]. *)
Definition match_Ymd (s : string) : option (Z * Z * Z * string) :=
  match directive_Y s with
  | Some (y, s1) =>
      match literal "-" s1 with
      | Some s2 =>
          first_alt directive_m
            (fun m s3 =>
               match literal "-" s3 with
               | Some s4 =>
                   first_alt directive_d (fun d s5 => Some (y, m, d, s5)) s4
               | None => None
               end) s2
      | None => None
      end
  | None => None
  end.

(** [datetime.strptime(s, '%Y-%m-%d').date()]; [None] stands for the
    [ValueError] raised when [s] does not match the format, when text is
    left over, or when the fields are no date (year 0, 30 February). The
    ranges of the format ([[0-9]], [[1-2]]) take ASCII digits only; its
    [\d] takes the digits of every script. *)
Definition strptime_Ymd (s : string) : option date :=
  match match_Ymd s with
  | Some (y, m, d, EmptyString) =>
      if (1 <=? y) && (d <=? days_in_month y m) then Some (Date y m d)
      else None
  | _ => None
  end.

End Py.

(* ===================================================================== *)
(** * The AWS data model and the remote services *)
(* ===================================================================== *)

Module Aws.
Import Py.

(** ** Inventory records, as [boto3] returns them *)

(** [{'Key': k, 'Value': v}] *)
Record tag : Type := Tag { Key : string; Value : string }.

(** [{'Name': n, 'Values': vs}], a filter of a describe call. *)
Record filter : Type := Filter { Name : string; Values : list string }.

(** An EBS volume. [Attachments] lists the instances it is attached to;
    [VolumeTags] is [volume.get('Tags', [])]. *)
Record volume : Type := Volume {
  VolumeId : string;
  Size : Z;
  VolumeType : string;
  Attachments : list string;
  CreateTime : datetime;
  AvailabilityZone : string;
  VolumeTags : list tag
}.

(** An EBS snapshot. [Description] is [None] when the key is absent. *)
Record snapshot : Type := Snapshot {
  SnapshotId : string;
  VolumeSize : Z;
  StartTime : datetime;
  Description : option string;
  SnapshotTags : list tag
}.

(** An Elastic IP. [AssociationId] is [None] when the key is absent. *)
Record address : Type := Address {
  AllocationId : string;
  PublicIp : string;
  AssociationId : option string;
  AddressTags : list tag
}.

(** An EC2 instance. A block device mapping is [Some volume_id] when it
    has an ['Ebs'] entry; [StateTransitionReason] is [None] when absent. *)
Record instance : Type := Instance {
  InstanceId : string;
  InstanceType : string;
  BlockDeviceMappings : list (option string);
  StateTransitionReason : option string;
  InstanceTags : list tag
}.

(** ** The ledger store *)

(** An attribute of a DynamoDB item as the table resource reads and writes
    it: text, a number ([m * 10^e], a [Decimal] on reading; an [int] is
    written as [AttrN z 0]), a boolean, null, bytes (a [Binary]), a set of
    texts, of numbers or of bytes (a [set]), a list, or a map (a [dict],
    its entries in order). *)
#[warnings="-register-all"] Inductive attr : Type :=
| AttrS (s : string)
| AttrN (m e : Z)
| AttrBool (b : bool)
| AttrNull
| AttrB (b : string)
| AttrSS (ss : gset string)
| AttrNS (ns : gset (Z * Z))
| AttrBS (bs : gset string)
| AttrL (l : list attr)
| AttrM (m : list (string * attr)).

#[global] Instance attr_eq_dec : EqDecision attr.
Proof.
  refine
    (fix go (x y : attr) {struct x} : Decision (x = y) :=
       match x, y with
       | AttrS s1, AttrS s2 => cast_if (decide (s1 = s2))
       | AttrN m1 e1, AttrN m2 e2 =>
           cast_if_and (decide (m1 = m2)) (decide (e1 = e2))
       | AttrBool b1, AttrBool b2 => cast_if (decide (b1 = b2))
       | AttrNull, AttrNull => left _
       | AttrB b1, AttrB b2 => cast_if (decide (b1 = b2))
       | AttrSS s1, AttrSS s2 => cast_if (decide (s1 = s2))
       | AttrNS s1, AttrNS s2 => cast_if (decide (s1 = s2))
       | AttrBS s1, AttrBS s2 => cast_if (decide (s1 = s2))
       | AttrL l1, AttrL l2 => cast_if (@list_eq_dec _ go l1 l2)
       | AttrM m1, AttrM m2 =>
           cast_if (@list_eq_dec _ (@prod_eq_dec _ _ _ go) m1 m2)
       | _, _ => right _
       end); clear go; congruence.
Defined.

(** Whether [hash(v)] returns: a set, a list and a dict cannot be hashed,
    and so cannot be looked up in a dictionary. *)
Definition hashable (v : attr) : bool :=
  match v with
  | AttrSS _ | AttrNS _ | AttrBS _ | AttrL _ | AttrM _ => false
  | AttrS _ | AttrN _ _ | AttrBool _ | AttrNull | AttrB _ => true
  end.

(** ** Remote calls *)

(** Every request a handler sends, and every reading of the clock, in the
    order made. *)
Inductive call : Type :=
| NowUtc
| NowLocal
| DescribeVolumes (filters : list filter) (volume_ids : list string)
| DescribeSnapshots (owner_ids : list string) (filters : list filter)
| DescribeAddresses (filters : list filter)
| DescribeInstances (filters : list filter)
| CreateSnapshot (volume_id description : string) (tags : list tag)
| DeleteVolume (volume_id : string)
| DeleteSnapshot (snapshot_id : string)
| ReleaseAddress (allocation_id : string)
| CreateTags (resources : list string) (tags : list tag)
| PutItem (item : gmap string attr)
| Scan
| Publish (topic_arn subject message : string).

(** Requests that change the inventory or the ledger. *)
Definition mutating (c : call) : bool :=
  match c with
  | CreateSnapshot _ _ _ | DeleteVolume _ | DeleteSnapshot _
  | ReleaseAddress _ | CreateTags _ _ | PutItem _ => true
  | _ => false
  end.

(** The services as an oracle: the answer to a request may depend on
    everything requested before it (the history), so that failures and
    inventory changes between calls are all covered. A [Raise] is the
    exception the client library throws. *)
Record world : Type := World {
  now_utc : list call -> datetime;
  now_local : list call -> datetime;
  describe_volumes :
    list call -> list filter -> list string -> result (list volume);
  describe_snapshots :
    list call -> list string -> list filter -> result (list snapshot);
  describe_addresses : list call -> list filter -> result (list address);
  describe_instances :
    list call -> list filter -> result (list (list instance));
  create_snapshot :
    list call -> string -> string -> list tag -> result string;
  delete_volume : list call -> string -> result unit;
  delete_snapshot : list call -> string -> result unit;
  release_address : list call -> string -> result unit;
  create_tags : list call -> list string -> list tag -> result unit;
  put_item : list call -> gmap string attr -> result unit;
  scan : list call -> result (list (gmap string attr));
  publish : list call -> string -> string -> string -> result string
}.

(** ** Running a handler *)

(** What a run leaves behind: the requests sent and the lines printed. *)
Record state : Type := State { trace : list call; log : list string }.

Definition M (A : Type) : Type := state -> A * state.

Definition ret {A} (a : A) : M A := fun st => (a, st).

Definition bind {A B} (m : M A) (k : A -> M B) : M B :=
  fun st => let '(a, st') := m st in k a st'.

Declare Scope run_scope.
Delimit Scope run_scope with run.
Notation "'do' x <- m ; k" := (bind m (fun x => k))
  (at level 10, x name, m at level 100, k at level 200) : run_scope.
Notation "m ;; k" := (bind m (fun _ => k))
  (at level 100, k at level 200, right associativity) : run_scope.
Local Open Scope run_scope.

(** [print(line)] *)
Definition print (line : string) : M unit :=
  fun st => (tt, State (trace st) (log st ++ [line])).

(** Sends [c] and returns the oracle's answer to it. *)
Definition request {A} (answer : list call -> A) (c : call) : M A :=
  fun st => (answer (trace st), State (trace st ++ [c]) (log st)).

(** [for x in xs: acc = body(acc, x)] *)
Fixpoint for_each {A S} (xs : list A) (body : S -> A -> M S) (acc : S) : M S :=
  match xs with
  | [] => ret acc
  | x :: xs' => do acc' <- body acc x; for_each xs' body acc'
  end.

(** The same loop with a body that may raise: the first exception ends
    the loop and is passed on. *)
Fixpoint for_each_try {A S} (xs : list A) (body : S -> A -> M (result S))
    (acc : S) : M (result S) :=
  match xs with
  | [] => ret (Ok acc)
  | x :: xs' =>
      do r <- body acc x;
      match r with
      | Ok acc' => for_each_try xs' body acc'
      | Raise msg => ret (Raise msg)
      end
  end.

(** [try: x = m; k(x)] inside a [try] block: an exception raised by [m]
    skips [k] and is passed on to the handler. *)
Definition bind_try {A B} (m : M (result A)) (k : A -> M (result B)) : M (result B) :=
  do r <- m;
  match r with
  | Ok a => k a
  | Raise e => ret (Raise e)
  end.

Notation "'try' x <- m ; k" := (bind_try m (fun x => k))
  (at level 10, x name, m at level 100, k at level 200) : run_scope.

Definition run {A} (m : M A) : A * state := m (State [] []).

(** ** Configuration shared by the Finder and the Reaper *)

Definition SNS_TOPIC_ARN : string :=
  "arn:aws:sns:ap-south-1:574337396853:cost-alerts-topic".
Definition TAG_KEY : string := "CostOptimization".
Definition TAG_VALUE_PREFIX : string := "DeleteAfter-".

(** The price table both handlers carry, in dollars per GB-month. *)
Definition price_per_gb : gmap string float :=
  {[ "gp2" := 0.114%float; "gp3" := 0.091%float; "io1" := 0.143%float;
     "io2" := 0.143%float; "sc1" := 0.029%float; "st1" := 0.051%float;
     "standard" := 0.057%float ]}.

(** [size_gb * price_per_gb.get(volume_type, 0.10)] *)
Definition volume_cost (size_gb : Z) (volume_type : string) : float :=
  (float_of_int size_gb * default 0.10 (price_per_gb !! volume_type))%float.

(** ["=" * 60] *)
Definition rule : string := String.concat "" (repeat "=" 60).

End Aws.

(* ===================================================================== *)
(** * The Reaper: [resource_cleanup.py] *)
(* ===================================================================== *)

Module ResourceCleanup.
Import Py Aws.
Local Open Scope run_scope.

(** The configured toggle. The handlers below take it as [dry_run]. *)
Definition DRY_RUN : bool := false.

(** ** The run's results ([cleanup_results]) *)

(** An entry of [results['volumes_deleted']]. *)
Record deleted_volume : Type := DeletedVolume {
  dv_volume_id : string;
  dv_size_gb : Z;
  dv_volume_type : string;
  dv_monthly_savings : float;
  dv_snapshot_id : option string;
  dv_deleted_date : string
}.

(** An entry of [results['snapshots_deleted']]. *)
Record deleted_snapshot : Type := DeletedSnapshot {
  ds_snapshot_id : string;
  ds_size_gb : Z;
  ds_monthly_savings : float;
  ds_deleted_date : string
}.

(** An entry of [results['eips_released']]. *)
Record released_eip : Type := ReleasedEip {
  re_allocation_id : string;
  re_public_ip : string;
  re_monthly_savings : float;
  re_released_date : string
}.

(** An entry of [results['volumes_skipped']] or
    [results['snapshots_skipped']]: the volume or snapshot identifier and
    the reason. *)
Record skipped : Type := Skipped { skipped_id : string; reason : string }.

Record cleanup_results : Type := CleanupResults {
  volumes_deleted : list deleted_volume;
  snapshots_deleted : list deleted_snapshot;
  eips_released : list released_eip;
  volumes_skipped : list skipped;
  snapshots_skipped : list skipped;
  total_savings_monthly : float
}.

(** The dictionary [lambda_handler] starts from. *)
Definition empty_results : cleanup_results :=
  CleanupResults [] [] [] [] [] 0%float.

(** [results['volumes_skipped'].append({'volume_id': id, 'reason': why})] *)
Definition skip_volume (r : cleanup_results) (id why : string) : cleanup_results :=
  CleanupResults (volumes_deleted r) (snapshots_deleted r) (eips_released r)
    (volumes_skipped r ++ [Skipped id why]) (snapshots_skipped r)
    (total_savings_monthly r).

(** [results['snapshots_skipped'].append({'snapshot_id': id, 'reason': why})] *)
Definition skip_snapshot (r : cleanup_results) (id why : string) : cleanup_results :=
  CleanupResults (volumes_deleted r) (snapshots_deleted r) (eips_released r)
    (volumes_skipped r) (snapshots_skipped r ++ [Skipped id why])
    (total_savings_monthly r).

(** [results['volumes_deleted'].append(e)] and
    [results['total_savings_monthly'] += e['monthly_savings']] *)
Definition add_volume (r : cleanup_results) (e : deleted_volume) : cleanup_results :=
  CleanupResults (volumes_deleted r ++ [e]) (snapshots_deleted r)
    (eips_released r) (volumes_skipped r) (snapshots_skipped r)
    (total_savings_monthly r + dv_monthly_savings e)%float.

Definition add_snapshot (r : cleanup_results) (e : deleted_snapshot) : cleanup_results :=
  CleanupResults (volumes_deleted r) (snapshots_deleted r ++ [e])
    (eips_released r) (volumes_skipped r) (snapshots_skipped r)
    (total_savings_monthly r + ds_monthly_savings e)%float.

Definition add_eip (r : cleanup_results) (e : released_eip) : cleanup_results :=
  CleanupResults (volumes_deleted r) (snapshots_deleted r)
    (eips_released r ++ [e]) (volumes_skipped r) (snapshots_skipped r)
    (total_savings_monthly r + re_monthly_savings e)%float.

(** ** Reading the deadline tag *)

(** [Filters=[{'Name': f'tag:{TAG_KEY}', 'Values': [f'{TAG_VALUE_PREFIX}*']}]] *)
Definition tag_filter : list filter :=
  [Filter ("tag:" +:+ TAG_KEY) [TAG_VALUE_PREFIX +:+ "*"]].

(** [datetime.strptime(value.replace(TAG_VALUE_PREFIX, ''), '%Y-%m-%d').date()] *)
Definition parse_deadline (value : string) : option date :=
  strptime_Ymd (str_remove TAG_VALUE_PREFIX value).

(** One turn of the loop over the tags: a tag with the reserved key whose
    value parses replaces [delete_after_date]; any other tag leaves it. *)
Definition deadline_step (delete_after_date : option date) (t : tag) : option date :=
  if String.eqb (Key t) TAG_KEY then
    match parse_deadline (Value t) with
    | Some d => Some d
    | None => delete_after_date
    end
  else delete_after_date.

(** [delete_after_date] after the loop over the tags, as the snapshot and
    address scans compute it (an unparsable value is passed over in
    silence). *)
Definition deadline_of (tags : list tag) : option date :=
  fold_left deadline_step tags None.

(** ** The lines the scans print, one definition per [print] *)

Definition line_invalid_date (volume_id value : string) : string :=
  "⚠️  Invalid date format for " +:+ volume_id +:+ ": " +:+ value.

Definition line_volume_attached (volume_id : string) : string :=
  "⏭️  SKIPPED " +:+ volume_id +:+ ": Now attached to instance".

Definition line_snapshot_created (snapshot_id : string) : string :=
  "📸 Created safety snapshot: " +:+ snapshot_id.

Definition line_snapshot_error (volume_id e : string) : string :=
  "❌ ERROR creating snapshot for " +:+ volume_id +:+ ": " +:+ e.

(** ["{size_gb}GB {volume_type}) - ${monthly_cost:.2f}/month"] *)
Definition volume_summary (size_gb : Z) (volume_type : string) (monthly_cost : float) : string :=
  " (" +:+ str_int size_gb +:+ "GB " +:+ volume_type +:+ ") - $"
  +:+ format_2f monthly_cost +:+ "/month".

Definition line_volume_dry_run (volume_id : string) (size_gb : Z)
    (volume_type : string) (monthly_cost : float) : string :=
  "🧪 DRY RUN: Would delete " +:+ volume_id
  +:+ volume_summary size_gb volume_type monthly_cost.

Definition line_volume_deleted (volume_id : string) (size_gb : Z)
    (volume_type : string) (monthly_cost : float) : string :=
  "✅ DELETED " +:+ volume_id
  +:+ volume_summary size_gb volume_type monthly_cost +:+ " saved".

Definition line_volume_error (volume_id e : string) : string :=
  "❌ ERROR deleting " +:+ volume_id +:+ ": " +:+ e.

Definition line_grace_period (volume_id : string) (days_remaining : Z) : string :=
  "⏰ Grace period active for " +:+ volume_id +:+ ": "
  +:+ str_int days_remaining +:+ " days remaining".

Definition snapshot_summary (size_gb : Z) (monthly_cost : float) : string :=
  " (" +:+ str_int size_gb +:+ "GB) - $" +:+ format_2f monthly_cost +:+ "/month".

Definition line_snapshot_dry_run (snapshot_id : string) (size_gb : Z)
    (monthly_cost : float) : string :=
  "🧪 DRY RUN: Would delete snapshot " +:+ snapshot_id
  +:+ snapshot_summary size_gb monthly_cost.

Definition line_snapshot_deleted (snapshot_id : string) (size_gb : Z)
    (monthly_cost : float) : string :=
  "✅ DELETED snapshot " +:+ snapshot_id
  +:+ snapshot_summary size_gb monthly_cost +:+ " saved".

Definition line_snapshot_delete_error (snapshot_id e : string) : string :=
  "❌ ERROR deleting snapshot " +:+ snapshot_id +:+ ": " +:+ e.

(** [0.005 * 24 * 30] *)
Definition eip_monthly_cost : float := (0.005 * 24 * 30)%float.

Definition eip_summary (public_ip allocation_id : string) : string :=
  public_ip +:+ " (" +:+ allocation_id +:+ ") - $"
  +:+ format_2f eip_monthly_cost +:+ "/month".

Definition line_eip_associated (allocation_id public_ip : string) : string :=
  "⏭️  SKIPPED " +:+ allocation_id +:+ " (" +:+ public_ip
  +:+ "): Now associated with instance".

Definition line_eip_dry_run (public_ip allocation_id : string) : string :=
  "🧪 DRY RUN: Would release EIP " +:+ eip_summary public_ip allocation_id.

Definition line_eip_released (public_ip allocation_id : string) : string :=
  "✅ RELEASED EIP " +:+ eip_summary public_ip allocation_id +:+ " saved".

Definition line_eip_error (allocation_id e : string) : string :=
  "❌ ERROR releasing EIP " +:+ allocation_id +:+ ": " +:+ e.

(** The same loop in the volume scan, which prints a warning for a value
    that does not parse. *)
Definition volume_deadline (volume_id : string) (tags : list tag) : M (option date) :=
  for_each tags
    (fun delete_after_date t =>
       if String.eqb (Key t) TAG_KEY then
         match parse_deadline (Value t) with
         | Some d => ret (Some d)
         | None =>
             print (line_invalid_date volume_id (Value t)) ;;
             ret delete_after_date
         end
       else ret delete_after_date)
    None.

Section Handlers.

Variable w : world.
Variable dry_run : bool.

(** ** [cleanup_expired_volumes] *)

Definition snapshot_description (volume_id : string) : string :=
  "Pre-deletion snapshot of " +:+ volume_id +:+ " by automated cleanup".

Definition snapshot_tags (volume_id : string) (today : date) : list tag :=
  [Tag "Name" ("AutoCleanup-" +:+ volume_id);
   Tag "OriginalVolumeId" volume_id;
   Tag "AutomatedBy" "ResourceCleanup";
   Tag "CreatedDate" (isoformat today)].

(** The safety snapshot: [Ok None] in a dry run (no call), [Ok (Some id)]
    when the snapshot was created, [Raise e] when the call failed. *)
Definition safety_snapshot (volume_id : string) (today : date) : M (result (option string)) :=
  if dry_run then ret (Ok None)
  else
    let description := snapshot_description volume_id in
    let tags := snapshot_tags volume_id today in
    do r <- request (fun h => create_snapshot w h volume_id description tags)
              (CreateSnapshot volume_id description tags);
    match r with
    | Ok snapshot_id =>
        print (line_snapshot_created snapshot_id) ;;
        ret (Ok (Some snapshot_id))
    | Raise e =>
        print (line_snapshot_error volume_id e) ;;
        ret (Raise e)
    end.

(** The body of the loop over [response['Volumes']]. *)
Definition cleanup_volume (today : date) (results : cleanup_results) (v : volume) : M cleanup_results :=
  let volume_id := VolumeId v in
  let size_gb := Size v in
  let volume_type := VolumeType v in
  do delete_after_date <- volume_deadline volume_id (VolumeTags v);
  match delete_after_date with
  | None => ret results
  | Some delete_after_date =>
      if date_le delete_after_date today then
        let monthly_cost := volume_cost size_gb volume_type in
        if (0 <? length (Attachments v))%nat then
          print (line_volume_attached volume_id) ;;
          ret (skip_volume results volume_id "attached_to_instance")
        else
          do snap <- safety_snapshot volume_id today;
          match snap with
          | Raise e => ret (skip_volume results volume_id ("snapshot_failed: " +:+ e))
          | Ok snapshot_id =>
              if dry_run then
                print (line_volume_dry_run volume_id size_gb volume_type monthly_cost) ;;
                ret results
              else
                do r <- request (fun h => delete_volume w h volume_id)
                          (DeleteVolume volume_id);
                match r with
                | Ok _ =>
                    print (line_volume_deleted volume_id size_gb volume_type
                             monthly_cost) ;;
                    ret (add_volume results
                           (DeletedVolume volume_id size_gb volume_type
                              monthly_cost snapshot_id (isoformat today)))
                | Raise e =>
                    print (line_volume_error volume_id e) ;;
                    ret (skip_volume results volume_id ("deletion_failed: " +:+ e))
                end
          end
      else
        print (line_grace_period volume_id
                 (date_diff_days delete_after_date today)) ;;
        ret results
  end.

Definition cleanup_expired_volumes (results : cleanup_results) : M cleanup_results :=
  print (nl +:+ "--- SCANNING VOLUMES ---") ;;
  do response <- request (fun h => describe_volumes w h tag_filter [])
                   (DescribeVolumes tag_filter []);
  match response with
  | Ok volumes =>
      do now <- request (now_utc w) NowUtc;
      let today := date_of now in
      do results <- for_each volumes (cleanup_volume today) results;
      print (nl +:+ "Volumes deleted: " +:+ str_len (volumes_deleted results)) ;;
      print ("Volumes skipped: " +:+ str_len (volumes_skipped results)) ;;
      ret results
  | Raise e =>
      print ("ERROR in volume cleanup: " +:+ e) ;;
      ret results
  end.

(** ** [cleanup_expired_snapshots] *)

(** The body of the loop over [response['Snapshots']]. *)
Definition cleanup_snapshot (today : date) (results : cleanup_results) (s : snapshot) : M cleanup_results :=
  let snapshot_id := SnapshotId s in
  let size_gb := VolumeSize s in
  match deadline_of (SnapshotTags s) with
  | None => ret results
  | Some delete_after_date =>
      if date_le delete_after_date today then
        let monthly_cost := (float_of_int size_gb * 0.057)%float in
        if dry_run then
          print (line_snapshot_dry_run snapshot_id size_gb monthly_cost) ;;
          ret results
        else
          do r <- request (fun h => delete_snapshot w h snapshot_id)
                    (DeleteSnapshot snapshot_id);
          match r with
          | Ok _ =>
              print (line_snapshot_deleted snapshot_id size_gb monthly_cost) ;;
              ret (add_snapshot results
                     (DeletedSnapshot snapshot_id size_gb monthly_cost
                        (isoformat today)))
          | Raise e =>
              print (line_snapshot_delete_error snapshot_id e) ;;
              ret (skip_snapshot results snapshot_id e)
          end
      else ret results
  end.

Definition cleanup_expired_snapshots (results : cleanup_results) : M cleanup_results :=
  print (nl +:+ "--- SCANNING SNAPSHOTS ---") ;;
  do response <- request (fun h => describe_snapshots w h ["self"] tag_filter)
                   (DescribeSnapshots ["self"] tag_filter);
  match response with
  | Ok snapshots =>
      do now <- request (now_utc w) NowUtc;
      let today := date_of now in
      do results <- for_each snapshots (cleanup_snapshot today) results;
      print (nl +:+ "Snapshots deleted: " +:+ str_len (snapshots_deleted results)) ;;
      ret results
  | Raise e =>
      print ("ERROR in snapshot cleanup: " +:+ e) ;;
      ret results
  end.

(** ** [cleanup_expired_eips] *)

(** The body of the loop over [response['Addresses']]. *)
Definition cleanup_eip (today : date) (results : cleanup_results) (a : address) : M cleanup_results :=
  let allocation_id := AllocationId a in
  let public_ip := PublicIp a in
  match deadline_of (AddressTags a) with
  | None => ret results
  | Some delete_after_date =>
      if date_le delete_after_date today then
        match AssociationId a with
        | Some _ =>
            print (line_eip_associated allocation_id public_ip) ;;
            ret results
        | None =>
            if dry_run then
              print (line_eip_dry_run public_ip allocation_id) ;;
              ret results
            else
              do r <- request (fun h => release_address w h allocation_id)
                        (ReleaseAddress allocation_id);
              match r with
              | Ok _ =>
                  print (line_eip_released public_ip allocation_id) ;;
                  ret (add_eip results
                         (ReleasedEip allocation_id public_ip eip_monthly_cost
                            (isoformat today)))
              | Raise e =>
                  print (line_eip_error allocation_id e) ;;
                  ret results
              end
        end
      else ret results
  end.

Definition cleanup_expired_eips (results : cleanup_results) : M cleanup_results :=
  print (nl +:+ "--- SCANNING ELASTIC IPs ---") ;;
  do response <- request (fun h => describe_addresses w h tag_filter)
                   (DescribeAddresses tag_filter);
  match response with
  | Ok addresses =>
      do now <- request (now_utc w) NowUtc;
      let today := date_of now in
      do results <- for_each addresses (cleanup_eip today) results;
      print (nl +:+ "Elastic IPs released: " +:+ str_len (eips_released results)) ;;
      ret results
  | Raise e =>
      print ("ERROR in EIP cleanup: " +:+ e) ;;
      ret results
  end.

(** ** [log_deletions_to_dynamodb] *)

(** The ledger entry of a deleted volume. *)
Definition volume_item (v : deleted_volume) : gmap string attr :=
  {[ "deletion_id" :=
       AttrS ("volume-" +:+ dv_volume_id v +:+ "-" +:+ dv_deleted_date v);
     "deleted_date" := AttrS (dv_deleted_date v);
     "resource_type" := AttrS "ebs_volume";
     "resource_id" := AttrS (dv_volume_id v);
     "size_gb" := AttrN (dv_size_gb v) 0;
     "volume_type" := AttrS (dv_volume_type v);
     "monthly_savings" := AttrS (str_float (dv_monthly_savings v));
     "snapshot_id" :=
       match dv_snapshot_id v with Some id => AttrS id | None => AttrNull end ]}.

(** The ledger entry of a deleted snapshot. *)
Definition snapshot_item (s : deleted_snapshot) : gmap string attr :=
  {[ "deletion_id" :=
       AttrS ("snapshot-" +:+ ds_snapshot_id s +:+ "-" +:+ ds_deleted_date s);
     "deleted_date" := AttrS (ds_deleted_date s);
     "resource_type" := AttrS "snapshot";
     "resource_id" := AttrS (ds_snapshot_id s);
     "size_gb" := AttrN (ds_size_gb s) 0;
     "monthly_savings" := AttrS (str_float (ds_monthly_savings s)) ]}.

(** The ledger entry of a released address. *)
Definition eip_item (e : released_eip) : gmap string attr :=
  {[ "deletion_id" :=
       AttrS ("eip-" +:+ re_allocation_id e +:+ "-" +:+ re_released_date e);
     "deleted_date" := AttrS (re_released_date e);
     "resource_type" := AttrS "elastic_ip";
     "resource_id" := AttrS (re_allocation_id e);
     "public_ip" := AttrS (re_public_ip e);
     "monthly_savings" := AttrS (str_float (re_monthly_savings e)) ]}.

(** [for x in xs: table.put_item(Item=to_item(x))]; a failed put raises. *)
Definition put_all {A} (to_item : A -> gmap string attr) (xs : list A) : M (result unit) :=
  for_each_try xs
    (fun _ x => request (fun h => put_item w h (to_item x)) (PutItem (to_item x)))
    tt.

(** The number of deletions of a run. *)
Definition total_deleted (results : cleanup_results) : nat :=
  length (volumes_deleted results) + length (snapshots_deleted results)
  + length (eips_released results).

Definition log_deletions_to_dynamodb (results : cleanup_results) : M unit :=
  do r <- (try _ <- put_all volume_item (volumes_deleted results);
           try _ <- put_all snapshot_item (snapshots_deleted results);
           put_all eip_item (eips_released results));
  match r with
  | Ok _ =>
      print (nl +:+ "✓ Logged " +:+ str_N (N.of_nat (total_deleted results))
             +:+ " deletions to DynamoDB")
  | Raise e => print (nl +:+ "ERROR logging to DynamoDB: " +:+ e)
  end.

(** ** [send_cleanup_report] *)

(** The text of the notification. *)
Definition cleanup_message (results : cleanup_results) : string :=
  let total_savings := total_savings_monthly results in
  if (total_deleted results =? 0)%nat then
    "AWS Cleanup: No expired resources found. All tagged resources still in grace period."
  else
    "AWS Cleanup: Deleted " +:+ str_N (N.of_nat (total_deleted results))
    +:+ " expired resources. "
    +:+ "Savings: $" +:+ format_2f total_savings +:+ "/mo ($"
    +:+ format_2f (total_savings * 12)%float +:+ "/yr). "
    +:+ (match volumes_deleted results with
         | [] => ""
         | _ => str_len (volumes_deleted results) +:+ " volumes. "
         end)
    +:+ (match snapshots_deleted results with
         | [] => ""
         | _ => str_len (snapshots_deleted results) +:+ " snapshots. "
         end)
    +:+ (match eips_released results with
         | [] => ""
         | _ => str_len (eips_released results) +:+ " IPs. "
         end)
    +:+ "Safety snapshots created. Check CloudWatch for details.".

Definition cleanup_subject (results : cleanup_results) : string :=
  "Cleanup: $" +:+ format_2f (total_savings_monthly results) +:+ "/mo saved".

Definition send_cleanup_report (results : cleanup_results) : M unit :=
  let total_savings := total_savings_monthly results in
  print (nl +:+ rule) ;;
  print "CLEANUP REPORT" ;;
  print rule ;;
  print ("Total Resources Deleted: " +:+ str_N (N.of_nat (total_deleted results))) ;;
  print ("Monthly Savings: $" +:+ format_2f total_savings) ;;
  print ("Annual Savings: $" +:+ format_2f (total_savings * 12)%float) ;;
  print (nl +:+ "Breakdown:") ;;
  print ("  Volumes deleted: " +:+ str_len (volumes_deleted results)) ;;
  print ("  Snapshots deleted: " +:+ str_len (snapshots_deleted results)) ;;
  print ("  Elastic IPs released: " +:+ str_len (eips_released results)) ;;
  print ("  Volumes skipped: " +:+ str_len (volumes_skipped results)) ;;
  print rule ;;
  let subject := cleanup_subject results in
  let message := cleanup_message results in
  do r <- request (fun h => publish w h SNS_TOPIC_ARN subject message)
            (Publish SNS_TOPIC_ARN subject message);
  match r with
  | Ok message_id => print (nl +:+ "✓ SMS sent. MessageId: " +:+ message_id)
  | Raise e => print (nl +:+ "ERROR sending SNS: " +:+ e)
  end.

(** ** [lambda_handler] *)

(** What the handler returns: the status code and the fields of the JSON
    body. *)
Record response : Type := Response {
  statusCode : Z;
  message : string;
  deleted_count : nat;
  savings : float
}.

(** The handler up to its [return]: the value is the [cleanup_results]
    dictionary at that point. *)
Definition cleanup_run : M cleanup_results :=
  print rule ;;
  print "STARTING RESOURCE CLEANUP SCAN" ;;
  do now <- request (now_utc w) NowUtc;
  print ("Timestamp: " +:+ isoformat_utc now) ;;
  print ("DRY RUN MODE: " +:+ str_bool dry_run) ;;
  print rule ;;
  do results <- cleanup_expired_volumes empty_results;
  do results <- cleanup_expired_snapshots results;
  do results <- cleanup_expired_eips results;
  log_deletions_to_dynamodb results ;;
  send_cleanup_report results ;;
  print rule ;;
  print "CLEANUP COMPLETE" ;;
  print rule ;;
  ret results.

Definition lambda_handler : M response :=
  do results <- cleanup_run;
  ret (Response 200 "Cleanup complete" (total_deleted results)
         (total_savings_monthly results)).

End Handlers.

End ResourceCleanup.

(* ===================================================================== *)
(** * The Finder: [cost_analyzer.py] *)
(* ===================================================================== *)

Module CostAnalyzer.
Import Py Aws.
Local Open Scope run_scope.

Definition GRACE_PERIOD_DAYS : Z := 7.
Definition SNAPSHOT_AGE_THRESHOLD_DAYS : Z := 90.

(** ** Findings *)

(** An entry of [findings['unattached_volumes']]. *)
Record volume_finding : Type := VolumeFinding {
  vf_resource_type : string;
  vf_resource_id : string;
  vf_volume_id : string;
  vf_size_gb : Z;
  vf_volume_type : string;
  vf_monthly_cost : float;
  vf_create_time : string;
  vf_availability_zone : string;
  vf_tags : list tag
}.

(** An entry of a stopped instance's [volumes] list. *)
Record volume_detail : Type := VolumeDetail {
  vd_volume_id : string;
  vd_size_gb : Z;
  vd_type : string
}.

(** An entry of [findings['stopped_instances_with_volumes']]. *)
Record instance_finding : Type := InstanceFinding {
  if_resource_type : string;
  if_resource_id : string;
  if_instance_id : string;
  if_instance_name : string;
  if_instance_type : string;
  if_monthly_cost : num;
  if_volumes : list volume_detail;
  if_state_transition : string;
  if_tags : list tag
}.

(** An entry of [findings['old_snapshots']]. *)
Record snapshot_finding : Type := SnapshotFinding {
  sf_resource_type : string;
  sf_resource_id : string;
  sf_snapshot_id : string;
  sf_size_gb : Z;
  sf_monthly_cost : float;
  sf_age_days : Z;
  sf_start_time : string;
  sf_description : string;
  sf_tags : list tag
}.

(** An entry of [findings['idle_elastic_ips']]. *)
Record eip_finding : Type := EipFinding {
  ef_resource_type : string;
  ef_resource_id : string;
  ef_allocation_id : string;
  ef_public_ip : string;
  ef_monthly_cost : float;
  ef_tags : list tag
}.

Record findings : Type := Findings {
  unattached_volumes : list volume_finding;
  stopped_instances_with_volumes : list instance_finding;
  old_snapshots : list snapshot_finding;
  idle_elastic_ips : list eip_finding;
  total_waste_monthly : float
}.

Section Handlers.

Variable w : world.

(** ** [find_unattached_volumes] *)

(** The finding of an unattached volume. *)
Definition unattached_finding (v : volume) : volume_finding :=
  VolumeFinding "ebs_volume" (VolumeId v) (VolumeId v) (Size v) (VolumeType v)
    (round_digits (volume_cost (Size v) (VolumeType v)) 2)
    (isoformat_utc (CreateTime v)) (AvailabilityZone v) (VolumeTags v).

Definition find_unattached_volumes : M (list volume_finding) :=
  do response <- request (fun h => describe_volumes w h [] [])
                   (DescribeVolumes [] []);
  match response with
  | Ok volumes =>
      do unattached <-
        for_each volumes
          (fun unattached v =>
             if (length (Attachments v) =? 0)%nat then
               print ("✓ Unattached volume: " +:+ VolumeId v +:+ " ("
                      +:+ str_int (Size v) +:+ "GB " +:+ VolumeType v +:+ ") - $"
                      +:+ format_2f (volume_cost (Size v) (VolumeType v))
                      +:+ "/month") ;;
               ret (unattached ++ [unattached_finding v])
             else ret unattached)
          [];
      print (nl +:+ "Total unattached volumes: " +:+ str_len unattached) ;;
      ret unattached
  | Raise e =>
      print ("ERROR finding unattached volumes: " +:+ e) ;;
      ret []
  end.

(** ** [find_stopped_instances_with_volumes] *)

(** [f"{x:.2f}"] for a number that may still be the [int] it started as. *)
Definition format_2f_num (a : num) : string := format_2f (to_float a).

(** The loop over an instance's block device mappings: each EBS volume is
    looked up and, when found, added to the cost and to the details. *)
Definition instance_volumes (i : instance) : M (result (num * list volume_detail)) :=
  for_each_try (BlockDeviceMappings i)
    (fun acc bdm =>
       let '(total_ebs_cost, volume_details) := acc in
       match bdm with
       | Some volume_id =>
           try vols <- request (fun h => describe_volumes w h [] [volume_id])
                         (DescribeVolumes [] [volume_id]);
           match vols with
           | vol :: _ =>
               ret (Ok (num_add total_ebs_cost
                          (Float (volume_cost (Size vol) (VolumeType vol))),
                        volume_details
                        ++ [VolumeDetail volume_id (Size vol) (VolumeType vol)]))
           | [] => ret (Ok acc)
           end
       | None => ret (Ok acc)
       end)
    (Int 0, []).

(** The first ['Name'] tag, or ['unnamed']. *)
Fixpoint instance_name (tags : list tag) : string :=
  match tags with
  | [] => "unnamed"
  | t :: tags' => if String.eqb (Key t) "Name" then Value t else instance_name tags'
  end.

(** The body of the loop over the instances of a reservation. *)
Definition stopped_instance (found : list instance_finding) (i : instance) : M (result (list instance_finding)) :=
  try cv <- instance_volumes i;
  let '(total_ebs_cost, volume_details) := cv in
  if num_pos total_ebs_cost then
    print ("✓ Stopped instance: " +:+ InstanceId i +:+ " ("
           +:+ instance_name (InstanceTags i) +:+ ") with "
           +:+ str_len volume_details +:+ " volumes - $"
           +:+ format_2f_num total_ebs_cost +:+ "/month in EBS costs") ;;
    ret (Ok (found
             ++ [InstanceFinding "stopped_instance" (InstanceId i) (InstanceId i)
                   (instance_name (InstanceTags i)) (InstanceType i)
                   (num_round2 total_ebs_cost) volume_details
                   (default "" (StateTransitionReason i)) (InstanceTags i)]))
  else ret (Ok found).

Definition find_stopped_instances_with_volumes : M (list instance_finding) :=
  let filters := [Filter "instance-state-name" ["stopped"]] in
  do r <- (try reservations <- request (fun h => describe_instances w h filters)
                                 (DescribeInstances filters);
           for_each_try reservations
             (fun found reservation => for_each_try reservation stopped_instance found)
             []);
  match r with
  | Ok stopped_with_volumes =>
      print (nl +:+ "Total stopped instances with volumes: "
             +:+ str_len stopped_with_volumes) ;;
      ret stopped_with_volumes
  | Raise e =>
      print ("ERROR finding stopped instances: " +:+ e) ;;
      ret []
  end.

(** ** [find_old_snapshots] *)

(** The finding of an old snapshot, [now] being the time read for its age. *)
Definition old_snapshot_finding (now : datetime) (s : snapshot) : snapshot_finding :=
  SnapshotFinding "snapshot" (SnapshotId s) (SnapshotId s) (VolumeSize s)
    (round_digits (float_of_int (VolumeSize s) * 0.057)%float 2)
    (delta_days now (StartTime s))
    (isoformat_utc (StartTime s))
    (default "No description" (Description s)) (SnapshotTags s).

Definition find_old_snapshots : M (list snapshot_finding) :=
  do response <- request (fun h => describe_snapshots w h ["self"] [])
                   (DescribeSnapshots ["self"] []);
  match response with
  | Ok snapshots =>
      do now <- request (now_utc w) NowUtc;
      let threshold_date := add_days now (- SNAPSHOT_AGE_THRESHOLD_DAYS) in
      do old <-
        for_each snapshots
          (fun old s =>
             if StartTime s <? threshold_date then
               do now' <- request (now_utc w) NowUtc;
               let f := old_snapshot_finding now' s in
               print ("✓ Old snapshot: " +:+ SnapshotId s +:+ " ("
                      +:+ str_int (sf_age_days f) +:+ " days old, "
                      +:+ str_int (VolumeSize s) +:+ "GB) - $"
                      +:+ format_2f (float_of_int (VolumeSize s) * 0.057)%float
                      +:+ "/month") ;;
               ret (old ++ [f])
             else ret old)
          [];
      print (nl +:+ "Total old snapshots (>" +:+ str_int SNAPSHOT_AGE_THRESHOLD_DAYS
             +:+ " days): " +:+ str_len old) ;;
      ret old
  | Raise e =>
      print ("ERROR finding old snapshots: " +:+ e) ;;
      ret []
  end.

(** ** [find_idle_elastic_ips] *)

(** [0.005 * 24 * 30] *)
Definition eip_monthly_cost : float := (0.005 * 24 * 30)%float.

Definition idle_finding (a : address) : eip_finding :=
  EipFinding "elastic_ip" (AllocationId a) (AllocationId a) (PublicIp a)
    (round_digits eip_monthly_cost 2) (AddressTags a).

Definition find_idle_elastic_ips : M (list eip_finding) :=
  do response <- request (fun h => describe_addresses w h [])
                   (DescribeAddresses []);
  match response with
  | Ok addresses =>
      do idle <-
        for_each addresses
          (fun idle a =>
             match AssociationId a with
             | None =>
                 print ("✓ Idle Elastic IP: " +:+ PublicIp a +:+ " ("
                        +:+ AllocationId a +:+ ") - $"
                        +:+ format_2f eip_monthly_cost +:+ "/month") ;;
                 ret (idle ++ [idle_finding a])
             | Some _ => ret idle
             end)
          [];
      print (nl +:+ "Total idle Elastic IPs: " +:+ str_len idle) ;;
      ret idle
  | Raise e =>
      print ("ERROR finding idle Elastic IPs: " +:+ e) ;;
      ret []
  end.

(** ** [tag_resources_for_deletion] *)

(** [d.strftime('%Y-%m-%d')] on a [datetime], as the C library of the
    Lambda runtime formats it: [%Y] is the year as it is, with no zero fill
    (four digits from the year 1000 on), [%m] and [%d] are zero-filled. *)
Definition strftime_Ymd (t : datetime) : string :=
  let d := date_of t in
  str_int (year d) +:+ "-" +:+ zfill 2 (month d) +:+ "-" +:+ zfill 2 (day d).

(** [f"{TAG_VALUE_PREFIX}{delete_after_date.strftime('%Y-%m-%d')}"] for
    the local time [now] read at the start of the tagging. *)
Definition deadline_tag_value (now : datetime) : string :=
  TAG_VALUE_PREFIX +:+ strftime_Ymd (add_days now GRACE_PERIOD_DAYS).

(** The three tags of a [create_tags] call; [found] is the local time read
    for the found-on date. *)
Definition deletion_tags (tag_value : string) (found : datetime) : list tag :=
  [Tag TAG_KEY tag_value;
   Tag "AutomatedBy" "CostAnalyzer";
   Tag "FoundDate" (strftime_Ymd found)].

Definition tag_resources_for_deletion (f : findings) : M unit :=
  do now <- request (now_local w) NowLocal;
  let delete_after_date := add_days now GRACE_PERIOD_DAYS in
  let tag_value := TAG_VALUE_PREFIX +:+ strftime_Ymd delete_after_date in
  let resources_to_tag :=
    map vf_volume_id (unattached_volumes f) ++ map sf_snapshot_id (old_snapshots f) in
  (match resources_to_tag with
   | [] => ret tt
   | _ =>
       do found <- request (now_local w) NowLocal;
       let tags := deletion_tags tag_value found in
       do r <- request (fun h => create_tags w h resources_to_tag tags)
                 (CreateTags resources_to_tag tags);
       match r with
       | Ok _ =>
           print (nl +:+ "✓ Tagged " +:+ str_len resources_to_tag
                  +:+ " resources for deletion on " +:+ strftime_Ymd delete_after_date)
       | Raise e => print ("ERROR tagging resources: " +:+ e)
       end
   end) ;;
  for_each (idle_elastic_ips f)
    (fun _ eip =>
       do found <- request (now_local w) NowLocal;
       let tags := deletion_tags tag_value found in
       do r <- request (fun h => create_tags w h [ef_allocation_id eip] tags)
                 (CreateTags [ef_allocation_id eip] tags);
       match r with
       | Ok _ => ret tt
       | Raise e => print ("ERROR tagging EIP " +:+ ef_allocation_id eip +:+ ": " +:+ e)
       end)
    tt.

(** ** [send_cost_report] *)

(** [total_issues]: the number of findings of the four kinds. *)
Definition total_issues (f : findings) : nat :=
  length (unattached_volumes f) + length (stopped_instances_with_volumes f)
  + length (old_snapshots f) + length (idle_elastic_ips f).

(** [f"{n} <what>. "] when [n > 0], nothing otherwise. *)
Definition count_phrase (n : nat) (what : string) : string :=
  if (0 <? n)%nat then str_N (N.of_nat n) +:+ what else "".

(** The text of the notification. *)
Definition cost_message (f : findings) : string :=
  let total_waste := total_waste_monthly f in
  if (total_issues f =? 0)%nat then
    "AWS Cost Alert: No waste found. All resources optimized."
  else
    "AWS Cost Alert: " +:+ str_N (N.of_nat (total_issues f)) +:+ " issues found. "
    +:+ "Savings: $" +:+ format_2f total_waste +:+ "/mo ($"
    +:+ format_2f (total_waste * 12)%float +:+ "/yr). "
    +:+ count_phrase (length (unattached_volumes f)) " unattached volumes. "
    +:+ count_phrase (length (stopped_instances_with_volumes f)) " stopped instances. "
    +:+ count_phrase (length (old_snapshots f)) " old snapshots. "
    +:+ count_phrase (length (idle_elastic_ips f)) " idle IPs. "
    +:+ "Tagged for 7-day review.".

Definition cost_subject (f : findings) : string :=
  "Cost Alert: $" +:+ format_2f (total_waste_monthly f) +:+ "/mo".

Definition send_cost_report (f : findings) : M unit :=
  let total_waste := total_waste_monthly f in
  print (nl +:+ rule) ;;
  print "COST ANALYSIS REPORT" ;;
  print rule ;;
  print ("Total Monthly Waste: $" +:+ format_2f total_waste) ;;
  print ("Annual Waste: $" +:+ format_2f (total_waste * 12)%float) ;;
  print (nl +:+ "Breakdown:") ;;
  print ("  Unattached EBS Volumes: " +:+ str_len (unattached_volumes f)) ;;
  print ("  Stopped Instances (EBS cost): "
         +:+ str_len (stopped_instances_with_volumes f)) ;;
  print ("  Old Snapshots (>90 days): " +:+ str_len (old_snapshots f)) ;;
  print ("  Idle Elastic IPs: " +:+ str_len (idle_elastic_ips f)) ;;
  print rule ;;
  let subject := cost_subject f in
  let message := cost_message f in
  do r <- request (fun h => publish w h SNS_TOPIC_ARN subject message)
            (Publish SNS_TOPIC_ARN subject message);
  match r with
  | Ok message_id =>
      print (nl +:+ "✓ SMS sent. MessageId: " +:+ message_id) ;;
      print ("Message length: " +:+ str_N (N.of_nat (String.length message))
             +:+ " chars")
  | Raise e => print (nl +:+ "ERROR sending SNS: " +:+ e)
  end.

(** ** [lambda_handler] *)

(** [findings['total_waste_monthly']] after the four summing loops. *)
Definition total_waste (vols : list volume_finding) (insts : list instance_finding)
    (snaps : list snapshot_finding) (eips : list eip_finding) : float :=
  let t := fold_left (fun t v => (t + vf_monthly_cost v)%float) vols 0%float in
  let t := fold_left (fun t i => (t + to_float (if_monthly_cost i))%float) insts t in
  let t := fold_left (fun t s => (t + sf_monthly_cost s)%float) snaps t in
  fold_left (fun t e => (t + ef_monthly_cost e)%float) eips t.

(** What the handler returns: the status code and the fields of the JSON
    body. *)
Record response : Type := Response {
  statusCode : Z;
  message : string;
  body_total_waste : float;
  findings_count : nat
}.

(** The handler up to the tagging: the value is the [findings] dictionary
    with its total. *)
Definition analysis : M findings :=
  print rule ;;
  print "STARTING COST ANALYSIS SCAN" ;;
  do now <- request (now_utc w) NowUtc;
  print ("Timestamp: " +:+ isoformat_utc now) ;;
  print rule ;;
  do vols <- find_unattached_volumes;
  do insts <- find_stopped_instances_with_volumes;
  do snaps <- find_old_snapshots;
  do eips <- find_idle_elastic_ips;
  ret (Findings vols insts snaps eips (total_waste vols insts snaps eips)).

Definition lambda_handler : M response :=
  do f <- analysis;
  tag_resources_for_deletion f ;;
  send_cost_report f ;;
  print rule ;;
  print "COST ANALYSIS COMPLETE" ;;
  print rule ;;
  ret (Response 200 "Cost analysis complete" (total_waste_monthly f) (total_issues f)).

End Handlers.

End CostAnalyzer.

(* ===================================================================== *)
(** * The ledger Aggregator: [cost_savings_query.py] *)
(* ===================================================================== *)

Module CostSavingsQuery.
Import Py Aws.
Local Open Scope run_scope.

(** The exception that ends a query with status 500, by kind; the text
    [str(e)] of the body is kept only for a failed scan. *)
Inductive error : Type :=
| ScanError (msg : string)
| ValueError
| TypeError
| KeyError (key : string).

(** [float(v)] on an attribute value: text is parsed, a number and a
    boolean are converted, anything else is a [TypeError]. *)
Definition float_of_attr (v : attr) : error + float :=
  match v with
  | AttrS s =>
      match float_of_str s with
      | Some x => inr x
      | None => inl ValueError
      end
  | AttrN m e =>
      inr (signed (m <? 0) (double_of_decimal (Z.abs m) e))
  | AttrBool b => inr (if b then 1%float else 0%float)
  | AttrNull | AttrB _ | AttrSS _ | AttrNS _ | AttrBS _ | AttrL _ | AttrM _ =>
      inl TypeError
  end.

(** [float(item.get('monthly_savings', 0))] *)
Definition item_savings (item : gmap string attr) : error + float :=
  match item !! "monthly_savings" with
  | Some v => float_of_attr v
  | None => inr (float_of_int 0)
  end.

(** The counters the scan starts from. *)
Definition initial_counts : gmap string nat :=
  {[ "ebs_volume" := 0%nat; "snapshot" := 0%nat; "elastic_ip" := 0%nat ]}.

(** [if resource_type in resource_counts: resource_counts[resource_type] += 1]
    for [resource_type = item.get('resource_type', 'unknown')]: the lookup
    hashes the value, which raises [TypeError] on a set, a list and a
    dict; of the values that can be hashed only text equals one of the
    keys. *)
Definition count_item (counts : gmap string nat) (item : gmap string attr) : error + gmap string nat :=
  let resource_type := default (AttrS "unknown") (item !! "resource_type") in
  if hashable resource_type then
    match resource_type with
    | AttrS k =>
        match counts !! k with
        | Some n => inr (<[k := S n]> counts)
        | None => inr counts
        end
    | _ => inr counts
    end
  else inl TypeError.

(** The loop over the items: the running total and the counters, or the
    exception of the first item whose savings do not convert or whose
    resource type cannot be looked up. *)
Fixpoint tally (items : list (gmap string attr)) (total : num)
    (counts : gmap string nat) : error + (num * gmap string nat) :=
  match items with
  | [] => inr (total, counts)
  | item :: items' =>
      match item_savings item with
      | inr savings =>
          match count_item counts item with
          | inr counts' => tally items' (num_add total (Float savings)) counts'
          | inl e => inl e
          end
      | inl e => inl e
      end
  end.

(** [[item['deleted_date'] for item in items]] *)
Fixpoint deleted_dates (items : list (gmap string attr)) : error + list attr :=
  match items with
  | [] => inr []
  | item :: items' =>
      match item !! "deleted_date" with
      | Some d =>
          match deleted_dates items' with
          | inr ds => inr (d :: ds)
          | inl e => inl e
          end
      | None => inl (KeyError "deleted_date")
      end
  end.

(** The dates as text. As soon as one of them is not text the date range
    ends in a [TypeError]: text compares with text only, so that [min]
    raises on a mixed list, and what [min] returns for a list without
    text is no text, on which [strptime] raises. *)
Fixpoint texts (ds : list attr) : option (list string) :=
  match ds with
  | [] => Some []
  | AttrS s :: ds' =>
      match texts ds' with
      | Some l => Some (s :: l)
      | None => None
      end
  | _ :: _ => None
  end.

(** The date range of a ledger: first and last deletion date and the days
    of operation. *)
Definition date_range (items : list (gmap string attr)) : error + (string * string * Z) :=
  match items with
  | [] => inr ("N/A", "N/A", 0)
  | _ =>
      match deleted_dates items with
      | inl e => inl e
      | inr ds =>
          match texts ds with
          | Some (d :: dates) =>
              let first_deletion := str_min d dates in
              let last_deletion := str_max d dates in
              match strptime_Ymd first_deletion, strptime_Ymd last_deletion with
              | Some first_date, Some last_date =>
                  inr (first_deletion, last_deletion,
                       date_diff_days last_date first_date + 1)
              | _, _ => inl ValueError
              end
          | _ => inl TypeError
          end
      end
  end.

(** The [result] dictionary. *)
Record summary : Type := Summary {
  total_resources_deleted : nat;
  total_monthly_savings : num;
  total_annual_savings : num;
  resource_breakdown : gmap string nat;
  first_deletion_date : string;
  last_deletion_date : string;
  days_operating : Z;
  average_savings_per_day : num
}.

(** [round(total_monthly_savings / 30, 2) if total_monthly_savings > 0 else 0] *)
Definition average_per_day (total : num) : num :=
  if num_pos total then num_round2 (num_div total (Int 30)) else Int 0.

(** The body of the [try] block after the scan. *)
Definition summarize (items : list (gmap string attr)) : error + summary :=
  match tally items (Int 0) initial_counts with
  | inl e => inl e
  | inr (total, counts) =>
      match date_range items with
      | inl e => inl e
      | inr (first_deletion, last_deletion, days) =>
          inr (Summary (length items)
                 (num_round2 total)
                 (num_round2 (num_mul total (Int 12)))
                 counts first_deletion last_deletion days
                 (average_per_day total))
      end
  end.

(** What the handler returns: status 200 with the summary as body, or
    status 500 with the error. *)
Inductive response : Type :=
| Status200 (body : summary)
| Status500 (e : error).

(** The handler; the printed copies of the body and of the error are left
    out. *)
Definition lambda_handler (w : world) : M response :=
  do r <- request (scan w) Scan;
  match r with
  | Ok items =>
      match summarize items with
      | inr body => ret (Status200 body)
      | inl e => ret (Status500 e)
      end
  | Raise msg => ret (Status500 (ScanError msg))
  end.

End CostSavingsQuery.

(* ===================================================================== *)
(** * The grace-period lifecycle, as the Reaper's scans realise it *)
(* ===================================================================== *)

Module Lifecycle.
Import Py Aws ResourceCleanup.

(** The lifecycle state of a resource when the Reaper looks at it, derived
    from its deadline tag, its live attachment state and the date. *)
Inductive phase : Type :=
| NotTracked
| GracePeriod
| NowInUse
| Eligible.

Definition classify (deadline : option date) (in_use : bool) (today : date) : phase :=
  match deadline with
  | None => NotTracked
  | Some d =>
      if date_le d today then (if in_use then NowInUse else Eligible)
      else GracePeriod
  end.

Definition attached (v : volume) : bool := (0 <? length (Attachments v))%nat.

Definition associated (a : address) : bool :=
  match AssociationId a with Some _ => true | None => false end.

Definition volume_phase (today : date) (v : volume) : phase :=
  classify (deadline_of (VolumeTags v)) (attached v) today.

Definition snapshot_phase (today : date) (s : snapshot) : phase :=
  classify (deadline_of (SnapshotTags s)) false today.

Definition address_phase (today : date) (a : address) : phase :=
  classify (deadline_of (AddressTags a)) (associated a) today.

(** The state once [calls] were sent and [lines] printed. *)
Definition after (st : state) (calls : list call) (lines : list string) : state :=
  State (trace st ++ calls) (log st ++ lines).

(** The warnings of the volume scan for the deadline values of [tags]
    that do not parse. *)
Definition deadline_warnings (volume_id : string) (tags : list tag) : list string :=
  flat_map
    (fun t =>
       if String.eqb (Key t) TAG_KEY then
         match parse_deadline (Value t) with
         | Some _ => []
         | None => [line_invalid_date volume_id (Value t)]
         end
       else [])
    tags.

(** The safety-snapshot request for a volume. *)
Definition snapshot_call (today : date) (v : volume) : call :=
  CreateSnapshot (VolumeId v) (snapshot_description (VolumeId v))
    (snapshot_tags (VolumeId v) today).

(** What one turn of the volume scan does to the results and the state,
    case by case. *)
Inductive volume_outcome (w : world) (dry_run : bool) (today : date)
    (v : volume) (r : cleanup_results) (st : state) :
    cleanup_results * state -> Prop :=
| VolumeNotTracked :
    volume_phase today v = NotTracked ->
    volume_outcome w dry_run today v r st
      (r, after st [] (deadline_warnings (VolumeId v) (VolumeTags v)))
| VolumeGrace d :
    deadline_of (VolumeTags v) = Some d ->
    volume_phase today v = GracePeriod ->
    volume_outcome w dry_run today v r st
      (r, after st []
            (deadline_warnings (VolumeId v) (VolumeTags v)
             ++ [line_grace_period (VolumeId v) (date_diff_days d today)]))
| VolumeInUse :
    volume_phase today v = NowInUse ->
    volume_outcome w dry_run today v r st
      (skip_volume r (VolumeId v) "attached_to_instance",
       after st []
         (deadline_warnings (VolumeId v) (VolumeTags v)
          ++ [line_volume_attached (VolumeId v)]))
| VolumeDryRun :
    volume_phase today v = Eligible ->
    dry_run = true ->
    volume_outcome w dry_run today v r st
      (r, after st []
            (deadline_warnings (VolumeId v) (VolumeTags v)
             ++ [line_volume_dry_run (VolumeId v) (Size v) (VolumeType v)
                   (volume_cost (Size v) (VolumeType v))]))
| VolumeSnapshotFailed e :
    volume_phase today v = Eligible ->
    dry_run = false ->
    create_snapshot w (trace st) (VolumeId v) (snapshot_description (VolumeId v))
      (snapshot_tags (VolumeId v) today) = Raise e ->
    volume_outcome w dry_run today v r st
      (skip_volume r (VolumeId v) ("snapshot_failed: " +:+ e),
       after st [snapshot_call today v]
         (deadline_warnings (VolumeId v) (VolumeTags v)
          ++ [line_snapshot_error (VolumeId v) e]))
| VolumeDeleted snapshot_id :
    volume_phase today v = Eligible ->
    dry_run = false ->
    create_snapshot w (trace st) (VolumeId v) (snapshot_description (VolumeId v))
      (snapshot_tags (VolumeId v) today) = Ok snapshot_id ->
    delete_volume w (trace st ++ [snapshot_call today v]) (VolumeId v) = Ok tt ->
    volume_outcome w dry_run today v r st
      (add_volume r
         (DeletedVolume (VolumeId v) (Size v) (VolumeType v)
            (volume_cost (Size v) (VolumeType v)) (Some snapshot_id)
            (isoformat today)),
       after st [snapshot_call today v; DeleteVolume (VolumeId v)]
         (deadline_warnings (VolumeId v) (VolumeTags v)
          ++ [line_snapshot_created snapshot_id;
              line_volume_deleted (VolumeId v) (Size v) (VolumeType v)
                (volume_cost (Size v) (VolumeType v))]))
| VolumeDeleteFailed snapshot_id e :
    volume_phase today v = Eligible ->
    dry_run = false ->
    create_snapshot w (trace st) (VolumeId v) (snapshot_description (VolumeId v))
      (snapshot_tags (VolumeId v) today) = Ok snapshot_id ->
    delete_volume w (trace st ++ [snapshot_call today v]) (VolumeId v) = Raise e ->
    volume_outcome w dry_run today v r st
      (skip_volume r (VolumeId v) ("deletion_failed: " +:+ e),
       after st [snapshot_call today v; DeleteVolume (VolumeId v)]
         (deadline_warnings (VolumeId v) (VolumeTags v)
          ++ [line_snapshot_created snapshot_id;
              line_volume_error (VolumeId v) e])).

(** [size_gb * 0.057] *)
Definition snapshot_cost (s : snapshot) : float :=
  (float_of_int (VolumeSize s) * 0.057)%float.

(** One turn of the snapshot scan. *)
Inductive snapshot_outcome (w : world) (dry_run : bool) (today : date)
    (s : snapshot) (r : cleanup_results) (st : state) :
    cleanup_results * state -> Prop :=
| SnapshotIdle :
    snapshot_phase today s <> Eligible ->
    snapshot_outcome w dry_run today s r st (r, st)
| SnapshotDryRun :
    snapshot_phase today s = Eligible ->
    dry_run = true ->
    snapshot_outcome w dry_run today s r st
      (r, after st []
            [line_snapshot_dry_run (SnapshotId s) (VolumeSize s) (snapshot_cost s)])
| SnapshotDeleted :
    snapshot_phase today s = Eligible ->
    dry_run = false ->
    delete_snapshot w (trace st) (SnapshotId s) = Ok tt ->
    snapshot_outcome w dry_run today s r st
      (add_snapshot r
         (DeletedSnapshot (SnapshotId s) (VolumeSize s) (snapshot_cost s)
            (isoformat today)),
       after st [DeleteSnapshot (SnapshotId s)]
         [line_snapshot_deleted (SnapshotId s) (VolumeSize s) (snapshot_cost s)])
| SnapshotDeleteFailed e :
    snapshot_phase today s = Eligible ->
    dry_run = false ->
    delete_snapshot w (trace st) (SnapshotId s) = Raise e ->
    snapshot_outcome w dry_run today s r st
      (skip_snapshot r (SnapshotId s) e,
       after st [DeleteSnapshot (SnapshotId s)]
         [line_snapshot_delete_error (SnapshotId s) e]).

(** One turn of the address scan. A re-associated address and a failed
    release leave a printed line and nothing in the results. *)
Inductive address_outcome (w : world) (dry_run : bool) (today : date)
    (a : address) (r : cleanup_results) (st : state) :
    cleanup_results * state -> Prop :=
| AddressIdle :
    address_phase today a = NotTracked \/ address_phase today a = GracePeriod ->
    address_outcome w dry_run today a r st (r, st)
| AddressInUse :
    address_phase today a = NowInUse ->
    address_outcome w dry_run today a r st
      (r, after st [] [line_eip_associated (AllocationId a) (PublicIp a)])
| AddressDryRun :
    address_phase today a = Eligible ->
    dry_run = true ->
    address_outcome w dry_run today a r st
      (r, after st [] [line_eip_dry_run (PublicIp a) (AllocationId a)])
| AddressReleased :
    address_phase today a = Eligible ->
    dry_run = false ->
    release_address w (trace st) (AllocationId a) = Ok tt ->
    address_outcome w dry_run today a r st
      (add_eip r
         (ReleasedEip (AllocationId a) (PublicIp a) eip_monthly_cost
            (isoformat today)),
       after st [ReleaseAddress (AllocationId a)]
         [line_eip_released (PublicIp a) (AllocationId a)])
| AddressReleaseFailed e :
    address_phase today a = Eligible ->
    dry_run = false ->
    release_address w (trace st) (AllocationId a) = Raise e ->
    address_outcome w dry_run today a r st
      (r, after st [ReleaseAddress (AllocationId a)]
            [line_eip_error (AllocationId a) e]).

(** ** Reading a trace *)

(** The request [c] was sent when the history was [h]. *)
Definition sent (tr h : list call) (c : call) : Prop :=
  exists rest, tr = h ++ c :: rest.

(** Whether the services carried out the request [c] sent after [h]. *)
Definition carried_out (w : world) (h : list call) (c : call) : bool :=
  match c with
  | CreateSnapshot id d t =>
      match create_snapshot w h id d t with Ok _ => true | Raise _ => false end
  | DeleteVolume id =>
      match delete_volume w h id with Ok _ => true | Raise _ => false end
  | DeleteSnapshot id =>
      match delete_snapshot w h id with Ok _ => true | Raise _ => false end
  | ReleaseAddress id =>
      match release_address w h id with Ok _ => true | Raise _ => false end
  | CreateTags rs t =>
      match create_tags w h rs t with Ok _ => true | Raise _ => false end
  | PutItem item =>
      match put_item w h item with Ok _ => true | Raise _ => false end
  | _ => false
  end.

(** The changes the services carried out among the requests [cs] sent
    after [h], in order. *)
Fixpoint changes_from (w : world) (h cs : list call) : list call :=
  match cs with
  | [] => []
  | c :: cs' =>
      (if carried_out w h c then [c] else []) ++ changes_from w (h ++ [c]) cs'
  end.

Definition changes (w : world) (tr : list call) : list call := changes_from w [] tr.

(** The volumes, snapshots and addresses destroyed, in order. *)
Definition destroyed_volumes (w : world) (tr : list call) : list string :=
  flat_map (fun c => match c with DeleteVolume id => [id] | _ => [] end) (changes w tr).

Definition destroyed_snapshots (w : world) (tr : list call) : list string :=
  flat_map (fun c => match c with DeleteSnapshot id => [id] | _ => [] end) (changes w tr).

Definition released_addresses (w : world) (tr : list call) : list string :=
  flat_map (fun c => match c with ReleaseAddress id => [id] | _ => [] end) (changes w tr).

(** The ledger entries put, in order. *)
Definition ledger_puts (tr : list call) : list (gmap string attr) :=
  flat_map (fun c => match c with PutItem item => [item] | _ => [] end) tr.

(** The ledger entries of one resource kind. *)
Definition ledger_puts_of (kind : string) (tr : list call) : list (gmap string attr) :=
  List.filter
    (fun item => bool_decide (item !! "resource_type" = Some (AttrS kind)))
    (ledger_puts tr).

(** The entry the ledger holds for the resource [id] destroyed on [date]:
    its key is the composite [prefix-id-date]. *)
Definition ledger_entry (prefix kind date id : string) (item : gmap string attr) : Prop :=
  item !! "deletion_id" = Some (AttrS (prefix +:+ "-" +:+ id +:+ "-" +:+ date))
  /\ item !! "resource_type" = Some (AttrS kind)
  /\ item !! "resource_id" = Some (AttrS id)
  /\ item !! "deleted_date" = Some (AttrS date).

End Lifecycle.

(* ===================================================================== *)
(** * Runs of the Reaper: what the proofs speak of *)
(* ===================================================================== *)

Module Runs.
Import Py Aws ResourceCleanup Lifecycle.
Local Open Scope run_scope.

(** The date each scan reads once the inventory has answered it. *)
Definition volumes_today (w : world) (st : state) : date :=
  date_of (now_utc w (trace st ++ [DescribeVolumes tag_filter []])).

Definition snapshots_today (w : world) (st : state) : date :=
  date_of (now_utc w (trace st ++ [DescribeSnapshots ["self"] tag_filter])).

Definition addresses_today (w : world) (st : state) : date :=
  date_of (now_utc w (trace st ++ [DescribeAddresses tag_filter])).

(** The entries a run's results call for, in the order they are put. *)
Definition ledger_items (r : cleanup_results) : list (gmap string attr) :=
  map volume_item (volumes_deleted r) ++ map snapshot_item (snapshots_deleted r)
  ++ map eip_item (eips_released r).

(** [st'] is [st] with further requests and lines. *)
Definition extends (st st' : state) : Prop :=
  exists calls lines, st' = after st calls lines.

(** The state in which the volume scan starts. *)
Definition start (w : world) (b : bool) : state :=
  State [NowUtc]
    [rule; "STARTING RESOURCE CLEANUP SCAN";
     "Timestamp: " +:+ isoformat_utc (now_utc w []);
     "DRY RUN MODE: " +:+ str_bool b; rule].

(** The results and the state after the three scans. *)
Definition scanned (w : world) (b : bool) : cleanup_results * state :=
  let o1 := cleanup_expired_volumes w b empty_results (start w b) in
  let o2 := cleanup_expired_snapshots w b o1.1 o1.2 in
  cleanup_expired_eips w b o2.1 o2.2.

(** A property kept by reads and prints. *)
Definition kept_by_reads (P : cleanup_results * state -> Prop) : Prop :=
  forall r st calls lines,
    Forall (fun c => mutating c = false) calls ->
    P (r, st) -> P (r, after st calls lines).

(** From [s] to [s'] the state and the skipped lists were only added to. *)
Definition grows (s s' : cleanup_results * state) : Prop :=
  extends s.2 s'.2
  /\ (exists l, volumes_skipped s'.1 = volumes_skipped s.1 ++ l)
  /\ (exists l, snapshots_skipped s'.1 = snapshots_skipped s.1 ++ l).

(** The histories at which the three scans ask the inventory. *)
Definition volumes_asked (w : world) (b : bool) : list call := trace (start w b).

Definition snapshots_asked (w : world) (b : bool) : list call :=
  trace (cleanup_expired_volumes w b empty_results (start w b)).2.

Definition addresses_asked (w : world) (b : bool) : list call :=
  let o1 := cleanup_expired_volumes w b empty_results (start w b) in
  trace (cleanup_expired_snapshots w b o1.1 o1.2).2.

(** Every volume deletion follows at once a safety snapshot of the same
    volume that succeeded. *)
Definition snapshot_first (w : world) (tr : list call) : Prop :=
  forall h id,
    sent tr h (DeleteVolume id) ->
    exists h' description tags snapshot_id,
      h = h' ++ [CreateSnapshot id description tags]
      /\ create_snapshot w h' id description tags = Ok snapshot_id.

(** The deletions the services carried out are those the results record,
    kind by kind and in order. *)
Definition recorded (w : world) (s : cleanup_results * state) : Prop :=
  destroyed_volumes w (trace s.2) = map dv_volume_id (volumes_deleted s.1)
  /\ destroyed_snapshots w (trace s.2) = map ds_snapshot_id (snapshots_deleted s.1)
  /\ released_addresses w (trace s.2) = map re_allocation_id (eips_released s.1).

(** In a dry run no turn sends a request or records a deletion. *)
Definition idle (s : cleanup_results * state) : Prop :=
  Forall (fun c => mutating c = false) (trace s.2)
  /\ volumes_deleted s.1 = [] /\ snapshots_deleted s.1 = [] /\ eips_released s.1 = [].

(** Every deletion the results record carries the date [today]. *)
Definition dated (today : date) (s : cleanup_results * state) : Prop :=
  Forall (fun e => dv_deleted_date e = isoformat today) (volumes_deleted s.1)
  /\ Forall (fun e => ds_deleted_date e = isoformat today) (snapshots_deleted s.1)
  /\ Forall (fun e => re_released_date e = isoformat today) (eips_released s.1).

(** Nothing was asked of the volume [id]: no safety snapshot, no deletion,
    no deletion recorded, and a skip only for being attached. *)
Definition volume_kept (id : string) (s : cleanup_results * state) : Prop :=
  ~ In (DeleteVolume id) (trace s.2)
  /\ (forall description tags, ~ In (CreateSnapshot id description tags) (trace s.2))
  /\ Forall (fun e => dv_volume_id e <> id) (volumes_deleted s.1)
  /\ Forall (fun k => skipped_id k = id -> reason k = "attached_to_instance")
       (volumes_skipped s.1).

(** The snapshot [id] was not deleted and no deletion of it is recorded. *)
Definition snapshot_kept (id : string) (s : cleanup_results * state) : Prop :=
  ~ In (DeleteSnapshot id) (trace s.2)
  /\ Forall (fun e => ds_snapshot_id e <> id) (snapshots_deleted s.1).

(** The address [id] was not released and no release of it is recorded. *)
Definition address_kept (id : string) (s : cleanup_results * state) : Prop :=
  ~ In (ReleaseAddress id) (trace s.2)
  /\ Forall (fun e => re_allocation_id e <> id) (eips_released s.1).






(** The volume [id] is in neither list of the results. *)
Definition volume_unlisted (id : string) (s : cleanup_results * state) : Prop :=
  Forall (fun e => dv_volume_id e <> id) (volumes_deleted s.1)
  /\ Forall (fun k => skipped_id k <> id) (volumes_skipped s.1).

(** The snapshot [id] is in neither list of the results. *)
Definition snapshot_unlisted (id : string) (s : cleanup_results * state) : Prop :=
  Forall (fun e => ds_snapshot_id e <> id) (snapshots_deleted s.1)
  /\ Forall (fun k => skipped_id k <> id) (snapshots_skipped s.1).

(** From [s] to [s'] the state was extended and the three lists of
    deletions were appended to. *)
Definition records (s s' : cleanup_results * state) : Prop :=
  extends s.2 s'.2
  /\ (exists l, volumes_deleted s'.1 = volumes_deleted s.1 ++ l)
  /\ (exists l, snapshots_deleted s'.1 = snapshots_deleted s.1 ++ l)
  /\ (exists l, eips_released s'.1 = eips_released s.1 ++ l).

(** The savings of the recorded deletions: volumes, then snapshots, then
    addresses, each in the order of deletion. *)
Definition savings_of (r : cleanup_results) : list float :=
  map dv_monthly_savings (volumes_deleted r)
  ++ map ds_monthly_savings (snapshots_deleted r)
  ++ map re_monthly_savings (eips_released r).

(** [0 + x1 + x2 + ...], added from the left in binary64. *)
Definition float_sum (xs : list float) : float :=
  fold_left (fun t x => (t + x)%float) xs 0%float.

(** The total is the sum of the savings recorded. *)
Definition summed (r : cleanup_results) : Prop :=
  total_savings_monthly r = float_sum (savings_of r).

(** Every recorded deletion carries the cost of its resource. *)
Definition costed (r : cleanup_results) : Prop :=
  Forall (fun e => dv_monthly_savings e = volume_cost (dv_size_gb e) (dv_volume_type e))
    (volumes_deleted r)
  /\ Forall (fun e => ds_monthly_savings e = (float_of_int (ds_size_gb e) * 0.057)%float)
       (snapshots_deleted r)
  /\ Forall (fun e => re_monthly_savings e = eip_monthly_cost) (eips_released r).

(** [f"{len(l)} <what>"] when [l] is not empty, nothing otherwise. *)
Definition deleted_phrase {A} (l : list A) (what : string) : string :=
  match l with
  | [] => ""
  | _ => str_len l +:+ what
  end.

End Runs.

(* ===================================================================== *)
(** * Runs of the Finder: what the proofs speak of *)
(* ===================================================================== *)

Module Searches.
Import Py Aws Lifecycle CostAnalyzer.
Local Open Scope run_scope.

(** Whatever the state, [m] adds read requests and lines only. *)
Definition reads_only {A} (m : M A) : Prop :=
  forall st, exists calls lines,
    (m st).2 = after st calls lines
    /\ Forall (fun c => mutating c = false) calls.

(** The identifiers of the findings the tagging goes through. *)
Definition flagged (f : findings) : list string :=
  map vf_volume_id (unattached_volumes f) ++ map sf_snapshot_id (old_snapshots f)
  ++ map ef_allocation_id (idle_elastic_ips f).

(** A request of the tagging: a clock reading, or a tagging of some of
    [ids] with the deadline [value]. *)
Definition tagging_call (value : string) (ids : list string) (c : call) : Prop :=
  match c with
  | NowLocal => True
  | CreateTags resources tags =>
      (exists found, tags = deletion_tags value found)
      /\ forall id, In id resources -> In id ids
  | _ => False
  end.

(** Every one of [ids] is among the resources of a tagging request. *)
Definition all_tagged (ids : list string) (calls : list call) : Prop :=
  forall id, In id ids ->
    exists resources tags, In (CreateTags resources tags) calls /\ In id resources.

(** The per-GB rate of a volume type, as the rate table is told. *)
Definition spec_rate (volume_type : string) : float :=
  if String.eqb volume_type "gp2" then 0.114
  else if String.eqb volume_type "gp3" then 0.091
  else if String.eqb volume_type "io1" then 0.143
  else if String.eqb volume_type "io2" then 0.143
  else if String.eqb volume_type "sc1" then 0.029
  else if String.eqb volume_type "st1" then 0.051
  else if String.eqb volume_type "standard" then 0.057
  else 0.10.

(** [len(volume['Attachments']) == 0] *)
Definition unattached (v : volume) : bool := (length (Attachments v) =? 0)%nat.

(** Whether the snapshot started before [threshold]. *)
Definition started_before (threshold : datetime) (s : snapshot) : bool :=
  StartTime s <? threshold.

(** ['AssociationId' not in address] *)
Definition unassociated (a : address) : bool := negb (associated a).

(** One turn of the loop over the block device mappings, [lookup] being
    the volumes the inventory answers with for a volume identifier. *)
Definition ebs_step (lookup : string -> list volume)
    (acc : num * list volume_detail) (bdm : option string) : num * list volume_detail :=
  match bdm with
  | Some volume_id =>
      match lookup volume_id with
      | vol :: _ =>
          (num_add acc.1 (Float (volume_cost (Size vol) (VolumeType vol))),
           acc.2 ++ [VolumeDetail volume_id (Size vol) (VolumeType vol)])
      | [] => acc
      end
  | None => acc
  end.

(** The EBS cost of an instance and the details of its volumes. *)
Definition ebs_volumes (lookup : string -> list volume) (i : instance) : num * list volume_detail :=
  fold_left (ebs_step lookup) (BlockDeviceMappings i) (Int 0, []).

(** [total_ebs_cost > 0] *)
Definition costly (lookup : string -> list volume) (i : instance) : bool :=
  num_pos (ebs_volumes lookup i).1.

(** The finding of a stopped instance. *)
Definition stopped_finding (lookup : string -> list volume) (i : instance) : instance_finding :=
  InstanceFinding "stopped_instance" (InstanceId i) (InstanceId i)
    (instance_name (InstanceTags i)) (InstanceType i)
    (num_round2 (ebs_volumes lookup i).1) (ebs_volumes lookup i).2
    (default "" (StateTransitionReason i)) (InstanceTags i).

(** The detail of the volume a block device mapping names, if it has one
    that the inventory knows. *)
Definition mapped_volume (lookup : string -> list volume) (bdm : option string) : list volume_detail :=
  match bdm with
  | Some volume_id =>
      match lookup volume_id with
      | vol :: _ => [VolumeDetail volume_id (Size vol) (VolumeType vol)]
      | [] => []
      end
  | None => []
  end.

(** The cost of the volumes [details], added in order to [total]. *)
Definition add_costs (total : num) (details : list volume_detail) : num :=
  fold_left
    (fun t d => num_add t (Float (volume_cost (vd_size_gb d) (vd_type d))))
    details total.

(** No lookup of a volume sent after [base] has failed, unless the loop
    has ended with the exception. *)
Definition unfailed {A} (w : world) (base : list call) (o : result A * state) : Prop :=
  match o.1 with
  | Ok _ =>
      forall h id e,
        sent (trace o.2) h (DescribeVolumes [] [id]) ->
        (exists cs, h = base ++ cs) ->
        describe_volumes w h [] [id] = Raise e -> False
  | Raise _ => True
  end.

(** The resource lists of the tagging requests of a trace, in order. *)
Definition batches (tr : list call) : list (list string) :=
  flat_map (fun c => match c with CreateTags rs _ => [rs] | _ => [] end) tr.

(** The one request for the volumes and snapshots, if there are any. *)
Definition batch (f : findings) : list (list string) :=
  match map vf_volume_id (unattached_volumes f)
        ++ map sf_snapshot_id (old_snapshots f) with
  | [] => []
  | ids => [ids]
  end.




End Searches.

(* ===================================================================== *)
(** * The calendar and the text of a deadline *)
(* ===================================================================== *)

Module Calendar.
Import Py Aws.

(** A date of the calendar the library supports: years 1 to 9999. *)
Definition valid_date (d : date) : bool :=
  (1 <=? year d) && (year d <=? 9999) && (1 <=? month d) && (month d <=? 12)
  && (1 <=? day d) && (day d <=? days_in_month (year d) (month d)).

(** [p] on the [n] numbers from [z] on. *)
Fixpoint all_from (n : nat) (z : Z) (p : Z -> bool) : bool :=
  match n with
  | O => true
  | S k => p z && all_from k (z + 1) p
  end.

(** No letter [D] in [s]: nothing the prefix of the tag value could start
    at. *)
Fixpoint no_D (s : string) : bool :=
  match s with
  | EmptyString => true
  | String c s' => negb (Ascii.eqb c "D") && no_D s'
  end.

(** [zfill 4 y] is four digits that read [y]. *)
Definition four_digits (y : Z) : bool :=
  match zfill 4 y with
  | String a (String b (String c (String d EmptyString))) =>
      match digit_of a, digit_of b, digit_of c, digit_of d with
      | Some w, Some x, Some y', Some z =>
          (1000 * w + 100 * x + 10 * y' + z =? y) && no_D (zfill 4 y)
      | _, _, _, _ => false
      end
  | _ => false
  end.

(** What [%m-%d] reads at the start of [s], and what is left. *)
Definition month_day (s : string) : option (Z * Z * string) :=
  first_alt directive_m
    (fun m s3 =>
       match literal "-" s3 with
       | Some s4 => first_alt directive_d (fun d s5 => Some (m, d, s5)) s4
       | None => None
       end) s.

(** [MM-DD] as written for the month [md / 31 + 1] and the day
    [md mod 31 + 1] reads back, and has no [D]. *)
Definition month_day_reads (md : Z) : bool :=
  let m := md / 31 + 1 in
  let d := md mod 31 + 1 in
  let s := zfill 2 m +:+ "-" +:+ zfill 2 d in
  no_D s
  && match month_day s with
     | Some (m', d', EmptyString) => (m' =? m) && (d' =? d)
     | _ => false
     end.

(** The day [r + 1] of the first 400 years is a date of the calendar;
    the year 200 has begun by day 72684 and the year 400 only begins after
    day 145731. *)
Definition cycle_day_valid (r : Z) : bool :=
  let d := ord2ymd (r + 1) in
  valid_date d && (year d <=? 400) && ((145730 <? r) || (year d <=? 399))
  && ((r <? 72683) || (200 <=? year d)).

(** From the year 1000 on, the year as it is has its four digits. *)
Definition year_as_it_is (y : Z) : bool := String.eqb (str_int y) (zfill 4 y).

(** The times from 1000-01-01 to 9999-12-31, the years that are written
    with four digits. *)
Definition four_digit_years (t : datetime) : Prop :=
  364877 * us_per_day <= t < 3652059 * us_per_day.

(** The day [r + 1] of the first 400 years, taken apart and counted
    again, is day [r + 1]. *)
Definition cycle_day_counts (r : Z) : bool := ymd2ord (ord2ymd (r + 1)) =? r + 1.

(** The tags carry the deadline the Finder wrote at the local time [now],
    and nothing else under the reserved key. *)
Definition tagged_at (now : datetime) (tags : list tag) : Prop :=
  In (Tag TAG_KEY (CostAnalyzer.deadline_tag_value now)) tags
  /\ forall t, In t tags -> Key t = TAG_KEY ->
               Value t = CostAnalyzer.deadline_tag_value now.

End Calendar.

(* ===================================================================== *)
(** * Ledgers: what the proofs of the Aggregator speak of *)
(* ===================================================================== *)

Module Ledgers.
Import Py Aws CostSavingsQuery.

(** The ledger entry [item] carries the resource type [kind] as text. *)
Definition of_kind (kind : string) (item : gmap string attr) : bool :=
  bool_decide (item !! "resource_type" = Some (AttrS kind)).

(** The savings of every entry convert to a number. *)
Definition savings_convert (items : list (gmap string attr)) : Prop :=
  Forall (fun item => exists x, item_savings item = inr x) items.

(** The resource type of every entry that has one can be hashed, and so
    looked up among the counters: it is no set, list or map. *)
Definition kinds_hashable (items : list (gmap string attr)) : Prop :=
  Forall (fun item => forall v, item !! "resource_type" = Some v -> hashable v = true)
    items.

(** Every entry has a deletion date that is text, and the least and the
    greatest of these texts, in the order of strings, parse as dates. *)
Definition dates_read (items : list (gmap string attr)) : Prop :=
  exists d dates,
    Forall2 (fun item s => item !! "deleted_date" = Some (AttrS s)) items (d :: dates)
    /\ strptime_Ymd (str_min d dates) <> None
    /\ strptime_Ymd (str_max d dates) <> None.

(** The running total after the savings [xs], added in order. *)
Definition sum_from (total : num) (xs : list float) : num :=
  fold_left (fun t x => num_add t (Float x)) xs total.

(** [zfill 2 m] is two digits that read [m]. *)
Definition two_digits_read (m : Z) : bool :=
  match zfill 2 m with
  | String a (String b EmptyString) =>
      match digit_of a, digit_of b with
      | Some x, Some y => 10 * x + y =? m
      | _, _ => false
      end
  | _ => false
  end.

(** The earliest and the latest of the dates [d :: ds]; on ties the first
    is kept. *)
Definition earliest (d : date) (ds : list date) : date :=
  fold_left (fun m y => if date_le m y then m else y) ds d.

Definition latest (d : date) (ds : list date) : date :=
  fold_left (fun m y => if date_le y m then m else y) ds d.

End Ledgers.

(* ===================================================================== *)
(** * Sample accounts *)
(* ===================================================================== *)

Module Examples.
Import Py Aws ResourceCleanup Lifecycle.

(** 2025-02-09T01:00:00.000005 *)
Definition clock : datetime := add_days 0 739290 + 3600000000 + 5.

Definition today : date := Date 2025 2 9.

Definition tracked (id : string) (attachments : list string) (deadline : string) : volume :=
  Volume id 100 "gp2" attachments 0 "ap-south-1a"
    [Tag "Name" "scratch"; Tag TAG_KEY deadline].

Definition expired : volume := tracked "vol-1" [] "DeleteAfter-2025-02-09".
Definition attached_again : volume := tracked "vol-2" ["i-1"] "DeleteAfter-2025-02-01".
Definition in_grace : volume := tracked "vol-3" [] "DeleteAfter-2025-02-10".
Definition unprotected : volume := tracked "vol-4" [] "DeleteAfter-2025-01-01".

Definition volumes : list volume := [expired; attached_again; in_grace; unprotected].

Definition snapshots : list snapshot :=
  [Snapshot "snap-1" 10 0 None [Tag TAG_KEY "DeleteAfter-2025-02-01"]].

Definition idle_address : address :=
  Address "eipalloc-1" "1.2.3.4" None [Tag TAG_KEY "DeleteAfter-2025-02-01"].
Definition associated_again : address :=
  Address "eipalloc-2" "1.2.3.5" (Some "eipassoc-7") [Tag TAG_KEY "DeleteAfter-2025-02-01"].

Definition addresses : list address := [idle_address; associated_again].

(** An account whose safety snapshot of [vol-4] fails and where nothing
    else does. *)
Definition account : world := {|
  now_utc := fun _ => clock;
  now_local := fun _ => clock;
  describe_volumes := fun _ _ _ => Ok volumes;
  describe_snapshots := fun _ _ _ => Ok snapshots;
  describe_addresses := fun _ _ => Ok addresses;
  describe_instances := fun _ _ => Ok [];
  create_snapshot :=
    fun _ id _ _ =>
      if String.eqb id "vol-4" then Raise "SnapshotCreationPerVolumeRateExceeded"
      else Ok ("snap-of-" +:+ id);
  delete_volume := fun _ _ => Ok tt;
  delete_snapshot := fun _ _ => Ok tt;
  release_address := fun _ _ => Ok tt;
  create_tags := fun _ _ _ => Ok tt;
  put_item := fun _ _ => Ok tt;
  scan := fun _ => Ok [];
  publish := fun _ _ _ _ => Ok "mid-1"
|}.

Definition inventory : list volume :=
  [Volume "vol-a" 5 "io1" [] 0 "ap-south-1a" [];
   Volume "vol-b" 8 "gp3" ["i-1"] 0 "ap-south-1a" [];
   Volume "vol-c" 20 "mystery" [] 0 "ap-south-1b" []].

Definition backups : list snapshot :=
  [Snapshot "snap-old" 10 (add_days clock (-90) - 1) None [];
   Snapshot "snap-edge" 10 (add_days clock (-90)) None [];
   Snapshot "snap-new" 10 (add_days clock (-1)) (Some "nightly") []].

Definition volume_entry : gmap string attr :=
  ResourceCleanup.volume_item
    (ResourceCleanup.DeletedVolume "vol-9" 50 "gp3" 5.00 (Some "snap-9") "2025-01-01").

Definition address_entry : gmap string attr :=
  ResourceCleanup.eip_item
    (ResourceCleanup.ReleasedEip "eipalloc-9" "1.2.3.9" 3.60 "2025-01-10").

(** An account as the Finder sees it, with a ledger of two deletions. *)
Definition estate : world := {|
  now_utc := fun _ => clock;
  now_local := fun _ => clock;
  describe_volumes := fun _ _ _ => Ok inventory;
  describe_snapshots := fun _ _ _ => Ok backups;
  describe_addresses := fun _ _ => Ok [];
  describe_instances := fun _ _ => Ok [];
  create_snapshot := fun _ id _ _ => Ok ("snap-of-" +:+ id);
  delete_volume := fun _ _ => Ok tt;
  delete_snapshot := fun _ _ => Ok tt;
  release_address := fun _ _ => Ok tt;
  create_tags := fun _ _ _ => Ok tt;
  put_item := fun _ _ => Ok tt;
  scan :=
    fun _ =>
      Ok [volume_entry; address_entry];
  publish := fun _ _ _ _ => Ok "mid-1"
|}.

(** The same account with an empty ledger. *)
Definition fresh : world := {|
  now_utc := now_utc estate;
  now_local := now_local estate;
  describe_volumes := describe_volumes estate;
  describe_snapshots := describe_snapshots estate;
  describe_addresses := describe_addresses estate;
  describe_instances := describe_instances estate;
  create_snapshot := create_snapshot estate;
  delete_volume := delete_volume estate;
  delete_snapshot := delete_snapshot estate;
  release_address := release_address estate;
  create_tags := create_tags estate;
  put_item := put_item estate;
  scan := fun _ => Ok [];
  publish := publish estate
|}.

(** One hour, in microseconds. *)
Definition hour : Z := 3600000000.

(** Two snapshots that are 91 days old to the hour when their ages are
    read, and one that starts at the threshold. *)
Definition archive : list snapshot :=
  [Snapshot "snap-a" 10 (add_days clock (-91) + 2 * hour) None [];
   Snapshot "snap-edge" 10 (add_days clock (-90) + hour) None [];
   Snapshot "snap-b" 10 (add_days clock (-91) + 3 * hour) None []].

(** The account with a clock that is an hour further at every request and
    at every reading. *)
Definition ticking : world := {|
  now_utc := fun h => clock + Z.of_nat (length h) * hour;
  now_local := fun h => clock + Z.of_nat (length h) * hour;
  describe_volumes := describe_volumes estate;
  describe_snapshots := fun _ _ _ => Ok archive;
  describe_addresses := describe_addresses estate;
  describe_instances := describe_instances estate;
  create_snapshot := create_snapshot estate;
  delete_volume := delete_volume estate;
  delete_snapshot := delete_snapshot estate;
  release_address := release_address estate;
  create_tags := create_tags estate;
  put_item := put_item estate;
  scan := scan estate;
  publish := publish estate
|}.

(** The same account once the services refuse every deletion and every
    release. *)
Definition locked : world := {|
  now_utc := now_utc account;
  now_local := now_local account;
  describe_volumes := describe_volumes account;
  describe_snapshots := describe_snapshots account;
  describe_addresses := describe_addresses account;
  describe_instances := describe_instances account;
  create_snapshot := create_snapshot account;
  delete_volume := fun _ _ => Raise "UnauthorizedOperation";
  delete_snapshot := fun _ _ => Raise "InvalidSnapshot.InUse";
  release_address := fun _ _ => Raise "AuthFailure";
  create_tags := create_tags account;
  put_item := put_item account;
  scan := scan account;
  publish := publish account
|}.

(** Three stopped instances in two reservations: one with two volumes, one
    whose only mapping has no EBS volume, one whose volume is gone. *)
Definition stopped : list (list instance) :=
  [[Instance "i-1" "t3.micro" [Some "vol-a"; None; Some "vol-c"] None
      [Tag "Name" "batch"];
    Instance "i-2" "t3.micro" [None] None []];
   [Instance "i-3" "m5.large" [Some "vol-gone"] (Some "User initiated") []]].

(** The volumes the inventory knows by identifier. *)
Definition known (id : string) : list volume :=
  List.filter (fun v => String.eqb (VolumeId v) id) inventory.

(** The account of the Finder with the stopped instances. *)
Definition fleet : world := {|
  now_utc := now_utc estate;
  now_local := now_local estate;
  describe_volumes :=
    fun _ _ ids => match ids with [id] => Ok (known id) | _ => Ok inventory end;
  describe_snapshots := describe_snapshots estate;
  describe_addresses := fun _ _ => Ok addresses;
  describe_instances := fun _ _ => Ok stopped;
  create_snapshot := create_snapshot estate;
  delete_volume := delete_volume estate;
  delete_snapshot := delete_snapshot estate;
  release_address := release_address estate;
  create_tags := create_tags estate;
  put_item := put_item estate;
  scan := scan estate;
  publish := publish estate
|}.

(** A ledger with an entry that has lost its date. *)
Definition undated_entry : gmap string attr :=
  delete "deleted_date" address_entry.

Definition torn : world := {|
  now_utc := now_utc estate;
  now_local := now_local estate;
  describe_volumes := describe_volumes estate;
  describe_snapshots := describe_snapshots estate;
  describe_addresses := describe_addresses estate;
  describe_instances := describe_instances estate;
  create_snapshot := create_snapshot estate;
  delete_volume := delete_volume estate;
  delete_snapshot := delete_snapshot estate;
  release_address := release_address estate;
  create_tags := create_tags estate;
  put_item := put_item estate;
  scan := fun _ => Ok [volume_entry; undated_entry];
  publish := publish estate
|}.

(** The account of the Finder with the ledger [items]. *)
Definition with_ledger (items : list (gmap string attr)) : world := {|
  now_utc := now_utc estate;
  now_local := now_local estate;
  describe_volumes := describe_volumes estate;
  describe_snapshots := describe_snapshots estate;
  describe_addresses := describe_addresses estate;
  describe_instances := describe_instances estate;
  create_snapshot := create_snapshot estate;
  delete_volume := delete_volume estate;
  delete_snapshot := delete_snapshot estate;
  release_address := release_address estate;
  create_tags := create_tags estate;
  put_item := put_item estate;
  scan := fun _ => Ok items;
  publish := publish estate
|}.

(** An entry whose savings are written in full-width digits. *)
Definition wide_entry : gmap string attr :=
  <["monthly_savings" := AttrS "１２.５"]> volume_entry.

(** An entry whose resource type is a list. *)
Definition nested_entry : gmap string attr :=
  <["resource_type" := AttrL [AttrS "ebs_volume"]]> volume_entry.





End Examples.

(* ===================================================================== *)
(** * The Reaper *)
(* ===================================================================== *)

Module ReaperFacts.
Import Py Aws ResourceCleanup Lifecycle Runs.
Local Open Scope run_scope.

Section MonadFacts.

Context {A S : Type}.

Lemma for_each_app (xs ys : list A) (body : S -> A -> M S) acc st :
  for_each (xs ++ ys) body acc st =
  for_each ys body (for_each xs body acc st).1 (for_each xs body acc st).2.
Proof.
  revert acc st. induction xs as [|x xs IH]; intros acc st; [reflexivity|].
  cbn [app for_each]. unfold bind.
  destruct (body acc x st) as [acc' st']. apply IH.
Qed.

Lemma for_each_inv (P : S * state -> Prop) (xs : list A) (body : S -> A -> M S) :
  (forall x acc st, In x xs -> P (acc, st) -> P (body acc x st)) ->
  forall acc st, P (acc, st) -> P (for_each xs body acc st).
Proof.
  induction xs as [|x xs IH]; intros Hstep acc st HP; [exact HP|].
  cbn [for_each]. unfold bind.
  pose proof (Hstep x acc st (or_introl eq_refl) HP) as H1.
  destruct (body acc x st) as [acc' st'].
  apply IH; [|exact H1].
  intros y acc0 st0 Hy. apply Hstep. right. exact Hy.
Qed.

End MonadFacts.

Lemma after_nil st : after st [] [] = st.
Proof. destruct st. unfold after. cbn. by rewrite !app_nil_r. Qed.

Lemma after_after st c1 l1 c2 l2 :
  after (after st c1 l1) c2 l2 = after st (c1 ++ c2) (l1 ++ l2).
Proof. unfold after. cbn. by rewrite !app_assoc. Qed.

Ltac run_step :=
  unfold bind, ret, print, request, after; cbn [for_each fst snd trace log].

Lemma volume_deadline_from id tags acc st :
  for_each tags
    (fun delete_after_date t =>
       if String.eqb (Key t) TAG_KEY then
         match parse_deadline (Value t) with
         | Some d => ret (Some d)
         | None => print (line_invalid_date id (Value t)) ;; ret delete_after_date
         end
       else ret delete_after_date) acc st
  = (fold_left deadline_step tags acc, after st [] (deadline_warnings id tags)).
Proof.
  revert acc st. induction tags as [|t tags IH]; intros acc st.
  - cbn. by rewrite after_nil.
  - cbn [for_each fold_left deadline_warnings flat_map]. unfold bind at 1.
    unfold deadline_step at 2.
    destruct (String.eqb (Key t) TAG_KEY); [destruct (parse_deadline (Value t))|];
      run_step; rewrite IH; try reflexivity.
    unfold after. cbn [trace log app]. by rewrite !app_nil_r, <- app_assoc.
Qed.

Lemma volume_deadline_run id tags st :
  volume_deadline id tags st
  = (deadline_of tags, after st [] (deadline_warnings id tags)).
Proof. apply volume_deadline_from. Qed.

(** Brings the states of the goal and of [H] to the same shape and closes
    the goal with [H]. *)
Ltac norm_states H :=
  unfold after in H |- *; cbn [trace log fst snd] in H |- *;
  repeat rewrite <- app_assoc in H; repeat rewrite <- app_assoc;
  cbn [app] in H |- *; rewrite ?app_nil_r in H; rewrite ?app_nil_r.

Ltac conclude H :=
  let Hx := fresh "Hx" in
  pose proof H as Hx; norm_states Hx; exact Hx.

Lemma cleanup_volume_outcome w b today r v st :
  volume_outcome w b today v r st (cleanup_volume w b today r v st).
Proof.
  unfold cleanup_volume. unfold bind at 1. rewrite volume_deadline_run.
  destruct (deadline_of (VolumeTags v)) as [d|] eqn:Hd.
  2:{ apply VolumeNotTracked. unfold volume_phase. by rewrite Hd. }
  destruct (date_le d today) eqn:Hle.
  2:{ assert (Hph : volume_phase today v = GracePeriod)
        by (unfold volume_phase, classify; by rewrite Hd, Hle).
      run_step. conclude (VolumeGrace w b today v r st d Hd Hph). }
  destruct (0 <? length (Attachments v))%nat eqn:Hatt.
  { assert (Hph : volume_phase today v = NowInUse)
      by (unfold volume_phase, classify, attached; by rewrite Hd, Hle, Hatt).
    run_step. conclude (VolumeInUse w b today v r st Hph). }
  assert (Hph : volume_phase today v = Eligible)
    by (unfold volume_phase, classify, attached; by rewrite Hd, Hle, Hatt).
  unfold safety_snapshot. destruct b.
  { run_step. conclude (VolumeDryRun w true today v r st Hph eq_refl). }
  run_step. rewrite app_nil_r.
  destruct (create_snapshot w (trace st) (VolumeId v) _ _) as [sid|e] eqn:Hcs; run_step.
  2:{ conclude (VolumeSnapshotFailed w false today v r st e Hph eq_refl Hcs). }
  destruct (delete_volume w _ (VolumeId v)) as [[]|e] eqn:Hdv; run_step.
  - conclude (VolumeDeleted w false today v r st sid Hph eq_refl Hcs Hdv).
  - conclude (VolumeDeleteFailed w false today v r st sid e Hph eq_refl Hcs Hdv).
Qed.

Lemma cleanup_snapshot_outcome w b today r s st :
  snapshot_outcome w b today s r st (cleanup_snapshot w b today r s st).
Proof.
  unfold cleanup_snapshot.
  destruct (deadline_of (SnapshotTags s)) as [d|] eqn:Hd.
  2:{ apply SnapshotIdle. unfold snapshot_phase, classify. by rewrite Hd. }
  destruct (date_le d today) eqn:Hle.
  2:{ apply SnapshotIdle. unfold snapshot_phase, classify. by rewrite Hd, Hle. }
  assert (Hph : snapshot_phase today s = Eligible)
    by (unfold snapshot_phase, classify; by rewrite Hd, Hle).
  destruct b.
  { run_step. conclude (SnapshotDryRun w true today s r st Hph eq_refl). }
  run_step.
  destruct (delete_snapshot w (trace st) (SnapshotId s)) as [[]|e] eqn:Hds; run_step.
  - conclude (SnapshotDeleted w false today s r st Hph eq_refl Hds).
  - conclude (SnapshotDeleteFailed w false today s r st e Hph eq_refl Hds).
Qed.

Lemma cleanup_eip_outcome w b today r a st :
  address_outcome w b today a r st (cleanup_eip w b today r a st).
Proof.
  unfold cleanup_eip.
  destruct (deadline_of (AddressTags a)) as [d|] eqn:Hd.
  2:{ apply AddressIdle. left. unfold address_phase, classify. by rewrite Hd. }
  destruct (date_le d today) eqn:Hle.
  2:{ apply AddressIdle. right. unfold address_phase, classify. by rewrite Hd, Hle. }
  destruct (AssociationId a) as [assoc|] eqn:Has.
  { assert (Hph : address_phase today a = NowInUse)
      by (unfold address_phase, classify, associated; by rewrite Hd, Hle, Has).
    run_step. conclude (AddressInUse w b today a r st Hph). }
  assert (Hph : address_phase today a = Eligible)
    by (unfold address_phase, classify, associated; by rewrite Hd, Hle, Has).
  destruct b.
  { run_step. conclude (AddressDryRun w true today a r st Hph eq_refl). }
  run_step.
  destruct (release_address w (trace st) (AllocationId a)) as [[]|e] eqn:Hra; run_step.
  - conclude (AddressReleased w false today a r st Hph eq_refl Hra).
  - conclude (AddressReleaseFailed w false today a r st e Hph eq_refl Hra).
Qed.

(** ** The scans as loops over the inventory's answer *)

Lemma cleanup_expired_volumes_run w b r st :
  cleanup_expired_volumes w b r st =
  match describe_volumes w (trace st) tag_filter [] with
  | Ok vols =>
      let o :=
        for_each vols (cleanup_volume w b (volumes_today w st)) r
          (after st [DescribeVolumes tag_filter []; NowUtc]
             [nl +:+ "--- SCANNING VOLUMES ---"]) in
      (o.1, after o.2 []
              [nl +:+ "Volumes deleted: " +:+ str_len (volumes_deleted o.1);
               "Volumes skipped: " +:+ str_len (volumes_skipped o.1)])
  | Raise e =>
      (r, after st [DescribeVolumes tag_filter []]
            [nl +:+ "--- SCANNING VOLUMES ---"; "ERROR in volume cleanup: " +:+ e])
  end.
Proof.
  unfold cleanup_expired_volumes, volumes_today. run_step.
  destruct (describe_volumes w (trace st) tag_filter []) as [vols|e]; run_step.
  - rewrite <- !app_assoc. cbn [app].
    destruct (for_each vols _ r _) as [r' st']. cbn [fst snd trace log].
    by rewrite app_nil_r, <- app_assoc.
  - by rewrite <- app_assoc.
Qed.

Lemma cleanup_expired_snapshots_run w b r st :
  cleanup_expired_snapshots w b r st =
  match describe_snapshots w (trace st) ["self"] tag_filter with
  | Ok snaps =>
      let o :=
        for_each snaps (cleanup_snapshot w b (snapshots_today w st)) r
          (after st [DescribeSnapshots ["self"] tag_filter; NowUtc]
             [nl +:+ "--- SCANNING SNAPSHOTS ---"]) in
      (o.1, after o.2 []
              [nl +:+ "Snapshots deleted: " +:+ str_len (snapshots_deleted o.1)])
  | Raise e =>
      (r, after st [DescribeSnapshots ["self"] tag_filter]
            [nl +:+ "--- SCANNING SNAPSHOTS ---";
             "ERROR in snapshot cleanup: " +:+ e])
  end.
Proof.
  unfold cleanup_expired_snapshots, snapshots_today. run_step.
  destruct (describe_snapshots w (trace st) ["self"] tag_filter) as [snaps|e];
    run_step.
  - rewrite <- !app_assoc. cbn [app].
    destruct (for_each snaps _ r _) as [r' st']. cbn [fst snd trace log].
    by rewrite app_nil_r.
  - by rewrite <- app_assoc.
Qed.

Lemma cleanup_expired_eips_run w b r st :
  cleanup_expired_eips w b r st =
  match describe_addresses w (trace st) tag_filter with
  | Ok addrs =>
      let o :=
        for_each addrs (cleanup_eip w b (addresses_today w st)) r
          (after st [DescribeAddresses tag_filter; NowUtc]
             [nl +:+ "--- SCANNING ELASTIC IPs ---"]) in
      (o.1, after o.2 []
              [nl +:+ "Elastic IPs released: " +:+ str_len (eips_released o.1)])
  | Raise e =>
      (r, after st [DescribeAddresses tag_filter]
            [nl +:+ "--- SCANNING ELASTIC IPs ---";
             "ERROR in EIP cleanup: " +:+ e])
  end.
Proof.
  unfold cleanup_expired_eips, addresses_today. run_step.
  destruct (describe_addresses w (trace st) tag_filter) as [addrs|e]; run_step.
  - rewrite <- !app_assoc. cbn [app].
    destruct (for_each addrs _ r _) as [r' st']. cbn [fst snd trace log].
    by rewrite app_nil_r.
  - by rewrite <- app_assoc.
Qed.

(** ** The ledger writes *)

Lemma put_all_run {A} w (to_item : A -> gmap string attr) xs st :
  exists n,
    (n <= length xs)%nat
    /\ (put_all w to_item xs st).2
       = after st (map PutItem (map to_item (take n xs))) []
    /\ match (put_all w to_item xs st).1 with
       | Ok _ => n = length xs
       | Raise _ => True
       end.
Proof.
  unfold put_all. revert st. induction xs as [|x xs IH]; intros st.
  - exists 0%nat. cbn. by rewrite after_nil.
  - cbn [for_each_try]. run_step.
    destruct (put_item w (trace st) (to_item x)) as [[]|e].
    + destruct (IH (State (trace st ++ [PutItem (to_item x)]) (log st)))
        as (n & Hn & Hst & Hres).
      exists (S n). split; [cbn; lia|]. split.
      * etrans; [exact Hst|]. unfold after. cbn [trace log take map].
        by rewrite <- !app_assoc.
      * revert Hres. unfold request.
        destruct (for_each_try xs _ tt _).1; [cbn; lia | done].
    + exists 1%nat. cbn [take map fst snd length]. split; [lia|]. split; [|done].
      unfold after. cbn. by rewrite take_0, app_nil_r.
Qed.

Lemma put_all_accepted {A} w (f : A -> gmap string attr) xs st :
  (forall h item, put_item w h item = Ok tt) ->
  exists u, (put_all w f xs st).1 = Ok u.
Proof.
  intros Hput. unfold put_all. revert st.
  induction xs as [|x xs IH]; intros st; [by eexists|].
  cbn [for_each_try]. run_step. rewrite Hput. apply IH.
Qed.

Lemma state_eq t l t' l' : t = t' -> l = l' -> State t l = State t' l'.
Proof. by intros -> ->. Qed.

(** Closes [st' = after st calls ?lines], [calls] given and [?lines] open. *)
Ltac solve_after :=
  unfold after; cbn [trace log]; apply state_eq;
  [ repeat rewrite <- app_assoc; rewrite ?app_nil_r; cbn [app]; reflexivity
  | first [ repeat rewrite <- app_assoc; cbn [app]; reflexivity
          | symmetry; apply app_nil_r ] ].

Lemma log_deletions_run w r st :
  exists n lines,
    (log_deletions_to_dynamodb w r st).2
    = after st (map PutItem (take n (ledger_items r))) lines
    /\ ((forall h item, put_item w h item = Ok tt) -> n = length (ledger_items r)).
Proof.
  unfold log_deletions_to_dynamodb, bind_try, ledger_items.
  unfold bind at 1 2.
  destruct (put_all_run w volume_item (volumes_deleted r) st) as (n1 & L1 & H1 & R1).
  pose proof (put_all_accepted w volume_item (volumes_deleted r) st) as K1.
  destruct (put_all w volume_item (volumes_deleted r) st) as [res1 st1].
  cbn [fst snd] in H1, R1, K1. subst st1.
  destruct res1 as [[]|e1].
  2:{ exists n1. eexists. run_step. split.
      - rewrite take_app_le by (by rewrite length_map). rewrite firstn_map.
        solve_after.
      - intros Hput. by destruct (K1 Hput). }
  subst n1. rewrite firstn_all.
  set (st1 := after st _ _). unfold bind at 1.
  destruct (put_all_run w snapshot_item (snapshots_deleted r) st1) as (n2 & L2 & H2 & R2).
  pose proof (put_all_accepted w snapshot_item (snapshots_deleted r) st1) as K2.
  destruct (put_all w snapshot_item (snapshots_deleted r) st1) as [res2 st2].
  cbn [fst snd] in H2, R2, K2. subst st2.
  destruct res2 as [[]|e2].
  2:{ exists (length (volumes_deleted r) + n2)%nat. eexists.
      run_step. subst st1. run_step. split.
      - rewrite <- (length_map volume_item), take_app_add.
        rewrite take_app_le by (by rewrite length_map).
        rewrite firstn_map, map_app. solve_after.
      - intros Hput. by destruct (K2 Hput). }
  subst n2. rewrite firstn_all.
  set (st2 := after st1 _ _).
  destruct (put_all_run w eip_item (eips_released r) st2) as (n3 & L3 & H3 & R3).
  pose proof (put_all_accepted w eip_item (eips_released r) st2) as K3.
  destruct (put_all w eip_item (eips_released r) st2) as [res3 st3].
  cbn [fst snd] in H3, R3, K3. subst st3.
  assert (Hn : (forall h item, put_item w h item = Ok tt) ->
               (length (volumes_deleted r) + (length (snapshots_deleted r) + n3))%nat
               = length (map volume_item (volumes_deleted r)
                         ++ map snapshot_item (snapshots_deleted r)
                         ++ map eip_item (eips_released r))).
  { intros Hput. destruct (K3 Hput) as [u Hu]. subst res3. subst n3.
    by rewrite !length_app, !length_map. }
  exists (length (volumes_deleted r) + (length (snapshots_deleted r) + n3))%nat.
  rewrite <- (length_map volume_item), take_app_add.
  rewrite <- (length_map snapshot_item), take_app_add.
  rewrite firstn_map, !map_app, !length_map.
  destruct res3 as [[]|e3]; eexists; (split; [|exact Hn]);
    run_step; subst st2 st1; run_step; solve_after.
Qed.

Lemma send_cleanup_report_run w r st :
  exists lines,
    (send_cleanup_report w r st).2
    = after st [Publish SNS_TOPIC_ARN (cleanup_subject r) (cleanup_message r)] lines.
Proof.
  unfold send_cleanup_report. run_step.
  destruct (publish w (trace st) SNS_TOPIC_ARN _ _); run_step;
    eexists; solve_after.
Qed.

(** ** States only grow *)

Lemma extends_refl st : extends st st.
Proof. exists [], []. by rewrite after_nil. Qed.

Lemma extends_after st calls lines : extends st (after st calls lines).
Proof. by exists calls, lines. Qed.

Lemma extends_trans st1 st2 st3 : extends st1 st2 -> extends st2 st3 -> extends st1 st3.
Proof.
  intros (c1 & l1 & ->) (c2 & l2 & ->). rewrite after_after. apply extends_after.
Qed.

Lemma extends_sent st st' h c : extends st st' -> sent (trace st) h c -> sent (trace st') h c.
Proof.
  intros (cs & ls & ->) [rest Hr]. exists (rest ++ cs). cbn [after trace].
  rewrite Hr. by rewrite <- app_assoc.
Qed.

Lemma extends_trace st st' c : extends st st' -> In c (trace st) -> In c (trace st').
Proof. intros (cs & ls & ->) Hc. cbn [after trace]. apply in_or_app. by left. Qed.

Lemma extends_log st st' l : extends st st' -> In l (log st) -> In l (log st').
Proof. intros (cs & ls & ->) Hc. cbn [after log]. apply in_or_app. by left. Qed.

Lemma volume_outcome_extends w b today v r st o :
  volume_outcome w b today v r st o -> extends st o.2.
Proof. destruct 1; apply extends_after. Qed.

Lemma snapshot_outcome_extends w b today s r st o :
  snapshot_outcome w b today s r st o -> extends st o.2.
Proof. destruct 1; try apply extends_after. apply extends_refl. Qed.

Lemma address_outcome_extends w b today a r st o :
  address_outcome w b today a r st o -> extends st o.2.
Proof. destruct 1; try apply extends_after. apply extends_refl. Qed.

Lemma for_each_extends {A S} (xs : list A) (body : S -> A -> M S) acc st :
  (forall x acc st, extends st (body acc x st).2) ->
  extends st (for_each xs body acc st).2.
Proof.
  intros Hb.
  apply (for_each_inv (fun o => extends st o.2)); [|apply extends_refl].
  intros x acc0 st0 _ H0. cbn [snd] in *. eapply extends_trans; [exact H0|apply Hb].
Qed.

Lemma cleanup_expired_volumes_extends w b r st :
  extends st (cleanup_expired_volumes w b r st).2.
Proof.
  rewrite cleanup_expired_volumes_run.
  destruct (describe_volumes w (trace st) tag_filter []); cbn [snd];
    [|apply extends_after].
  eapply extends_trans; [|apply extends_after].
  eapply extends_trans; [apply extends_after|].
  apply for_each_extends. intros x acc st0.
  eapply volume_outcome_extends, cleanup_volume_outcome.
Qed.

Lemma cleanup_expired_snapshots_extends w b r st :
  extends st (cleanup_expired_snapshots w b r st).2.
Proof.
  rewrite cleanup_expired_snapshots_run.
  destruct (describe_snapshots w (trace st) ["self"] tag_filter); cbn [snd];
    [|apply extends_after].
  eapply extends_trans; [|apply extends_after].
  eapply extends_trans; [apply extends_after|].
  apply for_each_extends. intros x acc st0.
  eapply snapshot_outcome_extends, cleanup_snapshot_outcome.
Qed.

Lemma cleanup_expired_eips_extends w b r st :
  extends st (cleanup_expired_eips w b r st).2.
Proof.
  rewrite cleanup_expired_eips_run.
  destruct (describe_addresses w (trace st) tag_filter); cbn [snd];
    [|apply extends_after].
  eapply extends_trans; [|apply extends_after].
  eapply extends_trans; [apply extends_after|].
  apply for_each_extends. intros x acc st0.
  eapply address_outcome_extends, cleanup_eip_outcome.
Qed.

(** ** The run as three scans, the ledger writes and the report *)

Lemma cleanup_run_eq w b :
  run (cleanup_run w b)
  = ((scanned w b).1,
     after
       (send_cleanup_report w (scanned w b).1
          (log_deletions_to_dynamodb w (scanned w b).1 (scanned w b).2).2).2
       [] [rule; "CLEANUP COMPLETE"; rule]).
Proof.
  unfold run, cleanup_run, scanned, start.
  unfold bind, print, request, ret. cbn [trace log app fst snd].
  destruct (cleanup_expired_volumes w b empty_results _) as [r1 st1].
  cbn [fst snd].
  destruct (cleanup_expired_snapshots w b r1 st1) as [r2 st2]. cbn [fst snd].
  destruct (cleanup_expired_eips w b r2 st2) as [r3 st3]. cbn [fst snd].
  destruct (log_deletions_to_dynamodb w r3 st3) as [[] st4]. cbn [fst snd].
  destruct (send_cleanup_report w r3 st4) as [[] st5]. cbn [fst snd].
  f_equal. solve_after.
Qed.

(** The handler answers once the run is over and adds nothing to it. *)
Lemma reaper_handler_run w b :
  run (lambda_handler w b)
  = (Response 200 "Cleanup complete"
       (total_deleted (run (cleanup_run w b)).1)
       (total_savings_monthly (run (cleanup_run w b)).1),
     (run (cleanup_run w b)).2).
Proof.
  unfold run, lambda_handler, bind, ret.
  by destruct (cleanup_run w b (State [] [])) as [results st].
Qed.

Lemma cleanup_run_scanned w b :
  exists n lines,
    run (cleanup_run w b)
    = ((scanned w b).1,
       after (scanned w b).2
         (map PutItem (take n (ledger_items (scanned w b).1))
          ++ [Publish SNS_TOPIC_ARN (cleanup_subject (scanned w b).1)
                (cleanup_message (scanned w b).1)])
         lines)
    /\ ((forall h item, put_item w h item = Ok tt) ->
        n = length (ledger_items (scanned w b).1)).
Proof.
  rewrite cleanup_run_eq.
  destruct (scanned w b) as [r3 st3]. cbn [fst snd].
  destruct (log_deletions_run w r3 st3) as (n & lines1 & Hlog & Hn).
  rewrite Hlog.
  destruct (send_cleanup_report_run w r3
              (after st3 (map PutItem (take n (ledger_items r3))) lines1))
    as (lines2 & Hrep).
  rewrite Hrep. exists n. eexists. split; [|exact Hn].
  f_equal. rewrite !after_after. rewrite app_nil_r. reflexivity.
Qed.

Lemma for_each_reach {A S} (Q : S * state -> Prop) (xs : list A)
    (body : S -> A -> M S) x :
  In x xs ->
  (forall acc st, Q (body acc x st)) ->
  (forall y acc st, In y xs -> Q (acc, st) -> Q (body acc y st)) ->
  forall acc st, Q (for_each xs body acc st).
Proof.
  intros Hx Hest Hkeep acc st.
  destruct (in_split _ _ Hx) as (l1 & l2 & ->).
  rewrite for_each_app. cbn [for_each]. unfold bind.
  destruct (for_each l1 body acc st) as [acc1 st1]. cbn [fst snd].
  pose proof (Hest acc1 st1) as H1.
  destruct (body acc1 x st1) as [acc2 st2].
  apply for_each_inv; [|exact H1].
  intros y acc0 st0 Hy. apply Hkeep. apply in_or_app. right. by right.
Qed.

Lemma sent_here st c cs lines : sent (trace (after st (c :: cs) lines)) (trace st) c.
Proof. by exists cs. Qed.

Section Scans.

Variables (w : world) (b : bool).

Variable P : cleanup_results * state -> Prop.

Variable final : state.

Hypothesis P_reads : kept_by_reads P.

Lemma volumes_scan_sent r st :
  extends (cleanup_expired_volumes w b r st).2 final ->
  sent (trace final) (trace st) (DescribeVolumes tag_filter []).
Proof.
  intros Hext. eapply extends_sent; [exact Hext|].
  rewrite cleanup_expired_volumes_run.
  destruct (describe_volumes w (trace st) tag_filter []); cbn [snd].
  - eapply extends_sent; [|apply sent_here].
    eapply extends_trans; [|apply extends_after].
    apply for_each_extends. intros x acc st0.
    eapply volume_outcome_extends, cleanup_volume_outcome.
  - apply sent_here.
Qed.

Lemma volumes_scan_ind r st :
  extends (cleanup_expired_volumes w b r st).2 final ->
  (forall h vols v r st o,
      sent (trace final) h (DescribeVolumes tag_filter []) ->
      describe_volumes w h tag_filter [] = Ok vols -> In v vols ->
      volume_outcome w b
        (date_of (now_utc w (h ++ [DescribeVolumes tag_filter []]))) v r st o ->
      P (r, st) -> P o) ->
  P (r, st) -> P (cleanup_expired_volumes w b r st).
Proof.
  intros Hext Hstep HP. pose proof (volumes_scan_sent r st Hext) as Hsent.
  rewrite cleanup_expired_volumes_run.
  destruct (describe_volumes w (trace st) tag_filter []) as [vols|e] eqn:Hd.
  - cbn zeta. apply P_reads; [constructor|].
    rewrite <- surjective_pairing.
    apply for_each_inv.
    + intros v acc st0 Hv HP0.
      eapply (Hstep (trace st) vols v); eauto using cleanup_volume_outcome.
    + apply P_reads; [|exact HP]. by repeat constructor.
  - apply P_reads; [|exact HP]. by repeat constructor.
Qed.

Lemma snapshots_scan_sent r st :
  extends (cleanup_expired_snapshots w b r st).2 final ->
  sent (trace final) (trace st) (DescribeSnapshots ["self"] tag_filter).
Proof.
  intros Hext. eapply extends_sent; [exact Hext|].
  rewrite cleanup_expired_snapshots_run.
  destruct (describe_snapshots w (trace st) ["self"] tag_filter); cbn [snd].
  - eapply extends_sent; [|apply sent_here].
    eapply extends_trans; [|apply extends_after].
    apply for_each_extends. intros x acc st0.
    eapply snapshot_outcome_extends, cleanup_snapshot_outcome.
  - apply sent_here.
Qed.

Lemma snapshots_scan_ind r st :
  extends (cleanup_expired_snapshots w b r st).2 final ->
  (forall h snaps s r st o,
      sent (trace final) h (DescribeSnapshots ["self"] tag_filter) ->
      describe_snapshots w h ["self"] tag_filter = Ok snaps -> In s snaps ->
      snapshot_outcome w b
        (date_of (now_utc w (h ++ [DescribeSnapshots ["self"] tag_filter]))) s r st o ->
      P (r, st) -> P o) ->
  P (r, st) -> P (cleanup_expired_snapshots w b r st).
Proof.
  intros Hext Hstep HP. pose proof (snapshots_scan_sent r st Hext) as Hsent.
  rewrite cleanup_expired_snapshots_run.
  destruct (describe_snapshots w (trace st) ["self"] tag_filter) as [snaps|e] eqn:Hd.
  - cbn zeta. apply P_reads; [constructor|].
    rewrite <- surjective_pairing.
    apply for_each_inv.
    + intros s acc st0 Hs HP0.
      eapply (Hstep (trace st) snaps s); eauto using cleanup_snapshot_outcome.
    + apply P_reads; [|exact HP]. by repeat constructor.
  - apply P_reads; [|exact HP]. by repeat constructor.
Qed.

Lemma addresses_scan_sent r st :
  extends (cleanup_expired_eips w b r st).2 final ->
  sent (trace final) (trace st) (DescribeAddresses tag_filter).
Proof.
  intros Hext. eapply extends_sent; [exact Hext|].
  rewrite cleanup_expired_eips_run.
  destruct (describe_addresses w (trace st) tag_filter); cbn [snd].
  - eapply extends_sent; [|apply sent_here].
    eapply extends_trans; [|apply extends_after].
    apply for_each_extends. intros x acc st0.
    eapply address_outcome_extends, cleanup_eip_outcome.
  - apply sent_here.
Qed.

Lemma addresses_scan_ind r st :
  extends (cleanup_expired_eips w b r st).2 final ->
  (forall h addrs a r st o,
      sent (trace final) h (DescribeAddresses tag_filter) ->
      describe_addresses w h tag_filter = Ok addrs -> In a addrs ->
      address_outcome w b
        (date_of (now_utc w (h ++ [DescribeAddresses tag_filter]))) a r st o ->
      P (r, st) -> P o) ->
  P (r, st) -> P (cleanup_expired_eips w b r st).
Proof.
  intros Hext Hstep HP. pose proof (addresses_scan_sent r st Hext) as Hsent.
  rewrite cleanup_expired_eips_run.
  destruct (describe_addresses w (trace st) tag_filter) as [addrs|e] eqn:Hd.
  - cbn zeta. apply P_reads; [constructor|].
    rewrite <- surjective_pairing.
    apply for_each_inv.
    + intros a acc st0 Ha HP0.
      eapply (Hstep (trace st) addrs a); eauto using cleanup_eip_outcome.
    + apply P_reads; [|exact HP]. by repeat constructor.
  - apply P_reads; [|exact HP]. by repeat constructor.
Qed.

End Scans.

Lemma scanned_extends_start w b : extends (start w b) (scanned w b).2.
Proof.
  unfold scanned. cbn zeta.
  eapply extends_trans; [apply cleanup_expired_volumes_extends|].
  eapply extends_trans; [apply cleanup_expired_snapshots_extends|].
  apply cleanup_expired_eips_extends.
Qed.

Lemma run_extends_scanned w b :
  extends (scanned w b).2 (run (cleanup_run w b)).2.
Proof.
  destruct (cleanup_run_scanned w b) as (n & lines & -> & _). apply extends_after.
Qed.

(** Induction over a run: a property of the results and the state that
    holds at the start, is kept by reads and prints and by every turn of
    the three scans, holds once the scans are over. The turns are those
    of the resources the inventory answered with. *)
Lemma scanned_ind w b (P : cleanup_results * state -> Prop) final :
  extends (scanned w b).2 final ->
  kept_by_reads P ->
  P (empty_results, State [] []) ->
  (forall h vols v r st o,
      sent (trace final) h (DescribeVolumes tag_filter []) ->
      describe_volumes w h tag_filter [] = Ok vols -> In v vols ->
      volume_outcome w b
        (date_of (now_utc w (h ++ [DescribeVolumes tag_filter []]))) v r st o ->
      P (r, st) -> P o) ->
  (forall h snaps s r st o,
      sent (trace final) h (DescribeSnapshots ["self"] tag_filter) ->
      describe_snapshots w h ["self"] tag_filter = Ok snaps -> In s snaps ->
      snapshot_outcome w b
        (date_of (now_utc w (h ++ [DescribeSnapshots ["self"] tag_filter]))) s r st o ->
      P (r, st) -> P o) ->
  (forall h addrs a r st o,
      sent (trace final) h (DescribeAddresses tag_filter) ->
      describe_addresses w h tag_filter = Ok addrs -> In a addrs ->
      address_outcome w b
        (date_of (now_utc w (h ++ [DescribeAddresses tag_filter]))) a r st o ->
      P (r, st) -> P o) ->
  P (scanned w b).
Proof.
  intros Hfin Hreads H0 Hv Hs Ha. unfold scanned in *. cbn zeta in *.
  set (o1 := cleanup_expired_volumes w b empty_results (start w b)) in *.
  set (o2 := cleanup_expired_snapshots w b o1.1 o1.2) in *.
  assert (E3 : extends (cleanup_expired_eips w b o2.1 o2.2).2 final) by exact Hfin.
  assert (E2 : extends o2.2 final).
  { eapply extends_trans; [apply cleanup_expired_eips_extends|exact E3]. }
  assert (E1 : extends o1.2 final).
  { eapply extends_trans; [apply cleanup_expired_snapshots_extends|exact E2]. }
  apply (addresses_scan_ind w b P final Hreads); [exact E3|exact Ha|].
  rewrite <- surjective_pairing.
  apply (snapshots_scan_ind w b P final Hreads); [exact E2|exact Hs|].
  rewrite <- surjective_pairing.
  apply (volumes_scan_ind w b P final Hreads); [exact E1|exact Hv|].
  change (start w b) with (after (State [] []) [NowUtc]
    [rule; "STARTING RESOURCE CLEANUP SCAN";
     "Timestamp: " +:+ isoformat_utc (now_utc w []);
     "DRY RUN MODE: " +:+ str_bool b; rule]).
  apply Hreads; [by repeat constructor|exact H0].
Qed.

(** ** What the services carried out *)

Lemma changes_from_app w h cs1 cs2 :
  changes_from w h (cs1 ++ cs2)
  = changes_from w h cs1 ++ changes_from w (h ++ cs1) cs2.
Proof.
  revert h. induction cs1 as [|c cs1 IH]; intros h.
  - cbn. by rewrite app_nil_r.
  - cbn [app changes_from]. rewrite IH, <- !app_assoc. reflexivity.
Qed.

Lemma changes_app w tr cs :
  changes w (tr ++ cs) = changes w tr ++ changes_from w tr cs.
Proof. unfold changes. by rewrite changes_from_app. Qed.

Lemma changes_from_reads w h cs :
  Forall (fun c => mutating c = false) cs -> changes_from w h cs = [].
Proof.
  revert h. induction cs as [|c cs IH]; intros h Hcs; [done|].
  inversion Hcs as [|? ? Hc Hcs']; subst. cbn [changes_from].
  rewrite IH by done. by destruct c.
Qed.

Lemma mutating_carried_out w h c : carried_out w h c = true -> mutating c = true.
Proof. by destruct c. Qed.

Lemma changes_mutating w tr : Forall (fun c => mutating c = true) (changes w tr).
Proof.
  unfold changes. generalize (@nil call) as h.
  induction tr as [|c tr IH]; intros h; cbn [changes_from]; [constructor|].
  apply Forall_app. split; [|apply IH].
  destruct (carried_out w h c) eqn:Hc; [|constructor].
  repeat constructor. by eapply mutating_carried_out.
Qed.

(** ** Results only grow *)

Lemma grows_refl s : grows s s.
Proof.
  repeat split; [apply extends_refl| |]; exists []; by rewrite app_nil_r.
Qed.

Lemma grows_trans s1 s2 s3 : grows s1 s2 -> grows s2 s3 -> grows s1 s3.
Proof.
  intros (E1 & [l1 V1] & [k1 S1]) (E2 & [l2 V2] & [k2 S2]).
  repeat split; [by eapply extends_trans| |].
  - exists (l1 ++ l2). by rewrite V2, V1, app_assoc.
  - exists (k1 ++ k2). by rewrite S2, S1, app_assoc.
Qed.

Lemma grows_after r st calls lines : grows (r, st) (r, after st calls lines).
Proof.
  repeat split; [apply extends_after| |]; exists []; by rewrite app_nil_r.
Qed.

Lemma volume_outcome_grows w b today v r st o :
  volume_outcome w b today v r st o -> grows (r, st) o.
Proof.
  destruct 1; (split; [apply extends_after|]); cbn [fst snd skip_volume add_volume
    volumes_skipped snapshots_skipped]; split;
    first [ by eexists | exists []; by rewrite app_nil_r ].
Qed.

Lemma snapshot_outcome_grows w b today s r st o :
  snapshot_outcome w b today s r st o -> grows (r, st) o.
Proof.
  destruct 1; try apply grows_refl;
    (split; [apply extends_after|]); cbn [fst snd skip_snapshot add_snapshot
    volumes_skipped snapshots_skipped]; split;
    first [ by eexists | exists []; by rewrite app_nil_r ].
Qed.

Lemma address_outcome_grows w b today a r st o :
  address_outcome w b today a r st o -> grows (r, st) o.
Proof.
  destruct 1; try apply grows_refl;
    (split; [apply extends_after|]); cbn [fst snd add_eip
    volumes_skipped snapshots_skipped]; split;
    first [ by eexists | exists []; by rewrite app_nil_r ].
Qed.

Lemma for_each_grows {A} (xs : list A) (body : cleanup_results -> A -> M cleanup_results) acc st :
  (forall x acc st, grows (acc, st) (body acc x st)) ->
  grows (acc, st) (for_each xs body acc st).
Proof.
  intros Hb. apply (for_each_inv (grows (acc, st))); [|apply grows_refl].
  intros x acc0 st0 _ H0. eapply grows_trans; [exact H0|apply Hb].
Qed.

(** The turn of [x] in a loop: the loop's result grows out of it. *)
Lemma for_each_turn {A} (xs : list A) (body : cleanup_results -> A -> M cleanup_results) x acc st :
  In x xs ->
  (forall x acc st, grows (acc, st) (body acc x st)) ->
  exists r1 st1, grows (body r1 x st1) (for_each xs body acc st).
Proof.
  intros Hx Hb. destruct (in_split _ _ Hx) as (l1 & l2 & ->).
  rewrite for_each_app. cbn [for_each]. unfold bind.
  destruct (for_each l1 body acc st) as [r1 st1]. cbn [fst snd].
  exists r1, st1. destruct (body r1 x st1) as [r2 st2]. by apply for_each_grows.
Qed.

Lemma cleanup_expired_volumes_grows w b r st :
  grows (r, st) (cleanup_expired_volumes w b r st).
Proof.
  rewrite cleanup_expired_volumes_run.
  destruct (describe_volumes w (trace st) tag_filter []) as [vols|e];
    [|apply grows_after].
  cbn zeta. eapply grows_trans; [apply (grows_after r st)|].
  match goal with |- context [for_each vols ?f r ?s] =>
    pose proof (for_each_grows vols f r s) as Hg;
    destruct (for_each vols f r s) as [r' st'] end.
  eapply grows_trans; [apply Hg|apply grows_after].
  intros x acc st0. eapply volume_outcome_grows, cleanup_volume_outcome.
Qed.

Lemma cleanup_expired_snapshots_grows w b r st :
  grows (r, st) (cleanup_expired_snapshots w b r st).
Proof.
  rewrite cleanup_expired_snapshots_run.
  destruct (describe_snapshots w (trace st) ["self"] tag_filter) as [snaps|e];
    [|apply grows_after].
  cbn zeta. eapply grows_trans; [apply (grows_after r st)|].
  match goal with |- context [for_each snaps ?f r ?s] =>
    pose proof (for_each_grows snaps f r s) as Hg;
    destruct (for_each snaps f r s) as [r' st'] end.
  eapply grows_trans; [apply Hg|apply grows_after].
  intros x acc st0. eapply snapshot_outcome_grows, cleanup_snapshot_outcome.
Qed.

Lemma cleanup_expired_eips_grows w b r st :
  grows (r, st) (cleanup_expired_eips w b r st).
Proof.
  rewrite cleanup_expired_eips_run.
  destruct (describe_addresses w (trace st) tag_filter) as [addrs|e];
    [|apply grows_after].
  cbn zeta. eapply grows_trans; [apply (grows_after r st)|].
  match goal with |- context [for_each addrs ?f r ?s] =>
    pose proof (for_each_grows addrs f r s) as Hg;
    destruct (for_each addrs f r s) as [r' st'] end.
  eapply grows_trans; [apply Hg|apply grows_after].
  intros x acc st0. eapply address_outcome_grows, cleanup_eip_outcome.
Qed.

(** The turn of a resource the inventory answered with: the scan's result
    grows out of the outcome of that turn. *)
Lemma volumes_scan_turn w b r st vols v :
  describe_volumes w (trace st) tag_filter [] = Ok vols -> In v vols ->
  exists r1 st1,
    grows (cleanup_volume w b (volumes_today w st) r1 v st1)
      (cleanup_expired_volumes w b r st).
Proof.
  intros Hd Hv. rewrite cleanup_expired_volumes_run, Hd. cbn zeta.
  match goal with |- context [for_each vols ?f r ?s] =>
    destruct (for_each_turn vols f v r s Hv) as (r1 & st1 & Hg);
    [|exists r1, st1; destruct (for_each vols f r s) as [r' st']] end.
  - intros x acc st0. eapply volume_outcome_grows, cleanup_volume_outcome.
  - eapply grows_trans; [apply Hg|apply grows_after].
Qed.

Lemma snapshots_scan_turn w b r st snaps s :
  describe_snapshots w (trace st) ["self"] tag_filter = Ok snaps -> In s snaps ->
  exists r1 st1,
    grows (cleanup_snapshot w b (snapshots_today w st) r1 s st1)
      (cleanup_expired_snapshots w b r st).
Proof.
  intros Hd Hs. rewrite cleanup_expired_snapshots_run, Hd. cbn zeta.
  match goal with |- context [for_each snaps ?f r ?s0] =>
    destruct (for_each_turn snaps f s r s0 Hs) as (r1 & st1 & Hg);
    [|exists r1, st1; destruct (for_each snaps f r s0) as [r' st']] end.
  - intros x acc st0. eapply snapshot_outcome_grows, cleanup_snapshot_outcome.
  - eapply grows_trans; [apply Hg|apply grows_after].
Qed.

Lemma addresses_scan_turn w b r st addrs a :
  describe_addresses w (trace st) tag_filter = Ok addrs -> In a addrs ->
  exists r1 st1,
    grows (cleanup_eip w b (addresses_today w st) r1 a st1)
      (cleanup_expired_eips w b r st).
Proof.
  intros Hd Ha. rewrite cleanup_expired_eips_run, Hd. cbn zeta.
  match goal with |- context [for_each addrs ?f r ?s0] =>
    destruct (for_each_turn addrs f a r s0 Ha) as (r1 & st1 & Hg);
    [|exists r1, st1; destruct (for_each addrs f r s0) as [r' st']] end.
  - intros x acc st0. eapply address_outcome_grows, cleanup_eip_outcome.
  - eapply grows_trans; [apply Hg|apply grows_after].
Qed.

Lemma volumes_asked_sent w b final :
  extends (scanned w b).2 final ->
  sent (trace final) (volumes_asked w b) (DescribeVolumes tag_filter []).
Proof.
  intros Hfin. apply (volumes_scan_sent w b final empty_results (start w b)).
  eapply extends_trans; [|exact Hfin]. unfold scanned. cbn zeta.
  eapply extends_trans; [apply cleanup_expired_snapshots_extends|].
  apply cleanup_expired_eips_extends.
Qed.

Lemma snapshots_asked_sent w b final :
  extends (scanned w b).2 final ->
  sent (trace final) (snapshots_asked w b) (DescribeSnapshots ["self"] tag_filter).
Proof.
  intros Hfin. unfold snapshots_asked.
  set (o1 := cleanup_expired_volumes w b empty_results (start w b)).
  apply (snapshots_scan_sent w b final o1.1 o1.2).
  eapply extends_trans; [|exact Hfin]. unfold scanned. cbn zeta.
  apply cleanup_expired_eips_extends.
Qed.

Lemma addresses_asked_sent w b final :
  extends (scanned w b).2 final ->
  sent (trace final) (addresses_asked w b) (DescribeAddresses tag_filter).
Proof.
  intros Hfin. unfold addresses_asked. cbn zeta.
  set (o1 := cleanup_expired_volumes w b empty_results (start w b)).
  set (o2 := cleanup_expired_snapshots w b o1.1 o1.2).
  apply (addresses_scan_sent w b final o2.1 o2.2). exact Hfin.
Qed.

(** The turn of a scanned resource within the whole run. *)
Lemma run_volume_turn w b vols v :
  describe_volumes w (volumes_asked w b) tag_filter [] = Ok vols -> In v vols ->
  exists r1 st1,
    grows
      (cleanup_volume w b
         (date_of (now_utc w (volumes_asked w b ++ [DescribeVolumes tag_filter []])))
         r1 v st1)
      (scanned w b).
Proof.
  intros Hd Hv.
  destruct (volumes_scan_turn w b empty_results (start w b) vols v Hd Hv)
    as (r1 & st1 & Hg).
  exists r1, st1. eapply grows_trans; [exact Hg|]. unfold scanned. cbn zeta.
  eapply grows_trans; [|apply cleanup_expired_eips_grows].
  rewrite <- surjective_pairing.
  eapply grows_trans; [|apply cleanup_expired_snapshots_grows].
  rewrite <- surjective_pairing. apply grows_refl.
Qed.

Lemma run_snapshot_turn w b snaps s :
  describe_snapshots w (snapshots_asked w b) ["self"] tag_filter = Ok snaps ->
  In s snaps ->
  exists r1 st1,
    grows
      (cleanup_snapshot w b
         (date_of (now_utc w (snapshots_asked w b
                              ++ [DescribeSnapshots ["self"] tag_filter])))
         r1 s st1)
      (scanned w b).
Proof.
  intros Hd Hs. unfold snapshots_asked in *.
  set (o1 := cleanup_expired_volumes w b empty_results (start w b)) in *.
  destruct (snapshots_scan_turn w b o1.1 o1.2 snaps s Hd Hs) as (r1 & st1 & Hg).
  exists r1, st1. eapply grows_trans; [exact Hg|]. unfold scanned. cbn zeta.
  fold o1.
  eapply grows_trans; [|apply cleanup_expired_eips_grows].
  rewrite <- surjective_pairing. apply grows_refl.
Qed.

Lemma run_address_turn w b addrs a :
  describe_addresses w (addresses_asked w b) tag_filter = Ok addrs ->
  In a addrs ->
  exists r1 st1,
    grows
      (cleanup_eip w b
         (date_of (now_utc w (addresses_asked w b ++ [DescribeAddresses tag_filter])))
         r1 a st1)
      (scanned w b).
Proof.
  intros Hd Ha. unfold addresses_asked in *. cbn zeta in *.
  set (o1 := cleanup_expired_volumes w b empty_results (start w b)) in *.
  set (o2 := cleanup_expired_snapshots w b o1.1 o1.2) in *.
  destruct (addresses_scan_turn w b o2.1 o2.2 addrs a Hd Ha) as (r1 & st1 & Hg).
  exists r1, st1. exact Hg.
Qed.

Lemma grows_log s s' l : grows s s' -> In l (log s.2) -> In l (log s'.2).
Proof. intros [E _]. by apply extends_log. Qed.

Lemma grows_trace s s' c : grows s s' -> In c (trace s.2) -> In c (trace s'.2).
Proof. intros [E _]. by apply extends_trace. Qed.

Lemma grows_volumes_skipped s s' k :
  grows s s' -> In k (volumes_skipped s.1) -> In k (volumes_skipped s'.1).
Proof. intros (_ & [l ->] & _) Hk. apply in_or_app. by left. Qed.

Lemma in_after_log st calls lines l : In l lines -> In l (log (after st calls lines)).
Proof. intros H. cbn [after log]. apply in_or_app. by right. Qed.

Lemma in_after_trace st calls lines c : In c calls -> In c (trace (after st calls lines)).
Proof. intros H. cbn [after trace]. apply in_or_app. by right. Qed.

(** Closes [In x l] when [x] stands in a literal tail of [l]. *)
Ltac in_list :=
  first [ by left | apply in_or_app; right; in_list | right; in_list ].

(** ** Where a request stands in a trace *)

Lemma sent_app tr cs h c :
  sent (tr ++ cs) h c ->
  sent tr h c \/ exists cs1 cs2, cs = cs1 ++ c :: cs2 /\ h = tr ++ cs1.
Proof.
  intros [rest Hr]. apply app_eq_app in Hr as [l [[-> Hl]|[-> Hl]]].
  - destruct l as [|c' l].
    + right. exists [], rest. cbn in Hl. subst cs. by rewrite !app_nil_r.
    + left. cbn in Hl. injection Hl as <- _. by exists l.
  - right. by exists l, rest.
Qed.

Lemma in_sent tr c : In c tr -> exists h, sent tr h c.
Proof. intros H. apply in_split in H as (h & rest & ->). by exists h, rest. Qed.

Lemma sent_in tr h c : sent tr h c -> In c tr.
Proof. intros [rest ->]. apply in_or_app. right. by left. Qed.

Lemma snapshot_first_app w tr cs :
  (forall id, ~ In (DeleteVolume id) cs) ->
  snapshot_first w tr -> snapshot_first w (tr ++ cs).
Proof.
  intros Hcs Htr h id Hs. apply sent_app in Hs as [Hs|(cs1 & cs2 & -> & _)].
  - by apply Htr.
  - exfalso. apply (Hcs id). apply in_or_app. right. by left.
Qed.

Lemma snapshot_first_delete w tr id description tags snapshot_id :
  create_snapshot w tr id description tags = Ok snapshot_id ->
  snapshot_first w tr ->
  snapshot_first w (tr ++ [CreateSnapshot id description tags; DeleteVolume id]).
Proof.
  intros Hok Htr h id' Hs. apply sent_app in Hs as [Hs|(cs1 & cs2 & Hcs & ->)].
  - by apply Htr.
  - destruct cs1 as [|c1 [|c2 cs1]]; cbn in Hcs; simplify_eq.
    + by exists tr, description, tags, snapshot_id.
    + by destruct cs1.
Qed.

Lemma Forall_In {A} (P : A -> Prop) l x : Forall P l -> In x l -> P x.
Proof. intros H Hx. by apply (proj1 (List.Forall_forall P l) H). Qed.

Lemma reads_no_delete cs id :
  Forall (fun c => mutating c = false) cs -> ~ In (DeleteVolume id) cs.
Proof. intros Hcs Hin. by apply (Forall_In _ _ _ Hcs) in Hin. Qed.

Lemma snapshot_first_scanned w b final :
  extends (scanned w b).2 final -> snapshot_first w (trace (scanned w b).2).
Proof.
  intros Hfin.
  apply (scanned_ind w b (fun s => snapshot_first w (trace s.2)) final Hfin).
  - intros r st calls lines Hc Hs. cbn [snd after trace] in *.
    apply snapshot_first_app; [|exact Hs]. intros id. by apply reads_no_delete.
  - intros h id [rest Hr]. by destruct h.
  - intros h vols v r st o _ _ _ Ho Hs. cbn [snd] in *.
    destruct Ho; cbn [snd after trace];
      try (rewrite app_nil_r; exact Hs).
    + apply snapshot_first_app; [|exact Hs]. intros id [Hc|[]]. discriminate.
    + by eapply snapshot_first_delete.
    + by eapply snapshot_first_delete.
  - intros h snaps s r st o _ _ _ Ho Hs. cbn [snd] in *.
    destruct Ho; cbn [snd after trace]; try exact Hs;
      try (rewrite app_nil_r; exact Hs);
      (apply snapshot_first_app; [|exact Hs]; intros id [Hc|[]]; discriminate).
  - intros h addrs a r st o _ _ _ Ho Hs. cbn [snd] in *.
    destruct Ho; cbn [snd after trace]; try exact Hs;
      try (rewrite app_nil_r; exact Hs);
      (apply snapshot_first_app; [|exact Hs]; intros id [Hc|[]]; discriminate).
Qed.

Lemma snapshot_first_run w b : snapshot_first w (trace (run (cleanup_run w b)).2).
Proof.
  pose proof (snapshot_first_scanned w b _ (run_extends_scanned w b)) as Hs.
  destruct (cleanup_run_scanned w b) as (n & lines & -> & _).
  cbn [snd after trace]. apply snapshot_first_app; [|exact Hs].
  intros id Hin. apply in_app_or in Hin as [Hin|[Hin|[]]]; [|discriminate].
  apply in_map_iff in Hin as (item & Hitem & _). discriminate.
Qed.

(** ** Ledger entries *)

Lemma in_ledger_items r item :
  In item (ledger_items r) ->
  (exists e, In e (volumes_deleted r) /\ item = volume_item e)
  \/ (exists e, In e (snapshots_deleted r) /\ item = snapshot_item e)
  \/ (exists e, In e (eips_released r) /\ item = eip_item e).
Proof.
  unfold ledger_items. intros H.
  apply in_app_or in H as [H|H]; [|apply in_app_or in H as [H|H]];
    apply in_map_iff in H as (e & <- & He); eauto.
Qed.

(** No ledger write happens during the scans. *)
Lemma no_put_scanned w b final item :
  extends (scanned w b).2 final -> ~ In (PutItem item) (trace (scanned w b).2).
Proof.
  intros Hfin.
  apply (scanned_ind w b (fun s => ~ In (PutItem item) (trace s.2)) final Hfin).
  - intros r st calls lines Hc Hs Hin. cbn [snd after trace] in *.
    apply in_app_or in Hin as [Hin|Hin]; [by apply Hs|].
    by apply (Forall_In _ _ _ Hc) in Hin.
  - intros [].
  - intros h vols v r st o _ _ _ Ho Hs Hin. cbn [snd] in *.
    destruct Ho; cbn [snd after trace] in Hin;
      apply in_app_or in Hin as [Hin|Hin]; try (by apply Hs);
      repeat (destruct Hin as [Hin|Hin]; try discriminate); done.
  - intros h snaps s r st o _ _ _ Ho Hs Hin. cbn [snd] in *.
    destruct Ho; cbn [snd after trace] in Hin; try (by apply Hs);
      apply in_app_or in Hin as [Hin|Hin]; try (by apply Hs);
      repeat (destruct Hin as [Hin|Hin]; try discriminate); done.
  - intros h addrs a r st o _ _ _ Ho Hs Hin. cbn [snd] in *.
    destruct Ho; cbn [snd after trace] in Hin; try (by apply Hs);
      apply in_app_or in Hin as [Hin|Hin]; try (by apply Hs);
      repeat (destruct Hin as [Hin|Hin]; try discriminate); done.
Qed.

(** Every ledger entry put in a run is the entry of a deletion the scans
    recorded. *)
Lemma run_put_recorded w b item :
  In (PutItem item) (trace (run (cleanup_run w b)).2) ->
  In item (ledger_items (scanned w b).1).
Proof.
  pose proof (no_put_scanned w b _ item (run_extends_scanned w b)) as Hno.
  destruct (cleanup_run_scanned w b) as (n & lines & -> & _).
  cbn [snd after trace]. intros Hin.
  apply in_app_or in Hin as [Hin|Hin]; [done|].
  apply in_app_or in Hin as [Hin|[Hin|[]]]; [|discriminate].
  apply in_map_iff in Hin as (item' & Hitem & Hin). injection Hitem as ->.
  rewrite <- (firstn_skipn n (ledger_items _)). apply in_or_app. by left.
Qed.

(** ** Deletions carried out and deletions recorded *)

Lemma flat_map_changes_app (sel : call -> list string) w tr cs :
  flat_map sel (changes w (tr ++ cs))
  = flat_map sel (changes w tr) ++ flat_map sel (changes_from w tr cs).
Proof. by rewrite changes_app, flat_map_app. Qed.

Lemma recorded_reads w : kept_by_reads (recorded w).
Proof.
  intros r st calls lines Hc (Hv & Hs & He).
  unfold recorded, destroyed_volumes, destroyed_snapshots, released_addresses in *.
  cbn [fst snd after trace] in *.
  rewrite !flat_map_changes_app, changes_from_reads by done. cbn [flat_map].
  by rewrite !app_nil_r.
Qed.

Lemma recorded_scanned w b final :
  extends (scanned w b).2 final -> recorded w (scanned w b).
Proof.
  intros Hfin. apply (scanned_ind w b (recorded w) final Hfin (recorded_reads w)).
  - by repeat split.
  - intros h vols v r st o _ _ _ Ho (Hv & Hs & He).
    unfold recorded, destroyed_volumes, destroyed_snapshots, released_addresses in *.
    cbn [fst snd] in *.
    destruct Ho; cbn [fst snd after trace skip_volume add_volume volumes_deleted
                      snapshots_deleted eips_released];
      rewrite ?app_nil_r; try done;
      unfold snapshot_call in *; rewrite !flat_map_changes_app;
      cbn [changes_from carried_out app];
      repeat match goal with H : _ = Ok _ |- _ => rewrite H end;
      repeat match goal with H : _ = Raise _ |- _ => rewrite H end;
      cbn [flat_map app]; rewrite ?map_app, ?app_nil_r; cbn [map dv_volume_id];
      by rewrite Hv, Hs, He.
  - intros h snaps s r st o _ _ _ Ho (Hv & Hs & He).
    unfold recorded, destroyed_volumes, destroyed_snapshots, released_addresses in *.
    cbn [fst snd] in *.
    destruct Ho; cbn [fst snd after trace skip_snapshot add_snapshot volumes_deleted
                      snapshots_deleted eips_released];
      rewrite ?app_nil_r; try done;
      rewrite !flat_map_changes_app;
      cbn [changes_from carried_out app];
      repeat match goal with H : _ = Ok _ |- _ => rewrite H end;
      repeat match goal with H : _ = Raise _ |- _ => rewrite H end;
      cbn [flat_map app]; rewrite ?map_app, ?app_nil_r; cbn [map ds_snapshot_id];
      by rewrite Hv, Hs, He.
  - intros h addrs a r st o _ _ _ Ho (Hv & Hs & He).
    unfold recorded, destroyed_volumes, destroyed_snapshots, released_addresses in *.
    cbn [fst snd] in *.
    destruct Ho; cbn [fst snd after trace add_eip volumes_deleted
                      snapshots_deleted eips_released];
      rewrite ?app_nil_r; try done;
      rewrite !flat_map_changes_app;
      cbn [changes_from carried_out app];
      repeat match goal with H : _ = Ok _ |- _ => rewrite H end;
      repeat match goal with H : _ = Raise _ |- _ => rewrite H end;
      cbn [flat_map app]; rewrite ?map_app, ?app_nil_r; cbn [map re_allocation_id];
      by rewrite Hv, Hs, He.
Qed.

(** ** A dry run *)

Lemma idle_reads : kept_by_reads idle.
Proof.
  intros r st calls lines Hc (Ht & Hv & Hs & He). repeat split; try done.
  cbn [snd after trace]. apply Forall_app. by split.
Qed.

Lemma idle_prints r r' st lines :
  volumes_deleted r' = volumes_deleted r ->
  snapshots_deleted r' = snapshots_deleted r ->
  eips_released r' = eips_released r ->
  idle (r, st) -> idle (r', after st [] lines).
Proof.
  intros Hv Hs He (Ht & Hv' & Hs' & He'). cbn [fst snd] in *.
  repeat split; cbn [fst snd after trace]; try congruence.
  by rewrite app_nil_r.
Qed.

Lemma dry_run_idle w final :
  extends (scanned w true).2 final -> idle (scanned w true).
Proof.
  intros Hfin. apply (scanned_ind w true idle final Hfin idle_reads).
  - by repeat split.
  - intros h vols v r st o _ _ _ Ho Hi.
    destruct Ho; try discriminate; by apply (idle_prints r).
  - intros h snaps s r st o _ _ _ Ho Hi.
    destruct Ho; try discriminate; try exact Hi; by apply (idle_prints r).
  - intros h addrs a r st o _ _ _ Ho Hi.
    destruct Ho; try discriminate; try exact Hi; by apply (idle_prints r).
Qed.

(** C5: a run with the dry-run switch on sends read requests and the
    report only: no request that changes a resource or the ledger is sent
    (no safety snapshot, no deletion, no release, no tagging, no ledger
    write), so the services carried out no change, and the results record
    no deletion. The three scans still ask the inventory and classify what
    it answers: for an eligible volume, snapshot or address the line
    [DRY RUN: Would ...] is printed, a volume or address in use again is
    skipped as in a real run, and the report is published. *)
Theorem dry_run_changes_nothing (w : world) :
  let results := (run (cleanup_run w true)).1 in
  let st := (run (cleanup_run w true)).2 in
  Forall (fun c => mutating c = false) (trace st)
  /\ changes w (trace st) = []
  /\ ledger_puts (trace st) = []
  /\ volumes_deleted results = []
  /\ snapshots_deleted results = []
  /\ eips_released results = []
  /\ (exists h,
        sent (trace st) h (DescribeVolumes tag_filter [])
        /\ forall vols v,
             describe_volumes w h tag_filter [] = Ok vols -> In v vols ->
             match volume_phase
                     (date_of (now_utc w (h ++ [DescribeVolumes tag_filter []]))) v
             with
             | Eligible =>
                 In (line_volume_dry_run (VolumeId v) (Size v) (VolumeType v)
                       (volume_cost (Size v) (VolumeType v))) (log st)
             | NowInUse =>
                 In (Skipped (VolumeId v) "attached_to_instance")
                   (volumes_skipped results)
                 /\ In (line_volume_attached (VolumeId v)) (log st)
             | _ => True
             end)
  /\ (exists h,
        sent (trace st) h (DescribeSnapshots ["self"] tag_filter)
        /\ forall snaps s,
             describe_snapshots w h ["self"] tag_filter = Ok snaps -> In s snaps ->
             snapshot_phase
               (date_of (now_utc w (h ++ [DescribeSnapshots ["self"] tag_filter]))) s
             = Eligible ->
             In (line_snapshot_dry_run (SnapshotId s) (VolumeSize s) (snapshot_cost s))
               (log st))
  /\ (exists h,
        sent (trace st) h (DescribeAddresses tag_filter)
        /\ forall addrs a,
             describe_addresses w h tag_filter = Ok addrs -> In a addrs ->
             match address_phase
                     (date_of (now_utc w (h ++ [DescribeAddresses tag_filter]))) a
             with
             | Eligible => In (line_eip_dry_run (PublicIp a) (AllocationId a)) (log st)
             | NowInUse =>
                 In (line_eip_associated (AllocationId a) (PublicIp a)) (log st)
             | _ => True
             end)
  /\ In (Publish SNS_TOPIC_ARN (cleanup_subject results) (cleanup_message results))
       (trace st).
Proof.
  cbn zeta.
  pose proof (run_extends_scanned w true) as Hext.
  pose proof (dry_run_idle w _ Hext) as (Hreads & Hv & Hs & He).
  destruct (cleanup_run_scanned w true) as (n & lines & Hrun & _).
  assert (Hitems : ledger_items (scanned w true).1 = [])
    by (unfold ledger_items; by rewrite Hv, Hs, He).
  rewrite Hitems, take_nil in Hrun. cbn [map app] in Hrun.
  rewrite Hrun in *. cbn [fst snd].
  assert (Hall : Forall (fun c => mutating c = false)
                   (trace (after (scanned w true).2
                             [Publish SNS_TOPIC_ARN (cleanup_subject (scanned w true).1)
                                (cleanup_message (scanned w true).1)] lines))).
  { cbn [after trace]. apply Forall_app. split; [exact Hreads|]. by repeat constructor. }
  split; [exact Hall|]. split; [by apply changes_from_reads|].
  split.
  { unfold ledger_puts. clear -Hall. induction Hall as [|c l Hc _ IH]; [done|].
    cbn [flat_map]. rewrite IH. by destruct c. }
  do 3 (split; [done|]).
  split; [|split; [|split]].
  - exists (volumes_asked w true). split; [by apply volumes_asked_sent|].
    intros vols v Hd Hin.
    destruct (run_volume_turn w true vols v Hd Hin) as (r1 & st1 & Hg).
    set (today := date_of _) in *.
    pose proof (cleanup_volume_outcome w true today r1 v st1) as Ho.
    destruct (cleanup_volume w true today r1 v st1) as [r2 st2].
    assert (Hlog : forall l, In l (log st2) ->
              In l (log (after (scanned w true).2
                          [Publish SNS_TOPIC_ARN (cleanup_subject (scanned w true).1)
                             (cleanup_message (scanned w true).1)] lines))).
    { intros l Hl. eapply extends_log; [apply extends_after|].
      by apply (grows_log _ _ l Hg). }
    inversion Ho as [Hp|d Hd' Hp|Hp|Hp Hb|e Hp Hb|sid Hp Hb|sid e Hp Hb];
      subst; rewrite Hp; try done.
    + split.
      * apply (grows_volumes_skipped _ _ _ Hg). cbn [fst skip_volume volumes_skipped].
        in_list.
      * apply Hlog. apply in_after_log; in_list.
    + apply Hlog. apply in_after_log; in_list.
  - exists (snapshots_asked w true). split; [by apply snapshots_asked_sent|].
    intros snaps s Hd Hin Hp.
    destruct (run_snapshot_turn w true snaps s Hd Hin) as (r1 & st1 & Hg).
    set (today := date_of _) in *.
    pose proof (cleanup_snapshot_outcome w true today r1 s st1) as Ho.
    destruct (cleanup_snapshot w true today r1 s st1) as [r2 st2].
    eapply extends_log; [apply extends_after|]. apply (grows_log _ _ _ Hg).
    inversion Ho; subst; try done. apply in_after_log; in_list.
  - exists (addresses_asked w true). split; [by apply addresses_asked_sent|].
    intros addrs a Hd Hin.
    destruct (run_address_turn w true addrs a Hd Hin) as (r1 & st1 & Hg).
    set (today := date_of _) in *.
    pose proof (cleanup_eip_outcome w true today r1 a st1) as Ho.
    destruct (cleanup_eip w true today r1 a st1) as [r2 st2].
    assert (Hlog : forall l, In l (log st2) ->
              In l (log (after (scanned w true).2
                          [Publish SNS_TOPIC_ARN (cleanup_subject (scanned w true).1)
                             (cleanup_message (scanned w true).1)] lines))).
    { intros l Hl. eapply extends_log; [apply extends_after|].
      by apply (grows_log _ _ l Hg). }
    inversion Ho as [[Hp|Hp]|Hp|Hp Hb|Hp Hb|e Hp Hb]; subst; rewrite Hp; try done.
    + apply Hlog. apply in_after_log; in_list.
    + apply Hlog. apply in_after_log; in_list.
  - apply in_after_trace. by left.
Qed.

(** ** A safety snapshot that fails *)

(** A volume whose safety snapshot cannot be taken is never recorded as
    deleted. *)
Lemma never_deleted_scanned w b final id :
  extends (scanned w b).2 final ->
  (forall h description tags,
      exists e, create_snapshot w h id description tags = Raise e) ->
  Forall (fun e => dv_volume_id e <> id) (volumes_deleted (scanned w b).1).
Proof.
  intros Hfin Hfail.
  apply (scanned_ind w b
           (fun s => Forall (fun e => dv_volume_id e <> id) (volumes_deleted s.1))
           final Hfin).
  - intros r st calls lines _ H. exact H.
  - constructor.
  - intros h vols v r st o _ _ _ Ho H. cbn [fst] in *.
    destruct Ho; cbn [fst skip_volume add_volume volumes_deleted]; try exact H.
    apply Forall_app. split; [exact H|]. repeat constructor.
    cbn [dv_volume_id]. intros <-.
    match goal with Hc : create_snapshot _ _ _ ?d ?t = Ok _ |- _ =>
      destruct (Hfail (trace st) d t) as [e He]; congruence end.
  - intros h snaps s r st o _ _ _ Ho H. cbn [fst] in *.
    destruct Ho; cbn [fst skip_snapshot add_snapshot volumes_deleted]; exact H.
  - intros h addrs a r st o _ _ _ Ho H. cbn [fst] in *.
    destruct Ho; cbn [fst add_eip volumes_deleted]; exact H.
Qed.

(** C1: in a run with the dry-run switch off and the date [today], take a
    volume [v] of the tagged inventory whose deadline [d] has passed
    ([d <= today]), which has no attachment, and whose safety snapshot the
    service refuses whenever it is asked for. Then no request to delete
    [v] is ever sent, [v] is in the skipped volumes with a reason that
    starts with [snapshot_failed: ] followed by the service's error, and no
    volume entry with [v]'s identifier is put in the ledger. Turn by turn:
    when the snapshot request of [v]'s turn fails with [e], the turn sends
    that request and no other, prints the error and adds [v] to the skipped
    volumes with the reason [snapshot_failed: e]. And in every run a
    request to delete a volume is only sent right after a safety snapshot
    of that very volume that succeeded. *)
Theorem snapshot_failure_never_deletes (w : world) (today : date)
    (vols : list volume) (v : volume) (d : date) :
  let results := (run (cleanup_run w false)).1 in
  let st := (run (cleanup_run w false)).2 in
  (forall h, date_of (now_utc w h) = today) ->
  (forall h, sent (trace st) h (DescribeVolumes tag_filter []) ->
             describe_volumes w h tag_filter [] = Ok vols) ->
  In v vols ->
  deadline_of (VolumeTags v) = Some d ->
  date_le d today = true ->
  Attachments v = [] ->
  (forall h description tags,
      exists e, create_snapshot w h (VolumeId v) description tags = Raise e) ->
  ~ In (DeleteVolume (VolumeId v)) (trace st)
  /\ (exists e,
        In (Skipped (VolumeId v) ("snapshot_failed: " +:+ e))
          (volumes_skipped results))
  /\ (forall item,
        In (PutItem item) (trace st) ->
        item !! "resource_type" = Some (AttrS "ebs_volume") ->
        item !! "resource_id" <> Some (AttrS (VolumeId v)))
  /\ (forall r st0 e,
        create_snapshot w (trace st0) (VolumeId v) (snapshot_description (VolumeId v))
          (snapshot_tags (VolumeId v) today) = Raise e ->
        cleanup_volume w false today r v st0
        = (skip_volume r (VolumeId v) ("snapshot_failed: " +:+ e),
           after st0 [snapshot_call today v]
             (deadline_warnings (VolumeId v) (VolumeTags v)
              ++ [line_snapshot_error (VolumeId v) e])))
  /\ snapshot_first w (trace st).
Proof.
  cbn zeta. intros Hdate Hans Hin Hd Hle Hatt Hfail.
  pose proof (run_extends_scanned w false) as Hext.
  pose proof (snapshot_first_run w false) as Hfirst.
  assert (Hph : volume_phase today v = Eligible)
    by (unfold volume_phase, classify, attached; by rewrite Hd, Hle, Hatt).
  split; [|split; [|split; [|split; [|exact Hfirst]]]].
  4:{ intros r st0 e Hc.
      pose proof (cleanup_volume_outcome w false today r v st0) as Ho.
      inversion Ho as [Hp|d' Hd' Hp|Hp|Hp Hb|e' Hp Hb Hc' Heq|sid Hp Hb Hc'|sid e' Hp Hb Hc'];
        congruence. }
  - intros Hdel. apply in_sent in Hdel as [h Hs].
    destruct (Hfirst h _ Hs) as (h' & description & tags & sid & _ & Hok).
    destruct (Hfail h' description tags) as [e He]. congruence.
  - pose proof (Hans _ (volumes_asked_sent w false _ Hext)) as Hvols.
    destruct (run_volume_turn w false vols v Hvols Hin) as (r1 & st1 & Hg).
    rewrite Hdate in Hg.
    pose proof (cleanup_volume_outcome w false today r1 v st1) as Ho.
    destruct (cleanup_volume w false today r1 v st1) as [r2 st2].
    destruct (cleanup_run_scanned w false) as (n & lines & -> & _). cbn [fst].
    inversion Ho as [Hp|d' Hd' Hp|Hp|Hp Hb|e Hp Hb Hc|sid Hp Hb Hc|sid e Hp Hb Hc];
      subst; try congruence.
    + exists e. apply (grows_volumes_skipped _ _ _ Hg).
      cbn [fst skip_volume volumes_skipped]. in_list.
    + destruct (Hfail (trace st1) (snapshot_description (VolumeId v))
                  (snapshot_tags (VolumeId v) today)) as [e He]. congruence.
    + destruct (Hfail (trace st1) (snapshot_description (VolumeId v))
                  (snapshot_tags (VolumeId v) today)) as [e' He]. congruence.
  - intros item Hput Hty Hid.
    apply run_put_recorded in Hput.
    pose proof (never_deleted_scanned w false _ (VolumeId v) Hext Hfail) as Hnever.
    apply in_ledger_items in Hput as [(e & He & ->)|[(e & He & ->)|(e & He & ->)]].
    + apply (Forall_In _ _ _ Hnever) in He. apply He.
      change (Some (AttrS (dv_volume_id e)) = Some (AttrS (VolumeId v))) in Hid.
      congruence.
    + discriminate Hty.
    + discriminate Hty.
Qed.

(** ** The date of the recorded deletions *)

Lemma dated_scanned w b today final :
  (forall h, date_of (now_utc w h) = today) ->
  extends (scanned w b).2 final -> dated today (scanned w b).
Proof.
  intros Hclock Hfin.
  apply (scanned_ind w b (dated today) final Hfin).
  - by intros r st calls lines _ H.
  - by repeat split.
  - intros h vols v r st o _ _ _ Ho (Hv & Hs & He). rewrite Hclock in Ho.
    destruct Ho; repeat split; cbn [fst add_volume skip_volume volumes_deleted
      snapshots_deleted eips_released]; try done.
    apply Forall_app. split; [done|]. by constructor.
  - intros h snaps s r st o _ _ _ Ho (Hv & Hs & He). rewrite Hclock in Ho.
    destruct Ho; repeat split; cbn [fst add_snapshot skip_snapshot volumes_deleted
      snapshots_deleted eips_released]; try done.
    apply Forall_app. split; [done|]. by constructor.
  - intros h addrs a r st o _ _ _ Ho (Hv & Hs & He). rewrite Hclock in Ho.
    destruct Ho; repeat split; cbn [fst add_eip volumes_deleted
      snapshots_deleted eips_released]; try done.
    apply Forall_app. split; [done|]. by constructor.
Qed.

(** ** The ledger of a run *)

Lemma ledger_puts_app tr cs : ledger_puts (tr ++ cs) = ledger_puts tr ++ ledger_puts cs.
Proof. apply flat_map_app. Qed.

Lemma ledger_puts_items items : ledger_puts (map PutItem items) = items.
Proof. induction items as [|i items IH]; [done|]. cbn. by f_equal. Qed.

Lemma ledger_puts_none tr :
  (forall item, ~ In (PutItem item) tr) -> ledger_puts tr = [].
Proof.
  induction tr as [|c tr IH]; intros Hno; [done|].
  unfold ledger_puts in *. cbn [flat_map].
  rewrite IH by (intros item Hin; apply (Hno item); by right).
  destruct c; try done. exfalso. apply (Hno item). by left.
Qed.

(** Requests that [sel] leaves out add nothing to the selected changes. *)
Lemma changes_from_unselected (sel : call -> list string) w h cs :
  Forall (fun c => sel c = []) cs -> flat_map sel (changes_from w h cs) = [].
Proof.
  revert h. induction cs as [|c cs IH]; intros h Hcs; [done|].
  inversion Hcs as [|? ? Hc Hcs']; subst. cbn [changes_from].
  rewrite flat_map_app, IH by done.
  destruct (carried_out w h c); cbn [flat_map]; by rewrite ?Hc.
Qed.

(** The trace of a run whose ledger writes are all accepted. *)
Lemma run_trace_accepted w b :
  (forall h item, put_item w h item = Ok tt) ->
  trace (run (cleanup_run w b)).2
  = trace (scanned w b).2
    ++ map PutItem (ledger_items (scanned w b).1)
    ++ [Publish SNS_TOPIC_ARN (cleanup_subject (scanned w b).1)
          (cleanup_message (scanned w b).1)].
Proof.
  intros Hput. destruct (cleanup_run_scanned w b) as (n & lines & -> & Hn).
  rewrite (Hn Hput), firstn_all. done.
Qed.

Lemma run_ledger_puts w b :
  (forall h item, put_item w h item = Ok tt) ->
  ledger_puts (trace (run (cleanup_run w b)).2) = ledger_items (scanned w b).1.
Proof.
  intros Hput. rewrite (run_trace_accepted w b Hput), !ledger_puts_app.
  rewrite ledger_puts_items, ledger_puts_none.
  - cbn. by rewrite app_nil_r.
  - intros item. apply (no_put_scanned w b _ item (extends_refl _)).
Qed.

Lemma run_destroyed (sel : call -> list string) w b :
  (forall h item, put_item w h item = Ok tt) ->
  (forall item, sel (PutItem item) = []) ->
  (forall arn subject message, sel (Publish arn subject message) = []) ->
  flat_map sel (changes w (trace (run (cleanup_run w b)).2))
  = flat_map sel (changes w (trace (scanned w b).2)).
Proof.
  intros Hput Hsel Hpub. rewrite (run_trace_accepted w b Hput).
  rewrite flat_map_changes_app, changes_from_unselected; [by rewrite app_nil_r|].
  apply Forall_app. split; [|by repeat constructor].
  apply List.Forall_forall. intros c Hin.
  apply in_map_iff in Hin as (item & <- & _). apply Hsel.
Qed.

(** ** Ledger entries by kind *)

Lemma volume_item_fields e :
  ledger_entry "volume" "ebs_volume" (dv_deleted_date e) (dv_volume_id e) (volume_item e).
Proof. by repeat split. Qed.

Lemma snapshot_item_fields e :
  ledger_entry "snapshot" "snapshot" (ds_deleted_date e) (ds_snapshot_id e) (snapshot_item e).
Proof. by repeat split. Qed.

Lemma eip_item_fields e :
  ledger_entry "eip" "elastic_ip" (re_released_date e) (re_allocation_id e) (eip_item e).
Proof. by repeat split. Qed.

Lemma filter_kind {A} (f : A -> gmap string attr) (kind kind' : string) xs :
  (forall x, f x !! "resource_type" = Some (AttrS kind')) ->
  List.filter (fun item => bool_decide (item !! "resource_type" = Some (AttrS kind)))
    (map f xs)
  = if bool_decide (kind' = kind) then map f xs else [].
Proof.
  intros Hf. induction xs as [|x xs IH]; [by case_bool_decide|].
  cbn [map List.filter]. rewrite IH, Hf.
  repeat case_bool_decide; try done; simplify_eq.
Qed.

Lemma ledger_items_of_kind r kind :
  List.filter (fun item => bool_decide (item !! "resource_type" = Some (AttrS kind)))
    (ledger_items r)
  = (if bool_decide ("ebs_volume" = kind) then map volume_item (volumes_deleted r) else [])
    ++ (if bool_decide ("snapshot" = kind) then map snapshot_item (snapshots_deleted r) else [])
    ++ (if bool_decide ("elastic_ip" = kind) then map eip_item (eips_released r) else []).
Proof.
  unfold ledger_items. rewrite !List.filter_app.
  rewrite (filter_kind volume_item kind "ebs_volume") by done.
  rewrite (filter_kind snapshot_item kind "snapshot") by done.
  by rewrite (filter_kind eip_item kind "elastic_ip") by done.
Qed.

Lemma entries_match {A} (prefix kind today : string) (id date : A -> string)
    (f : A -> gmap string attr) xs :
  (forall x, ledger_entry prefix kind (date x) (id x) (f x)) ->
  Forall (fun x => date x = today) xs ->
  Forall2 (ledger_entry prefix kind today) (map id xs) (map f xs).
Proof.
  intros Hf Hd. induction Hd as [|x xs Hx Hxs IH]; [constructor|].
  cbn [map]. constructor; [|exact IH]. rewrite <- Hx. apply Hf.
Qed.

(** C2: in a run on the date [today] whose ledger writes are all accepted,
    the ledger entries put for volumes are, one for one and in order, the
    volumes the service deleted; the same for the snapshots deleted and
    for the addresses released; and no other entry is put. The entry of a
    resource [id] has the key [prefix-id-date] (prefix [volume], [snapshot]
    or [eip]; [date] the run date as [YYYY-MM-DD]), the resource type
    [ebs_volume], [snapshot] or [elastic_ip], [resource_id = id] and
    [deleted_date = date]. *)
Theorem every_deletion_logged_once (w : world) (b : bool) (today : date) :
  (forall h item, put_item w h item = Ok tt) ->
  (forall h, date_of (now_utc w h) = today) ->
  let tr := trace (run (cleanup_run w b)).2 in
  Forall2 (ledger_entry "volume" "ebs_volume" (isoformat today))
    (destroyed_volumes w tr) (ledger_puts_of "ebs_volume" tr)
  /\ Forall2 (ledger_entry "snapshot" "snapshot" (isoformat today))
       (destroyed_snapshots w tr) (ledger_puts_of "snapshot" tr)
  /\ Forall2 (ledger_entry "eip" "elastic_ip" (isoformat today))
       (released_addresses w tr) (ledger_puts_of "elastic_ip" tr)
  /\ ledger_puts tr
     = ledger_puts_of "ebs_volume" tr ++ ledger_puts_of "snapshot" tr
       ++ ledger_puts_of "elastic_ip" tr.
Proof.
  intros Hput Hclock tr. subst tr.
  destruct (recorded_scanned w b _ (extends_refl _)) as (Rv & Rs & Re).
  destruct (dated_scanned w b today _ Hclock (extends_refl _)) as (Dv & Ds & De).
  unfold destroyed_volumes, destroyed_snapshots, released_addresses, ledger_puts_of in *.
  rewrite !(run_destroyed _ w b Hput) by done.
  rewrite (run_ledger_puts w b Hput), Rv, Rs, Re, !ledger_items_of_kind.
  repeat case_bool_decide; try done. rewrite ?app_nil_r. cbn [app].
  repeat split.
  - apply (entries_match _ _ _ _ dv_deleted_date); [apply volume_item_fields|exact Dv].
  - apply (entries_match _ _ _ _ ds_deleted_date); [apply snapshot_item_fields|exact Ds].
  - apply (entries_match _ _ _ _ re_released_date); [apply eip_item_fields|exact De].
Qed.

(** ** Resources in use again *)

Lemma not_in_after st calls lines c :
  ~ In c (trace st) -> ~ In c calls -> ~ In c (trace (after st calls lines)).
Proof.
  intros Hst Hc Hin. cbn [after trace] in Hin.
  apply in_app_or in Hin as [Hin|Hin]; tauto.
Qed.

Lemma reads_not_mutating calls c :
  Forall (fun c => mutating c = false) calls -> mutating c = true -> ~ In c calls.
Proof.
  intros Hc Hm Hin. apply (Forall_In _ _ _ Hc) in Hin. congruence.
Qed.



Lemma volume_kept_reads id : kept_by_reads (volume_kept id).
Proof.
  intros r st calls lines Hc (Hdel & Hsnap & Hrec & Hskip).
  repeat split; cbn [fst]; try done.
  - apply not_in_after; [done|]. by apply reads_not_mutating.
  - intros description tags. apply not_in_after; [done|]. by apply reads_not_mutating.
Qed.

Lemma address_kept_reads id : kept_by_reads (address_kept id).
Proof.
  intros r st calls lines Hc (Hrel & Hrec). split; cbn [fst]; [|done].
  apply not_in_after; [done|]. by apply reads_not_mutating.
Qed.

(** Splits [volume_kept] after a turn that sent [calls]. *)
Lemma volume_kept_turn id r r' st calls lines :
  volume_kept id (r, st) ->
  ~ In (DeleteVolume id) calls ->
  (forall description tags, ~ In (CreateSnapshot id description tags) calls) ->
  Forall (fun e => dv_volume_id e <> id) (volumes_deleted r') ->
  Forall (fun k => skipped_id k = id -> reason k = "attached_to_instance")
    (volumes_skipped r') ->
  volume_kept id (r', after st calls lines).
Proof.
  intros (Hdel & Hsnap & _ & _) Hd Hs Hrec Hskip. repeat split; cbn [fst snd]; try done.
  - by apply not_in_after.
  - intros description tags. by apply not_in_after.
Qed.

Ltac no_such_call :=
  cbn [In]; intros Hcall;
  repeat (destruct Hcall as [Hcall|Hcall]; [simplify_eq|]); try done.

Lemma volume_kept_scanned w b final vols id :
  extends (scanned w b).2 final ->
  (forall h, sent (trace final) h (DescribeVolumes tag_filter []) ->
             describe_volumes w h tag_filter [] = Ok vols) ->
  (forall h v, In v vols -> VolumeId v = id ->
               volume_phase (date_of (now_utc w h)) v <> Eligible) ->
  volume_kept id (scanned w b).
Proof.
  intros Hfin Hans Hatt.
  apply (scanned_ind w b (volume_kept id) final Hfin (volume_kept_reads id)).
  - repeat split; cbn; try constructor; tauto.
  - intros h vols' v r st o Hs Hd Hin Ho Hk.
    rewrite (Hans h Hs) in Hd. injection Hd as <-.
    pose proof Hk as (_ & _ & Hrec & Hskip). cbn [fst] in Hrec, Hskip.
    destruct (decide (VolumeId v = id)) as [Heq|Hne].
    + pose proof (Hatt (h ++ [DescribeVolumes tag_filter []]) v Hin Heq) as Hp.
      destruct Ho; try done;
        apply (volume_kept_turn id r); try done;
        try (intros ? ?; tauto); try tauto.
      cbn [skip_volume volumes_skipped]. apply Forall_app. split; [done|].
      by repeat constructor.
    + destruct Ho; apply (volume_kept_turn id r); try done;
        try (intros ? ?); unfold snapshot_call; try no_such_call;
        cbn [skip_volume add_volume volumes_skipped volumes_deleted]; try done;
        apply Forall_app; (split; [done|]); by repeat constructor.
  - intros h snaps s r st o _ _ _ Ho Hk.
    pose proof Hk as (_ & _ & Hrec & Hskip). cbn [fst] in Hrec, Hskip.
    destruct Ho; try done; apply (volume_kept_turn id r); try done;
      try (intros ? ?); no_such_call.
  - intros h addrs a r st o _ _ _ Ho Hk.
    pose proof Hk as (_ & _ & Hrec & Hskip). cbn [fst] in Hrec, Hskip.
    destruct Ho; try done; apply (volume_kept_turn id r); try done;
      try (intros ? ?); no_such_call.
Qed.

Lemma address_kept_scanned w b final addrs id :
  extends (scanned w b).2 final ->
  (forall h, sent (trace final) h (DescribeAddresses tag_filter) ->
             describe_addresses w h tag_filter = Ok addrs) ->
  (forall h a, In a addrs -> AllocationId a = id ->
               address_phase (date_of (now_utc w h)) a <> Eligible) ->
  address_kept id (scanned w b).
Proof.
  intros Hfin Hans Hatt.
  apply (scanned_ind w b (address_kept id) final Hfin (address_kept_reads id)).
  - split; cbn; [tauto|constructor].
  - intros h vols v r st o _ _ _ Ho (Hrel & Hrec). cbn [fst snd] in *.
    destruct Ho; (split; [apply not_in_after; [done|no_such_call]|done]).
  - intros h snaps s r st o _ _ _ Ho (Hrel & Hrec). cbn [fst snd] in *.
    destruct Ho; try done; (split; [apply not_in_after; [done|no_such_call]|done]).
  - intros h addrs' a r st o Hs Hd Hin Ho (Hrel & Hrec). cbn [fst snd] in *.
    rewrite (Hans h Hs) in Hd. injection Hd as <-.
    destruct (decide (AllocationId a = id)) as [Heq|Hne].
    + pose proof (Hatt (h ++ [DescribeAddresses tag_filter]) a Hin Heq) as Hp.
      destruct Ho; try done;
        (split; [apply not_in_after; [done|no_such_call]|done]).
    + destruct Ho; try done;
        (split; [apply not_in_after; [done|no_such_call]|]);
        cbn [fst add_eip eips_released]; try done.
      apply Forall_app. split; [done|]. by repeat constructor.
Qed.

Lemma snapshot_kept_scanned w b final snaps id :
  extends (scanned w b).2 final ->
  (forall h, sent (trace final) h (DescribeSnapshots ["self"] tag_filter) ->
             describe_snapshots w h ["self"] tag_filter = Ok snaps) ->
  (forall h s, In s snaps -> SnapshotId s = id ->
               snapshot_phase (date_of (now_utc w h)) s <> Eligible) ->
  snapshot_kept id (scanned w b).
Proof.
  intros Hfin Hans Hne.
  apply (scanned_ind w b (snapshot_kept id) final Hfin).
  - intros r st calls lines Hc (Hdel & Hrec). split; cbn [fst]; [|done].
    apply not_in_after; [done|]. by apply reads_not_mutating.
  - split; cbn; [tauto|constructor].
  - intros h vols v r st o _ _ _ Ho (Hdel & Hrec). cbn [fst snd] in *.
    destruct Ho; (split; [apply not_in_after; [done|no_such_call]|done]).
  - intros h snaps' s r st o Hs Hd Hin Ho (Hdel & Hrec). cbn [fst snd] in *.
    rewrite (Hans h Hs) in Hd. injection Hd as <-.
    destruct (decide (SnapshotId s = id)) as [Heq|Hneq].
    + pose proof (Hne (h ++ [DescribeSnapshots ["self"] tag_filter]) s Hin Heq) as Hp.
      destruct Ho; try done.
    + destruct Ho; try done;
        (split; [apply not_in_after; [done|no_such_call]|]);
        cbn [fst add_snapshot skip_snapshot snapshots_deleted]; try done.
      apply Forall_app. split; [done|]. by repeat constructor.
  - intros h addrs a r st o _ _ _ Ho (Hdel & Hrec). cbn [fst snd] in *.
    destruct Ho; try done; (split; [apply not_in_after; [done|no_such_call]|done]).
Qed.

Lemma same_id {A} (f : A -> string) (l : list A) x y :
  List.NoDup (map f l) -> In x l -> In y l -> f x = f y -> x = y.
Proof.
  induction l as [|z l IH]; intros Hnd Hx Hy Hf; [done|].
  cbn [map] in Hnd. apply List.NoDup_cons_iff in Hnd as [Hz Hnd].
  destruct Hx as [->|Hx], Hy as [->|Hy]; try done.
  - destruct Hz. rewrite Hf. by apply in_map.
  - destruct Hz. rewrite <- Hf. by apply in_map.
  - by apply IH.
Qed.

(** A request of a run is one of the scans, a ledger write or the report. *)
Lemma run_trace_cases w b c :
  In c (trace (run (cleanup_run w b)).2) ->
  In c (trace (scanned w b).2)
  \/ (exists item, c = PutItem item)
  \/ (exists arn subject message, c = Publish arn subject message).
Proof.
  destruct (cleanup_run_scanned w b) as (n & lines & -> & _).
  cbn [snd after trace]. intros Hin.
  apply in_app_or in Hin as [Hin|Hin]; [by left|]. right.
  apply in_app_or in Hin as [Hin|[<-|[]]]; [left|right; eauto].
  apply in_map_iff in Hin as (item & <- & _). eauto.
Qed.

Lemma run_results w b : (run (cleanup_run w b)).1 = (scanned w b).1.
Proof. by rewrite cleanup_run_eq. Qed.

Lemma run_log_scanned w b l :
  In l (log (scanned w b).2) -> In l (log (run (cleanup_run w b)).2).
Proof. apply extends_log, run_extends_scanned. Qed.


(** ** Only tracked resources are touched *)






(** ** The grace period *)

Lemma grace_not_eligible d in_use today :
  date_le d today = false -> classify (Some d) in_use today <> Eligible.
Proof. unfold classify. by intros ->. Qed.

(** No entry of the kind [kind] is put for [id] when no deletion of [id]
    is recorded under that kind. *)
Lemma no_entry_put w b (kind id : string) :
  (forall item, In item (ledger_items (scanned w b).1) ->
                item !! "resource_type" = Some (AttrS kind) ->
                item !! "resource_id" <> Some (AttrS id)) ->
  forall item,
    In (PutItem item) (trace (run (cleanup_run w b)).2) ->
    item !! "resource_type" = Some (AttrS kind) ->
    item !! "resource_id" <> Some (AttrS id).
Proof. intros Hno item Hput. apply Hno. by apply run_put_recorded. Qed.

Lemma no_volume_item r id :
  Forall (fun e => dv_volume_id e <> id) (volumes_deleted r) ->
  forall item, In item (ledger_items r) ->
               item !! "resource_type" = Some (AttrS "ebs_volume") ->
               item !! "resource_id" <> Some (AttrS id).
Proof.
  intros Hrec item Hin Hty Hid.
  apply in_ledger_items in Hin as [(e & He & ->)|[(e & He & ->)|(e & He & ->)]];
    try discriminate Hty.
  apply (Forall_In _ _ _ Hrec) in He. apply He.
  change (Some (AttrS (dv_volume_id e)) = Some (AttrS id)) in Hid. congruence.
Qed.

Lemma no_snapshot_item r id :
  Forall (fun e => ds_snapshot_id e <> id) (snapshots_deleted r) ->
  forall item, In item (ledger_items r) ->
               item !! "resource_type" = Some (AttrS "snapshot") ->
               item !! "resource_id" <> Some (AttrS id).
Proof.
  intros Hrec item Hin Hty Hid.
  apply in_ledger_items in Hin as [(e & He & ->)|[(e & He & ->)|(e & He & ->)]];
    try discriminate Hty.
  apply (Forall_In _ _ _ Hrec) in He. apply He.
  change (Some (AttrS (ds_snapshot_id e)) = Some (AttrS id)) in Hid. congruence.
Qed.

Lemma no_address_item r id :
  Forall (fun e => re_allocation_id e <> id) (eips_released r) ->
  forall item, In item (ledger_items r) ->
               item !! "resource_type" = Some (AttrS "elastic_ip") ->
               item !! "resource_id" <> Some (AttrS id).
Proof.
  intros Hrec item Hin Hty Hid.
  apply in_ledger_items in Hin as [(e & He & ->)|[(e & He & ->)|(e & He & ->)]];
    try discriminate Hty.
  apply (Forall_In _ _ _ Hrec) in He. apply He.
  change (Some (AttrS (re_allocation_id e)) = Some (AttrS id)) in Hid. congruence.
Qed.

Lemma Forall_snoc {A} (P : A -> Prop) l x : Forall P l -> P x -> Forall P (l ++ [x]).
Proof. intros Hl Hx. apply Forall_app. split; [exact Hl|]. by constructor. Qed.

Lemma volume_unlisted_scanned w b final vols id :
  extends (scanned w b).2 final ->
  (forall h, sent (trace final) h (DescribeVolumes tag_filter []) ->
             describe_volumes w h tag_filter [] = Ok vols) ->
  (forall h v, In v vols -> VolumeId v = id ->
               volume_phase (date_of (now_utc w h)) v = GracePeriod) ->
  volume_unlisted id (scanned w b).
Proof.
  intros Hfin Hans Hgrace.
  apply (scanned_ind w b (volume_unlisted id) final Hfin).
  - by intros r st calls lines _ H.
  - split; constructor.
  - intros h vols' v r st o Hs Hd Hin Ho (Hdel & Hskip). cbn [fst] in *.
    rewrite (Hans h Hs) in Hd. injection Hd as <-.
    destruct (decide (VolumeId v = id)) as [Heq|Hne].
    + pose proof (Hgrace (h ++ [DescribeVolumes tag_filter []]) v Hin Heq) as Hp.
      destruct Ho; try congruence; by split.
    + destruct Ho; split; cbn [fst skip_volume add_volume volumes_deleted volumes_skipped];
        try done; by apply Forall_snoc.
  - intros h snaps s r st o _ _ _ Ho (Hdel & Hskip). cbn [fst] in *.
    destruct Ho; by split.
  - intros h addrs a r st o _ _ _ Ho (Hdel & Hskip). cbn [fst] in *.
    destruct Ho; by split.
Qed.

Lemma snapshot_unlisted_scanned w b final snaps id :
  extends (scanned w b).2 final ->
  (forall h, sent (trace final) h (DescribeSnapshots ["self"] tag_filter) ->
             describe_snapshots w h ["self"] tag_filter = Ok snaps) ->
  (forall h s, In s snaps -> SnapshotId s = id ->
               snapshot_phase (date_of (now_utc w h)) s = GracePeriod) ->
  snapshot_unlisted id (scanned w b).
Proof.
  intros Hfin Hans Hgrace.
  apply (scanned_ind w b (snapshot_unlisted id) final Hfin).
  - by intros r st calls lines _ H.
  - split; constructor.
  - intros h vols v r st o _ _ _ Ho (Hdel & Hskip). cbn [fst] in *.
    destruct Ho; by split.
  - intros h snaps' s r st o Hs Hd Hin Ho (Hdel & Hskip). cbn [fst] in *.
    rewrite (Hans h Hs) in Hd. injection Hd as <-.
    destruct (decide (SnapshotId s = id)) as [Heq|Hne].
    + pose proof (Hgrace (h ++ [DescribeSnapshots ["self"] tag_filter]) s Hin Heq) as Hp.
      destruct Ho; try congruence; by split.
    + destruct Ho; split;
        cbn [fst skip_snapshot add_snapshot snapshots_deleted snapshots_skipped];
        try done; by apply Forall_snoc.
  - intros h addrs a r st o _ _ _ Ho (Hdel & Hskip). cbn [fst] in *.
    destruct Ho; by split.
Qed.

(** X2: in a run on the date [today], whatever the dry-run switch, a tagged
    volume, snapshot or address whose deadline is still ahead
    ([today < d]) is left alone: no safety snapshot, no deletion, no
    release is requested for it, no ledger entry is put for it, and it is
    counted neither as deleted nor as skipped; for a volume the line
    [Grace period active for <id>: <n> days remaining] is printed, [n] the
    days from [today] to the deadline. Identifiers are taken to be unique
    in the inventory's answer. *)
Theorem grace_period_is_honoured (w : world) (b : bool) (today : date) :
  (forall h, date_of (now_utc w h) = today) ->
  let results := (run (cleanup_run w b)).1 in
  let st := (run (cleanup_run w b)).2 in
  (forall vols v d,
      (forall h, sent (trace st) h (DescribeVolumes tag_filter []) ->
                 describe_volumes w h tag_filter [] = Ok vols) ->
      List.NoDup (map VolumeId vols) ->
      In v vols ->
      deadline_of (VolumeTags v) = Some d ->
      date_le d today = false ->
      ~ In (DeleteVolume (VolumeId v)) (trace st)
      /\ (forall description tags,
            ~ In (CreateSnapshot (VolumeId v) description tags) (trace st))
      /\ (forall item,
            In (PutItem item) (trace st) ->
            item !! "resource_type" = Some (AttrS "ebs_volume") ->
            item !! "resource_id" <> Some (AttrS (VolumeId v)))
      /\ Forall (fun e => dv_volume_id e <> VolumeId v) (volumes_deleted results)
      /\ Forall (fun k => skipped_id k <> VolumeId v) (volumes_skipped results)
      /\ In (line_grace_period (VolumeId v) (date_diff_days d today)) (log st))
  /\ (forall snaps s d,
        (forall h, sent (trace st) h (DescribeSnapshots ["self"] tag_filter) ->
                   describe_snapshots w h ["self"] tag_filter = Ok snaps) ->
        List.NoDup (map SnapshotId snaps) ->
        In s snaps ->
        deadline_of (SnapshotTags s) = Some d ->
        date_le d today = false ->
        ~ In (DeleteSnapshot (SnapshotId s)) (trace st)
        /\ (forall item,
              In (PutItem item) (trace st) ->
              item !! "resource_type" = Some (AttrS "snapshot") ->
              item !! "resource_id" <> Some (AttrS (SnapshotId s)))
        /\ Forall (fun e => ds_snapshot_id e <> SnapshotId s) (snapshots_deleted results)
        /\ Forall (fun k => skipped_id k <> SnapshotId s) (snapshots_skipped results))
  /\ (forall addrs a d,
        (forall h, sent (trace st) h (DescribeAddresses tag_filter) ->
                   describe_addresses w h tag_filter = Ok addrs) ->
        List.NoDup (map AllocationId addrs) ->
        In a addrs ->
        deadline_of (AddressTags a) = Some d ->
        date_le d today = false ->
        ~ In (ReleaseAddress (AllocationId a)) (trace st)
        /\ (forall item,
              In (PutItem item) (trace st) ->
              item !! "resource_type" = Some (AttrS "elastic_ip") ->
              item !! "resource_id" <> Some (AttrS (AllocationId a)))
        /\ Forall (fun e => re_allocation_id e <> AllocationId a) (eips_released results)).
Proof.
  intros Hclock. cbn zeta.
  pose proof (run_extends_scanned w b) as Hext. rewrite run_results. split; [|split].
  - intros vols v d Hans Hnd Hin Hd Hle.
    assert (Hne : forall h v', In v' vols -> VolumeId v' = VolumeId v ->
                    volume_phase (date_of (now_utc w h)) v' <> Eligible).
    { intros h v' Hin' Hid. rewrite (same_id VolumeId vols v' v Hnd Hin' Hin Hid).
      unfold volume_phase. rewrite Hd, Hclock. by apply grace_not_eligible. }
    assert (Hgr : forall h v', In v' vols -> VolumeId v' = VolumeId v ->
                    volume_phase (date_of (now_utc w h)) v' = GracePeriod).
    { intros h v' Hin' Hid. rewrite (same_id VolumeId vols v' v Hnd Hin' Hin Hid).
      unfold volume_phase, classify. by rewrite Hd, Hclock, Hle. }
    destruct (volume_kept_scanned w b _ vols (VolumeId v) Hext Hans Hne)
      as (Hdel & Hsnap & Hrec & _).
    destruct (volume_unlisted_scanned w b _ vols (VolumeId v) Hext Hans Hgr)
      as (_ & Hunl).
    split; [|split; [|split; [|split; [exact Hrec|split; [exact Hunl|]]]]].
    + intros Hc. by apply run_trace_cases in Hc as [Hc|[[item Hc]|(x & y & z & Hc)]].
    + intros description tags Hc.
      apply run_trace_cases in Hc as [Hc|[[item Hc]|(x & y & z & Hc)]]; try done.
      by apply (Hsnap description tags).
    + apply no_entry_put. by apply no_volume_item.
    + pose proof (Hans _ (volumes_asked_sent w b _ Hext)) as Hvols.
      destruct (run_volume_turn w b vols v Hvols Hin) as (r1 & st1 & Hg).
      rewrite Hclock in Hg.
      pose proof (cleanup_volume_outcome w b today r1 v st1) as Ho.
      destruct (cleanup_volume w b today r1 v st1) as [r2 st2].
      apply run_log_scanned, (grows_log _ _ _ Hg).
      assert (Hph : volume_phase today v = GracePeriod)
        by (unfold volume_phase, classify; by rewrite Hd, Hle).
      inversion Ho as [Hp|d' Hd' Hp|Hp|Hp Hb|e Hp Hb Hc|sid Hp Hb Hc|sid e Hp Hb Hc];
        subst; try congruence.
      assert (d' = d) as -> by congruence. apply in_after_log. in_list.
  - intros snaps s d Hans Hnd Hin Hd Hle.
    assert (Hne : forall h s', In s' snaps -> SnapshotId s' = SnapshotId s ->
                    snapshot_phase (date_of (now_utc w h)) s' <> Eligible).
    { intros h s' Hin' Hid. rewrite (same_id SnapshotId snaps s' s Hnd Hin' Hin Hid).
      unfold snapshot_phase. rewrite Hd, Hclock. by apply grace_not_eligible. }
    assert (Hgr : forall h s', In s' snaps -> SnapshotId s' = SnapshotId s ->
                    snapshot_phase (date_of (now_utc w h)) s' = GracePeriod).
    { intros h s' Hin' Hid. rewrite (same_id SnapshotId snaps s' s Hnd Hin' Hin Hid).
      unfold snapshot_phase, classify. by rewrite Hd, Hclock, Hle. }
    destruct (snapshot_kept_scanned w b _ snaps (SnapshotId s) Hext Hans Hne)
      as (Hdel & Hrec).
    destruct (snapshot_unlisted_scanned w b _ snaps (SnapshotId s) Hext Hans Hgr)
      as (_ & Hunl).
    split; [|split; [|split; [exact Hrec|exact Hunl]]].
    + intros Hc. by apply run_trace_cases in Hc as [Hc|[[item Hc]|(x & y & z & Hc)]].
    + apply no_entry_put. by apply no_snapshot_item.
  - intros addrs a d Hans Hnd Hin Hd Hle.
    assert (Hne : forall h a', In a' addrs -> AllocationId a' = AllocationId a ->
                    address_phase (date_of (now_utc w h)) a' <> Eligible).
    { intros h a' Hin' Hid. rewrite (same_id AllocationId addrs a' a Hnd Hin' Hin Hid).
      unfold address_phase. rewrite Hd, Hclock. by apply grace_not_eligible. }
    destruct (address_kept_scanned w b _ addrs (AllocationId a) Hext Hans Hne)
      as (Hrel & Hrec).
    split; [|split; [|exact Hrec]].
    + intros Hc. by apply run_trace_cases in Hc as [Hc|[[item Hc]|(x & y & z & Hc)]].
    + apply no_entry_put. by apply no_address_item.
Qed.

(** ** Failures *)

(** What the services carried out in a run is what they carried out
    during the scans: the ledger writes and the report destroy nothing. *)
Lemma run_destroyed_scanned (sel : call -> list string) w b :
  (forall item, sel (PutItem item) = []) ->
  (forall arn subject message, sel (Publish arn subject message) = []) ->
  flat_map sel (changes w (trace (run (cleanup_run w b)).2))
  = flat_map sel (changes w (trace (scanned w b).2)).
Proof.
  intros Hsel Hpub. destruct (cleanup_run_scanned w b) as (n & lines & -> & _).
  cbn [snd after trace].
  rewrite flat_map_changes_app, changes_from_unselected; [by rewrite app_nil_r|].
  apply Forall_app. split; [|by repeat constructor].
  apply List.Forall_forall. intros c Hin.
  apply in_map_iff in Hin as (item & <- & _). apply Hsel.
Qed.

(** X3: no failure stops a run of the Reaper. Whatever the services answer,
    the three scans each ask the inventory; a scan whose inventory request
    fails leaves the results as they were; the ledger writes that are sent
    are the first of the entries the results call for, in order (a write
    that fails ends them); the volumes, snapshots and addresses the
    services destroyed are, in order, those the results record; the report
    is the last request of the run; and the handler answers with status
    200, the number of deletions and the savings. *)
Theorem no_failure_stops_the_reaper (w : world) (b : bool) :
  let results := (run (cleanup_run w b)).1 in
  let tr := trace (run (cleanup_run w b)).2 in
  (exists h, sent tr h (DescribeVolumes tag_filter []))
  /\ (exists h, sent tr h (DescribeSnapshots ["self"] tag_filter))
  /\ (exists h, sent tr h (DescribeAddresses tag_filter))
  /\ (forall r st e,
        describe_volumes w (trace st) tag_filter [] = Raise e ->
        (cleanup_expired_volumes w b r st).1 = r)
  /\ (forall r st e,
        describe_snapshots w (trace st) ["self"] tag_filter = Raise e ->
        (cleanup_expired_snapshots w b r st).1 = r)
  /\ (forall r st e,
        describe_addresses w (trace st) tag_filter = Raise e ->
        (cleanup_expired_eips w b r st).1 = r)
  /\ (exists n, ledger_puts tr = take n (ledger_items results))
  /\ destroyed_volumes w tr = map dv_volume_id (volumes_deleted results)
  /\ destroyed_snapshots w tr = map ds_snapshot_id (snapshots_deleted results)
  /\ released_addresses w tr = map re_allocation_id (eips_released results)
  /\ (exists h,
        tr = h ++ [Publish SNS_TOPIC_ARN (cleanup_subject results)
                     (cleanup_message results)])
  /\ (run (lambda_handler w b)).1
     = Response 200 "Cleanup complete" (total_deleted results)
         (total_savings_monthly results).
Proof.
  cbn zeta. pose proof (run_extends_scanned w b) as Hext.
  destruct (recorded_scanned w b _ (extends_refl _)) as (Rv & Rs & Re).
  split; [eexists; by apply volumes_asked_sent|].
  split; [eexists; by apply snapshots_asked_sent|].
  split; [eexists; by apply addresses_asked_sent|].
  split; [intros r st e He; by rewrite cleanup_expired_volumes_run, He|].
  split; [intros r st e He; by rewrite cleanup_expired_snapshots_run, He|].
  split; [intros r st e He; by rewrite cleanup_expired_eips_run, He|].
  unfold destroyed_volumes, destroyed_snapshots, released_addresses in *.
  rewrite !(run_destroyed_scanned _ w b) by done. rewrite run_results.
  split; [|split; [exact Rv|split; [exact Rs|split; [exact Re|split]]]].
  - destruct (cleanup_run_scanned w b) as (n & lines & -> & _). exists n.
    cbn [snd after trace]. rewrite !ledger_puts_app, ledger_puts_items.
    rewrite ledger_puts_none; [by rewrite app_nil_r|].
    intros item. apply (no_put_scanned w b _ item (extends_refl _)).
  - destruct (cleanup_run_scanned w b) as (n & lines & -> & _).
    cbn [snd after trace]. eexists. by rewrite app_assoc.
  - by rewrite reaper_handler_run, run_results.
Qed.

(** ** What the results record only grows *)

Lemma records_refl s : records s s.
Proof.
  split; [apply extends_refl|]. repeat split; exists []; by rewrite app_nil_r.
Qed.

Lemma records_trans s1 s2 s3 : records s1 s2 -> records s2 s3 -> records s1 s3.
Proof.
  intros (E1 & [l1 V1] & [k1 S1] & [m1 A1]) (E2 & [l2 V2] & [k2 S2] & [m2 A2]).
  split; [by eapply extends_trans|]. repeat split.
  - exists (l1 ++ l2). by rewrite V2, V1, app_assoc.
  - exists (k1 ++ k2). by rewrite S2, S1, app_assoc.
  - exists (m1 ++ m2). by rewrite A2, A1, app_assoc.
Qed.

Lemma records_after r st calls lines : records (r, st) (r, after st calls lines).
Proof.
  split; [apply extends_after|]. repeat split; exists []; by rewrite app_nil_r.
Qed.

Lemma volume_outcome_records w b today v r st o :
  volume_outcome w b today v r st o -> records (r, st) o.
Proof.
  destruct 1; (split; [apply extends_after|]);
    cbn [fst snd skip_volume add_volume volumes_deleted snapshots_deleted eips_released];
    repeat split; first [ by eexists | exists []; by rewrite app_nil_r ].
Qed.

Lemma snapshot_outcome_records w b today s r st o :
  snapshot_outcome w b today s r st o -> records (r, st) o.
Proof.
  destruct 1; try apply records_refl; (split; [apply extends_after|]);
    cbn [fst snd skip_snapshot add_snapshot volumes_deleted snapshots_deleted
         eips_released];
    repeat split; first [ by eexists | exists []; by rewrite app_nil_r ].
Qed.

Lemma address_outcome_records w b today a r st o :
  address_outcome w b today a r st o -> records (r, st) o.
Proof.
  destruct 1; try apply records_refl; (split; [apply extends_after|]);
    cbn [fst snd add_eip volumes_deleted snapshots_deleted eips_released];
    repeat split; first [ by eexists | exists []; by rewrite app_nil_r ].
Qed.

Lemma for_each_records {A} (xs : list A)
    (body : cleanup_results -> A -> M cleanup_results) acc st :
  (forall x acc st, records (acc, st) (body acc x st)) ->
  records (acc, st) (for_each xs body acc st).
Proof.
  intros Hb. apply (for_each_inv (records (acc, st))); [|apply records_refl].
  intros x acc0 st0 _ H0. eapply records_trans; [exact H0|apply Hb].
Qed.

(** The turn of [x] in a loop: the loop's result keeps what the turn
    records. *)
Lemma for_each_recorded_turn {A} (xs : list A)
    (body : cleanup_results -> A -> M cleanup_results) x acc st :
  In x xs ->
  (forall x acc st, records (acc, st) (body acc x st)) ->
  exists r1 st1, records (body r1 x st1) (for_each xs body acc st).
Proof.
  intros Hx Hb. destruct (in_split _ _ Hx) as (l1 & l2 & ->).
  rewrite for_each_app. cbn [for_each]. unfold bind.
  destruct (for_each l1 body acc st) as [r1 st1]. cbn [fst snd].
  exists r1, st1. destruct (body r1 x st1) as [r2 st2]. by apply for_each_records.
Qed.

Lemma cleanup_expired_snapshots_records w b r st :
  records (r, st) (cleanup_expired_snapshots w b r st).
Proof.
  rewrite cleanup_expired_snapshots_run.
  destruct (describe_snapshots w (trace st) ["self"] tag_filter) as [snaps|e];
    [|apply records_after].
  cbn zeta. eapply records_trans; [apply (records_after r st)|].
  match goal with |- context [for_each snaps ?f r ?s] =>
    pose proof (for_each_records snaps f r s) as Hg;
    destruct (for_each snaps f r s) as [r' st'] end.
  eapply records_trans; [apply Hg|apply records_after].
  intros x acc st0. eapply snapshot_outcome_records, cleanup_snapshot_outcome.
Qed.

Lemma cleanup_expired_eips_records w b r st :
  records (r, st) (cleanup_expired_eips w b r st).
Proof.
  rewrite cleanup_expired_eips_run.
  destruct (describe_addresses w (trace st) tag_filter) as [addrs|e];
    [|apply records_after].
  cbn zeta. eapply records_trans; [apply (records_after r st)|].
  match goal with |- context [for_each addrs ?f r ?s] =>
    pose proof (for_each_records addrs f r s) as Hg;
    destruct (for_each addrs f r s) as [r' st'] end.
  eapply records_trans; [apply Hg|apply records_after].
  intros x acc st0. eapply address_outcome_records, cleanup_eip_outcome.
Qed.

Lemma cleanup_expired_eips_follow w b o :
  records o (cleanup_expired_eips w b o.1 o.2).
Proof. destruct o. apply cleanup_expired_eips_records. Qed.

(** The turn of a resource the inventory answered with, within the whole
    run: the run keeps what the turn records. *)
Lemma run_volume_recorded w b vols v :
  describe_volumes w (volumes_asked w b) tag_filter [] = Ok vols -> In v vols ->
  exists r1 st1,
    records
      (cleanup_volume w b
         (date_of (now_utc w (volumes_asked w b ++ [DescribeVolumes tag_filter []])))
         r1 v st1)
      (scanned w b).
Proof.
  intros Hd Hv. unfold scanned. cbn zeta.
  rewrite (cleanup_expired_volumes_run w b empty_results (start w b)).
  unfold volumes_asked in *. rewrite Hd. cbn zeta.
  match goal with |- context [for_each vols ?f ?r ?s] =>
    destruct (for_each_recorded_turn vols f v r s Hv) as (r1 & st1 & Hg);
    [|exists r1, st1; destruct (for_each vols f r s) as [r' st']] end.
  - intros x acc st0. eapply volume_outcome_records, cleanup_volume_outcome.
  - eapply records_trans; [apply Hg|]. cbn [fst snd].
    eapply records_trans; [apply records_after|].
    eapply records_trans; [apply (cleanup_expired_snapshots_records w b)|].
    apply cleanup_expired_eips_follow.
Qed.

Lemma run_snapshot_recorded w b snaps s :
  describe_snapshots w (snapshots_asked w b) ["self"] tag_filter = Ok snaps ->
  In s snaps ->
  exists r1 st1,
    records
      (cleanup_snapshot w b
         (date_of (now_utc w (snapshots_asked w b
                              ++ [DescribeSnapshots ["self"] tag_filter])))
         r1 s st1)
      (scanned w b).
Proof.
  intros Hd Hs. unfold scanned, snapshots_asked in *. cbn zeta.
  set (o1 := cleanup_expired_volumes w b empty_results (start w b)) in *.
  rewrite (cleanup_expired_snapshots_run w b o1.1 o1.2), Hd. cbn zeta.
  match goal with |- context [for_each snaps ?f ?r ?s0] =>
    destruct (for_each_recorded_turn snaps f s r s0 Hs) as (r1 & st1 & Hg);
    [|exists r1, st1; destruct (for_each snaps f r s0) as [r' st']] end.
  - intros x acc st0. eapply snapshot_outcome_records, cleanup_snapshot_outcome.
  - eapply records_trans; [apply Hg|]. cbn [fst snd].
    eapply records_trans; [apply records_after|].
    apply cleanup_expired_eips_records.
Qed.

Lemma run_address_recorded w b addrs a :
  describe_addresses w (addresses_asked w b) tag_filter = Ok addrs ->
  In a addrs ->
  exists r1 st1,
    records
      (cleanup_eip w b
         (date_of (now_utc w (addresses_asked w b ++ [DescribeAddresses tag_filter])))
         r1 a st1)
      (scanned w b).
Proof.
  intros Hd Ha. unfold scanned, addresses_asked in *. cbn zeta in *.
  set (o1 := cleanup_expired_volumes w b empty_results (start w b)) in *.
  set (o2 := cleanup_expired_snapshots w b o1.1 o1.2) in *.
  rewrite (cleanup_expired_eips_run w b o2.1 o2.2), Hd. cbn zeta.
  match goal with |- context [for_each addrs ?f ?r ?s0] =>
    destruct (for_each_recorded_turn addrs f a r s0 Ha) as (r1 & st1 & Hg);
    [|exists r1, st1; destruct (for_each addrs f r s0) as [r' st']] end.
  - intros x acc st0. eapply address_outcome_records, cleanup_eip_outcome.
  - eapply records_trans; [apply Hg|]. apply records_after.
Qed.

Lemma sent_next st c1 c2 lines :
  sent (trace (after st [c1; c2] lines)) (trace st ++ [c1]) c2.
Proof. exists []. unfold after. cbn [trace]. by rewrite <- app_assoc. Qed.

Lemma run_sent_scanned w b h c :
  sent (trace (scanned w b).2) h c -> sent (trace (run (cleanup_run w b)).2) h c.
Proof. apply extends_sent, run_extends_scanned. Qed.

Lemma run_put_accepted w b item :
  (forall h item, put_item w h item = Ok tt) ->
  In item (ledger_items (scanned w b).1) ->
  In (PutItem item) (trace (run (cleanup_run w b)).2).
Proof.
  intros Hput Hin. rewrite (run_trace_accepted w b Hput).
  apply in_or_app. right. apply in_or_app. left. by apply in_map.
Qed.

Lemma run_destroyed_volumes w b :
  destroyed_volumes w (trace (run (cleanup_run w b)).2)
  = map dv_volume_id (volumes_deleted (scanned w b).1).
Proof.
  destruct (recorded_scanned w b _ (extends_refl _)) as (Rv & _).
  unfold destroyed_volumes in *. by rewrite run_destroyed_scanned.
Qed.

Lemma run_destroyed_snapshots w b :
  destroyed_snapshots w (trace (run (cleanup_run w b)).2)
  = map ds_snapshot_id (snapshots_deleted (scanned w b).1).
Proof.
  destruct (recorded_scanned w b _ (extends_refl _)) as (_ & Rs & _).
  unfold destroyed_snapshots in *. by rewrite run_destroyed_scanned.
Qed.

Lemma run_released_addresses w b :
  released_addresses w (trace (run (cleanup_run w b)).2)
  = map re_allocation_id (eips_released (scanned w b).1).
Proof.
  destruct (recorded_scanned w b _ (extends_refl _)) as (_ & _ & Re).
  unfold released_addresses in *. by rewrite run_destroyed_scanned.
Qed.

(** X5: what the Reaper is for. In a run with the dry-run switch off, on
    the date [today], take a tagged volume whose deadline has passed and
    which has no attachment, whose safety snapshot the service grants and
    whose deletion it carries out. Then a safety snapshot of the volume is
    requested and granted, the deletion is requested right after it, the
    volume is among the volumes the service deleted, the results record it
    with its size, type, monthly cost, the identifier of the safety
    snapshot and the date, the line [DELETED ...] is printed and, when the
    ledger accepts its writes, the entry of the volume is put. The same
    for a tagged snapshot past its deadline (no safety snapshot) and for a
    tagged address past its deadline that is not associated. *)
Theorem expired_resources_are_destroyed (w : world) (today : date) :
  (forall h, date_of (now_utc w h) = today) ->
  let results := (run (cleanup_run w false)).1 in
  let st := (run (cleanup_run w false)).2 in
  (forall vols v,
      (forall h, sent (trace st) h (DescribeVolumes tag_filter []) ->
                 describe_volumes w h tag_filter [] = Ok vols) ->
      In v vols ->
      volume_phase today v = Eligible ->
      (forall h description tags,
          exists sid, create_snapshot w h (VolumeId v) description tags = Ok sid) ->
      (forall h, delete_volume w h (VolumeId v) = Ok tt) ->
      exists h sid,
        let entry :=
          DeletedVolume (VolumeId v) (Size v) (VolumeType v)
            (volume_cost (Size v) (VolumeType v)) (Some sid) (isoformat today) in
        sent (trace st) h (snapshot_call today v)
        /\ create_snapshot w h (VolumeId v) (snapshot_description (VolumeId v))
             (snapshot_tags (VolumeId v) today) = Ok sid
        /\ sent (trace st) (h ++ [snapshot_call today v]) (DeleteVolume (VolumeId v))
        /\ In entry (volumes_deleted results)
        /\ In (VolumeId v) (destroyed_volumes w (trace st))
        /\ In (line_volume_deleted (VolumeId v) (Size v) (VolumeType v)
                 (volume_cost (Size v) (VolumeType v))) (log st)
        /\ ((forall h item, put_item w h item = Ok tt) ->
            In (PutItem (volume_item entry)) (trace st)))
  /\ (forall snaps s,
        (forall h, sent (trace st) h (DescribeSnapshots ["self"] tag_filter) ->
                   describe_snapshots w h ["self"] tag_filter = Ok snaps) ->
        In s snaps ->
        snapshot_phase today s = Eligible ->
        (forall h, delete_snapshot w h (SnapshotId s) = Ok tt) ->
        let entry :=
          DeletedSnapshot (SnapshotId s) (VolumeSize s) (snapshot_cost s)
            (isoformat today) in
        In (DeleteSnapshot (SnapshotId s)) (trace st)
        /\ In entry (snapshots_deleted results)
        /\ In (SnapshotId s) (destroyed_snapshots w (trace st))
        /\ In (line_snapshot_deleted (SnapshotId s) (VolumeSize s) (snapshot_cost s))
             (log st)
        /\ ((forall h item, put_item w h item = Ok tt) ->
            In (PutItem (snapshot_item entry)) (trace st)))
  /\ (forall addrs a,
        (forall h, sent (trace st) h (DescribeAddresses tag_filter) ->
                   describe_addresses w h tag_filter = Ok addrs) ->
        In a addrs ->
        address_phase today a = Eligible ->
        (forall h, release_address w h (AllocationId a) = Ok tt) ->
        let entry :=
          ReleasedEip (AllocationId a) (PublicIp a) eip_monthly_cost (isoformat today) in
        In (ReleaseAddress (AllocationId a)) (trace st)
        /\ In entry (eips_released results)
        /\ In (AllocationId a) (released_addresses w (trace st))
        /\ In (line_eip_released (PublicIp a) (AllocationId a)) (log st)
        /\ ((forall h item, put_item w h item = Ok tt) ->
            In (PutItem (eip_item entry)) (trace st))).
Proof.
  intros Hclock. cbn zeta.
  pose proof (run_extends_scanned w false) as Hext. rewrite run_results.
  split; [|split].
  - intros vols v Hans Hin Hph Hsnap Hdel.
    pose proof (Hans _ (volumes_asked_sent w false _ Hext)) as Hvols.
    destruct (run_volume_recorded w false vols v Hvols Hin) as (r1 & st1 & Hg).
    rewrite Hclock in Hg.
    pose proof (cleanup_volume_outcome w false today r1 v st1) as Ho.
    destruct (cleanup_volume w false today r1 v st1) as [r2 st2].
    destruct Hg as (Hst & [l Hl] & _). cbn [fst snd] in Hst, Hl.
    inversion Ho as [Hp|d' Hd' Hp|Hp|Hp Hb|e Hp Hb Hc|sid Hp Hb Hc Hd|sid e Hp Hb Hc Hd];
      subst; try congruence;
      try (destruct (Hsnap (trace st1) (snapshot_description (VolumeId v))
                       (snapshot_tags (VolumeId v) today)) as [sid' He]; congruence);
      try (rewrite Hdel in *; congruence).
    exists (trace st1), sid. cbn zeta.
    assert (Hentry : In (DeletedVolume (VolumeId v) (Size v) (VolumeType v)
                           (volume_cost (Size v) (VolumeType v)) (Some sid)
                           (isoformat today))
                       (volumes_deleted (scanned w false).1)).
    { rewrite Hl. cbn [add_volume volumes_deleted].
      apply in_or_app. left. apply in_or_app. right. by left. }
    split; [apply run_sent_scanned; eapply extends_sent; [exact Hst|apply sent_here]|].
    split; [exact Hc|].
    split; [apply run_sent_scanned; eapply extends_sent; [exact Hst|apply sent_next]|].
    split; [exact Hentry|].
    split; [rewrite run_destroyed_volumes;
            by apply (in_map dv_volume_id) in Hentry|].
    split.
    + apply run_log_scanned. eapply extends_log; [exact Hst|].
      apply in_after_log. in_list.
    + intros Hput. apply (run_put_accepted w false _ Hput). unfold ledger_items.
      apply in_or_app. left. by apply in_map.
  - intros snaps s Hans Hin Hph Hdel.
    pose proof (Hans _ (snapshots_asked_sent w false _ Hext)) as Hsnaps.
    destruct (run_snapshot_recorded w false snaps s Hsnaps Hin) as (r1 & st1 & Hg).
    rewrite Hclock in Hg.
    pose proof (cleanup_snapshot_outcome w false today r1 s st1) as Ho.
    destruct (cleanup_snapshot w false today r1 s st1) as [r2 st2].
    destruct Hg as (Hst & _ & [l Hl] & _). cbn [fst snd] in Hst, Hl.
    inversion Ho as [Hp|Hp Hb|Hp Hb Hd|e Hp Hb Hd]; subst; try congruence;
      try (rewrite Hdel in *; congruence).
    cbn zeta.
    assert (Hentry : In (DeletedSnapshot (SnapshotId s) (VolumeSize s)
                           (snapshot_cost s) (isoformat today))
                       (snapshots_deleted (scanned w false).1)).
    { rewrite Hl. cbn [add_snapshot snapshots_deleted].
      apply in_or_app. left. apply in_or_app. right. by left. }
    split.
    { eapply extends_trace; [exact Hext|]. eapply extends_trace; [exact Hst|].
      apply in_after_trace. by left. }
    split; [exact Hentry|].
    split; [rewrite run_destroyed_snapshots;
            by apply (in_map ds_snapshot_id) in Hentry|].
    split.
    + apply run_log_scanned. eapply extends_log; [exact Hst|].
      apply in_after_log. by left.
    + intros Hput. apply (run_put_accepted w false _ Hput). unfold ledger_items.
      apply in_or_app. right. apply in_or_app. left. by apply in_map.
  - intros addrs a Hans Hin Hph Hrel.
    pose proof (Hans _ (addresses_asked_sent w false _ Hext)) as Haddrs.
    destruct (run_address_recorded w false addrs a Haddrs Hin) as (r1 & st1 & Hg).
    rewrite Hclock in Hg.
    pose proof (cleanup_eip_outcome w false today r1 a st1) as Ho.
    destruct (cleanup_eip w false today r1 a st1) as [r2 st2].
    destruct Hg as (Hst & _ & _ & [l Hl]). cbn [fst snd] in Hst, Hl.
    inversion Ho as [Hp|Hp|Hp Hb|Hp Hb Hd|e Hp Hb Hd]; subst; try congruence;
      try (destruct Hp; congruence); try (rewrite Hrel in *; congruence).
    cbn zeta.
    assert (Hentry : In (ReleasedEip (AllocationId a) (PublicIp a) eip_monthly_cost
                           (isoformat today))
                       (eips_released (scanned w false).1)).
    { rewrite Hl. cbn [add_eip eips_released].
      apply in_or_app. left. apply in_or_app. right. by left. }
    split.
    { eapply extends_trace; [exact Hext|]. eapply extends_trace; [exact Hst|].
      apply in_after_trace. by left. }
    split; [exact Hentry|].
    split; [rewrite run_released_addresses;
            by apply (in_map re_allocation_id) in Hentry|].
    split.
    + apply run_log_scanned. eapply extends_log; [exact Hst|].
      apply in_after_log. by left.
    + intros Hput. apply (run_put_accepted w false _ Hput). unfold ledger_items.
      apply in_or_app. right. apply in_or_app. right. by apply in_map.
Qed.

(** ** Deletions the service refuses *)

Lemma grows_snapshots_skipped s s' k :
  grows s s' -> In k (snapshots_skipped s.1) -> In k (snapshots_skipped s'.1).
Proof. intros (_ & _ & [l ->]) Hk. apply in_or_app. by left. Qed.

(** A volume whose deletion the service always refuses is never recorded
    as deleted. *)
Lemma undeleted_volume_scanned w b final id :
  extends (scanned w b).2 final ->
  (forall h, exists e, delete_volume w h id = Raise e) ->
  Forall (fun e => dv_volume_id e <> id) (volumes_deleted (scanned w b).1).
Proof.
  intros Hfin Hfail.
  apply (scanned_ind w b
           (fun s => Forall (fun e => dv_volume_id e <> id) (volumes_deleted s.1))
           final Hfin).
  - intros r st calls lines _ H. exact H.
  - constructor.
  - intros h vols v r st o _ _ _ Ho H. cbn [fst] in *.
    destruct Ho; cbn [fst skip_volume add_volume volumes_deleted]; try exact H.
    apply Forall_app. split; [exact H|]. repeat constructor.
    cbn [dv_volume_id]. intros <-.
    match goal with Hc : delete_volume _ ?h0 _ = Ok _ |- _ =>
      destruct (Hfail h0) as [e He]; congruence end.
  - intros h snaps s r st o _ _ _ Ho H. cbn [fst] in *.
    destruct Ho; cbn [fst skip_snapshot add_snapshot volumes_deleted]; exact H.
  - intros h addrs a r st o _ _ _ Ho H. cbn [fst] in *.
    destruct Ho; cbn [fst add_eip volumes_deleted]; exact H.
Qed.

Lemma undeleted_snapshot_scanned w b final id :
  extends (scanned w b).2 final ->
  (forall h, exists e, delete_snapshot w h id = Raise e) ->
  Forall (fun e => ds_snapshot_id e <> id) (snapshots_deleted (scanned w b).1).
Proof.
  intros Hfin Hfail.
  apply (scanned_ind w b
           (fun s => Forall (fun e => ds_snapshot_id e <> id) (snapshots_deleted s.1))
           final Hfin).
  - intros r st calls lines _ H. exact H.
  - constructor.
  - intros h vols v r st o _ _ _ Ho H. cbn [fst] in *.
    destruct Ho; cbn [fst skip_volume add_volume snapshots_deleted]; exact H.
  - intros h snaps s r st o _ _ _ Ho H. cbn [fst] in *.
    destruct Ho; cbn [fst skip_snapshot add_snapshot snapshots_deleted]; try exact H.
    apply Forall_app. split; [exact H|]. repeat constructor.
    cbn [ds_snapshot_id]. intros <-.
    match goal with Hc : delete_snapshot _ ?h0 _ = Ok _ |- _ =>
      destruct (Hfail h0) as [e He]; congruence end.
  - intros h addrs a r st o _ _ _ Ho H. cbn [fst] in *.
    destruct Ho; cbn [fst add_eip snapshots_deleted]; exact H.
Qed.

Lemma unreleased_address_scanned w b final id :
  extends (scanned w b).2 final ->
  (forall h, exists e, release_address w h id = Raise e) ->
  Forall (fun e => re_allocation_id e <> id) (eips_released (scanned w b).1).
Proof.
  intros Hfin Hfail.
  apply (scanned_ind w b
           (fun s => Forall (fun e => re_allocation_id e <> id) (eips_released s.1))
           final Hfin).
  - intros r st calls lines _ H. exact H.
  - constructor.
  - intros h vols v r st o _ _ _ Ho H. cbn [fst] in *.
    destruct Ho; cbn [fst skip_volume add_volume eips_released]; exact H.
  - intros h snaps s r st o _ _ _ Ho H. cbn [fst] in *.
    destruct Ho; cbn [fst skip_snapshot add_snapshot eips_released]; exact H.
  - intros h addrs a r st o _ _ _ Ho H. cbn [fst] in *.
    destruct Ho; cbn [fst add_eip eips_released]; try exact H.
    apply Forall_app. split; [exact H|]. repeat constructor.
    cbn [re_allocation_id]. intros <-.
    match goal with Hc : release_address _ ?h0 _ = Ok _ |- _ =>
      destruct (Hfail h0) as [e He]; congruence end.
Qed.

Lemma not_in_map {A} (f : A -> string) l id :
  Forall (fun e => f e <> id) l -> ~ In id (map f l).
Proof.
  intros Hall Hin. apply in_map_iff in Hin as (e & He & Hin).
  by apply (Forall_In _ _ _ Hall) in Hin.
Qed.

(** X6: a deletion the service refuses. In a run with the dry-run switch
    off, a volume past its deadline whose safety snapshot is granted and
    whose deletion always fails: the snapshot is taken and stays, the
    deletion is requested and refused with some [e], the volume is in the
    skipped volumes with the reason [deletion_failed: e], the error line is
    printed, and the volume is neither recorded as deleted, nor among the
    volumes destroyed, nor in the ledger. A snapshot whose deletion always
    fails is in the skipped snapshots with the service's error as the
    reason and is not recorded. An address whose release always fails
    leaves the error line and nothing in the results, which are as they
    were after its turn. *)
Theorem failed_deletion_is_skipped (w : world) (today : date) :
  (forall h, date_of (now_utc w h) = today) ->
  let results := (run (cleanup_run w false)).1 in
  let st := (run (cleanup_run w false)).2 in
  (forall vols v,
      (forall h, sent (trace st) h (DescribeVolumes tag_filter []) ->
                 describe_volumes w h tag_filter [] = Ok vols) ->
      In v vols ->
      volume_phase today v = Eligible ->
      (forall h description tags,
          exists sid, create_snapshot w h (VolumeId v) description tags = Ok sid) ->
      (forall h, exists e, delete_volume w h (VolumeId v) = Raise e) ->
      (exists h sid e,
          sent (trace st) h (snapshot_call today v)
          /\ create_snapshot w h (VolumeId v) (snapshot_description (VolumeId v))
               (snapshot_tags (VolumeId v) today) = Ok sid
          /\ sent (trace st) (h ++ [snapshot_call today v]) (DeleteVolume (VolumeId v))
          /\ delete_volume w (h ++ [snapshot_call today v]) (VolumeId v) = Raise e
          /\ In (Skipped (VolumeId v) ("deletion_failed: " +:+ e))
               (volumes_skipped results)
          /\ In (line_volume_error (VolumeId v) e) (log st))
      /\ Forall (fun e => dv_volume_id e <> VolumeId v) (volumes_deleted results)
      /\ ~ In (VolumeId v) (destroyed_volumes w (trace st))
      /\ (forall item,
            In (PutItem item) (trace st) ->
            item !! "resource_type" = Some (AttrS "ebs_volume") ->
            item !! "resource_id" <> Some (AttrS (VolumeId v))))
  /\ (forall snaps s,
        (forall h, sent (trace st) h (DescribeSnapshots ["self"] tag_filter) ->
                   describe_snapshots w h ["self"] tag_filter = Ok snaps) ->
        In s snaps ->
        snapshot_phase today s = Eligible ->
        (forall h, exists e, delete_snapshot w h (SnapshotId s) = Raise e) ->
        (exists e,
            In (Skipped (SnapshotId s) e) (snapshots_skipped results)
            /\ In (line_snapshot_delete_error (SnapshotId s) e) (log st))
        /\ In (DeleteSnapshot (SnapshotId s)) (trace st)
        /\ Forall (fun e => ds_snapshot_id e <> SnapshotId s) (snapshots_deleted results)
        /\ ~ In (SnapshotId s) (destroyed_snapshots w (trace st))
        /\ (forall item,
              In (PutItem item) (trace st) ->
              item !! "resource_type" = Some (AttrS "snapshot") ->
              item !! "resource_id" <> Some (AttrS (SnapshotId s))))
  /\ (forall addrs a,
        (forall h, sent (trace st) h (DescribeAddresses tag_filter) ->
                   describe_addresses w h tag_filter = Ok addrs) ->
        In a addrs ->
        address_phase today a = Eligible ->
        (forall h, exists e, release_address w h (AllocationId a) = Raise e) ->
        (exists e, In (line_eip_error (AllocationId a) e) (log st))
        /\ In (ReleaseAddress (AllocationId a)) (trace st)
        /\ Forall (fun e => re_allocation_id e <> AllocationId a) (eips_released results)
        /\ ~ In (AllocationId a) (released_addresses w (trace st))
        /\ (forall item,
              In (PutItem item) (trace st) ->
              item !! "resource_type" = Some (AttrS "elastic_ip") ->
              item !! "resource_id" <> Some (AttrS (AllocationId a)))
        /\ (forall r st0 e,
              release_address w (trace st0) (AllocationId a) = Raise e ->
              (cleanup_eip w false today r a st0).1 = r)).
Proof.
  intros Hclock. cbn zeta.
  pose proof (run_extends_scanned w false) as Hext. rewrite run_results.
  split; [|split].
  - intros vols v Hans Hin Hph Hsnap Hdel.
    pose proof (undeleted_volume_scanned w false _ (VolumeId v) Hext Hdel) as Hnever.
    split; [|split; [exact Hnever|split]].
    + pose proof (Hans _ (volumes_asked_sent w false _ Hext)) as Hvols.
      destruct (run_volume_turn w false vols v Hvols Hin) as (r1 & st1 & Hg).
      rewrite Hclock in Hg.
      pose proof (cleanup_volume_outcome w false today r1 v st1) as Ho.
      destruct (cleanup_volume w false today r1 v st1) as [r2 st2].
      inversion Ho as [Hp|d' Hd' Hp|Hp|Hp Hb|e Hp Hb Hc|sid Hp Hb Hc Hd|sid e Hp Hb Hc Hd];
        subst; try congruence;
        try (destruct (Hsnap (trace st1) (snapshot_description (VolumeId v))
                         (snapshot_tags (VolumeId v) today)) as [sid' He]; congruence);
        try (destruct (Hdel (trace st1 ++ [snapshot_call today v])) as [e' He];
             congruence).
      exists (trace st1), sid, e. pose proof Hg as (Hst & _). cbn [snd] in Hst.
      split; [apply run_sent_scanned; eapply extends_sent; [exact Hst|apply sent_here]|].
      split; [exact Hc|].
      split; [apply run_sent_scanned; eapply extends_sent; [exact Hst|apply sent_next]|].
      split; [exact Hd|]. split.
      * apply (grows_volumes_skipped _ _ _ Hg).
        cbn [fst skip_volume volumes_skipped]. in_list.
      * apply run_log_scanned. eapply extends_log; [exact Hst|].
        apply in_after_log. in_list.
    + rewrite run_destroyed_volumes. by apply not_in_map.
    + apply no_entry_put. by apply no_volume_item.
  - intros snaps s Hans Hin Hph Hdel.
    pose proof (undeleted_snapshot_scanned w false _ (SnapshotId s) Hext Hdel) as Hnever.
    assert (Hturn : (exists e,
                        In (Skipped (SnapshotId s) e)
                          (snapshots_skipped (scanned w false).1)
                        /\ In (line_snapshot_delete_error (SnapshotId s) e)
                             (log (run (cleanup_run w false)).2))
                    /\ In (DeleteSnapshot (SnapshotId s))
                         (trace (run (cleanup_run w false)).2)).
    { pose proof (Hans _ (snapshots_asked_sent w false _ Hext)) as Hsnaps.
      destruct (run_snapshot_turn w false snaps s Hsnaps Hin) as (r1 & st1 & Hg).
      rewrite Hclock in Hg.
      pose proof (cleanup_snapshot_outcome w false today r1 s st1) as Ho.
      destruct (cleanup_snapshot w false today r1 s st1) as [r2 st2].
      inversion Ho as [Hp|Hp Hb|Hp Hb Hd|e Hp Hb Hd]; subst; try congruence;
        try (destruct (Hdel (trace st1)) as [e' He]; congruence).
      pose proof Hg as (Hst & _). cbn [snd] in Hst. split.
      - exists e. split.
        + apply (grows_snapshots_skipped _ _ _ Hg).
          cbn [fst skip_snapshot snapshots_skipped]. in_list.
        + apply run_log_scanned. eapply extends_log; [exact Hst|].
          apply in_after_log. by left.
      - eapply extends_trace; [exact Hext|]. eapply extends_trace; [exact Hst|].
        apply in_after_trace. by left. }
    destruct Hturn as [Hskip Hsent].
    split; [exact Hskip|split; [exact Hsent|split; [exact Hnever|split]]].
    + rewrite run_destroyed_snapshots. by apply not_in_map.
    + apply no_entry_put. by apply no_snapshot_item.
  - intros addrs a Hans Hin Hph Hrel.
    pose proof (unreleased_address_scanned w false _ (AllocationId a) Hext Hrel)
      as Hnever.
    assert (Hturn : (exists e,
                        In (line_eip_error (AllocationId a) e)
                          (log (run (cleanup_run w false)).2))
                    /\ In (ReleaseAddress (AllocationId a))
                         (trace (run (cleanup_run w false)).2)).
    { pose proof (Hans _ (addresses_asked_sent w false _ Hext)) as Haddrs.
      destruct (run_address_turn w false addrs a Haddrs Hin) as (r1 & st1 & Hg).
      rewrite Hclock in Hg.
      pose proof (cleanup_eip_outcome w false today r1 a st1) as Ho.
      destruct (cleanup_eip w false today r1 a st1) as [r2 st2].
      inversion Ho as [Hp|Hp|Hp Hb|Hp Hb Hd|e Hp Hb Hd]; subst; try congruence;
        try (destruct Hp; congruence);
        try (destruct (Hrel (trace st1)) as [e' He]; congruence).
      pose proof Hg as (Hst & _). cbn [snd] in Hst. split.
      - exists e. apply run_log_scanned. eapply extends_log; [exact Hst|].
        apply in_after_log. by left.
      - eapply extends_trace; [exact Hext|]. eapply extends_trace; [exact Hst|].
        apply in_after_trace. by left. }
    destruct Hturn as [Hline Hsent].
    split; [exact Hline|split; [exact Hsent|split; [exact Hnever|split; [|split]]]].
    + rewrite run_released_addresses. by apply not_in_map.
    + apply no_entry_put. by apply no_address_item.
    + intros r st0 e He.
      pose proof (cleanup_eip_outcome w false today r a st0) as Ho.
      destruct (cleanup_eip w false today r a st0) as [r2 st2].
      inversion Ho; subst; try congruence; done.
Qed.

(** ** The savings of a run *)

Lemma float_sum_snoc xs x : float_sum (xs ++ [x]) = (float_sum xs + x)%float.
Proof. unfold float_sum. by rewrite fold_left_app. Qed.

Lemma costed_reads : kept_by_reads (fun s => costed s.1).
Proof. by intros r st calls lines _ H. Qed.

Lemma costed_scanned w b final :
  extends (scanned w b).2 final -> costed (scanned w b).1.
Proof.
  intros Hfin.
  apply (scanned_ind w b (fun s => costed s.1) final Hfin costed_reads).
  - by repeat split.
  - intros h vols v r st o _ _ _ Ho (Hv & Hs & He). cbn [fst] in *.
    destruct Ho; try by repeat split.
    split; [|by split]. cbn [fst add_volume volumes_deleted].
    apply Forall_app. split; [exact Hv|]. by repeat constructor.
  - intros h snaps s r st o _ _ _ Ho (Hv & Hs & He). cbn [fst] in *.
    destruct Ho; try by repeat split.
    split; [done|split; [|done]]. cbn [fst add_snapshot snapshots_deleted].
    apply Forall_app. split; [exact Hs|]. by repeat constructor.
  - intros h addrs a r st o _ _ _ Ho (Hv & Hs & He). cbn [fst] in *.
    destruct Ho; try by repeat split.
    split; [done|split; [done|]]. cbn [fst add_eip eips_released].
    apply Forall_app. split; [exact He|]. by repeat constructor.
Qed.

(** The volume scan adds to the total in the order it records. *)
Lemma volumes_scan_summed w b r st :
  summed r -> snapshots_deleted r = [] -> eips_released r = [] ->
  let r' := (cleanup_expired_volumes w b r st).1 in
  summed r' /\ snapshots_deleted r' = [] /\ eips_released r' = [].
Proof.
  intros Hsum Hs He. cbn zeta. rewrite cleanup_expired_volumes_run.
  destruct (describe_volumes w (trace st) tag_filter []) as [vols|e]; [|done].
  cbn zeta. cbn [fst].
  apply (for_each_inv
           (fun o => summed o.1 /\ snapshots_deleted o.1 = [] /\ eips_released o.1 = []));
    [|done].
  intros v acc st0 _ (Hsum0 & Hs0 & He0). cbn [fst] in *.
  pose proof (cleanup_volume_outcome w b (volumes_today w st) acc v st0) as Ho.
  destruct Ho; cbn [fst]; try done.
  split; [|done]. unfold summed, savings_of in *.
  cbn [add_volume total_savings_monthly volumes_deleted snapshots_deleted
       eips_released dv_monthly_savings].
  rewrite Hs0, He0 in *. cbn [map app] in *. rewrite app_nil_r in *.
  rewrite map_app. cbn [map dv_monthly_savings]. by rewrite float_sum_snoc, Hsum0.
Qed.

Lemma snapshots_scan_summed w b r st :
  summed r -> eips_released r = [] ->
  let r' := (cleanup_expired_snapshots w b r st).1 in
  summed r' /\ eips_released r' = [].
Proof.
  intros Hsum He. cbn zeta. rewrite cleanup_expired_snapshots_run.
  destruct (describe_snapshots w (trace st) ["self"] tag_filter) as [snaps|e]; [|done].
  cbn zeta. cbn [fst].
  apply (for_each_inv (fun o => summed o.1 /\ eips_released o.1 = [])); [|done].
  intros s acc st0 _ (Hsum0 & He0). cbn [fst] in *.
  pose proof (cleanup_snapshot_outcome w b (snapshots_today w st) acc s st0) as Ho.
  destruct Ho; cbn [fst]; try done.
  split; [|done]. unfold summed, savings_of in *.
  cbn [add_snapshot total_savings_monthly volumes_deleted snapshots_deleted
       eips_released ds_monthly_savings].
  rewrite He0 in *. cbn [map app] in *. rewrite !app_nil_r in *.
  rewrite map_app. cbn [map ds_monthly_savings].
  by rewrite app_assoc, float_sum_snoc, Hsum0.
Qed.

Lemma addresses_scan_summed w b r st :
  summed r -> summed (cleanup_expired_eips w b r st).1.
Proof.
  intros Hsum. rewrite cleanup_expired_eips_run.
  destruct (describe_addresses w (trace st) tag_filter) as [addrs|e]; [|done].
  cbn zeta. cbn [fst].
  apply (for_each_inv (fun o => summed o.1)); [|done].
  intros a acc st0 _ Hsum0. cbn [fst] in *.
  pose proof (cleanup_eip_outcome w b (addresses_today w st) acc a st0) as Ho.
  destruct Ho; cbn [fst]; try done.
  unfold summed, savings_of in *.
  cbn [add_eip total_savings_monthly volumes_deleted snapshots_deleted
       eips_released re_monthly_savings].
  rewrite map_app. cbn [map re_monthly_savings].
  by rewrite !app_assoc, float_sum_snoc, <- !app_assoc, Hsum0.
Qed.

Lemma summed_scanned w b : summed (scanned w b).1.
Proof.
  unfold scanned. cbn zeta.
  destruct (volumes_scan_summed w b empty_results (start w b)) as (H1 & S1 & E1);
    try done.
  set (o1 := cleanup_expired_volumes w b empty_results (start w b)) in *.
  destruct (snapshots_scan_summed w b o1.1 o1.2 H1 E1) as (H2 & E2).
  by apply addresses_scan_summed.
Qed.

(** X7: the savings of a run. The total the results carry is the sum, from
    0.0 and added in binary64 in this order, of the savings of the volumes
    deleted, then of the snapshots deleted, then of the addresses released.
    The saving of a volume is its size times the rate of its type, of a
    snapshot its size times 0.057, of an address [0.005 * 24 * 30], none of
    them rounded. The handler answers with that total and with the number
    of the three kinds of deletions; in a dry run both are 0. *)
Theorem savings_are_summed_in_order (w : world) (b : bool) :
  let results := (run (cleanup_run w b)).1 in
  let answer := (run (lambda_handler w b)).1 in
  total_savings_monthly results = float_sum (savings_of results)
  /\ savings_of results
     = map dv_monthly_savings (volumes_deleted results)
       ++ map ds_monthly_savings (snapshots_deleted results)
       ++ map re_monthly_savings (eips_released results)
  /\ Forall (fun e => dv_monthly_savings e
                      = volume_cost (dv_size_gb e) (dv_volume_type e))
       (volumes_deleted results)
  /\ Forall (fun e => ds_monthly_savings e = (float_of_int (ds_size_gb e) * 0.057)%float)
       (snapshots_deleted results)
  /\ Forall (fun e => re_monthly_savings e = (0.005 * 24 * 30)%float)
       (eips_released results)
  /\ savings answer = float_sum (savings_of results)
  /\ deleted_count answer
     = (length (volumes_deleted results) + length (snapshots_deleted results)
        + length (eips_released results))%nat
  /\ (b = true -> savings answer = 0%float /\ deleted_count answer = 0%nat).
Proof.
  cbn zeta. rewrite reaper_handler_run, run_results. cbn [fst savings deleted_count].
  pose proof (summed_scanned w b) as Hsum.
  destruct (costed_scanned w b _ (extends_refl _)) as (Cv & Cs & Ce).
  split; [exact Hsum|]. split; [done|]. split; [exact Cv|]. split; [exact Cs|].
  split; [exact Ce|]. split; [exact Hsum|]. split; [done|].
  intros ->. destruct (dry_run_idle w _ (extends_refl _)) as (_ & Hv & Hs & He).
  unfold summed, savings_of, total_deleted in *. rewrite Hsum, Hv, Hs, He. by split.
Qed.

(** ** The report of a run *)

(** X8: the notification a run of the Reaper publishes. Its subject gives
    the total savings. With no deletion its text is the fixed
    [No expired resources found] message; otherwise it gives the number of
    deletions and the monthly and yearly savings, then one phrase for every
    kind that was deleted and none for a kind that was not, and ends with
    [Safety snapshots created. Check CloudWatch for details.] In a dry run
    the text is always the [No expired resources found] message and the
    subject is [Cleanup: $0.00/mo saved], whatever was eligible. *)
Theorem cleanup_report_tells_what_was_deleted (w : world) (b : bool) :
  let results := (run (cleanup_run w b)).1 in
  let tr := trace (run (cleanup_run w b)).2 in
  let total := total_savings_monthly results in
  In (Publish SNS_TOPIC_ARN (cleanup_subject results) (cleanup_message results)) tr
  /\ cleanup_subject results = "Cleanup: $" +:+ format_2f total +:+ "/mo saved"
  /\ (total_deleted results = 0%nat ->
      cleanup_message results
      = "AWS Cleanup: No expired resources found. All tagged resources still in grace period.")
  /\ (total_deleted results <> 0%nat ->
      cleanup_message results
      = "AWS Cleanup: Deleted " +:+ str_N (N.of_nat (total_deleted results))
        +:+ " expired resources. "
        +:+ "Savings: $" +:+ format_2f total +:+ "/mo ($"
        +:+ format_2f (total * 12)%float +:+ "/yr). "
        +:+ deleted_phrase (volumes_deleted results) " volumes. "
        +:+ deleted_phrase (snapshots_deleted results) " snapshots. "
        +:+ deleted_phrase (eips_released results) " IPs. "
        +:+ "Safety snapshots created. Check CloudWatch for details.")
  /\ total_deleted results
     = (length (volumes_deleted results) + length (snapshots_deleted results)
        + length (eips_released results))%nat
  /\ (b = true ->
      cleanup_message results
      = "AWS Cleanup: No expired resources found. All tagged resources still in grace period."
      /\ cleanup_subject results = "Cleanup: $0.00/mo saved").
Proof.
  cbn zeta. split.
  { destruct (cleanup_run_scanned w b) as (n & lines & -> & _).
    cbn [fst snd after trace]. apply in_or_app. right. apply in_or_app. right.
    by left. }
  split; [done|]. split; [|split; [|split; [done|]]].
  - intros H0. unfold cleanup_message. by rewrite H0.
  - intros Hne. unfold cleanup_message.
    destruct (total_deleted _ =? 0)%nat eqn:E; [by apply Nat.eqb_eq in E|].
    unfold deleted_phrase.
    by destruct (volumes_deleted _), (snapshots_deleted _), (eips_released _).
  - intros ->. rewrite run_results.
    pose proof (summed_scanned w true) as Hsum.
    destruct (dry_run_idle w _ (extends_refl _)) as (_ & Hv & Hs & He).
    unfold cleanup_message, cleanup_subject, total_deleted.
    unfold summed, savings_of in Hsum. rewrite Hsum, Hv, Hs, He. by split.
Qed.

(** ** The sample account *)

Import Examples.

(** C1 on the sample account: [vol-4], whose safety snapshot fails, is
    kept and skipped. *)
Lemma snapshot_failure_never_deletes_witness :
  ~ In (DeleteVolume "vol-4") (trace (run (cleanup_run account false)).2)
  /\ (exists e,
        In (Skipped "vol-4" ("snapshot_failed: " +:+ e))
          (volumes_skipped (run (cleanup_run account false)).1)).
Proof.
  pose proof (snapshot_failure_never_deletes account today volumes unprotected
                (Date 2025 1 1)) as H.
  cbn zeta in H.
  destruct H as (H1 & H2 & _).
  - intros h. reflexivity.
  - intros h _. reflexivity.
  - right. right. right. left. reflexivity.
  - reflexivity.
  - reflexivity.
  - reflexivity.
  - intros h description tags. exists "SnapshotCreationPerVolumeRateExceeded".
    reflexivity.
  - split; [exact H1|exact H2].
Defined.

(** C2 on the sample account: [vol-1] is the one volume deleted, and the
    one volume entry of the ledger is its entry. *)
Lemma every_deletion_logged_once_witness :
  Forall2 (ledger_entry "volume" "ebs_volume" "2025-02-09")
    (destroyed_volumes account (trace (run (cleanup_run account false)).2))
    (ledger_puts_of "ebs_volume" (trace (run (cleanup_run account false)).2))
  /\ destroyed_volumes account (trace (run (cleanup_run account false)).2) = ["vol-1"].
Proof.
  pose proof (every_deletion_logged_once account false today) as H.
  cbn zeta in H. destruct H as (H1 & _).
  - intros h item. reflexivity.
  - intros h. reflexivity.
  - split; [exact H1|]. vm_compute. reflexivity.
Defined.



(** X2 on the sample account: [vol-3], due tomorrow, is kept, with one day
    remaining. *)
Lemma grace_period_is_honoured_witness :
  ~ In (DeleteVolume "vol-3") (trace (run (cleanup_run account false)).2)
  /\ In (line_grace_period "vol-3" 1) (log (run (cleanup_run account false)).2).
Proof.
  pose proof (grace_period_is_honoured account false today) as H.
  cbn zeta in H. destruct H as [Hv _].
  - intros h. reflexivity.
  - destruct (Hv volumes in_grace (Date 2025 2 10)) as (H1 & _ & _ & _ & _ & H2).
    + intros h _. reflexivity.
    + vm_compute. repeat constructor; cbn; intuition discriminate.
    + right. right. left. reflexivity.
    + reflexivity.
    + reflexivity.
    + split; [exact H1|exact H2].
Defined.

(** X5 on the sample account: [vol-1], [snap-1] and [eipalloc-1] are
    destroyed; [vol-1] is recorded with its safety snapshot. *)
Lemma expired_resources_are_destroyed_witness :
  In "vol-1" (destroyed_volumes account (trace (run (cleanup_run account false)).2))
  /\ In (DeletedVolume "vol-1" 100 "gp2" (volume_cost 100 "gp2") (Some "snap-of-vol-1")
           "2025-02-09")
       (volumes_deleted (run (cleanup_run account false)).1)
  /\ In "snap-1" (destroyed_snapshots account (trace (run (cleanup_run account false)).2))
  /\ In "eipalloc-1"
       (released_addresses account (trace (run (cleanup_run account false)).2)).
Proof.
  pose proof (expired_resources_are_destroyed account today) as H.
  cbn zeta in H. destruct H as (Hv & Hs & Ha).
  - intros h. reflexivity.
  - destruct (Hv volumes expired) as (h & sid & _ & Hsid & _ & H1 & H2 & _).
    + intros h _. reflexivity.
    + left. reflexivity.
    + reflexivity.
    + intros h description tags. eexists. reflexivity.
    + intros h. reflexivity.
    + injection Hsid as <-.
      destruct (Hs snapshots (Snapshot "snap-1" 10 0 None
                                [Tag TAG_KEY "DeleteAfter-2025-02-01"]))
        as (_ & _ & H3 & _).
      * intros h' _. reflexivity.
      * left. reflexivity.
      * reflexivity.
      * intros h'. reflexivity.
      * destruct (Ha addresses idle_address) as (_ & _ & H4 & _).
        -- intros h' _. reflexivity.
        -- left. reflexivity.
        -- reflexivity.
        -- intros h'. reflexivity.
        -- split; [exact H2|]. split; [exact H1|]. split; [exact H3|exact H4].
Defined.

(** X6 on the sample account once every deletion is refused: [vol-1] and
    [snap-1] are skipped, nothing is destroyed. *)
Lemma failed_deletion_is_skipped_witness :
  In (Skipped "vol-1" "deletion_failed: UnauthorizedOperation")
    (volumes_skipped (run (cleanup_run locked false)).1)
  /\ ~ In "vol-1" (destroyed_volumes locked (trace (run (cleanup_run locked false)).2))
  /\ (exists e,
         In (Skipped "snap-1" e) (snapshots_skipped (run (cleanup_run locked false)).1))
  /\ ~ In "eipalloc-1"
         (released_addresses locked (trace (run (cleanup_run locked false)).2)).
Proof.
  pose proof (failed_deletion_is_skipped locked today) as H.
  cbn zeta in H. destruct H as (Hv & Hs & Ha).
  - intros h. reflexivity.
  - destruct (Hv volumes expired) as ((h & sid & e & _ & _ & _ & He & H1 & _) & _ & H2 & _).
    + intros h _. reflexivity.
    + left. reflexivity.
    + reflexivity.
    + intros h description tags. eexists. reflexivity.
    + intros h. eexists. reflexivity.
    + injection He as <-.
      destruct (Hs snapshots (Snapshot "snap-1" 10 0 None
                                [Tag TAG_KEY "DeleteAfter-2025-02-01"]))
        as ((e & H3 & _) & _).
      * intros h' _. reflexivity.
      * left. reflexivity.
      * reflexivity.
      * intros h'. eexists. reflexivity.
      * destruct (Ha addresses idle_address) as (_ & _ & _ & H4 & _).
        -- intros h' _. reflexivity.
        -- left. reflexivity.
        -- reflexivity.
        -- intros h'. eexists. reflexivity.
        -- split; [exact H1|]. split; [exact H2|]. split; [by exists e|exact H4].
Defined.

End ReaperFacts.

(* ===================================================================== *)
(** * From the Finder to the Reaper: the deadline tag *)
(* ===================================================================== *)

Module DeadlineFacts.
Import Py Aws ResourceCleanup Lifecycle Runs Calendar ReaperFacts.
Local Open Scope run_scope.

Lemma all_from_spec n z p :
  all_from n z p = true -> forall i, z <= i < z + Z.of_nat n -> p i = true.
Proof.
  revert z. induction n as [|n IH]; intros z H i Hi; [lia|].
  cbn [all_from] in H. apply andb_true_iff in H as [Hz Hn].
  destruct (Z.eq_dec i z) as [->|Hne]; [exact Hz|].
  apply (IH (z + 1) Hn). lia.
Qed.

Lemma four_digits_all y : 0 <= y <= 9999 -> four_digits y = true.
Proof.
  intros Hy. apply (all_from_spec (Z.to_nat 10000) 0); [by vm_compute|lia].
Qed.

Lemma month_day_reads_all m d :
  1 <= m <= 12 -> 1 <= d <= 31 -> month_day_reads ((m - 1) * 31 + (d - 1)) = true.
Proof.
  intros Hm Hd. apply (all_from_spec (Z.to_nat 372) 0); [by vm_compute|lia].
Qed.

Lemma cycle_day_valid_all r : 0 <= r < 146097 -> cycle_day_valid r = true.
Proof.
  intros Hr. apply (all_from_spec (Z.to_nat 146097) 0); [by vm_compute|lia].
Qed.

Lemma year_as_it_is_all y : 1000 <= y <= 9999 -> year_as_it_is y = true.
Proof.
  intros Hy. apply (all_from_spec (Z.to_nat 9000) 1000); [by vm_compute|lia].
Qed.

(** ** Removing the prefix *)

Lemma append_cons c s t : String c s +:+ t = String c (s +:+ t).
Proof. reflexivity. Qed.

Lemma no_D_app s t : no_D (s +:+ t) = no_D s && no_D t.
Proof.
  induction s as [|c s IH]; [done|].
  rewrite append_cons. cbn [no_D]. by rewrite IH, andb_assoc.
Qed.

Lemma remove_nothing s : no_D s = true -> str_remove TAG_VALUE_PREFIX s = s.
Proof.
  unfold str_remove. induction s as [|c s IH]; [done|].
  cbn [no_D]. intros [Hc Hs]%andb_true_iff. cbn [remove_go].
  assert (String.prefix TAG_VALUE_PREFIX (String c s) = false) as ->.
  { change (String.prefix TAG_VALUE_PREFIX (String c s))
      with (if ascii_dec "D" c then String.prefix "eleteAfter-" s else false).
    by destruct (ascii_dec "D" c) as [<-|]. }
  by rewrite IH.
Qed.

Lemma prefix_here p s : String.prefix p (p +:+ s) = true.
Proof.
  induction p as [|c p IH]; [by destruct s|].
  rewrite append_cons. cbn [String.prefix]. by destruct (ascii_dec c c).
Qed.

Lemma remove_skip old p s :
  remove_go old (String.length p) (p +:+ s) = remove_go old 0 s.
Proof. induction p as [|c p IH]; [done|]. rewrite append_cons. exact IH. Qed.

Lemma remove_prefix s :
  no_D s = true -> str_remove TAG_VALUE_PREFIX (TAG_VALUE_PREFIX +:+ s) = s.
Proof.
  intros Hs. rewrite <- (remove_nothing s Hs) at 2. unfold str_remove.
  change (remove_go TAG_VALUE_PREFIX 0 (TAG_VALUE_PREFIX +:+ s))
    with (if String.prefix TAG_VALUE_PREFIX (TAG_VALUE_PREFIX +:+ s)
          then remove_go TAG_VALUE_PREFIX (String.length "eleteAfter-")
                 ("eleteAfter-" +:+ s)
          else String "D" (remove_go TAG_VALUE_PREFIX 0 ("eleteAfter-" +:+ s))).
  by rewrite prefix_here, remove_skip.
Qed.

(** ** Reading a date back *)

Lemma first_alt_ext {A} alts (k k' : Z -> string -> option A) s :
  (forall v r, k v r = k' v r) -> first_alt alts k s = first_alt alts k' s.
Proof.
  intros Hk. induction alts as [|p alts IH]; [done|]. cbn [first_alt].
  destruct (p s) as [[v r]|]; [|exact IH]. rewrite Hk. by rewrite IH.
Qed.

Lemma first_alt_map {A B} (f : A -> B) alts (k : Z -> string -> option A) s :
  first_alt alts (fun v r => option_map f (k v r)) s
  = option_map f (first_alt alts k s).
Proof.
  induction alts as [|p alts IH]; [done|]. cbn [first_alt].
  destruct (p s) as [[v r]|]; [|exact IH]. by destruct (k v r).
Qed.

(** An ASCII digit is a decimal digit, with the same value. *)
Lemma decimal_ascii a rest v :
  digit_of a = Some v -> decimal (String a rest) = Some (v, rest).
Proof.
  destruct a as [[] [] [] [] [] [] [] []]; try done; intros [= <-]; reflexivity.
Qed.

(** The format, read as the year, a hyphen, and the month and day. *)
Lemma match_Ymd_month_day s :
  match_Ymd s
  = match directive_Y s with
    | Some (y, s1) =>
        match literal "-" s1 with
        | Some s2 =>
            option_map (fun r => (y, r.1.1, r.1.2, r.2)) (month_day s2)
        | None => None
        end
    | None => None
    end.
Proof.
  unfold match_Ymd, month_day. destruct (directive_Y s) as [[y s1]|]; [|done].
  destruct (literal "-" s1) as [s2|]; [|done].
  rewrite <- first_alt_map. apply first_alt_ext. intros m s3.
  destruct (literal "-" s3) as [s4|]; [|done].
  by rewrite <- first_alt_map.
Qed.

Lemma days_in_month_le y m : days_in_month y m <= 31.
Proof.
  unfold days_in_month.
  repeat match goal with |- context [if ?c then _ else _] => destruct c end; lia.
Qed.

(** A date of the calendar, written out, reads back as itself, and its
    text holds nothing the prefix could start at. *)
Lemma strptime_isoformat d :
  valid_date d = true ->
  strptime_Ymd (isoformat d) = Some d /\ no_D (isoformat d) = true.
Proof.
  destruct d as [y m d]. unfold valid_date. cbn [year month day].
  rewrite !andb_true_iff, !Z.leb_le. intros (((((Hy1 & Hy2) & Hm1) & Hm2) & Hd1) & Hd2).
  pose proof (days_in_month_le y m) as H31.
  pose proof (four_digits_all y ltac:(lia)) as Hy. unfold four_digits in Hy.
  pose proof (month_day_reads_all m d ltac:(lia) ltac:(lia)) as Hmd.
  unfold month_day_reads in Hmd. cbv zeta in Hmd.
  replace (((m - 1) * 31 + (d - 1)) / 31 + 1) with m in Hmd
    by (Z.div_mod_to_equations; lia).
  replace (((m - 1) * 31 + (d - 1)) mod 31 + 1) with d in Hmd
    by (Z.div_mod_to_equations; lia).
  unfold isoformat. cbn [year month day].
  set (tail := zfill 2 m +:+ "-" +:+ zfill 2 d) in *.
  destruct (zfill 4 y) as [|a [|b [|c [|e [|? ?]]]]]; try done.
  destruct (digit_of a) as [w|] eqn:Ea; [|done].
  destruct (digit_of b) as [x|] eqn:Eb; [|done].
  destruct (digit_of c) as [y'|] eqn:Ec; [|done].
  destruct (digit_of e) as [z|] eqn:Ee; [|done].
  apply andb_true_iff in Hy as [Hsum Hno]. apply Z.eqb_eq in Hsum.
  apply andb_true_iff in Hmd as [Hno' Hmd].
  split.
  - unfold strptime_Ymd. rewrite match_Ymd_month_day.
    change (String a (String b (String c (String e ""))) +:+ "-" +:+ tail)
      with (String a (String b (String c (String e (String "-" tail))))).
    unfold directive_Y.
    rewrite (decimal_ascii _ _ _ Ea), (decimal_ascii _ _ _ Eb),
      (decimal_ascii _ _ _ Ec), (decimal_ascii _ _ _ Ee). cbn [literal].
    change (Ascii.eqb "-" "-") with true. cbv iota.
    destruct (month_day tail) as [[[m' d'] [|? ?]]|]; try done.
    apply andb_true_iff in Hmd as [->%Z.eqb_eq ->%Z.eqb_eq].
    cbn [option_map fst snd]. rewrite Hsum.
    assert ((1 <=? y) && (d <=? days_in_month y m) = true) as ->; [|done].
    apply andb_true_iff. split; apply Z.leb_le; lia.
  - rewrite no_D_app, Hno. cbn [andb].
    change (no_D ("-" +:+ tail)) with (no_D tail). exact Hno'.
Qed.

(** ** The dates of the calendar *)

Lemma is_leap_cycle y k : is_leap (y + 400 * k) = is_leap y.
Proof.
  unfold is_leap.
  replace (y + 400 * k) with (y + (100 * k) * 4) at 1 by lia.
  replace (y + 400 * k) with (y + (4 * k) * 100) at 1 by lia.
  replace (y + 400 * k) with (y + k * 400) by lia.
  by rewrite !Z_mod_plus_full.
Qed.

Lemma days_in_month_cycle y k m : days_in_month (y + 400 * k) m = days_in_month y m.
Proof. unfold days_in_month. by rewrite is_leap_cycle. Qed.

(** The calendar repeats every 146097 days, 400 years on. *)
Lemma ord2ymd_cycle n :
  ord2ymd n
  = let d := ord2ymd ((n - 1) mod 146097 + 1) in
    Date (year d + 400 * ((n - 1) / 146097)) (month d) (day d).
Proof.
  unfold ord2ymd. cbv zeta.
  replace ((n - 1) mod 146097 + 1 - 1) with ((n - 1) mod 146097) by lia.
  rewrite Zmod_mod.
  rewrite (Z.div_small ((n - 1) mod 146097) 146097)
    by (apply Z.mod_pos_bound; lia).
  set (r := (n - 1) mod 146097). set (q := (n - 1) / 146097).
  repeat match goal with
         | |- context [if ?c then _ else _] => destruct c
         end; cbn [year month day]; f_equal; lia.
Qed.

Lemma ord2ymd_valid n :
  1 <= n <= 3652059 ->
  valid_date (ord2ymd n) = true /\ (364878 <= n -> 1000 <= year (ord2ymd n)).
Proof.
  intros Hn. rewrite ord2ymd_cycle. cbv zeta.
  pose proof (Z.div_mod (n - 1) 146097 ltac:(lia)) as Hdiv.
  pose proof (Z.mod_pos_bound (n - 1) 146097 ltac:(lia)) as Hr.
  set (r := (n - 1) mod 146097) in *. set (q := (n - 1) / 146097) in *.
  pose proof (cycle_day_valid_all r Hr) as Hc. unfold cycle_day_valid in Hc.
  cbv zeta in Hc. set (d := ord2ymd (r + 1)) in *.
  unfold valid_date in *. cbn [year month day]. rewrite days_in_month_cycle.
  rewrite !andb_true_iff, orb_true_iff, !Z.leb_le, Z.ltb_lt in *.
  destruct Hc as [[[(((((Hy1 & Hy2) & Hm1) & Hm2) & Hd1) & Hd2) H400] H399] H200].
  repeat split; try done; lia.
Qed.

Lemma date_of_valid t :
  four_digit_years t ->
  valid_date (date_of t) = true /\ 1000 <= year (date_of t) <= 9999.
Proof.
  unfold four_digit_years, date_of, us_per_day. intros Ht.
  pose proof (Z.div_le_lower_bound t 86400000000 364877 ltac:(lia) ltac:(lia)).
  pose proof (Z.div_lt_upper_bound t 86400000000 3652059 ltac:(lia) ltac:(lia)).
  destruct (ord2ymd_valid (t / 86400000000 + 1) ltac:(lia)) as [Hv Hy].
  split; [exact Hv|]. split; [apply Hy; lia|].
  unfold valid_date in Hv. rewrite !andb_true_iff, !Z.leb_le in Hv. lia.
Qed.

(** In those years the date as [strftime] writes it is the ISO date. *)
Lemma strftime_isoformat_text t :
  four_digit_years t -> CostAnalyzer.strftime_Ymd t = isoformat (date_of t).
Proof.
  intros Ht. destruct (date_of_valid t Ht) as [_ Hy].
  unfold CostAnalyzer.strftime_Ymd, isoformat. cbv zeta.
  pose proof (year_as_it_is_all _ Hy) as Hs. unfold year_as_it_is in Hs.
  apply String.eqb_eq in Hs. by rewrite Hs.
Qed.

(** X1: the deadline the Finder writes is the deadline the Reaper reads.
    For a local time [now] whose date seven days on lies in the years 1000
    to 9999, the tag value the Finder computes, [DeleteAfter-YYYY-MM-DD],
    is parsed by the Reaper as that very date, and so are the three tags of
    a tagging request as a whole. *)
Theorem reaper_reads_the_finder_deadline (now found : datetime) :
  four_digit_years (add_days now CostAnalyzer.GRACE_PERIOD_DAYS) ->
  let deadline := date_of (add_days now CostAnalyzer.GRACE_PERIOD_DAYS) in
  ResourceCleanup.parse_deadline (CostAnalyzer.deadline_tag_value now) = Some deadline
  /\ ResourceCleanup.deadline_of
       (CostAnalyzer.deletion_tags (CostAnalyzer.deadline_tag_value now) found)
     = Some deadline.
Proof.
  intros Hnow deadline.
  destruct (strptime_isoformat deadline (proj1 (date_of_valid _ Hnow))) as [Hread Hno].
  assert (Hparse : ResourceCleanup.parse_deadline (CostAnalyzer.deadline_tag_value now)
                   = Some deadline).
  { unfold ResourceCleanup.parse_deadline, CostAnalyzer.deadline_tag_value.
    rewrite (strftime_isoformat_text _ Hnow). fold deadline.
    by rewrite remove_prefix. }
  split; [exact Hparse|].
  unfold ResourceCleanup.deadline_of, CostAnalyzer.deletion_tags.
  cbn [fold_left]. unfold ResourceCleanup.deadline_step at 3. cbn [Key Value].
  change (String.eqb TAG_KEY TAG_KEY) with true. cbv iota. by rewrite Hparse.
Qed.

(** ** Counting days *)

Lemma cycle_day_counts_all r : 0 <= r < 146097 -> cycle_day_counts r = true.
Proof.
  intros Hr. apply (all_from_spec (Z.to_nat 146097) 0); [by vm_compute|lia].
Qed.

Lemma days_before_year_cycle y k :
  days_before_year (y + 400 * k) = days_before_year y + 146097 * k.
Proof. unfold days_before_year. cbv zeta. Z.div_mod_to_equations. lia. Qed.

Lemma ymd2ord_cycle y m d k :
  ymd2ord (Date (y + 400 * k) m d) = ymd2ord (Date y m d) + 146097 * k.
Proof.
  unfold ymd2ord, days_before_month. cbn [year month day].
  rewrite days_before_year_cycle, is_leap_cycle. lia.
Qed.

(** [date.fromordinal(n).toordinal() == n] *)
Lemma ymd2ord_ord2ymd n : ymd2ord (ord2ymd n) = n.
Proof.
  rewrite ord2ymd_cycle. cbv zeta.
  pose proof (Z.div_mod (n - 1) 146097 ltac:(lia)) as Hdiv.
  pose proof (Z.mod_pos_bound (n - 1) 146097 ltac:(lia)) as Hr.
  set (r := (n - 1) mod 146097) in *. set (q := (n - 1) / 146097) in *.
  pose proof (cycle_day_counts_all r Hr) as Hc. unfold cycle_day_counts in Hc.
  apply Z.eqb_eq in Hc. rewrite ymd2ord_cycle.
  destruct (ord2ymd (r + 1)) as [y m d]. cbn [year month day]. lia.
Qed.

Lemma days_before_year_succ y :
  days_before_year (y + 1) = days_before_year y + (if is_leap y then 366 else 365).
Proof.
  unfold days_before_year, is_leap. cbv zeta.
  destruct (Z.eqb_spec (y mod 4) 0), (Z.eqb_spec (y mod 100) 0),
    (Z.eqb_spec (y mod 400) 0); cbn [andb orb negb];
    Z.div_mod_to_equations; lia.
Qed.

Lemma days_before_year_mono y y' :
  y <= y' -> days_before_year y <= days_before_year y'.
Proof. unfold days_before_year. cbv zeta. intros H. Z.div_mod_to_equations. lia. Qed.

Lemma month_cases m :
  1 <= m <= 12 ->
  m = 1 \/ m = 2 \/ m = 3 \/ m = 4 \/ m = 5 \/ m = 6 \/ m = 7 \/ m = 8 \/ m = 9
  \/ m = 10 \/ m = 11 \/ m = 12.
Proof. lia. Qed.

(** The days of the year up to the end of month [m]. *)
Lemma month_end y m :
  1 <= m <= 12 ->
  days_before_month y m + days_in_month y m
  = if m =? 12 then (if is_leap y then 366 else 365) else days_before_month y (m + 1).
Proof.
  intros Hm. unfold days_before_month, days_in_month.
  destruct (month_cases m Hm) as [->|[->|[->|[->|[->|[->|[->|[->|[->|[->|[->| ->]]]]]]]]]]];
    by destruct (is_leap y).
Qed.

Lemma days_before_month_mono y m m' :
  1 <= m -> m <= m' -> m' <= 12 -> days_before_month y m <= days_before_month y m'.
Proof.
  intros H1 H2 H3. unfold days_before_month.
  destruct (month_cases m ltac:(lia))
    as [->|[->|[->|[->|[->|[->|[->|[->|[->|[->|[->| ->]]]]]]]]]]];
    destruct (month_cases m' ltac:(lia))
      as [->|[->|[->|[->|[->|[->|[->|[->|[->|[->|[->| ->]]]]]]]]]]];
    try lia; destruct (is_leap y); cbn; lia.
Qed.

Lemma valid_date_fields d :
  valid_date d = true ->
  1 <= year d <= 9999 /\ 1 <= month d <= 12
  /\ 1 <= day d <= days_in_month (year d) (month d).
Proof. unfold valid_date. rewrite !andb_true_iff, !Z.leb_le. lia. Qed.

(** The day of the year of a date lies in its year. *)
Lemma day_of_year_bounds d :
  valid_date d = true ->
  1 <= days_before_month (year d) (month d) + day d
    <= if is_leap (year d) then 366 else 365.
Proof.
  intros Hv. apply valid_date_fields in Hv as (_ & Hm & Hd).
  pose proof (month_end (year d) (month d) Hm) as He.
  pose proof (days_before_month_mono (year d) 1 (month d) ltac:(lia) ltac:(lia)
                ltac:(lia)) as H1.
  change (days_before_month (year d) 1) with 0 in H1.
  destruct (Z.eqb_spec (month d) 12) as [E|E]; [lia|].
  pose proof (days_before_month_mono (year d) (month d + 1) 12 ltac:(lia) ltac:(lia)
                ltac:(lia)) as H2.
  assert (days_before_month (year d) 12 <= if is_leap (year d) then 366 else 365).
  { unfold days_before_month. destruct (is_leap (year d)); cbn; lia. }
  lia.
Qed.

(** An earlier date has a smaller ordinal. *)
Lemma ymd2ord_lt a b :
  valid_date a = true -> valid_date b = true ->
  date_le b a = false -> ymd2ord a < ymd2ord b.
Proof.
  intros Va Vb Hlt.
  pose proof (day_of_year_bounds a Va) as Ba.
  pose proof (day_of_year_bounds b Vb) as Bb.
  apply valid_date_fields in Va as (Hya & Hma & Hda).
  apply valid_date_fields in Vb as (Hyb & Hmb & Hdb).
  unfold date_le in Hlt. unfold ymd2ord.
  apply orb_false_iff in Hlt as [Hy Hrest]. apply Z.ltb_ge in Hy.
  destruct (Z.eqb_spec (year b) (year a)) as [Ey|Ey].
  - cbn [andb] in Hrest. apply orb_false_iff in Hrest as [Hm Hd].
    apply Z.ltb_ge in Hm. rewrite Ey in *.
    destruct (Z.eqb_spec (month b) (month a)) as [Em|Em].
    + cbn [andb] in Hd. apply Z.leb_gt in Hd. rewrite Em. lia.
    + pose proof (month_end (year a) (month a) Hma) as He.
      destruct (Z.eqb_spec (month a) 12) as [E12|E12]; [lia|].
      pose proof (days_before_month_mono (year a) (month a + 1) (month b)
                    ltac:(lia) ltac:(lia) ltac:(lia)).
      lia.
  - pose proof (days_before_year_succ (year a)) as Hs.
    pose proof (days_before_year_mono (year a + 1) (year b) ltac:(lia)). lia.
Qed.

(** [a <= b] on dates is the order of their ordinals. *)
Lemma date_le_ordinal a b :
  valid_date a = true -> valid_date b = true ->
  date_le a b = (ymd2ord a <=? ymd2ord b).
Proof.
  intros Va Vb. destruct (date_le a b) eqn:E.
  - symmetry. apply Z.leb_le.
    destruct (date_le b a) eqn:E'.
    + assert (a = b) as ->; [|lia].
      destruct a as [ya ma da], b as [yb mb db]. unfold date_le in *.
      cbn [year month day] in *.
      rewrite !orb_true_iff, !andb_true_iff, ?orb_true_iff, ?andb_true_iff,
        !Z.ltb_lt, !Z.eqb_eq, !Z.leb_le in E, E'.
      f_equal; lia.
    + pose proof (ymd2ord_lt a b Va Vb E'). lia.
  - symmetry. apply Z.leb_gt. by apply ymd2ord_lt.
Qed.

(** The date [n] days on is [n] days later. *)
Lemma date_diff_add_days t n :
  date_diff_days (date_of (add_days t n)) (date_of t) = n.
Proof.
  unfold date_diff_days, date_of, add_days, us_per_day.
  rewrite !ymd2ord_ord2ymd, Z.div_add by lia. lia.
Qed.

(** ** What a deadline tag can hold *)

Lemma digit_of_range c v : digit_of c = Some v -> 0 <= v <= 9.
Proof.
  unfold digit_of. cbv zeta.
  destruct (Z.leb_spec 48 (Z.of_N (N_of_ascii c))); [|done].
  destruct (Z.leb_spec (Z.of_N (N_of_ascii c)) 57); [|done].
  cbn [andb]. intros [= <-]. lia.
Qed.

Lemma decimal_value_range cp v : decimal_value cp = Some v -> 0 <= v <= 9.
Proof.
  unfold decimal_value.
  destruct (List.find _ decimal_zeros) as [z|] eqn:E; [|done].
  apply List.find_some in E as [_ E]. intros [= <-].
  apply andb_true_iff in E as [H1%N.leb_le H2%N.ltb_lt]. lia.
Qed.

Lemma decimal_range s v rest : decimal s = Some (v, rest) -> 0 <= v <= 9.
Proof.
  unfold decimal. destruct (next_char s) as [[cp r]|]; [|done].
  destruct (decimal_value cp) as [x|] eqn:E; [|done].
  intros [= <- _]. by apply decimal_value_range in E.
Qed.

Lemma in_range_bounds lo hi o v : in_range lo hi o = Some v -> lo <= v <= hi.
Proof.
  unfold in_range. destruct o as [x|]; [|done].
  destruct (Z.leb_spec lo x); [|done]. destruct (Z.leb_spec x hi); [|done].
  cbn [andb]. intros [= <-]. lia.
Qed.

Lemma two_digits_bounds alo ahi blo bhi s v rest :
  two_digits alo ahi blo bhi s = Some (v, rest) ->
  10 * alo + blo <= v <= 10 * ahi + bhi.
Proof.
  unfold two_digits. destruct s as [|a [|b s]]; try done.
  destruct (in_range alo ahi (digit_of a)) as [x|] eqn:Ex; [|done].
  destruct (in_range blo bhi (digit_of b)) as [y|] eqn:Ey; [|done].
  intros [= <- _]. apply in_range_bounds in Ex, Ey. lia.
Qed.

Lemma digit_decimal_bounds lo hi s v rest :
  digit_decimal lo hi s = Some (v, rest) -> 10 * lo <= v <= 10 * hi + 9.
Proof.
  unfold digit_decimal. destruct s as [|a s]; [done|].
  destruct (in_range lo hi (digit_of a)) as [x|] eqn:Ex; [|done].
  destruct (decimal s) as [[y r]|] eqn:Ey; [|done].
  intros [= <- _]. apply in_range_bounds in Ex. apply decimal_range in Ey. lia.
Qed.

Lemma one_digit_bounds lo hi s v rest :
  one_digit lo hi s = Some (v, rest) -> lo <= v <= hi.
Proof.
  unfold one_digit. destruct s as [|a s]; [done|].
  destruct (in_range lo hi (digit_of a)) as [x|] eqn:Ex; [|done].
  intros [= <- _]. by apply in_range_bounds in Ex.
Qed.

(** What the ordered choice returns comes from one of the alternatives. *)
Lemma first_alt_some {A} alts (k : Z -> string -> option A) s r :
  first_alt alts k s = Some r ->
  exists p v rest, In p alts /\ p s = Some (v, rest) /\ k v rest = Some r.
Proof.
  induction alts as [|p alts IH]; [done|]. cbn [first_alt].
  destruct (p s) as [[v rest]|] eqn:Ep.
  - destruct (k v rest) as [r'|] eqn:Ek.
    + intros [= <-]. exists p, v, rest. split; [by left|done].
    + intros H. destruct (IH H) as (p' & v' & rest' & Hin & Hp & Hk).
      exists p', v', rest'. split; [by right|done].
  - intros H. destruct (IH H) as (p' & v' & rest' & Hin & Hp & Hk).
    exists p', v', rest'. split; [by right|done].
Qed.

Lemma directive_m_bounds p s v rest :
  In p directive_m -> p s = Some (v, rest) -> 1 <= v <= 12.
Proof.
  intros [<-|[<-|[<-|[]]]] H.
  - apply two_digits_bounds in H. lia.
  - apply two_digits_bounds in H. lia.
  - apply one_digit_bounds in H. lia.
Qed.

Lemma directive_d_bounds p s v rest :
  In p directive_d -> p s = Some (v, rest) -> 1 <= v <= 31.
Proof.
  intros [<-|[<-|[<-|[<-|[<-|[]]]]]] H.
  - apply two_digits_bounds in H. lia.
  - apply digit_decimal_bounds in H. lia.
  - apply two_digits_bounds in H. lia.
  - apply one_digit_bounds in H. lia.
  - destruct s as [|c s]; [done|].
    destruct (Ascii.eqb_spec c " ") as [->|Hne].
    + apply one_digit_bounds in H. lia.
    + exfalso. revert H. clear -Hne.
      destruct c as [[] [] [] [] [] [] [] []]; try done.
Qed.

Lemma match_Ymd_bounds s y m d rest :
  match_Ymd s = Some (y, m, d, rest) ->
  0 <= y <= 9999 /\ 1 <= m <= 12 /\ 1 <= d <= 31.
Proof.
  unfold match_Ymd.
  destruct (directive_Y s) as [[y0 s1]|] eqn:Ey; [|done].
  destruct (literal "-" s1) as [s2|]; [|done]. intros H.
  apply first_alt_some in H as (p & m0 & s3 & Hp & Hm & H).
  destruct (literal "-" s3) as [s4|]; [|done].
  apply first_alt_some in H as (q & d0 & s5 & Hq & Hd & H).
  injection H as <- <- <- <-.
  apply directive_m_bounds in Hm; [|done]. apply directive_d_bounds in Hd; [|done].
  split; [|done]. revert Ey. unfold directive_Y.
  destruct (decimal s) as [[w t1]|] eqn:Ea; [|done].
  destruct (decimal t1) as [[x t2]|] eqn:Eb; [|done].
  destruct (decimal t2) as [[y' t3]|] eqn:Ec; [|done].
  destruct (decimal t3) as [[z t4]|] eqn:Ee; [|done].
  intros [= <- _]. apply decimal_range in Ea, Eb, Ec, Ee. lia.
Qed.

(** What [strptime] returns is a date of the calendar. *)
Lemma strptime_valid s d : strptime_Ymd s = Some d -> valid_date d = true.
Proof.
  unfold strptime_Ymd.
  destruct (match_Ymd s) as [[[[y m] d0] [|? ?]]|] eqn:Em; try done.
  destruct (Z.leb_spec 1 y); [|done].
  destruct (Z.leb_spec d0 (days_in_month y m)); [|done].
  cbn [andb]. intros [= <-]. apply match_Ymd_bounds in Em.
  unfold valid_date. cbn [year month day].
  rewrite !andb_true_iff, !Z.leb_le. lia.
Qed.

Lemma deadline_of_snoc tags t :
  ResourceCleanup.deadline_of (tags ++ [t])
  = if String.eqb (Key t) TAG_KEY then
      match ResourceCleanup.parse_deadline (Value t) with
      | Some d => Some d
      | None => ResourceCleanup.deadline_of tags
      end
    else ResourceCleanup.deadline_of tags.
Proof.
  unfold ResourceCleanup.deadline_of. by rewrite fold_left_app.
Qed.

Lemma deadline_of_some tags d :
  ResourceCleanup.deadline_of tags = Some d ->
  exists t, In t tags /\ Key t = TAG_KEY /\ ResourceCleanup.parse_deadline (Value t) = Some d.
Proof.
  induction tags as [|t tags IH] using rev_ind; [done|].
  rewrite deadline_of_snoc. destruct (String.eqb_spec (Key t) TAG_KEY) as [Ek|Ek].
  - destruct (ResourceCleanup.parse_deadline (Value t)) as [d'|] eqn:Ep.
    + intros [= <-]. exists t. split; [|done]. apply in_or_app. right. by left.
    + intros H. destruct (IH H) as (t' & Hin & Hk & Hp). exists t'.
      split; [|done]. apply in_or_app. by left.
  - intros H. destruct (IH H) as (t' & Hin & Hk & Hp). exists t'.
    split; [|done]. apply in_or_app. by left.
Qed.

Lemma deadline_of_none tags :
  ResourceCleanup.deadline_of tags = None
  <-> forall t, In t tags -> Key t = TAG_KEY ->
                ResourceCleanup.parse_deadline (Value t) = None.
Proof.
  induction tags as [|t tags IH] using rev_ind; [done|].
  rewrite deadline_of_snoc. split.
  - intros H t' Hin Hk. apply in_app_or in Hin as [Hin|[<-|[]]].
    + destruct (String.eqb (Key t) TAG_KEY);
        [destruct (ResourceCleanup.parse_deadline (Value t)); [done|]|];
        by apply IH.
    + apply String.eqb_eq in Hk. rewrite Hk in H.
      by destruct (ResourceCleanup.parse_deadline (Value t)).
  - intros H. assert (Hrest : ResourceCleanup.deadline_of tags = None).
    { apply IH. intros t' Hin. apply H. apply in_or_app. by left. }
    destruct (String.eqb_spec (Key t) TAG_KEY) as [Ek|Ek]; [|done].
    rewrite (H t); [done| |done]. apply in_or_app. right. by left.
Qed.

(** The deadline the Finder writes, as the Reaper parses it. *)
Lemma parse_deadline_tag_value now :
  four_digit_years (add_days now CostAnalyzer.GRACE_PERIOD_DAYS) ->
  ResourceCleanup.parse_deadline (CostAnalyzer.deadline_tag_value now)
  = Some (date_of (add_days now CostAnalyzer.GRACE_PERIOD_DAYS)).
Proof.
  intros Hnow.
  destruct (strptime_isoformat _ (proj1 (date_of_valid _ Hnow))) as [Hread Hno].
  unfold ResourceCleanup.parse_deadline, CostAnalyzer.deadline_tag_value.
  rewrite (strftime_isoformat_text _ Hnow). by rewrite remove_prefix.
Qed.

(** X9: what the Reaper takes for a deadline. A tag value that parses
    gives a date of the calendar (year 1 to 9999, a month, a day of that
    month: no 30 February), and that date written as
    [DeleteAfter-YYYY-MM-DD] parses to itself. The deadline of a resource
    is the date of the last tag with the reserved key whose value parses (a
    tag with another key, or with a value that does not parse, changes
    nothing); there is none exactly when no such tag parses. On a day of the
    calendar, a deadline still ahead is at least one day away (the days
    the grace line prints), a deadline reached is zero or fewer days
    away. *)
Theorem deadlines_are_calendar_dates :
  (forall value d,
      ResourceCleanup.parse_deadline value = Some d ->
      valid_date d = true
      /\ ResourceCleanup.parse_deadline (TAG_VALUE_PREFIX +:+ isoformat d) = Some d)
  /\ (forall tags d,
        ResourceCleanup.deadline_of tags = Some d ->
        valid_date d = true
        /\ exists t, In t tags /\ Key t = TAG_KEY
                     /\ ResourceCleanup.parse_deadline (Value t) = Some d)
  /\ (forall tags,
        ResourceCleanup.deadline_of tags = None
        <-> forall t, In t tags -> Key t = TAG_KEY ->
                      ResourceCleanup.parse_deadline (Value t) = None)
  /\ (forall tags t d,
        Key t = TAG_KEY -> ResourceCleanup.parse_deadline (Value t) = Some d ->
        ResourceCleanup.deadline_of (tags ++ [t]) = Some d)
  /\ (forall tags t,
        Key t <> TAG_KEY \/ ResourceCleanup.parse_deadline (Value t) = None ->
        ResourceCleanup.deadline_of (tags ++ [t]) = ResourceCleanup.deadline_of tags)
  /\ (forall tags d today in_use,
        ResourceCleanup.deadline_of tags = Some d ->
        valid_date today = true ->
        match Lifecycle.classify (Some d) in_use today with
        | Lifecycle.GracePeriod => 1 <= date_diff_days d today
        | _ => date_diff_days d today <= 0
        end).
Proof.
  assert (Hparse : forall value d,
             ResourceCleanup.parse_deadline value = Some d -> valid_date d = true).
  { intros value d. apply strptime_valid. }
  split; [|split; [|split; [exact deadline_of_none|split; [|split]]]].
  - intros value d H. split; [by eapply Hparse|].
    destruct (strptime_isoformat d (Hparse _ _ H)) as [Hread Hno].
    unfold ResourceCleanup.parse_deadline. by rewrite remove_prefix.
  - intros tags d H. destruct (deadline_of_some tags d H) as (t & Hin & Hk & Hp).
    split; [by eapply Hparse|]. by exists t.
  - intros tags t d Hk Hp. rewrite deadline_of_snoc, Hp.
    by destruct (String.eqb_spec (Key t) TAG_KEY).
  - intros tags t Hno. rewrite deadline_of_snoc.
    destruct (String.eqb_spec (Key t) TAG_KEY) as [Ek|Ek]; [|done].
    destruct Hno as [Hk|Hp]; [done|]. by rewrite Hp.
  - intros tags d today in_use H Vt.
    destruct (deadline_of_some tags d H) as (t & _ & _ & Hp).
    pose proof (Hparse _ _ Hp) as Vd. unfold Lifecycle.classify, date_diff_days.
    rewrite (date_le_ordinal d today Vd Vt).
    destruct (Z.leb_spec (ymd2ord d) (ymd2ord today)); [destruct in_use|]; lia.
Qed.

(** ** The grace period, from the tagging to the scans *)

(** The deadline the Reaper reads off tags the Finder wrote. *)
Lemma tagged_at_deadline now tags :
  four_digit_years (add_days now CostAnalyzer.GRACE_PERIOD_DAYS) ->
  tagged_at now tags ->
  deadline_of tags = Some (date_of (add_days now CostAnalyzer.GRACE_PERIOD_DAYS)).
Proof.
  intros Hnow [Hin Hone].
  pose proof (parse_deadline_tag_value now Hnow) as Hp.
  destruct (deadline_of tags) as [d|] eqn:Hd.
  - apply deadline_of_some in Hd as (t & Ht & Hk & Hv).
    rewrite (Hone t Ht Hk) in Hv. congruence.
  - pose proof (proj1 (deadline_of_none tags) Hd _ Hin eq_refl) as Hno.
    cbn [Value] in Hno. congruence.
Qed.

Lemma date_of_valid_range t :
  0 <= t < 3652059 * us_per_day -> valid_date (date_of t) = true.
Proof.
  intros Ht. unfold date_of, us_per_day in *.
  pose proof (Z.div_le_lower_bound t 86400000000 0 ltac:(lia) ltac:(lia)).
  pose proof (Z.div_lt_upper_bound t 86400000000 3652059 ltac:(lia) ltac:(lia)).
  by destruct (ord2ymd_valid (t / 86400000000 + 1) ltac:(lia)).
Qed.

(** The deadline written at [now] against the date of [t]: it is still
    ahead exactly when fewer than seven calendar days have passed, and
    then by seven days less the days passed. *)
Lemma deadline_against now t :
  four_digit_years (add_days now CostAnalyzer.GRACE_PERIOD_DAYS) ->
  0 <= t < 3652059 * us_per_day ->
  let deadline := date_of (add_days now CostAnalyzer.GRACE_PERIOD_DAYS) in
  date_le deadline (date_of t) = (now / us_per_day + 7 <=? t / us_per_day)
  /\ date_diff_days deadline (date_of t) = now / us_per_day + 7 - t / us_per_day.
Proof.
  intros Hnow Ht deadline.
  assert (Vd : valid_date deadline = true) by apply (date_of_valid _ Hnow).
  pose proof (date_of_valid_range t Ht) as Vt.
  rewrite (date_le_ordinal _ _ Vd Vt). unfold date_diff_days, deadline.
  unfold date_of, add_days, CostAnalyzer.GRACE_PERIOD_DAYS, us_per_day.
  rewrite !ymd2ord_ord2ymd, Z.div_add by lia.
  split; [|lia].
  destruct (Z.leb_spec (now / 86400000000 + 7 + 1) (t / 86400000000 + 1));
    symmetry; [apply Z.leb_le|apply Z.leb_gt]; lia.
Qed.

(** The turn of a listed volume within the run, as its outcome. *)
Lemma run_volume_outcome w b today vols v :
  (forall h, date_of (now_utc w h) = today) ->
  describe_volumes w (volumes_asked w b) tag_filter [] = Ok vols -> In v vols ->
  exists r1 st1 o, volume_outcome w b today v r1 st1 o /\ grows o (scanned w b).
Proof.
  intros Hclock Hd Hin.
  destruct (run_volume_turn w b vols v Hd Hin) as (r1 & st1 & Hg).
  rewrite Hclock in Hg. exists r1, st1, (cleanup_volume w b today r1 v st1).
  split; [apply cleanup_volume_outcome|exact Hg].
Qed.

Lemma run_snapshot_outcome w b today snaps s :
  (forall h, date_of (now_utc w h) = today) ->
  describe_snapshots w (snapshots_asked w b) ["self"] tag_filter = Ok snaps ->
  In s snaps ->
  exists r1 st1 o, snapshot_outcome w b today s r1 st1 o /\ grows o (scanned w b).
Proof.
  intros Hclock Hd Hin.
  destruct (run_snapshot_turn w b snaps s Hd Hin) as (r1 & st1 & Hg).
  rewrite Hclock in Hg. exists r1, st1, (cleanup_snapshot w b today r1 s st1).
  split; [apply cleanup_snapshot_outcome|exact Hg].
Qed.

Lemma run_address_outcome w b today addrs a :
  (forall h, date_of (now_utc w h) = today) ->
  describe_addresses w (addresses_asked w b) tag_filter = Ok addrs -> In a addrs ->
  exists r1 st1 o, address_outcome w b today a r1 st1 o /\ grows o (scanned w b).
Proof.
  intros Hclock Hd Hin.
  destruct (run_address_turn w b addrs a Hd Hin) as (r1 & st1 & Hg).
  rewrite Hclock in Hg. exists r1, st1, (cleanup_eip w b today r1 a st1).
  split; [apply cleanup_eip_outcome|exact Hg].
Qed.

Lemma scanned_trace_run w b c :
  In c (trace (scanned w b).2) -> In c (trace (run (cleanup_run w b)).2).
Proof. apply extends_trace, run_extends_scanned. Qed.

Lemma not_scanned_not_run w b c :
  mutating c = true -> (forall item, c <> PutItem item) ->
  ~ In c (trace (scanned w b).2) -> ~ In c (trace (run (cleanup_run w b)).2).
Proof.
  intros Hm Hput Hno Hin.
  apply run_trace_cases in Hin as [Hin|[[item ->]|(x & y & z & ->)]]; try done.
  by apply (Hput item).
Qed.

(** X10: the grace period, from the tagging to the Reaper's scans, by the
    calendar. Take a resource that carries the deadline tag the Finder
    wrote at the local time [now] (and no other tag under the reserved
    key), and a run of the Reaper on the date of [t]. While fewer than
    seven calendar days have passed since the day of [now], a volume gets
    no safety snapshot and no delete request, is in neither list of the
    results, and the line printed for it gives seven minus the days passed
    as the days remaining; a snapshot gets no delete request and an address
    no release request. From the seventh day on, a volume that is attached
    is skipped as [attached_to_instance] and an associated address is only
    reported, while for a volume without attachment the safety snapshot is
    requested, for a snapshot the deletion and for an address without
    association the release (in a dry run the line that says so is printed
    instead). Identifiers are taken to be unique in the inventory's
    answer, and the years to have four digits. *)
Theorem grace_period_lasts_seven_days (w : world) (b : bool) (now t : datetime) :
  four_digit_years (add_days now CostAnalyzer.GRACE_PERIOD_DAYS) ->
  0 <= t < 3652059 * us_per_day ->
  (forall h, date_of (now_utc w h) = date_of t) ->
  let tagged_on := now / us_per_day in
  let looked_on := t / us_per_day in
  let results := (run (cleanup_run w b)).1 in
  let st := (run (cleanup_run w b)).2 in
  (forall vols v,
      (forall h, sent (trace st) h (DescribeVolumes tag_filter []) ->
                 describe_volumes w h tag_filter [] = Ok vols) ->
      List.NoDup (map VolumeId vols) ->
      In v vols ->
      tagged_at now (VolumeTags v) ->
      (looked_on < tagged_on + 7 ->
       ~ In (DeleteVolume (VolumeId v)) (trace st)
       /\ (forall description tags,
             ~ In (CreateSnapshot (VolumeId v) description tags) (trace st))
       /\ Forall (fun e => dv_volume_id e <> VolumeId v) (volumes_deleted results)
       /\ Forall (fun k => skipped_id k <> VolumeId v) (volumes_skipped results)
       /\ In (line_grace_period (VolumeId v) (tagged_on + 7 - looked_on)) (log st))
      /\ (tagged_on + 7 <= looked_on -> Attachments v <> [] ->
          ~ In (DeleteVolume (VolumeId v)) (trace st)
          /\ (forall description tags,
                ~ In (CreateSnapshot (VolumeId v) description tags) (trace st))
          /\ In (Skipped (VolumeId v) "attached_to_instance") (volumes_skipped results))
      /\ (tagged_on + 7 <= looked_on -> Attachments v = [] ->
          if b then
            In (line_volume_dry_run (VolumeId v) (Size v) (VolumeType v)
                  (volume_cost (Size v) (VolumeType v))) (log st)
          else In (snapshot_call (date_of t) v) (trace st)))
  /\ (forall snaps s,
        (forall h, sent (trace st) h (DescribeSnapshots ["self"] tag_filter) ->
                   describe_snapshots w h ["self"] tag_filter = Ok snaps) ->
        List.NoDup (map SnapshotId snaps) ->
        In s snaps ->
        tagged_at now (SnapshotTags s) ->
        (looked_on < tagged_on + 7 ->
         ~ In (DeleteSnapshot (SnapshotId s)) (trace st)
         /\ Forall (fun e => ds_snapshot_id e <> SnapshotId s) (snapshots_deleted results))
        /\ (tagged_on + 7 <= looked_on ->
            if b then
              In (line_snapshot_dry_run (SnapshotId s) (VolumeSize s) (snapshot_cost s))
                (log st)
            else In (DeleteSnapshot (SnapshotId s)) (trace st)))
  /\ (forall addrs a,
        (forall h, sent (trace st) h (DescribeAddresses tag_filter) ->
                   describe_addresses w h tag_filter = Ok addrs) ->
        List.NoDup (map AllocationId addrs) ->
        In a addrs ->
        tagged_at now (AddressTags a) ->
        (looked_on < tagged_on + 7 ->
         ~ In (ReleaseAddress (AllocationId a)) (trace st)
         /\ Forall (fun e => re_allocation_id e <> AllocationId a) (eips_released results))
        /\ (tagged_on + 7 <= looked_on -> AssociationId a <> None ->
            ~ In (ReleaseAddress (AllocationId a)) (trace st)
            /\ In (line_eip_associated (AllocationId a) (PublicIp a)) (log st))
        /\ (tagged_on + 7 <= looked_on -> AssociationId a = None ->
            if b then In (line_eip_dry_run (PublicIp a) (AllocationId a)) (log st)
            else In (ReleaseAddress (AllocationId a)) (trace st))).
Proof.
  intros Hnow Ht Hclock. cbn zeta.
  set (today := date_of t) in *.
  set (deadline := date_of (add_days now CostAnalyzer.GRACE_PERIOD_DAYS)).
  destruct (deadline_against now t Hnow Ht) as [Hle Hdiff]. fold deadline today in Hle, Hdiff.
  pose proof (run_extends_scanned w b) as Hext. rewrite run_results.
  assert (Hgrace : now / us_per_day + 7 <= t / us_per_day -> date_le deadline today = true)
    by (intros H; rewrite Hle; by apply Z.leb_le).
  assert (Hahead : t / us_per_day < now / us_per_day + 7 -> date_le deadline today = false)
    by (intros H; rewrite Hle; by apply Z.leb_gt).
  split; [|split].
  - intros vols v Hans Hnd Hin Htag.
    pose proof (tagged_at_deadline now _ Hnow Htag) as Hd. fold deadline in Hd.
    pose proof (Hans _ (volumes_asked_sent w b _ Hext)) as Hvols.
    destruct (run_volume_outcome w b today vols v Hclock Hvols Hin)
      as (r1 & st1 & [r2 st2] & Ho & Hg).
    assert (Hsame : forall v', In v' vols -> VolumeId v' = VolumeId v -> v' = v)
      by (intros v' Hin' Hid; by apply (same_id VolumeId vols v' v Hnd Hin' Hin Hid)).
    split; [|split].
    + intros Hlt. specialize (Hahead Hlt).
      assert (Hph : volume_phase today v = GracePeriod)
        by (unfold volume_phase, classify; by rewrite Hd, Hahead).
      assert (Hne : forall h v', In v' vols -> VolumeId v' = VolumeId v ->
                      volume_phase (date_of (now_utc w h)) v' <> Eligible).
      { intros h v' Hin' Hid. rewrite (Hsame v' Hin' Hid), Hclock. congruence. }
      assert (Hgr : forall h v', In v' vols -> VolumeId v' = VolumeId v ->
                      volume_phase (date_of (now_utc w h)) v' = GracePeriod).
      { intros h v' Hin' Hid. by rewrite (Hsame v' Hin' Hid), Hclock. }
      destruct (volume_kept_scanned w b _ vols (VolumeId v) Hext Hans Hne)
        as (Hdel & Hsnap & Hrec & _).
      destruct (volume_unlisted_scanned w b _ vols (VolumeId v) Hext Hans Hgr)
        as (_ & Hunl).
      split; [by apply not_scanned_not_run|].
      split; [intros description tags; by apply not_scanned_not_run|].
      split; [exact Hrec|]. split; [exact Hunl|].
      apply run_log_scanned, (grows_log _ _ _ Hg).
      inversion Ho as [Hp|d' Hd' Hp|Hp|Hp Hb|e Hp Hb Hc|sid Hp Hb Hc|sid e Hp Hb Hc];
        subst; try congruence.
      assert (d' = deadline) as -> by congruence. rewrite Hdiff.
      apply in_after_log. in_list.
    + intros Hge Hatt. specialize (Hgrace Hge).
      assert (Hph : volume_phase today v = NowInUse).
      { unfold volume_phase, classify, attached. rewrite Hd, Hgrace.
        by destruct (Attachments v). }
      assert (Hne : forall h v', In v' vols -> VolumeId v' = VolumeId v ->
                      volume_phase (date_of (now_utc w h)) v' <> Eligible).
      { intros h v' Hin' Hid. rewrite (Hsame v' Hin' Hid), Hclock. congruence. }
      destruct (volume_kept_scanned w b _ vols (VolumeId v) Hext Hans Hne)
        as (Hdel & Hsnap & _ & _).
      split; [by apply not_scanned_not_run|].
      split; [intros description tags; by apply not_scanned_not_run|].
      apply (grows_volumes_skipped _ _ _ Hg).
      inversion Ho; subst; try congruence.
      cbn [fst skip_volume volumes_skipped]. in_list.
    + intros Hge Hatt. specialize (Hgrace Hge).
      assert (Hph : volume_phase today v = Eligible).
      { unfold volume_phase, classify, attached. by rewrite Hd, Hgrace, Hatt. }
      destruct b.
      * apply run_log_scanned, (grows_log _ _ _ Hg).
        inversion Ho; subst; try congruence. apply in_after_log. in_list.
      * apply scanned_trace_run, (grows_trace _ _ _ Hg).
        inversion Ho; subst; try congruence; apply in_after_trace; by left.
  - intros snaps s Hans Hnd Hin Htag.
    pose proof (tagged_at_deadline now _ Hnow Htag) as Hd. fold deadline in Hd.
    pose proof (Hans _ (snapshots_asked_sent w b _ Hext)) as Hsnaps.
    destruct (run_snapshot_outcome w b today snaps s Hclock Hsnaps Hin)
      as (r1 & st1 & [r2 st2] & Ho & Hg).
    split.
    + intros Hlt. specialize (Hahead Hlt).
      assert (Hne : forall h s', In s' snaps -> SnapshotId s' = SnapshotId s ->
                      snapshot_phase (date_of (now_utc w h)) s' <> Eligible).
      { intros h s' Hin' Hid. rewrite (same_id SnapshotId snaps s' s Hnd Hin' Hin Hid).
        unfold snapshot_phase. rewrite Hd, Hclock. by apply grace_not_eligible. }
      destruct (snapshot_kept_scanned w b _ snaps (SnapshotId s) Hext Hans Hne)
        as (Hdel & Hrec).
      split; [by apply not_scanned_not_run|exact Hrec].
    + intros Hge. specialize (Hgrace Hge).
      assert (Hph : snapshot_phase today s = Eligible)
        by (unfold snapshot_phase, classify; by rewrite Hd, Hgrace).
      destruct b.
      * apply run_log_scanned, (grows_log _ _ _ Hg).
        inversion Ho; subst; try congruence. apply in_after_log. in_list.
      * apply scanned_trace_run, (grows_trace _ _ _ Hg).
        inversion Ho; subst; try congruence; apply in_after_trace; by left.
  - intros addrs a Hans Hnd Hin Htag.
    pose proof (tagged_at_deadline now _ Hnow Htag) as Hd. fold deadline in Hd.
    pose proof (Hans _ (addresses_asked_sent w b _ Hext)) as Haddrs.
    destruct (run_address_outcome w b today addrs a Hclock Haddrs Hin)
      as (r1 & st1 & [r2 st2] & Ho & Hg).
    assert (Hkeep : address_phase today a <> Eligible ->
              ~ In (ReleaseAddress (AllocationId a)) (trace (run (cleanup_run w b)).2)
              /\ Forall (fun e => re_allocation_id e <> AllocationId a)
                   (eips_released (scanned w b).1)).
    { intros Hph.
      assert (Hne : forall h a', In a' addrs -> AllocationId a' = AllocationId a ->
                      address_phase (date_of (now_utc w h)) a' <> Eligible).
      { intros h a' Hin' Hid.
        by rewrite (same_id AllocationId addrs a' a Hnd Hin' Hin Hid), Hclock. }
      destruct (address_kept_scanned w b _ addrs (AllocationId a) Hext Hans Hne)
        as (Hrel & Hrec).
      split; [by apply not_scanned_not_run|exact Hrec]. }
    split; [|split].
    + intros Hlt. specialize (Hahead Hlt). apply Hkeep.
      unfold address_phase. rewrite Hd. by apply grace_not_eligible.
    + intros Hge Hassoc. specialize (Hgrace Hge).
      assert (Hph : address_phase today a = NowInUse).
      { unfold address_phase, classify, associated. rewrite Hd, Hgrace.
        by destruct (AssociationId a). }
      split; [apply Hkeep; congruence|].
      apply run_log_scanned, (grows_log _ _ _ Hg).
      inversion Ho as [[Hp|Hp]|Hp|Hp Hb|Hp Hb|e Hp Hb]; subst; try congruence.
      apply in_after_log. in_list.
    + intros Hge Hassoc. specialize (Hgrace Hge).
      assert (Hph : address_phase today a = Eligible).
      { unfold address_phase, classify, associated. by rewrite Hd, Hgrace, Hassoc. }
      destruct b.
      * apply run_log_scanned, (grows_log _ _ _ Hg).
        inversion Ho as [[Hp|Hp]|Hp|Hp Hb|Hp Hb|e Hp Hb]; subst; try congruence.
        apply in_after_log. in_list.
      * apply scanned_trace_run, (grows_trace _ _ _ Hg).
        inversion Ho as [[Hp|Hp]|Hp|Hp Hb|Hp Hb|e Hp Hb]; subst; try congruence;
          apply in_after_trace; by left.
Qed.

(** ** The sample account *)

Import Examples.

(** X1 on the sample clock: tagged on 2025-02-09, due on 2025-02-16. *)
Lemma reaper_reads_the_finder_deadline_witness :
  ResourceCleanup.parse_deadline (CostAnalyzer.deadline_tag_value clock)
  = Some (Date 2025 2 16).
Proof.
  refine (proj1 (reaper_reads_the_finder_deadline clock clock _)).
  cbv. split; [discriminate|reflexivity].
Defined.

(** X10 on the sample account, scanned on 2025-02-09: [vol-3], tagged six
    days before, is kept with one day remaining; for [vol-1], tagged seven
    days before, the safety snapshot is requested. *)
Lemma grace_period_lasts_seven_days_witness :
  (~ In (DeleteVolume "vol-3") (trace (run (cleanup_run account false)).2)
   /\ In (line_grace_period "vol-3" 1) (log (run (cleanup_run account false)).2))
  /\ In (snapshot_call today expired) (trace (run (cleanup_run account false)).2).
Proof.
  pose proof (grace_period_lasts_seven_days account false (add_days clock (-6)) clock)
    as H6.
  pose proof (grace_period_lasts_seven_days account false (add_days clock (-7)) clock)
    as H7.
  cbn zeta in H6, H7.
  destruct H6 as (H6 & _).
  - cbv. split; [discriminate|reflexivity].
  - cbv. split; [discriminate|reflexivity].
  - intros h. reflexivity.
  - destruct H7 as (H7 & _).
    + cbv. split; [discriminate|reflexivity].
    + cbv. split; [discriminate|reflexivity].
    + intros h. reflexivity.
    + destruct (H6 volumes in_grace) as (G & _).
      * intros h _. reflexivity.
      * vm_compute. repeat constructor; cbn; intuition discriminate.
      * right. right. left. reflexivity.
      * split; [right; left; vm_compute; reflexivity|].
        intros t [<-|[<-|[]]]; [discriminate|]. intros _. vm_compute. reflexivity.
      * destruct (H7 volumes expired) as (_ & _ & E).
        -- intros h _. reflexivity.
        -- vm_compute. repeat constructor; cbn; intuition discriminate.
        -- left. reflexivity.
        -- split; [right; left; vm_compute; reflexivity|].
           intros t [<-|[<-|[]]]; [discriminate|]. intros _. vm_compute. reflexivity.
        -- destruct G as (G1 & _ & _ & _ & G2); [vm_compute; reflexivity|].
           split; [split; [exact G1|exact G2]|].
           apply E; [vm_compute; discriminate|reflexivity].
Defined.

End DeadlineFacts.

(* ===================================================================== *)
(** * The Finder *)
(* ===================================================================== *)

Module FinderFacts.
Import Py Aws Lifecycle Runs Searches Calendar ReaperFacts DeadlineFacts CostAnalyzer.
Local Open Scope run_scope.

(** ** Handlers that only read *)

Lemma reads_ret {A} (a : A) : reads_only (ret a).
Proof. intros st. exists [], []. by rewrite after_nil. Qed.

Lemma reads_print line : reads_only (print line).
Proof.
  intros st. exists [], [line]. split; [|constructor].
  unfold print, after. cbn. by rewrite app_nil_r.
Qed.

Lemma reads_request {A} (answer : list call -> A) c :
  mutating c = false -> reads_only (request answer c).
Proof.
  intros Hc st. exists [c], []. split; [|by repeat constructor].
  unfold request, after. cbn. by rewrite app_nil_r.
Qed.

Lemma reads_bind {A B} (m : M A) (k : A -> M B) :
  reads_only m -> (forall a, reads_only (k a)) -> reads_only (bind m k).
Proof.
  intros Hm Hk st. unfold bind.
  destruct (Hm st) as (c1 & l1 & E1 & F1).
  destruct (m st) as [a st1]. cbn [snd] in E1. subst st1.
  destruct (Hk a (after st c1 l1)) as (c2 & l2 & E2 & F2).
  exists (c1 ++ c2), (l1 ++ l2). split; [|by apply Forall_app].
  by rewrite E2, after_after.
Qed.

Lemma reads_for_each {A S} (xs : list A) (body : S -> A -> M S) acc :
  (forall acc x, reads_only (body acc x)) -> reads_only (for_each xs body acc).
Proof.
  intros Hb. revert acc. induction xs as [|x xs IH]; intros acc.
  - apply reads_ret.
  - cbn [for_each]. apply reads_bind; [apply Hb|apply IH].
Qed.

Lemma reads_for_each_try {A S} (xs : list A) (body : S -> A -> M (result S)) acc :
  (forall acc x, reads_only (body acc x)) -> reads_only (for_each_try xs body acc).
Proof.
  intros Hb. revert acc. induction xs as [|x xs IH]; intros acc.
  - apply reads_ret.
  - cbn [for_each_try]. apply reads_bind; [apply Hb|].
    intros [acc'|e]; [apply IH|apply reads_ret].
Qed.

Lemma reads_bind_try {A B} (m : M (result A)) (k : A -> M (result B)) :
  reads_only m -> (forall a, reads_only (k a)) -> reads_only (bind_try m k).
Proof.
  intros Hm Hk. apply reads_bind; [exact Hm|].
  intros [a|e]; [apply Hk|apply reads_ret].
Qed.

Ltac reads :=
  repeat first
    [ apply reads_ret | apply reads_print | apply reads_request; reflexivity
    | apply reads_bind_try | apply reads_for_each_try | apply reads_for_each
    | apply reads_bind
    | progress intros
    | match goal with
      | |- reads_only (match ?x with _ => _ end) => destruct x
      | |- reads_only (if ?x then _ else _) => destruct x
      | |- reads_only (let '(_, _) := ?x in _) => destruct x
      end ].

Lemma find_unattached_volumes_reads w : reads_only (find_unattached_volumes w).
Proof. unfold find_unattached_volumes. reads. Qed.

Lemma find_stopped_instances_reads w :
  reads_only (find_stopped_instances_with_volumes w).
Proof.
  unfold find_stopped_instances_with_volumes, stopped_instance, instance_volumes. reads.
Qed.

Lemma find_old_snapshots_reads w : reads_only (find_old_snapshots w).
Proof. unfold find_old_snapshots. reads. Qed.

Lemma find_idle_elastic_ips_reads w : reads_only (find_idle_elastic_ips w).
Proof. unfold find_idle_elastic_ips. reads. Qed.

Lemma analysis_reads w : reads_only (analysis w).
Proof.
  unfold analysis. reads;
    auto using find_unattached_volumes_reads, find_stopped_instances_reads,
      find_old_snapshots_reads, find_idle_elastic_ips_reads.
Qed.

(** ** The tagging *)

Lemma tagging_call_more value ids ids' c :
  (forall id, In id ids -> In id ids') ->
  tagging_call value ids c -> tagging_call value ids' c.
Proof.
  intros Hsub. destruct c; try done. intros [Hf Hin]. split; [done|]. auto.
Qed.

(** A loop whose every turn reads the clock and tags one address. *)
Lemma tag_addresses_loop w value (body : unit -> eip_finding -> M unit) eips st :
  (forall u e st0, exists lines,
      body u e st0
      = (tt, after st0
               [NowLocal;
                CreateTags [ef_allocation_id e]
                  (deletion_tags value (now_local w (trace st0)))]
               lines)) ->
  exists calls lines,
    (for_each eips body tt st).2 = after st calls lines
    /\ Forall (tagging_call value (map ef_allocation_id eips)) calls
    /\ all_tagged (map ef_allocation_id eips) calls.
Proof.
  intros Hbody. revert st. induction eips as [|e eips IH]; intros st.
  - exists [], []. rewrite after_nil. repeat split; [constructor|]. intros id [].
  - cbn [for_each]. unfold bind. destruct (Hbody tt e st) as [lines1 ->].
    destruct (IH (after st
                    [NowLocal;
                     CreateTags [ef_allocation_id e]
                       (deletion_tags value (now_local w (trace st)))] lines1))
      as (calls & lines & -> & Hc & Ha).
    rewrite after_after. eexists _, _. split; [reflexivity|]. split.
    + cbn [app map]. constructor; [done|]. constructor.
      * split; [by eexists|]. intros id [<-|[]]. by left.
      * eapply Forall_impl; [exact Hc|]. intros c. apply tagging_call_more.
        intros id Hid. by right.
    + intros id [<-|Hid].
      * eexists _, _. split; [right; by left|]. by left.
      * destruct (Ha id Hid) as (rs & tags & Hin & Hrs).
        exists rs, tags. split; [|done]. right. right. exact Hin.
Qed.

Lemma tag_address_turn w value (u : unit) e st :
  exists lines,
    (do found <- request (now_local w) NowLocal;
     let tags := deletion_tags value found in
     do r <- request (fun h => create_tags w h [ef_allocation_id e] tags)
               (CreateTags [ef_allocation_id e] tags);
     match r with
     | Ok _ => ret tt
     | Raise msg => print ("ERROR tagging EIP " +:+ ef_allocation_id e +:+ ": " +:+ msg)
     end) st
    = (tt, after st
             [NowLocal;
              CreateTags [ef_allocation_id e]
                (deletion_tags value (now_local w (trace st)))]
             lines).
Proof.
  run_step. destruct (create_tags w _ _ _) as [[]|msg]; eexists; f_equal; solve_after.
Qed.

Lemma flagged_batch f id :
  In id (map vf_volume_id (unattached_volumes f) ++ map sf_snapshot_id (old_snapshots f)) ->
  In id (flagged f).
Proof.
  unfold flagged. rewrite !in_app_iff. tauto.
Qed.

Lemma flagged_addresses f id :
  In id (map ef_allocation_id (idle_elastic_ips f)) -> In id (flagged f).
Proof.
  unfold flagged. rewrite !in_app_iff. tauto.
Qed.

(** The tagging sends clock readings and tagging requests only; every
    tagging request carries the deadline computed from the local time
    read first, and every flagged resource is in one of them. *)
Lemma tag_resources_run w f st :
  exists calls lines,
    (tag_resources_for_deletion w f st).2 = after st (NowLocal :: calls) lines
    /\ Forall (tagging_call (deadline_tag_value (now_local w (trace st))) (flagged f)) calls
    /\ all_tagged (flagged f) calls.
Proof.
  unfold tag_resources_for_deletion.
  set (value := deadline_tag_value (now_local w (trace st))).
  unfold bind at 1. unfold request at 1. cbn [fst snd]. cbv zeta.
  fold (deadline_tag_value (now_local w (trace st))). fold value.
  set (ids := map vf_volume_id (unattached_volumes f)
              ++ map sf_snapshot_id (old_snapshots f)).
  set (st0 := State (trace st ++ [NowLocal]) (log st)).
  assert (Hsub : forall id, In id ids -> In id (flagged f)) by apply flagged_batch.
  assert (Hadd : forall id, In id (map ef_allocation_id (idle_elastic_ips f)) ->
                            In id (flagged f)) by apply flagged_addresses.
  assert (Hall : forall id, In id (flagged f) ->
                   In id ids \/ In id (map ef_allocation_id (idle_elastic_ips f))).
  { intros id. unfold flagged, ids. rewrite !in_app_iff. tauto. }
  clearbody ids value. unfold bind at 1.
  match goal with
  | |- context [let '(_, st') := ?m st0 in _] =>
      assert (Hbatch : exists calls1 lines1,
                 m st0 = (tt, after st0 calls1 lines1)
                 /\ Forall (tagging_call value ids) calls1
                 /\ all_tagged ids calls1)
  end.
  { destruct ids as [|id0 ids'].
    - exists [], []. rewrite after_nil. repeat split; [constructor|]. intros id [].
    - run_step. set (ids := id0 :: ids') in *.
      set (tags := deletion_tags value _).
      exists [NowLocal; CreateTags ids tags].
      destruct (create_tags w _ _ _) as [[]|e]; eexists;
        (split; [f_equal; solve_after|]);
        (split; [constructor; [done|]; constructor; [|constructor];
                 split; [by eexists|done]|]);
        intros id Hid; exists ids, tags; (split; [right; by left|done]). }
  destruct Hbatch as (calls1 & lines1 & -> & Hc1 & Ha1).
  match goal with
  | |- context [for_each _ ?body tt _] =>
      destruct (tag_addresses_loop w value body (idle_elastic_ips f)
                  (after st0 calls1 lines1))
        as (calls2 & lines2 & -> & Hc2 & Ha2);
        [intros u e s; exact (tag_address_turn w value u e s)|]
  end.
  subst st0. exists (calls1 ++ calls2), (lines1 ++ lines2). split.
  { unfold after. cbn [trace log]. apply state_eq.
    - by rewrite <- !app_assoc.
    - by rewrite <- !app_assoc. }
  split.
  - apply Forall_app. split.
    + eapply Forall_impl; [exact Hc1|]. intros c. by apply tagging_call_more.
    + eapply Forall_impl; [exact Hc2|]. intros c. by apply tagging_call_more.
  - intros id Hid. destruct (Hall id Hid) as [Hin|Hin].
    + destruct (Ha1 id Hin) as (rs & tags & Hcall & Hrs). exists rs, tags.
      split; [|done]. apply in_or_app. by left.
    + destruct (Ha2 id Hin) as (rs & tags & Hcall & Hrs). exists rs, tags.
      split; [|done]. apply in_or_app. by right.
Qed.

(** ** The report and the whole run *)

Lemma send_cost_report_run w f st :
  exists lines,
    send_cost_report w f st
    = (tt, after st [Publish SNS_TOPIC_ARN (cost_subject f) (cost_message f)] lines).
Proof.
  unfold send_cost_report. run_step.
  destruct (publish w (trace st) SNS_TOPIC_ARN _ _); run_step;
    eexists; f_equal; solve_after.
Qed.

(** A run of the Finder: the analysis, the tagging of what it flagged,
    then the report. *)
Lemma finder_handler_run w :
  exists calls lines,
    run (lambda_handler w)
    = (Response 200 "Cost analysis complete"
         (total_waste_monthly (run (analysis w)).1) (total_issues (run (analysis w)).1),
       after (run (analysis w)).2
         (NowLocal :: calls
          ++ [Publish SNS_TOPIC_ARN (cost_subject (run (analysis w)).1)
                (cost_message (run (analysis w)).1)])
         lines)
    /\ Forall (tagging_call
                 (deadline_tag_value (now_local w (trace (run (analysis w)).2)))
                 (flagged (run (analysis w)).1)) calls
    /\ all_tagged (flagged (run (analysis w)).1) calls.
Proof.
  unfold run, lambda_handler. unfold bind at 1.
  destruct (analysis w (State [] [])) as [f st1]. cbn [fst snd].
  destruct (tag_resources_run w f st1) as (calls & lines1 & Htag & Hc & Ha).
  unfold bind at 1.
  destruct (tag_resources_for_deletion w f st1) as [[] st2]. cbn [snd] in Htag.
  subst st2. unfold bind at 1.
  destruct (send_cost_report_run w f (after st1 (NowLocal :: calls) lines1))
    as (lines2 & ->).
  run_step. exists calls. eexists. split; [|by split].
  f_equal. solve_after.
Qed.


Lemma analysis_trace_reads w :
  Forall (fun c => mutating c = false) (trace (run (analysis w)).2).
Proof.
  unfold run. destruct (analysis_reads w (State [] [])) as (calls & lines & -> & Hc).
  exact Hc.
Qed.

(** Every tagging request of a run is one of the tagging step. *)
Lemma finder_tagging_requests w resources tags :
  In (CreateTags resources tags) (trace (run (lambda_handler w)).2) ->
  tagging_call (deadline_tag_value (now_local w (trace (run (analysis w)).2)))
    (flagged (run (analysis w)).1) (CreateTags resources tags).
Proof.
  destruct (finder_handler_run w) as (calls & lines & -> & Hc & _).
  cbn [snd after trace]. intros Hin.
  apply in_app_or in Hin as [Hin|Hin].
  - by apply (Forall_In _ _ _ (analysis_trace_reads w)) in Hin.
  - destruct Hin as [Hin|Hin]; [discriminate|].
    apply in_app_or in Hin as [Hin|[Hin|[]]]; [|discriminate].
    apply (Forall_In _ _ _ Hc) in Hin. exact Hin.
Qed.

Lemma finder_all_tagged w id :
  In id (flagged (run (analysis w)).1) ->
  exists resources tags,
    In (CreateTags resources tags) (trace (run (lambda_handler w)).2)
    /\ In id resources.
Proof.
  destruct (finder_handler_run w) as (calls & lines & -> & _ & Ha).
  intros Hid. destruct (Ha id Hid) as (rs & tags & Hin & Hrs).
  exists rs, tags. split; [|done]. cbn [snd after trace].
  apply in_or_app. right. right. apply in_or_app. by left.
Qed.

Lemma finder_clock_read w :
  sent (trace (run (lambda_handler w)).2) (trace (run (analysis w)).2) NowLocal.
Proof.
  destruct (finder_handler_run w) as (calls & lines & -> & _ & _).
  cbn [snd after trace]. by eexists.
Qed.

(** C4: in a run of the Finder, let [now] be the local time the tagging
    reads as it starts, right after the analysis, and [due] be [now] plus
    the seven days of [GRACE_PERIOD_DAYS]. Every flagged volume, old
    snapshot and idle address is among the resources of a tagging request
    of the run, and every tagging request of the run carries the reserved
    key with one and the same value: [DeleteAfter-] followed by the date of
    [due] as [strftime('%Y-%m-%d')] writes it, which from the year 1000 on
    is the ISO date [YYYY-MM-DD], every field zero-filled. *)
Theorem deadline_is_run_time_plus_grace (w : world) :
  let f := (run (analysis w)).1 in
  let tr := trace (run (lambda_handler w)).2 in
  let now := now_local w (trace (run (analysis w)).2) in
  let due := add_days now GRACE_PERIOD_DAYS in
  let value := TAG_VALUE_PREFIX +:+ strftime_Ymd due in
  sent tr (trace (run (analysis w)).2) NowLocal
  /\ TAG_VALUE_PREFIX = "DeleteAfter-"
  /\ due = now + 7 * 86400000000
  /\ (four_digit_years due ->
      value = "DeleteAfter-" +:+ isoformat (date_of due)
      /\ isoformat (date_of due)
         = zfill 4 (year (date_of due)) +:+ "-" +:+ zfill 2 (month (date_of due))
           +:+ "-" +:+ zfill 2 (day (date_of due)))
  /\ (forall id,
        In id (map vf_volume_id (unattached_volumes f)
               ++ map sf_snapshot_id (old_snapshots f)
               ++ map ef_allocation_id (idle_elastic_ips f)) ->
        exists resources tags,
          In (CreateTags resources tags) tr /\ In id resources)
  /\ (forall resources tags,
        In (CreateTags resources tags) tr ->
        In (Tag TAG_KEY value) tags
        /\ forall t, In t tags -> Key t = TAG_KEY -> Value t = value).
Proof.
  cbn zeta. split; [apply finder_clock_read|]. do 2 (split; [done|]). split; [|split].
  - intros Hdue. by rewrite (strftime_isoformat_text _ Hdue).
  - apply finder_all_tagged.
  - intros resources tags Hin.
    apply finder_tagging_requests in Hin as [[found ->] _]. split; [by left|].
    intros t [<-|[<-|[<-|[]]]]; done.
Qed.


Lemma finder_report_sent w :
  In (Publish SNS_TOPIC_ARN (cost_subject (run (analysis w)).1)
        (cost_message (run (analysis w)).1))
    (trace (run (lambda_handler w)).2).
Proof.
  destruct (finder_handler_run w) as (calls & lines & -> & _ & _).
  cbn [snd after trace]. apply in_or_app. right. right. apply in_or_app. right. by left.
Qed.


(** ** The notification *)

(** X4: the notification a run of the Finder publishes. With no finding
    its text is the fixed [No waste found] message; otherwise it gives the
    number of findings and the monthly and yearly savings, then one phrase
    for every kind that was found and none for a kind with no finding, and
    ends with [Tagged for 7-day review.] *)
Theorem notification_names_what_was_found (w : world) :
  let f := (run (analysis w)).1 in
  In (Publish SNS_TOPIC_ARN (cost_subject f) (cost_message f))
    (trace (run (lambda_handler w)).2)
  /\ (total_issues f = 0%nat ->
      cost_message f = "AWS Cost Alert: No waste found. All resources optimized.")
  /\ (total_issues f <> 0%nat ->
      cost_message f
      = "AWS Cost Alert: " +:+ str_N (N.of_nat (total_issues f)) +:+ " issues found. "
        +:+ "Savings: $" +:+ format_2f (total_waste_monthly f) +:+ "/mo ($"
        +:+ format_2f (total_waste_monthly f * 12)%float +:+ "/yr). "
        +:+ count_phrase (length (unattached_volumes f)) " unattached volumes. "
        +:+ count_phrase (length (stopped_instances_with_volumes f)) " stopped instances. "
        +:+ count_phrase (length (old_snapshots f)) " old snapshots. "
        +:+ count_phrase (length (idle_elastic_ips f)) " idle IPs. "
        +:+ "Tagged for 7-day review.")
  /\ (forall what, count_phrase 0 what = "")
  /\ (forall n what, n <> 0%nat -> count_phrase n what = str_N (N.of_nat n) +:+ what).
Proof.
  cbn zeta. split; [apply finder_report_sent|].
  set (f := (run (analysis w)).1). unfold cost_message.
  split; [|split; [|split]].
  - intros ->. reflexivity.
  - intros Hn. by destruct (Nat.eqb_spec (total_issues f) 0).
  - reflexivity.
  - intros n what Hn. unfold count_phrase. destruct n; [done|reflexivity].
Qed.

(** ** Loops that collect findings *)

(** A loop that appends one finding for every element that passes [p] and
    nothing for the others collects the findings of the elements that pass,
    in order. *)
Lemma for_each_collect {A B} (p : A -> bool) (R : A -> B -> Prop) (xs : list A)
    (body : list B -> A -> M (list B)) :
  (forall acc x st,
      if p x then exists y, (body acc x st).1 = acc ++ [y] /\ R x y
      else (body acc x st).1 = acc) ->
  forall acc st, exists ys,
    (for_each xs body acc st).1 = acc ++ ys /\ Forall2 R (List.filter p xs) ys.
Proof.
  intros Hbody. induction xs as [|x xs IH]; intros acc st.
  - exists []. cbn. by rewrite app_nil_r.
  - cbn [for_each List.filter]. unfold bind. pose proof (Hbody acc x st) as Hx.
    destruct (body acc x st) as [acc1 st1]. cbn [fst] in Hx.
    destruct (IH acc1 st1) as (ys & E & Hys). destruct (p x).
    + destruct Hx as (y & -> & Hy). exists (y :: ys). split; [|by constructor].
      by rewrite E, <- app_assoc.
    + subst acc1. by exists ys.
Qed.

Lemma Forall2_map_eq {A B} (f : A -> B) xs ys :
  Forall2 (fun x y => y = f x) xs ys -> ys = map f xs.
Proof. induction 1; [done|]. cbn. congruence. Qed.

(** ** Unattached volumes *)

Lemma price_lookup volume_type :
  default 0.10%float (price_per_gb !! volume_type) = spec_rate volume_type.
Proof.
  unfold spec_rate, price_per_gb.
  repeat match goal with
  | |- context [String.eqb volume_type ?k] =>
      destruct (String.eqb_spec volume_type k) as [->|?]; [done|];
      first [rewrite lookup_insert_ne by done | rewrite lookup_singleton_ne by done]
  end.
  done.
Qed.

Lemma volume_cost_rate size_gb volume_type :
  volume_cost size_gb volume_type
  = (float_of_int size_gb * spec_rate volume_type)%float.
Proof. unfold volume_cost. by rewrite price_lookup. Qed.

Lemma find_unattached_volumes_found w st vols :
  describe_volumes w (trace st) [] [] = Ok vols ->
  (find_unattached_volumes w st).1 = map unattached_finding (List.filter unattached vols).
Proof.
  intros Hd. unfold find_unattached_volumes. unfold bind at 1. unfold request at 1.
  rewrite Hd. unfold bind at 1.
  match goal with
  | |- context [for_each vols ?body [] ?s] =>
      destruct (for_each_collect unattached (fun v f => f = unattached_finding v)
                  vols body) with (acc := @nil volume_finding) (st := s)
        as (fs & E & Hfs)
  end.
  { intros acc v st0. unfold unattached. destruct (length (Attachments v) =? 0)%nat.
    - exists (unattached_finding v). by split.
    - done. }
  apply Forall2_map_eq in Hfs. subst fs.
  destruct (for_each vols _ [] _) as [found st1]. cbn [fst] in E. by subst found.
Qed.

(** C6: when the inventory answers with [vols], the findings of the search
    for unattached volumes are, one for one and in order, the volumes of
    [vols] with no attachment; a volume with an attachment has no finding.
    The monthly cost of a finding is the size in GB times the rate of the
    volume type ([gp2] 0.114, [gp3] 0.091, [io1] 0.143, [io2] 0.143, [sc1]
    0.029, [st1] 0.051, [standard] 0.057, any other type 0.10), the product
    taken in binary64 and rounded to two decimals as [round(x, 2)] does. *)
Theorem unattached_volumes_are_priced (w : world) (st : state) (vols : list volume) :
  describe_volumes w (trace st) [] [] = Ok vols ->
  let found := (find_unattached_volumes w st).1 in
  found = map unattached_finding (List.filter unattached vols)
  /\ length found = length (List.filter unattached vols)
  /\ (forall v, In v (List.filter unattached vols) <-> In v vols /\ Attachments v = [])
  /\ (forall v,
        vf_volume_id (unattached_finding v) = VolumeId v
        /\ vf_monthly_cost (unattached_finding v)
           = round_digits (float_of_int (Size v) * spec_rate (VolumeType v))%float 2).
Proof.
  intros Hd found. subst found. rewrite (find_unattached_volumes_found w st vols Hd).
  split; [done|]. split; [by rewrite length_map|]. split.
  - intros v. rewrite List.filter_In. unfold unattached.
    rewrite Nat.eqb_eq. by rewrite length_zero_iff_nil.
  - intros v. split; [done|]. cbn [unattached_finding vf_monthly_cost].
    by rewrite volume_cost_rate.
Qed.

(** ** Old snapshots *)

(** A loop that reads the clock once for every element that passes [p],
    and appends a finding made of the reading and the element: the [k]-th
    finding is made of the reading after [k] earlier ones. *)
Lemma for_each_readings {A B} (w : world) (p : A -> bool) (make : datetime -> A -> B)
    (xs : list A) (body : list B -> A -> M (list B)) :
  (forall acc x st,
      (body acc x st).1
      = (if p x then acc ++ [make (now_utc w (trace st)) x] else acc)
      /\ trace (body acc x st).2 = (if p x then trace st ++ [NowUtc] else trace st)) ->
  forall acc st,
    (for_each xs body acc st).1
    = acc ++ imap (fun k x => make (now_utc w (trace st ++ replicate k NowUtc)) x)
               (List.filter p xs)
    /\ trace (for_each xs body acc st).2
       = trace st ++ replicate (length (List.filter p xs)) NowUtc.
Proof.
  intros Hbody. induction xs as [|x xs IH]; intros acc st.
  - cbn. by rewrite !app_nil_r.
  - cbn [for_each List.filter]. unfold bind. destruct (Hbody acc x st) as [H1 H2].
    destruct (body acc x st) as [acc1 st1]. cbn [fst snd] in H1, H2.
    destruct (IH acc1 st1) as [E1 E2]. rewrite E1, E2, H1, H2. destruct (p x).
    + cbn [imap length replicate]. rewrite <- !app_assoc, app_nil_r. cbn [app].
      split; [|done]. do 2 f_equal. apply imap_ext. intros k y _. cbn.
      by rewrite <- app_assoc.
    + done.
Qed.

Lemma find_old_snapshots_found w st snaps :
  describe_snapshots w (trace st) ["self"] [] = Ok snaps ->
  let asked := trace st ++ [DescribeSnapshots ["self"] []] in
  let old :=
    List.filter
      (started_before (add_days (now_utc w asked) (- SNAPSHOT_AGE_THRESHOLD_DAYS)))
      snaps in
  (find_old_snapshots w st).1
  = imap (fun k s =>
            old_snapshot_finding
              (now_utc w (asked ++ NowUtc :: replicate k NowUtc)) s) old
  /\ trace (find_old_snapshots w st).2
     = asked ++ NowUtc :: replicate (length old) NowUtc.
Proof.
  intros Hd asked old. subst old.
  unfold find_old_snapshots, bind, request, print, ret. rewrite Hd.
  cbn [trace log]. fold asked.
  set (threshold := add_days _ _).
  match goal with
  | |- context [for_each snaps ?body [] ?s0] =>
      destruct (for_each_readings w (started_before threshold) old_snapshot_finding
                  snaps body) with (acc := @nil snapshot_finding) (st := s0)
        as [E1 E2]
  end.
  { intros acc s st0. unfold started_before.
    by destruct (StartTime s <? threshold). }
  destruct (for_each snaps _ [] _) as [found st1]. cbn [fst snd trace app] in *.
  subst found. rewrite E2. split; [|by rewrite <- app_assoc].
  apply imap_ext. intros k s _. cbn. by rewrite <- app_assoc.
Qed.

Lemma delta_days_floor (a b : datetime) :
  delta_days a b * us_per_day <= a - b < (delta_days a b + 1) * us_per_day.
Proof.
  unfold delta_days, us_per_day.
  pose proof (Z.div_mod (a - b) 86400000000 ltac:(lia)).
  pose proof (Z.mod_pos_bound (a - b) 86400000000 ltac:(lia)). lia.
Qed.

(** C7: when the inventory answers with [snaps], let [now] be the time read
    right after the answer and [threshold] be [now] minus 90 days. The
    findings of the search for old snapshots are, one for one and in order,
    the snapshots of [snaps] whose start time is strictly before
    [threshold]; a snapshot that started exactly at [threshold] has no
    finding. The clock is read once more for every finding, and for nothing
    else: the age of the [k]-th finding is the whole number of days,
    rounded down, from the start time to the time [read k] that the clock
    gives after [k] earlier readings, whatever the clock does in between.
    With a clock that does not go back the age is at least 90; with a
    clock that stands still during the search it is
    [(now - start) / one day], rounded down. *)
Theorem old_snapshots_are_past_the_threshold (w : world) (st : state)
    (snaps : list snapshot) :
  describe_snapshots w (trace st) ["self"] [] = Ok snaps ->
  let asked := trace st ++ [DescribeSnapshots ["self"] []] in
  let now := now_utc w asked in
  let threshold := add_days now (- SNAPSHOT_AGE_THRESHOLD_DAYS) in
  let old := List.filter (started_before threshold) snaps in
  let read k := now_utc w (asked ++ NowUtc :: replicate k NowUtc) in
  let found := (find_old_snapshots w st).1 in
  threshold = now - 90 * 86400000000
  /\ found = imap (fun k s => old_snapshot_finding (read k) s) old
  /\ trace (find_old_snapshots w st).2
     = asked ++ NowUtc :: replicate (length old) NowUtc
  /\ length found = length old
  /\ (forall k s,
        old !! k = Some s ->
        exists f,
          found !! k = Some f
          /\ sf_snapshot_id f = SnapshotId s
          /\ sf_age_days f = (read k - StartTime s) / 86400000000
          /\ sf_age_days f * 86400000000 <= read k - StartTime s
             < (sf_age_days f + 1) * 86400000000
          /\ (now <= read k -> 90 <= sf_age_days f))
  /\ (forall s, In s old <-> In s snaps /\ StartTime s < threshold)
  /\ (forall s, StartTime s = threshold -> ~ In s old)
  /\ ((forall h, now_utc w h = now) ->
      found = map (old_snapshot_finding now) old
      /\ forall s, sf_age_days (old_snapshot_finding now s)
                   = (now - StartTime s) / 86400000000).
Proof.
  intros Hd asked now threshold old read found.
  destruct (find_old_snapshots_found w st snaps Hd) as [E Htr].
  fold asked now threshold old in E, Htr. subst found.
  assert (Hin : forall s, In s old <-> In s snaps /\ StartTime s < threshold).
  { intros s. subst old. rewrite List.filter_In. unfold started_before.
    by rewrite Z.ltb_lt. }
  split; [done|]. split; [exact E|]. split; [exact Htr|].
  split; [by rewrite E, length_imap|].
  split; [|split; [exact Hin|split]].
  - intros k s Hk. exists (old_snapshot_finding (read k) s).
    split; [by rewrite E, list_lookup_imap, Hk|]. split; [done|].
    cbn [old_snapshot_finding sf_age_days]. split; [done|].
    split; [apply delta_days_floor|].
    intros Hmono.
    assert (Hs : StartTime s < threshold).
    { apply Hin. apply list_elem_of_In. by eapply list_elem_of_lookup_2. }
    unfold delta_days, us_per_day. apply Z.div_le_lower_bound; [lia|].
    unfold threshold, add_days, SNAPSHOT_AGE_THRESHOLD_DAYS, us_per_day in Hs. lia.
  - intros s Hs [_ Hlt]%Hin. lia.
  - intros Hclock. split; [|done]. rewrite E.
    assert (Hread : forall k, read k = now) by (intros k; apply Hclock).
    clear -Hread. generalize old. intros l.
    change (imap (fun k s => old_snapshot_finding (read k) s) l
            = map (old_snapshot_finding now) l).
    rewrite <- (imap_const (old_snapshot_finding now)). apply imap_ext.
    intros k s _. cbn. by rewrite Hread.
Qed.

(** ** Idle addresses *)

Lemma find_idle_elastic_ips_found w st addrs :
  describe_addresses w (trace st) [] = Ok addrs ->
  (find_idle_elastic_ips w st).1 = map idle_finding (List.filter unassociated addrs).
Proof.
  intros Hd. unfold find_idle_elastic_ips. unfold bind at 1. unfold request at 1.
  rewrite Hd. unfold bind at 1.
  match goal with
  | |- context [for_each addrs ?body [] ?s] =>
      destruct (for_each_collect unassociated (fun a f => f = idle_finding a)
                  addrs body) with (acc := @nil eip_finding) (st := s)
        as (fs & E & Hfs)
  end.
  { intros acc a st0. unfold unassociated, associated. destruct (AssociationId a).
    - done.
    - exists (idle_finding a). by split. }
  apply Forall2_map_eq in Hfs. subst fs.
  destruct (for_each addrs _ [] _) as [found st1]. cbn [fst] in E. by subst found.
Qed.

(** X11: when the inventory answers with [addrs], the findings of the
    search for idle addresses are, one for one and in order, the addresses
    of [addrs] with no association; an associated address has no finding.
    Every finding carries the allocation identifier, the public address
    and the monthly cost 3.6: the product [0.005 * 24 * 30] is
    3.5999999999999996 in binary64, rounded to two decimals; the line
    printed shows [3.60]. *)
Theorem idle_addresses_are_priced (w : world) (st : state) (addrs : list address) :
  describe_addresses w (trace st) [] = Ok addrs ->
  let found := (find_idle_elastic_ips w st).1 in
  found = map idle_finding (List.filter unassociated addrs)
  /\ length found = length (List.filter unassociated addrs)
  /\ (forall a, In a (List.filter unassociated addrs)
                <-> In a addrs /\ AssociationId a = None)
  /\ (forall a,
        ef_resource_type (idle_finding a) = "elastic_ip"
        /\ ef_allocation_id (idle_finding a) = AllocationId a
        /\ ef_public_ip (idle_finding a) = PublicIp a
        /\ ef_monthly_cost (idle_finding a) = 3.6%float)
  /\ eip_monthly_cost = 3.5999999999999996%float
  /\ format_2f eip_monthly_cost = "3.60".
Proof.
  intros Hd found. subst found. rewrite (find_idle_elastic_ips_found w st addrs Hd).
  split; [done|]. split; [by rewrite length_map|]. split.
  - intros a. rewrite List.filter_In. unfold unassociated, associated.
    destruct (AssociationId a); cbn [negb]; intuition congruence.
  - split; [|split; by vm_compute]. intros a. repeat split; by vm_compute.
Qed.

(** ** Stopped instances *)

(** A loop whose body never raises and computes [f] is a fold of [f]. *)
Lemma for_each_try_pure {A S} (f : S -> A -> S) (xs : list A)
    (body : S -> A -> M (result S)) :
  (forall acc x st, (body acc x st).1 = Ok (f acc x)) ->
  forall acc st, (for_each_try xs body acc st).1 = Ok (fold_left f xs acc).
Proof.
  intros Hbody. induction xs as [|x xs IH]; intros acc st; [done|].
  cbn [for_each_try fold_left]. unfold bind. pose proof (Hbody acc x st) as Hx.
  destruct (body acc x st) as [r st1]. cbn [fst] in Hx. subst r. apply IH.
Qed.

Section Lookups.

Variable w : world.

Variable lookup : string -> list volume.

Hypothesis answers : forall h id, describe_volumes w h [] [id] = Ok (lookup id).

Lemma instance_volumes_pure i st :
  (instance_volumes w i st).1 = Ok (ebs_volumes lookup i).
Proof.
  unfold instance_volumes, ebs_volumes. apply for_each_try_pure.
  intros [total details] [id|] st0; [|done].
  unfold bind_try, bind, request. cbn [fst snd]. rewrite answers. cbn [ebs_step].
  by destruct (lookup id).
Qed.

Lemma stopped_instance_pure found i st :
  (stopped_instance w found i st).1
  = Ok (found ++ if costly lookup i then [stopped_finding lookup i] else []).
Proof.
  unfold stopped_instance, bind_try. unfold bind at 1.
  pose proof (instance_volumes_pure i st) as Hv.
  destruct (instance_volumes w i st) as [r st1]. cbn [fst] in Hv. subst r.
  unfold costly, stopped_finding.
  destruct (ebs_volumes lookup i) as [total details]. cbn [fst snd].
  destruct (num_pos total); [done|]. by rewrite app_nil_r.
Qed.

Lemma collect_costly (insts : list instance) found :
  fold_left
    (fun found i => found ++ if costly lookup i then [stopped_finding lookup i] else [])
    insts found
  = found ++ map (stopped_finding lookup) (List.filter (costly lookup) insts).
Proof.
  revert found.
  induction insts as [|i insts IH]; intros found; cbn [fold_left List.filter].
  - by rewrite app_nil_r.
  - rewrite IH. destruct (costly lookup i); cbn [map].
    + by rewrite <- app_assoc.
    + by rewrite app_nil_r.
Qed.

Lemma collect_reservations (reservations : list (list instance)) found :
  fold_left
    (fun found r =>
       found ++ map (stopped_finding lookup) (List.filter (costly lookup) r))
    reservations found
  = found ++ map (stopped_finding lookup)
               (List.filter (costly lookup) (concat reservations)).
Proof.
  revert found.
  induction reservations as [|r rs IH]; intros found; cbn [fold_left concat].
  - by rewrite app_nil_r.
  - by rewrite IH, List.filter_app, map_app, app_assoc.
Qed.

Lemma find_stopped_instances_found st reservations :
  describe_instances w (trace st) [Filter "instance-state-name" ["stopped"]]
  = Ok reservations ->
  (find_stopped_instances_with_volumes w st).1
  = map (stopped_finding lookup) (List.filter (costly lookup) (concat reservations)).
Proof.
  intros Hd. unfold find_stopped_instances_with_volumes. cbv zeta.
  unfold bind at 1. unfold bind_try at 1. unfold bind at 1. unfold request at 1.
  rewrite Hd. cbn [fst snd].
  match goal with
  | |- context [for_each_try reservations ?body [] ?s] =>
      pose proof (for_each_try_pure
                    (fun found r =>
                       found ++ map (stopped_finding lookup)
                                  (List.filter (costly lookup) r))
                    reservations body) as Hloop;
      specialize (fun H => Hloop H [] s)
  end.
  destruct (for_each_try reservations _ [] _) as [r st1]. cbn [fst] in Hloop.
  rewrite Hloop.
  - by rewrite collect_reservations.
  - intros found r0 st0.
    rewrite (for_each_try_pure
               (fun found i =>
                  found ++ if costly lookup i then [stopped_finding lookup i] else [])).
    + by rewrite collect_costly.
    + intros. apply stopped_instance_pure.
Qed.

Lemma ebs_volumes_from bdms total details :
  fold_left (ebs_step lookup) bdms (total, details)
  = (add_costs total (flat_map (mapped_volume lookup) bdms),
     details ++ flat_map (mapped_volume lookup) bdms).
Proof.
  revert total details.
  induction bdms as [|bdm bdms IH]; intros total details; cbn [fold_left flat_map].
  - by rewrite app_nil_r.
  - destruct bdm as [id|]; cbn [ebs_step mapped_volume]; [|apply IH].
    destruct (lookup id) as [|vol vols]; [apply IH|].
    cbn [fst snd]. rewrite IH. cbn [app add_costs fold_left vd_size_gb vd_type].
    by rewrite <- app_assoc.
Qed.

End Lookups.

(** X12: when the inventory answers the search for stopped instances with
    [reservations] and every lookup of a volume [id] with [lookup id], the
    findings are, one for one and in the order of the reservations, the
    instances whose EBS cost is above zero. The volumes of an instance are
    the first volume of the answer for each block device mapping that has
    an EBS volume the inventory knows; the cost is the sum of their
    monthly costs, added in order from the integer 0, and the finding
    carries it rounded to two decimals. An instance with no such volume
    has no finding. *)
Theorem stopped_instances_are_priced (w : world) (st : state)
    (lookup : string -> list volume) (reservations : list (list instance)) :
  (forall h id, describe_volumes w h [] [id] = Ok (lookup id)) ->
  describe_instances w (trace st) [Filter "instance-state-name" ["stopped"]]
  = Ok reservations ->
  let found := (find_stopped_instances_with_volumes w st).1 in
  found = map (stopped_finding lookup)
            (List.filter (costly lookup) (concat reservations))
  /\ (forall i,
        In i (List.filter (costly lookup) (concat reservations))
        <-> (exists r, In r reservations /\ In i r)
            /\ num_pos (ebs_volumes lookup i).1 = true)
  /\ (forall i,
        if_resource_type (stopped_finding lookup i) = "stopped_instance"
        /\ if_instance_id (stopped_finding lookup i) = InstanceId i
        /\ if_instance_name (stopped_finding lookup i) = instance_name (InstanceTags i)
        /\ if_monthly_cost (stopped_finding lookup i)
           = num_round2 (ebs_volumes lookup i).1
        /\ if_volumes (stopped_finding lookup i) = (ebs_volumes lookup i).2)
  /\ (forall i,
        (ebs_volumes lookup i).2
        = flat_map (mapped_volume lookup) (BlockDeviceMappings i)
        /\ (ebs_volumes lookup i).1 = add_costs (Int 0) (ebs_volumes lookup i).2)
  /\ (forall i, (ebs_volumes lookup i).2 = [] -> costly lookup i = false).
Proof.
  intros Hans Hd found. subst found.
  rewrite (find_stopped_instances_found w lookup Hans st reservations Hd).
  assert (Hv : forall i,
             (ebs_volumes lookup i).2
             = flat_map (mapped_volume lookup) (BlockDeviceMappings i)
             /\ (ebs_volumes lookup i).1 = add_costs (Int 0) (ebs_volumes lookup i).2).
  { intros i. unfold ebs_volumes. by rewrite ebs_volumes_from. }
  split; [done|]. split; [|split; [done|split; [exact Hv|]]].
  - intros i. rewrite List.filter_In, in_concat. unfold costly. tauto.
  - intros i Hnil. unfold costly. destruct (Hv i) as [_ ->]. by rewrite Hnil.
Qed.

(** ** Failures *)

Lemma for_each_try_inv {A S} (P : result S * state -> Prop) (xs : list A)
    (body : S -> A -> M (result S)) :
  (forall acc x st, P (Ok acc, st) -> P (body acc x st)) ->
  forall acc st, P (Ok acc, st) -> P (for_each_try xs body acc st).
Proof.
  intros Hbody. induction xs as [|x xs IH]; intros acc st HP; [done|].
  cbn [for_each_try]. unfold bind. specialize (Hbody acc x st HP).
  destruct (body acc x st) as [[acc'|msg] st1]; [by apply IH|done].
Qed.

Lemma reads_extends {A} (m : M A) st : reads_only m -> extends st (m st).2.
Proof. intros Hm. destruct (Hm st) as (calls & lines & -> & _). by eexists _, _. Qed.

Lemma asks_bind {A B} (m : M A) (k : A -> M B) c st :
  sent (trace (m st).2) (trace st) c ->
  (forall a, reads_only (k a)) ->
  sent (trace (bind m k st).2) (trace st) c.
Proof.
  intros Hs Hk. unfold bind. destruct (m st) as [a st1]. cbn [snd] in Hs.
  eapply extends_sent; [|exact Hs]. by apply reads_extends.
Qed.

Lemma asks_request {A} (answer : list call -> A) c st :
  sent (trace (request answer c st).2) (trace st) c.
Proof. by exists []. Qed.

Lemma find_unattached_volumes_asks w st :
  sent (trace (find_unattached_volumes w st).2) (trace st) (DescribeVolumes [] []).
Proof.
  unfold find_unattached_volumes. apply asks_bind; [apply asks_request|]. reads.
Qed.

Lemma find_stopped_instances_asks w st :
  sent (trace (find_stopped_instances_with_volumes w st).2) (trace st)
    (DescribeInstances [Filter "instance-state-name" ["stopped"]]).
Proof.
  unfold find_stopped_instances_with_volumes. cbv zeta.
  apply asks_bind; [|reads]. unfold bind_try.
  apply asks_bind; [apply asks_request|].
  intros [reservations|e]; [|reads].
  apply reads_for_each_try. intros found reservation.
  apply reads_for_each_try. intros found' i.
  unfold stopped_instance, instance_volumes. reads.
Qed.

Lemma find_old_snapshots_asks w st :
  sent (trace (find_old_snapshots w st).2) (trace st) (DescribeSnapshots ["self"] []).
Proof.
  unfold find_old_snapshots. apply asks_bind; [apply asks_request|]. reads.
Qed.

Lemma find_idle_elastic_ips_asks w st :
  sent (trace (find_idle_elastic_ips w st).2) (trace st) (DescribeAddresses []).
Proof.
  unfold find_idle_elastic_ips. apply asks_bind; [apply asks_request|]. reads.
Qed.

(** The four inventory requests of the analysis, whatever they are
    answered with. *)
Lemma analysis_asks w :
  let tr := trace (run (analysis w)).2 in
  (exists h, sent tr h (DescribeVolumes [] []))
  /\ (exists h,
        sent tr h (DescribeInstances [Filter "instance-state-name" ["stopped"]]))
  /\ (exists h, sent tr h (DescribeSnapshots ["self"] []))
  /\ (exists h, sent tr h (DescribeAddresses [])).
Proof.
  unfold run, analysis. unfold bind, print, request, ret. cbn [fst snd trace log].
  match goal with
  | |- context [find_unattached_volumes w ?s] =>
      pose proof (find_unattached_volumes_asks w s) as H1
  end.
  destruct (find_unattached_volumes w _) as [vols st1]. cbn [snd] in H1.
  pose proof (find_stopped_instances_asks w st1) as H2.
  pose proof (reads_extends _ st1 (find_stopped_instances_reads w)) as E2.
  destruct (find_stopped_instances_with_volumes w st1) as [insts st2].
  cbn [snd] in H2, E2.
  pose proof (find_old_snapshots_asks w st2) as H3.
  pose proof (reads_extends _ st2 (find_old_snapshots_reads w)) as E3.
  destruct (find_old_snapshots w st2) as [snaps st3]. cbn [snd] in H3, E3.
  pose proof (find_idle_elastic_ips_asks w st3) as H4.
  pose proof (reads_extends _ st3 (find_idle_elastic_ips_reads w)) as E4.
  destruct (find_idle_elastic_ips w st3) as [eips st4]. cbn [snd trace] in *.
  pose proof (extends_trans _ _ _ E3 E4) as E34.
  pose proof (extends_trans _ _ _ E2 E34) as E234.
  split; [eexists; exact (extends_sent _ _ _ _ E234 H1)|].
  split; [eexists; exact (extends_sent _ _ _ _ E34 H2)|].
  split; [eexists; exact (extends_sent _ _ _ _ E4 H3)|].
  by eexists.
Qed.

Lemma finder_extends_analysis w :
  extends (run (analysis w)).2 (run (lambda_handler w)).2.
Proof. destruct (finder_handler_run w) as (calls & lines & -> & _). by eexists _, _. Qed.

Lemma not_sent_before (tr h : list call) c :
  sent tr h c -> (exists cs, h = tr ++ cs) -> False.
Proof.
  intros [rest E] [cs ->]. apply (f_equal length) in E.
  rewrite !length_app in E. cbn in E. lia.
Qed.

Lemma instance_volumes_unfailed {A} w base i (a : A) st :
  unfailed w base (Ok a, st) -> unfailed w base (instance_volumes w i st).
Proof.
  intros Hst. unfold instance_volumes.
  apply for_each_try_inv; [|exact Hst]. clear.
  intros [total details] [id|] st Hst; [|exact Hst].
  unfold bind_try, bind, request. cbn [fst snd].
  destruct (describe_volumes w (trace st) [] [id]) as [vols|e] eqn:Ed; [|done].
  assert (Hnew : unfailed w base
                   (Ok (total, details), State (trace st ++ [DescribeVolumes [] [id]])
                                           (log st))).
  { unfold unfailed in *. cbn [fst snd trace] in *. intros h id' e Hs Hb He.
    apply sent_app in Hs as [Hs|(cs1 & cs2 & E & ->)]; [by eapply Hst|].
    destruct cs1 as [|c1 cs1]; [|by destruct cs1].
    injection E as <-. rewrite app_nil_r in He. congruence. }
  by destruct vols.
Qed.

Lemma stopped_instance_unfailed w base found i st :
  unfailed w base (Ok found, st) -> unfailed w base (stopped_instance w found i st).
Proof.
  intros Hst. unfold stopped_instance, bind_try. unfold bind at 1.
  pose proof (instance_volumes_unfailed w base i found st Hst) as Hv.
  destruct (instance_volumes w i st) as [[[total details]|e] st1]; [|done].
  destruct (num_pos total); [|exact Hv]. unfold bind, print, ret. cbn [fst snd].
  exact Hv.
Qed.

(** A lookup that fails empties the findings of the search. *)
Lemma stopped_lookup_failure w st h id e :
  sent (trace (find_stopped_instances_with_volumes w st).2) h (DescribeVolumes [] [id]) ->
  (exists cs, h = trace st ++ cs) ->
  describe_volumes w h [] [id] = Raise e ->
  (find_stopped_instances_with_volumes w st).1 = [].
Proof.
  unfold find_stopped_instances_with_volumes. cbv zeta.
  unfold bind_try, bind, request, print, ret. cbn [fst snd].
  destruct (describe_instances w (trace st) _) as [reservations|msg]; [|done].
  set (st0 := State (trace st ++ _) (log st)).
  assert (H0 : unfailed w (trace st) (Ok (@nil instance_finding), st0)).
  { unfold unfailed, st0. cbn [fst snd trace]. intros h' id' e' Hs Hb _.
    apply sent_app in Hs as [Hs|(cs1 & cs2 & E & ->)].
    - by eapply not_sent_before.
    - destruct cs1 as [|c1 cs1]; [done|by destruct cs1]. }
  match goal with
  | |- context [for_each_try reservations ?body [] st0] =>
      pose proof (for_each_try_inv (unfailed w (trace st)) reservations body) as Hloop;
      specialize (fun H => Hloop H [] st0 H0)
  end.
  destruct (for_each_try reservations _ [] st0) as [[found|msg] st1]; [|done].
  intros Hs Hb He. exfalso. unfold unfailed in Hloop. cbn [fst snd] in Hloop.
  unfold bind, print, ret in Hs. cbn [fst snd trace] in Hs.
  eapply Hloop; [|exact Hs|exact Hb|exact He].
  intros found0 r s Hs0. apply for_each_try_inv; [|exact Hs0].
  intros. by apply stopped_instance_unfailed.
Qed.

Lemma tagging_call_mutating value ids c :
  tagging_call value ids c -> mutating c = true ->
  exists resources tags, c = CreateTags resources tags.
Proof. destruct c; try done. intros _ _. by eexists _, _. Qed.

(** X13: no failure stops a run of the Finder. Whatever the services
    answer, the four searches each ask the inventory; a search whose
    request fails finds nothing, and so does the search for stopped
    instances when one of its volume lookups fails, whatever it had found
    before; the only requests of the run that change anything are tagging
    requests; the report is the last request of the run; and the handler
    answers with status 200, the waste total and the number of
    findings. *)
Theorem no_failure_stops_the_finder (w : world) :
  let f := (run (analysis w)).1 in
  let tr := trace (run (lambda_handler w)).2 in
  (exists h, sent tr h (DescribeVolumes [] []))
  /\ (exists h,
        sent tr h (DescribeInstances [Filter "instance-state-name" ["stopped"]]))
  /\ (exists h, sent tr h (DescribeSnapshots ["self"] []))
  /\ (exists h, sent tr h (DescribeAddresses []))
  /\ (forall st e,
        describe_volumes w (trace st) [] [] = Raise e ->
        (find_unattached_volumes w st).1 = [])
  /\ (forall st e,
        describe_instances w (trace st) [Filter "instance-state-name" ["stopped"]]
        = Raise e ->
        (find_stopped_instances_with_volumes w st).1 = [])
  /\ (forall st h id e,
        sent (trace (find_stopped_instances_with_volumes w st).2) h
          (DescribeVolumes [] [id]) ->
        (exists cs, h = trace st ++ cs) ->
        describe_volumes w h [] [id] = Raise e ->
        (find_stopped_instances_with_volumes w st).1 = [])
  /\ (forall st e,
        describe_snapshots w (trace st) ["self"] [] = Raise e ->
        (find_old_snapshots w st).1 = [])
  /\ (forall st e,
        describe_addresses w (trace st) [] = Raise e ->
        (find_idle_elastic_ips w st).1 = [])
  /\ (forall c, In c tr -> mutating c = true ->
                exists resources tags, c = CreateTags resources tags)
  /\ (exists h, tr = h ++ [Publish SNS_TOPIC_ARN (cost_subject f) (cost_message f)])
  /\ (run (lambda_handler w)).1
     = Response 200 "Cost analysis complete" (total_waste_monthly f) (total_issues f).
Proof.
  cbn zeta. pose proof (finder_extends_analysis w) as Hext.
  destruct (analysis_asks w) as ([h1 H1] & [h2 H2] & [h3 H3] & [h4 H4]).
  split; [eexists; exact (extends_sent _ _ _ _ Hext H1)|].
  split; [eexists; exact (extends_sent _ _ _ _ Hext H2)|].
  split; [eexists; exact (extends_sent _ _ _ _ Hext H3)|].
  split; [eexists; exact (extends_sent _ _ _ _ Hext H4)|].
  split.
  { intros st e He. unfold find_unattached_volumes, bind, request. cbn [fst snd].
    by rewrite He. }
  split.
  { intros st e He. unfold find_stopped_instances_with_volumes, bind_try, bind, request.
    cbn [fst snd]. by rewrite He. }
  split; [exact (stopped_lookup_failure w)|].
  split.
  { intros st e He. unfold find_old_snapshots, bind, request. cbn [fst snd].
    by rewrite He. }
  split.
  { intros st e He. unfold find_idle_elastic_ips, bind, request. cbn [fst snd].
    by rewrite He. }
  destruct (finder_handler_run w) as (calls & lines & -> & Hc & _).
  cbn [fst snd after trace]. split; [|split; [|done]].
  - intros c Hin Hm. apply in_app_or in Hin as [Hin|Hin].
    + pose proof (Forall_In _ _ _ (analysis_trace_reads w) Hin). congruence.
    + destruct Hin as [<-|Hin]; [done|]. apply in_app_or in Hin as [Hin|Hin].
      * eapply tagging_call_mutating; [|exact Hm].
        exact (Forall_In _ _ _ Hc Hin).
      * destruct Hin as [<-|[]]. done.
  - eexists. rewrite app_comm_cons, app_assoc. reflexivity.
Qed.

(** ** The tagging requests, one by one *)

Lemma batches_app tr cs : batches (tr ++ cs) = batches tr ++ batches cs.
Proof. unfold batches. by rewrite flat_map_app. Qed.

Lemma batches_reads cs :
  Forall (fun c => mutating c = false) cs -> batches cs = [].
Proof.
  induction 1 as [|c cs Hc _ IH]; [done|]. unfold batches in *. cbn [flat_map].
  rewrite IH. by destruct c.
Qed.

(** A loop whose every turn reads the clock and tags one address sends
    one request for each address, in order. *)
Lemma tag_addresses_batches w value (body : unit -> eip_finding -> M unit) eips st :
  (forall u e st0, exists lines,
      body u e st0
      = (tt, after st0
               [NowLocal;
                CreateTags [ef_allocation_id e]
                  (deletion_tags value (now_local w (trace st0)))]
               lines)) ->
  batches (trace (for_each eips body tt st).2)
  = batches (trace st) ++ map (fun e => [ef_allocation_id e]) eips.
Proof.
  intros Hbody. revert st. induction eips as [|e eips IH]; intros st.
  - cbn. by rewrite app_nil_r.
  - cbn [for_each]. unfold bind. destruct (Hbody tt e st) as [lines1 ->].
    rewrite IH. unfold after. cbn [trace map]. rewrite batches_app.
    by rewrite <- app_assoc.
Qed.

Lemma tag_resources_batches w f st :
  batches (trace (tag_resources_for_deletion w f st).2)
  = batches (trace st) ++ batch f
    ++ map (fun e => [ef_allocation_id e]) (idle_elastic_ips f).
Proof.
  unfold tag_resources_for_deletion, batch.
  set (value := deadline_tag_value (now_local w (trace st))).
  unfold bind at 1. unfold request at 1. cbn [fst snd]. cbv zeta.
  fold (deadline_tag_value (now_local w (trace st))). fold value.
  set (ids := map vf_volume_id (unattached_volumes f)
              ++ map sf_snapshot_id (old_snapshots f)).
  set (st0 := State (trace st ++ [NowLocal]) (log st)).
  clearbody ids. unfold bind at 1.
  match goal with
  | |- context [let '(_, st') := ?m st0 in _] =>
      assert (Hbatch : exists st1,
                 m st0 = (tt, st1)
                 /\ batches (trace st1)
                    = batches (trace st) ++ match ids with [] => [] | _ => [ids] end)
  end.
  { destruct ids as [|id0 ids'].
    - eexists. split; [reflexivity|]. unfold st0. cbn [trace].
      by rewrite batches_app.
    - run_step. destruct (create_tags w _ _ _) as [[]|e]; eexists;
        (split; [reflexivity|]); unfold st0; cbn [trace]; rewrite !batches_app;
        cbn; by rewrite !app_nil_r. }
  destruct Hbatch as (st1 & -> & Hb).
  match goal with
  | |- context [for_each _ ?body tt _] =>
      rewrite (tag_addresses_batches w value body (idle_elastic_ips f) st1);
        [|intros u e s; exact (tag_address_turn w value u e s)]
  end.
  rewrite Hb, <- app_assoc. by destruct ids.
Qed.

(** X14: the tagging requests of a run of the Finder, whatever the
    services answer to them. There is one request for the unattached
    volumes and the old snapshots together, volumes first, and none when
    there are neither; then one request for every idle address, in order.
    No request names an empty list of resources, and every request carries
    three tags: the reserved key with the deadline, [AutomatedBy] with
    [CostAnalyzer], and [FoundDate] with the date of the request. *)
Theorem tagging_requests_of_a_run (w : world) :
  let f := (run (analysis w)).1 in
  let tr := trace (run (lambda_handler w)).2 in
  batches tr = batch f ++ map (fun e => [ef_allocation_id e]) (idle_elastic_ips f)
  /\ (unattached_volumes f = [] -> old_snapshots f = [] -> batch f = [])
  /\ (unattached_volumes f <> [] \/ old_snapshots f <> [] ->
      batch f = [map vf_volume_id (unattached_volumes f)
                 ++ map sf_snapshot_id (old_snapshots f)])
  /\ ~ In [] (batches tr)
  /\ (forall resources tags,
        In (CreateTags resources tags) tr ->
        exists value found,
          tags = [Tag TAG_KEY value; Tag "AutomatedBy" "CostAnalyzer";
                  Tag "FoundDate" (strftime_Ymd found)]).
Proof.
  cbn zeta.
  assert (Hb : batches (trace (run (lambda_handler w)).2)
               = batch (run (analysis w)).1
                 ++ map (fun e => [ef_allocation_id e])
                      (idle_elastic_ips (run (analysis w)).1)).
  { pose proof (analysis_trace_reads w) as Hreads.
    unfold run, lambda_handler in *. unfold bind at 1.
    destruct (analysis w (State [] [])) as [f st1]. cbn [fst snd] in *.
    unfold bind at 1. pose proof (tag_resources_batches w f st1) as Ht.
    destruct (tag_resources_for_deletion w f st1) as [[] st2]. cbn [snd] in Ht.
    unfold bind at 1. destruct (send_cost_report_run w f st2) as (lines2 & ->).
    run_step. rewrite batches_app, Ht, (batches_reads _ Hreads).
    cbn. by rewrite app_nil_r. }
  split; [exact Hb|]. split; [|split; [|split]].
  - intros Hv Hs. unfold batch. by rewrite Hv, Hs.
  - intros Hne. unfold batch.
    destruct (map vf_volume_id _ ++ map sf_snapshot_id _) as [|id ids] eqn:E; [|done].
    apply app_eq_nil in E as [Ev Es]. apply map_eq_nil in Ev, Es. tauto.
  - rewrite Hb. intros Hin. apply in_app_or in Hin as [Hin|Hin].
    + unfold batch in Hin.
      destruct (map vf_volume_id _ ++ map sf_snapshot_id _); [done|].
      by destruct Hin as [|[]].
    + apply in_map_iff in Hin as (e & He & _). done.
  - intros resources tags Hin.
    destruct (finder_tagging_requests w resources tags Hin) as [[found ->] _].
    by eexists _, _.
Qed.

(** ** What the tagging leaves alone *)









(** ** The sample account *)

Import Examples.

(** C4 on the sample clock: tagged on 2025-02-09, the value is
    [DeleteAfter-2025-02-16]. *)
Lemma deadline_is_run_time_plus_grace_witness :
  TAG_VALUE_PREFIX +:+ strftime_Ymd (add_days clock GRACE_PERIOD_DAYS)
  = "DeleteAfter-2025-02-16".
Proof.
  destruct (deadline_is_run_time_plus_grace estate) as (_ & _ & _ & H & _).
  destruct H as [H _].
  - change (four_digit_years (add_days clock GRACE_PERIOD_DAYS)).
    cbv. split; [discriminate|reflexivity].
  - etrans; [exact H|]. vm_compute. reflexivity.
Defined.

(** C6 on the sample account: 5 GB of [io1] cost 0.71 (in binary64 the
    product stands just below 0.715), 20 GB of an unknown type cost 2.0,
    and the attached [vol-b] has no finding. *)
Lemma unattached_volumes_are_priced_witness :
  map (fun f => (vf_volume_id f, vf_monthly_cost f))
    (find_unattached_volumes estate (State [] [])).1
  = [("vol-a", 0.71%float); ("vol-c", 2%float)].
Proof.
  destruct (unattached_volumes_are_priced estate (State [] []) inventory) as (H & _).
  - reflexivity.
  - rewrite H. vm_compute. reflexivity.
Defined.

(** C7 on the sample account with a clock that is an hour further at
    every reading: the snapshot at the threshold is left out, and the two
    others are each 91 days old by the reading that is made for them (the
    second would be 90 days old by the reading made for the first). *)
Lemma old_snapshots_are_past_the_threshold_witness :
  map (fun f => (sf_snapshot_id f, sf_age_days f))
    (find_old_snapshots ticking (State [] [])).1
  = [("snap-a", 91); ("snap-b", 91)]
  /\ trace (find_old_snapshots ticking (State [] [])).2
     = [DescribeSnapshots ["self"] []; NowUtc; NowUtc; NowUtc].
Proof.
  pose proof (old_snapshots_are_past_the_threshold ticking (State [] []) archive) as H.
  cbn zeta in H. destruct H as (_ & H & Ht & _).
  - reflexivity.
  - split.
    + rewrite H. vm_compute. reflexivity.
    + rewrite Ht. vm_compute. reflexivity.
Defined.

(** X4 on the sample account: two unattached volumes and one old snapshot,
    and no phrase for stopped instances or idle addresses. *)
Lemma notification_names_what_was_found_witness :
  cost_message (run (analysis estate)).1
  = "AWS Cost Alert: 3 issues found. Savings: $3.28/mo ($39.36/yr). 2 unattached volumes. 1 old snapshots. Tagged for 7-day review.".
Proof.
  destruct (notification_names_what_was_found estate) as (_ & _ & H & _).
  rewrite H.
  - vm_compute. reflexivity.
  - vm_compute. discriminate.
Defined.

(** X11 on the sample account: of the two addresses the one without an
    association is found. *)
Lemma idle_addresses_are_priced_witness :
  map (fun f => (ef_allocation_id f, ef_monthly_cost f))
    (find_idle_elastic_ips fleet (State [] [])).1
  = [("eipalloc-1", 3.6%float)].
Proof.
  destruct (idle_addresses_are_priced fleet (State [] []) addresses) as (H & _).
  - reflexivity.
  - rewrite H. vm_compute. reflexivity.
Defined.

(** X12 on the sample account: [i-1] with two volumes costs 2.71 a month;
    [i-2], with no EBS volume, and [i-3], whose volume is unknown, are not
    found. *)
Lemma stopped_instances_are_priced_witness :
  map (fun f => (if_instance_id f, if_monthly_cost f, length (if_volumes f)))
    (find_stopped_instances_with_volumes fleet (State [] [])).1
  = [("i-1", Float 2.71, 2%nat)].
Proof.
  destruct (stopped_instances_are_priced fleet (State [] []) known stopped) as (H & _).
  - intros h id. reflexivity.
  - reflexivity.
  - rewrite H. vm_compute. reflexivity.
Defined.

(** X14 on the sample account: one request for two volumes and a
    snapshot, one for the idle address. *)
Lemma tagging_requests_of_a_run_witness :
  batches (trace (run (lambda_handler fleet)).2)
  = [["vol-a"; "vol-c"; "snap-old"]; ["eipalloc-1"]].
Proof.
  destruct (tagging_requests_of_a_run fleet) as (H & _).
  rewrite H. vm_compute. reflexivity.
Defined.


End FinderFacts.

(* ===================================================================== *)
(** * The ledger Aggregator *)
(* ===================================================================== *)

Module AggregatorFacts.
Import Py Aws CostSavingsQuery Calendar Ledgers DeadlineFacts.
Local Open Scope run_scope.

(** The answer of the Aggregator to a ledger that holds [items]. *)
Lemma lambda_handler_scanned w items :
  scan w [] = Ok items ->
  (run (lambda_handler w)).1
  = match summarize items with
    | inr body => Status200 body
    | inl e => Status500 e
    end.
Proof.
  intros Hs. unfold run, lambda_handler, bind, request. cbn [trace fst snd].
  rewrite Hs. by destruct (summarize items).
Qed.

(** The average is the total over thirty, whatever the days of operation. *)
Lemma summarize_average items total counts s :
  tally items (Int 0) initial_counts = inr (total, counts) ->
  summarize items = inr s ->
  total_monthly_savings s = num_round2 total
  /\ average_savings_per_day s
     = if num_pos total then num_round2 (num_div total (Int 30)) else Int 0.
Proof.
  unfold summarize. intros ->.
  destruct (date_range items) as [e|[[first last] days]]; [done|].
  intros [= <-]. by split.
Qed.

(** C8: for a ledger of two entries, in either order, a volume entry with
    savings 5.00 deleted on 2025-01-01 and an address entry with savings
    3.60 released on 2025-01-10, the Aggregator answers with status 200:
    2 resources, 8.60 a month and 103.2 a year, one [ebs_volume], one
    [elastic_ip] and no [snapshot], first date 2025-01-01, last date
    2025-01-10, 10 days of operation and 0.29 a day. The average is the
    total over 30 (8.60 / 30 rounds to 0.29; over the 10 days observed it
    would be 0.86), and so it is for every ledger the Aggregator sums up. *)
Theorem aggregator_sums_the_example (w : world) (volume address : gmap string attr)
    (items : list (gmap string attr)) :
  item_savings volume = inr 5.00%float ->
  volume !! "resource_type" = Some (AttrS "ebs_volume") ->
  volume !! "deleted_date" = Some (AttrS "2025-01-01") ->
  item_savings address = inr 3.60%float ->
  address !! "resource_type" = Some (AttrS "elastic_ip") ->
  address !! "deleted_date" = Some (AttrS "2025-01-10") ->
  items = [volume; address] \/ items = [address; volume] ->
  scan w [] = Ok items ->
  (run (lambda_handler w)).1
  = Status200
      (Summary 2 (Float 8.60) (Float 103.2)
         {[ "ebs_volume" := 1%nat; "elastic_ip" := 1%nat; "snapshot" := 0%nat ]}
         "2025-01-01" "2025-01-10" 10 (Float 0.29))
  /\ num_round2 (num_div (Float 8.60) (Int 30)) = Float 0.29
  /\ num_round2 (num_div (Float 8.60) (Int 10)) = Float 0.86
  /\ (forall items' total counts s,
        tally items' (Int 0) initial_counts = inr (total, counts) ->
        summarize items' = inr s ->
        average_savings_per_day s
        = if num_pos total then num_round2 (num_div total (Int 30)) else Int 0).
Proof.
  intros Hs1 Ht1 Hd1 Hs2 Ht2 Hd2 Hitems Hscan.
  rewrite (lambda_handler_scanned w items Hscan).
  split; [|split; [by vm_compute|split; [by vm_compute|]]].
  - destruct Hitems as [-> | ->]; unfold summarize, date_range;
      cbn [tally deleted_dates]; rewrite Hs1, Hs2, Hd1, Hd2; unfold count_item;
      rewrite Ht1, Ht2; by vm_compute.
  - intros items' total counts s Ht Hsum.
    by destruct (summarize_average items' total counts s Ht Hsum).
Qed.

(** C9: on an empty ledger the Aggregator answers with status 200, not with
    an error: no resource, savings 0 a month and 0 a year, every counter
    0, [N/A] for the first and the last deletion date, 0 days of operation
    and 0 a day. *)
Theorem aggregator_on_empty_ledger (w : world) :
  scan w [] = Ok [] ->
  (run (lambda_handler w)).1
  = Status200 (Summary 0 (Int 0) (Int 0) initial_counts "N/A" "N/A" 0 (Int 0))
  /\ (forall kind n, initial_counts !! kind = Some n -> n = 0%nat)
  /\ initial_counts !! "ebs_volume" = Some 0%nat
  /\ initial_counts !! "snapshot" = Some 0%nat
  /\ initial_counts !! "elastic_ip" = Some 0%nat.
Proof.
  intros Hscan. rewrite (lambda_handler_scanned w [] Hscan).
  split; [done|]. split; [|done].
  intros kind n. unfold initial_counts.
  rewrite !lookup_insert_Some, lookup_singleton_Some. naive_solver.
Qed.

(** ** The counters *)

Lemma count_item_lookup counts counts' item kind :
  count_item counts item = inr counts' ->
  kind <> "unknown" ->
  counts' !! kind
  = (fun n => if of_kind kind item then S n else n) <$> counts !! kind.
Proof.
  intros Hc Hk. revert Hc. unfold count_item, of_kind.
  destruct (item !! "resource_type") as [v|] eqn:E; cbn [from_option id].
  - destruct v as [s| | | | | | | | |]; cbn [hashable]; try done;
      try (intros [= <-]; rewrite bool_decide_false by congruence;
           by destruct (counts !! kind)).
    destruct (counts !! s) as [n|] eqn:Es; intros [= <-].
    + destruct (decide (s = kind)) as [->|Hne].
      * rewrite lookup_insert_eq, Es. cbn. by rewrite bool_decide_true.
      * rewrite lookup_insert_ne by done.
        rewrite bool_decide_false by congruence. by destruct (counts !! kind).
    + destruct (decide (s = kind)) as [->|Hne].
      * by rewrite Es.
      * rewrite bool_decide_false by congruence. by destruct (counts !! kind).
  - rewrite bool_decide_false by congruence.
    destruct (counts !! "unknown") as [n|] eqn:Es; intros [= <-].
    + rewrite lookup_insert_ne by done. by destruct (counts !! kind).
    + by destruct (counts !! kind).
Qed.

Lemma tally_counts items : forall total counts total' counts' kind,
  tally items total counts = inr (total', counts') ->
  kind <> "unknown" ->
  counts' !! kind
  = (fun n => (n + length (List.filter (of_kind kind) items))%nat) <$> counts !! kind.
Proof.
  induction items as [|item items IH]; intros total counts total' counts' kind Ht Hk.
  - cbn in Ht. injection Ht as <- <-. cbn.
    destruct (counts !! kind); cbn; [f_equal; lia|done].
  - cbn [tally] in Ht. destruct (item_savings item) as [e|x]; [done|].
    destruct (count_item counts item) as [e|counts1] eqn:Ec; [done|].
    rewrite (IH _ _ _ _ kind Ht Hk), (count_item_lookup _ _ _ _ Ec Hk).
    cbn [List.filter]. destruct (counts !! kind) as [n|]; [|done]. cbn.
    destruct (of_kind kind item); cbn [length]; f_equal; lia.
Qed.

(** The loop adds no counter: a key the counters lack stays out. *)
Lemma count_item_keys counts counts' item k :
  count_item counts item = inr counts' ->
  counts !! k = None -> counts' !! k = None.
Proof.
  intros Hc Hk. revert Hc. unfold count_item.
  destruct (default (AttrS "unknown") (item !! "resource_type"))
    as [s| | | | | | | | |]; cbn [hashable]; try done;
    try (by intros [= <-]).
  destruct (counts !! s) eqn:Es; intros [= <-]; [|done].
  rewrite lookup_insert_ne; [done|congruence].
Qed.

Lemma tally_keys items : forall total counts total' counts' k,
  tally items total counts = inr (total', counts') ->
  counts !! k = None -> counts' !! k = None.
Proof.
  induction items as [|item items IH]; intros total counts total' counts' k Ht Hk.
  - cbn in Ht. by injection Ht as <- <-.
  - cbn [tally] in Ht. destruct (item_savings item) as [e|x]; [done|].
    destruct (count_item counts item) as [e|counts1] eqn:Ec; [done|].
    apply (IH _ _ _ _ k Ht). by apply (count_item_keys _ _ _ _ Ec).
Qed.

Lemma tally_sum items : forall total counts total' counts',
  tally items total counts = inr (total', counts') ->
  exists xs,
    Forall2 (fun item x => item_savings item = inr x) items xs
    /\ total' = sum_from total xs.
Proof.
  induction items as [|item items IH]; intros total counts total' counts' Ht.
  - cbn in Ht. injection Ht as <- <-. by exists [].
  - cbn [tally] in Ht. destruct (item_savings item) as [e|x] eqn:Ex; [done|].
    destruct (count_item counts item) as [e|counts1] eqn:Ec; [done|].
    destruct (IH _ _ _ _ Ht) as (xs & Hxs & ->).
    exists (x :: xs). split; [by constructor|done].
Qed.

(** Entries of different kinds are counted apart. *)
Lemma kinds_apart (p q r : gmap string attr -> bool) items :
  (forall item, p item = true -> q item = false /\ r item = false) ->
  (forall item, q item = true -> r item = false) ->
  (length (List.filter p items) + length (List.filter q items)
   + length (List.filter r items) <= length items)%nat.
Proof.
  intros Hp Hq. induction items as [|item items IH]; [done|]. cbn.
  destruct (p item) eqn:Ep.
  - destruct (Hp item Ep) as [-> ->]. cbn. lia.
  - destruct (q item) eqn:Eq.
    + rewrite (Hq item Eq). cbn. lia.
    + destruct (r item); cbn; lia.
Qed.

(** X15: when the Aggregator answers with status 200 for a ledger of
    [items], the number of resources is the number of items; the counter of
    [ebs_volume], of [snapshot] and of [elastic_ip] is the number of items
    that carry that resource type as text; there is no other counter, so
    an item of another type, or with no type, is counted as a resource and
    in no counter; and the monthly total is the sum of the savings of the
    items, added in order from the integer 0 and rounded to two decimals,
    the yearly total twelve times that sum, rounded. *)
Theorem aggregator_counts_by_kind (w : world) (items : list (gmap string attr))
    (s : summary) :
  scan w [] = Ok items ->
  (run (lambda_handler w)).1 = Status200 s ->
  total_resources_deleted s = length items
  /\ resource_breakdown s !! "ebs_volume"
     = Some (length (List.filter (of_kind "ebs_volume") items))
  /\ resource_breakdown s !! "snapshot"
     = Some (length (List.filter (of_kind "snapshot") items))
  /\ resource_breakdown s !! "elastic_ip"
     = Some (length (List.filter (of_kind "elastic_ip") items))
  /\ (forall kind,
        kind <> "ebs_volume" -> kind <> "snapshot" -> kind <> "elastic_ip" ->
        resource_breakdown s !! kind = None)
  /\ (length (List.filter (of_kind "ebs_volume") items)
      + length (List.filter (of_kind "snapshot") items)
      + length (List.filter (of_kind "elastic_ip") items) <= length items)%nat
  /\ exists xs,
       Forall2 (fun item x => item_savings item = inr x) items xs
       /\ total_monthly_savings s = num_round2 (sum_from (Int 0) xs)
       /\ total_annual_savings s = num_round2 (num_mul (sum_from (Int 0) xs) (Int 12)).
Proof.
  intros Hscan. rewrite (lambda_handler_scanned w items Hscan).
  unfold summarize.
  destruct (tally items (Int 0) initial_counts) as [e|[total counts]] eqn:Ht; [done|].
  destruct (date_range items) as [e|[[first last] days]]; [done|].
  intros [= <-]. cbn [total_resources_deleted resource_breakdown
                       total_monthly_savings total_annual_savings].
  split; [done|].
  rewrite !(tally_counts _ _ _ _ _ _ Ht) by done.
  split; [done|]. split; [done|]. split; [done|].
  split; [|split].
  - intros kind H1 H2 H3. apply (tally_keys _ _ _ _ _ kind Ht).
    unfold initial_counts. rewrite !lookup_insert_ne by done.
    by rewrite lookup_singleton_ne.
  - apply kinds_apart; unfold of_kind; intros item H;
      apply bool_decide_eq_true in H; rewrite ?bool_decide_false; try done;
      congruence.
  - destruct (tally_sum _ _ _ _ _ Ht) as (xs & Hxs & ->). by exists xs.
Qed.

(** ** Ledgers the query cannot sum up *)

(** The counters take an entry exactly when its resource type can be
    hashed. *)
Lemma count_item_hashable counts item :
  (exists counts', count_item counts item = inr counts')
  <-> (forall v, item !! "resource_type" = Some v -> hashable v = true).
Proof.
  unfold count_item. destruct (item !! "resource_type") as [v|]; cbn [from_option id].
  - destruct (hashable v) eqn:Eh.
    + split; [by intros _ ? [= <-]|]. intros _.
      destruct v; try (by eexists). by destruct (counts !! s); eexists.
    + split; [by intros [? ?]|]. intros H. by rewrite (H v eq_refl) in Eh.
  - cbn [hashable]. split; [done|]. intros _.
    by destruct (counts !! "unknown"); eexists.
Qed.

Lemma count_item_error counts item e : count_item counts item = inl e -> e = TypeError.
Proof.
  unfold count_item. destruct (hashable _); [|by intros [= <-]].
  destruct (default _ _); try done. by destruct (counts !! s).
Qed.

Lemma item_savings_error item e :
  item_savings item = inl e -> e = ValueError \/ e = TypeError.
Proof.
  unfold item_savings, float_of_attr.
  destruct (item !! "monthly_savings") as [v|]; [|done].
  destruct v as [s| | | | | | | | |]; try done; try (intros [= <-]; by right).
  destruct (float_of_str s); [done|]. intros [= <-]. by left.
Qed.

Lemma tally_converts items : forall total counts,
  (exists r, tally items total counts = inr r)
  <-> savings_convert items /\ kinds_hashable items.
Proof.
  unfold savings_convert, kinds_hashable.
  induction items as [|item items IH]; intros total counts; cbn [tally].
  - split; [by split; constructor|by eexists].
  - destruct (item_savings item) as [e|x] eqn:Ex.
    + split; [by intros [r Hr]|]. intros [H _]. inversion H as [|? ? [y Hy] _].
      congruence.
    + pose proof (count_item_hashable counts item) as Hh.
      destruct (count_item counts item) as [e|counts1] eqn:Ec.
      * split; [by intros [r Hr]|]. intros [_ H]. inversion H as [|? ? Hk _].
        apply Hh in Hk as [? ?]. congruence.
      * rewrite IH. split.
        -- intros [Hs Hk]. split; constructor; try done; [by eexists|].
           apply Hh. by eexists.
        -- intros [Hs Hk]. split; [by inversion Hs|by inversion Hk].
Qed.

Lemma tally_error items : forall total counts e,
  tally items total counts = inl e -> e = ValueError \/ e = TypeError.
Proof.
  induction items as [|item items IH]; intros total counts e; cbn [tally]; [done|].
  destruct (item_savings item) as [e'|x] eqn:Ex.
  - intros [= <-]. by eapply item_savings_error.
  - destruct (count_item counts item) as [e'|counts1] eqn:Ec.
    + intros [= <-]. right. by eapply count_item_error.
    + apply IH.
Qed.

Lemma tally_first_error items : forall total counts item e,
  In item items -> item_savings item = inl e ->
  exists e', tally items total counts = inl e'.
Proof.
  induction items as [|item' items IH]; intros total counts item e Hin He; [done|].
  cbn [tally]. destruct (item_savings item') as [e'|x] eqn:Ex; [by eexists|].
  destruct (count_item counts item') as [e'|counts1]; [by eexists|].
  destruct Hin as [->|Hin]; [congruence|]. by eapply IH.
Qed.

Lemma tally_unhashable items : forall total counts item v,
  In item items -> item !! "resource_type" = Some v -> hashable v = false ->
  exists e, tally items total counts = inl e.
Proof.
  intros total counts item v Hin Hv Hh.
  destruct (tally items total counts) as [e|r] eqn:Et; [by eexists|]. exfalso.
  assert (Hc : exists r, tally items total counts = inr r) by by eexists.
  apply tally_converts in Hc as [_ Hk].
  pose proof (proj1 (List.Forall_forall _ _) Hk item Hin v Hv). congruence.
Qed.

Lemma deleted_dates_texts items l :
  (exists ds, deleted_dates items = inr ds /\ texts ds = Some l)
  <-> Forall2 (fun item s => item !! "deleted_date" = Some (AttrS s)) items l.
Proof.
  revert l. induction items as [|item items IH]; intros l; cbn [deleted_dates].
  - split.
    + intros (ds & [= <-] & Ht). cbn in Ht. injection Ht as <-. constructor.
    + intros H. inversion H. by exists [].
  - split.
    + intros (ds & Hd & Ht).
      destruct (item !! "deleted_date") as [d|] eqn:Ed; [|done].
      destruct (deleted_dates items) as [e|ds'] eqn:Eds; [done|].
      injection Hd as <-. cbn [texts] in Ht. destruct d as [s| | | | | | | | |]; try done.
      destruct (texts ds') as [l'|] eqn:El; [|done]. injection Ht as <-.
      constructor; [done|]. apply IH. by exists ds'.
    + intros H. inversion H as [|? s ? l' Hs Hl]; subst. rewrite Hs.
      apply IH in Hl as (ds & -> & Ht). exists (AttrS s :: ds). cbn [texts].
      by rewrite Ht.
Qed.

Lemma deleted_dates_missing items item :
  In item items -> item !! "deleted_date" = None ->
  deleted_dates items = inl (KeyError "deleted_date").
Proof.
  induction items as [|item' items IH]; intros Hin Hd; [done|]. cbn [deleted_dates].
  destruct (item' !! "deleted_date") as [d|] eqn:Ed; [|done].
  destruct Hin as [->|Hin]; [congruence|]. by rewrite (IH Hin Hd).
Qed.

Lemma deleted_dates_error items e :
  deleted_dates items = inl e -> e = KeyError "deleted_date".
Proof.
  induction items as [|item items IH]; cbn [deleted_dates]; [done|].
  destruct (item !! "deleted_date"); [|by intros [= <-]].
  destruct (deleted_dates items); [|done]. intros [= <-]. by apply IH.
Qed.

Lemma date_range_error items e :
  date_range items = inl e ->
  e = ValueError \/ e = TypeError \/ e = KeyError "deleted_date".
Proof.
  unfold date_range. destruct items as [|item items]; [done|].
  destruct (deleted_dates (item :: items)) as [e'|ds] eqn:Ed.
  - intros [= <-]. right. right. by eapply deleted_dates_error.
  - destruct (texts ds) as [[|d dates]|]; try (intros [= <-]; tauto).
    destruct (strptime_Ymd (str_min d dates)); [|intros [= <-]; tauto].
    destruct (strptime_Ymd (str_max d dates)); [done|intros [= <-]; tauto].
Qed.

Lemma date_range_dated items :
  (exists r, date_range items = inr r) <-> items = [] \/ dates_read items.
Proof.
  unfold date_range, dates_read. destruct items as [|item items].
  { split; [by left|by eexists]. }
  split.
  - intros [r Hr]. right.
    destruct (deleted_dates (item :: items)) as [e|ds] eqn:Eds; [done|].
    destruct (texts ds) as [[|d dates]|] eqn:Et; try done.
    exists d, dates. split; [apply deleted_dates_texts; by exists ds|].
    destruct (strptime_Ymd (str_min d dates)); [|done].
    by destruct (strptime_Ymd (str_max d dates)).
  - intros [[=]|(d & dates & Hd & Hmin & Hmax)].
    apply deleted_dates_texts in Hd as (ds & -> & ->).
    destruct (strptime_Ymd (str_min d dates)); [|done].
    destruct (strptime_Ymd (str_max d dates)); [|done]. by eexists.
Qed.

(** X16: the Aggregator sends the scan and nothing else. A scan that fails
    gives status 500 with the error of the scan. For a ledger of [items]
    the answer is status 200 exactly when the savings of every item
    convert to a number, the resource type of every item can be hashed
    (it is no set, list or map) and, unless the ledger is empty, every
    item has a deletion date that is text and the least and the greatest
    of these texts parse as dates; otherwise it is status 500, with a
    [ValueError], a [TypeError] or [KeyError: deleted_date]. So one item
    whose savings do not convert, whose resource type is a list, or that
    has no deletion date, fails the whole query; when the tally goes
    through, the missing date is reported as [KeyError: deleted_date].
    Savings convert when they are absent (0.0), a number, a boolean, or a
    text that [float] reads, digits of other scripts included. *)
Theorem malformed_ledger_fails_the_query (w : world) :
  let answer := (run (lambda_handler w)).1 in
  trace (run (lambda_handler w)).2 = [Scan]
  /\ (forall msg, scan w [] = Raise msg -> answer = Status500 (ScanError msg))
  /\ (forall items,
        scan w [] = Ok items ->
        ((exists s, answer = Status200 s)
         <-> savings_convert items /\ kinds_hashable items
             /\ (items = [] \/ dates_read items))
        /\ ((exists e, answer = Status500 e)
            <-> ~ (savings_convert items /\ kinds_hashable items
                   /\ (items = [] \/ dates_read items)))
        /\ (forall e, answer = Status500 e ->
                      e = ValueError \/ e = TypeError \/ e = KeyError "deleted_date")
        /\ (forall item e,
              In item items -> item_savings item = inl e ->
              exists e', answer = Status500 e')
        /\ (forall item v,
              In item items -> item !! "resource_type" = Some v ->
              hashable v = false ->
              exists e, answer = Status500 e)
        /\ (forall item,
              In item items -> item !! "deleted_date" = None ->
              exists e, answer = Status500 e)
        /\ (forall item,
              savings_convert items -> kinds_hashable items ->
              In item items -> item !! "deleted_date" = None ->
              answer = Status500 (KeyError "deleted_date")))
  /\ (forall item v,
        item !! "monthly_savings" = Some v ->
        ((exists x, item_savings item = inr x)
         <-> match v with
             | AttrS text => float_of_str text <> None
             | AttrN _ _ | AttrBool _ => True
             | _ => False
             end))
  /\ (forall item,
        item !! "monthly_savings" = None -> item_savings item = inr 0%float)
  /\ (forall v, hashable v = false
                <-> match v with
                    | AttrSS _ | AttrNS _ | AttrBS _ | AttrL _ | AttrM _ => True
                    | _ => False
                    end).
Proof.
  cbn zeta. split.
  { unfold run, lambda_handler, bind, request. cbn [trace fst snd].
    destruct (scan w []) as [items|msg]; [|done]. by destruct (summarize items). }
  split.
  { intros msg Hs. unfold run, lambda_handler, bind, request. cbn [trace fst snd].
    by rewrite Hs. }
  split; [|split; [|split]].
  2:{ intros item v Hv. unfold item_savings, float_of_attr. rewrite Hv.
      destruct v as [s| | | | | | | | |];
        try (split; [done|by eexists]); try (split; [by intros [? ?]|done]).
      destruct (float_of_str s); split; try done; [by eexists|by intros [? ?]]. }
  2:{ intros item Hv. unfold item_savings. by rewrite Hv. }
  2:{ intros v. by destruct v. }
  intros items Hscan. rewrite (lambda_handler_scanned w items Hscan).
  assert (Hok : (exists s, summarize items = inr s)
                <-> savings_convert items /\ kinds_hashable items
                    /\ (items = [] \/ dates_read items)).
  { rewrite <- date_range_dated.
    pose proof (tally_converts items (Int 0) initial_counts) as Ht.
    unfold summarize. split.
    - intros [s Hs].
      destruct (tally _ _ _) as [e|[total counts]]; [done|].
      destruct (proj1 Ht ltac:(by eexists)) as [H1 H2].
      destruct (date_range items) as [e|r]; [done|].
      split; [done|]. split; [done|]. by eexists.
    - intros (H1 & H2 & [[[first last] days] ->]).
      destruct (proj2 Ht (conj H1 H2)) as [[total counts] ->]. by eexists. }
  assert (Hmissing : forall item,
             In item items -> item !! "deleted_date" = None ->
             date_range items = inl (KeyError "deleted_date")).
  { intros item Hin Hd. unfold date_range. destruct items as [|i items]; [done|].
    by rewrite (deleted_dates_missing _ item Hin Hd). }
  split; [|split; [|split; [|split; [|split; [|split]]]]].
  - rewrite <- Hok. split.
    + intros [s Hs]. destruct (summarize items); [done|by eexists].
    + intros [s ->]. by eexists.
  - rewrite <- Hok. split.
    + intros [e He] [s Hs]. by rewrite Hs in He.
    + intros Hno. destruct (summarize items) as [e|s]; [by eexists|].
      exfalso. apply Hno. by eexists.
  - intros e. unfold summarize.
    destruct (tally _ _ _) as [e'|[total counts]] eqn:Et.
    + intros [= <-]. destruct (tally_error _ _ _ _ Et); tauto.
    + destruct (date_range items) as [e'|[[first last] days]] eqn:Ed; [|done].
      intros [= <-]. by eapply date_range_error.
  - intros item e Hin He. unfold summarize.
    destruct (tally_first_error items (Int 0) initial_counts item e Hin He) as [e' ->].
    by eexists.
  - intros item v Hin Hv Hh. unfold summarize.
    destruct (tally_unhashable items (Int 0) initial_counts item v Hin Hv Hh) as [e ->].
    by eexists.
  - intros item Hin Hd. unfold summarize. rewrite (Hmissing item Hin Hd).
    destruct (tally _ _ _) as [e|[total counts]]; by eexists.
  - intros item Hconv Hk Hin Hd. unfold summarize. rewrite (Hmissing item Hin Hd).
    destruct (proj2 (tally_converts items (Int 0) initial_counts) (conj Hconv Hk))
      as [[total counts] ->].
    done.
Qed.

(** ** ISO dates in the order of strings *)

Lemma two_digits_read_all m : 0 <= m <= 99 -> two_digits_read m = true.
Proof.
  intros Hm. apply (all_from_spec (Z.to_nat 100) 0); [by vm_compute|lia].
Qed.

Lemma digit_compare c1 c2 v1 v2 :
  digit_of c1 = Some v1 -> digit_of c2 = Some v2 ->
  Ascii.compare c1 c2 = (v1 ?= v2).
Proof.
  unfold digit_of, Ascii.compare. cbv zeta.
  destruct (_ && _); [|done]. destruct (_ && _); [|done].
  intros [= <-] [= <-]. rewrite <- N2Z.inj_compare.
  destruct (Z.compare_spec (Z.of_N (N_of_ascii c1)) (Z.of_N (N_of_ascii c2)));
    symmetry; [apply Z.compare_eq_iff|apply Z.compare_lt_iff|apply Z.compare_gt_iff];
    lia.
Qed.

(** The text of a date, digit by digit. *)
Lemma isoformat_digits d :
  valid_date d = true ->
  exists a1 a2 a3 a4 b1 b2 c1 c2 w x y z m1 m2 d1 d2,
    isoformat d
    = String a1 (String a2 (String a3 (String a4 (String "-"
        (String b1 (String b2 (String "-" (String c1 (String c2 "")))))))))
    /\ digit_of a1 = Some w /\ digit_of a2 = Some x /\ digit_of a3 = Some y
    /\ digit_of a4 = Some z /\ digit_of b1 = Some m1 /\ digit_of b2 = Some m2
    /\ digit_of c1 = Some d1 /\ digit_of c2 = Some d2
    /\ year d = 1000 * w + 100 * x + 10 * y + z
    /\ month d = 10 * m1 + m2 /\ day d = 10 * d1 + d2
    /\ 0 <= w <= 9 /\ 0 <= x <= 9 /\ 0 <= y <= 9 /\ 0 <= z <= 9
    /\ 0 <= m1 <= 9 /\ 0 <= m2 <= 9 /\ 0 <= d1 <= 9 /\ 0 <= d2 <= 9.
Proof.
  intros Hv. apply valid_date_fields in Hv as (Hy & Hm & Hd).
  pose proof (days_in_month_le (year d) (month d)) as H31.
  pose proof (four_digits_all (year d) ltac:(lia)) as Fy.
  pose proof (two_digits_read_all (month d) ltac:(lia)) as Fm.
  pose proof (two_digits_read_all (day d) ltac:(lia)) as Fd.
  unfold isoformat, four_digits, two_digits_read in *.
  destruct (zfill 4 (year d)) as [|a1 [|a2 [|a3 [|a4 [|? ?]]]]]; try done.
  destruct (zfill 2 (month d)) as [|b1 [|b2 [|? ?]]]; try done.
  destruct (zfill 2 (day d)) as [|c1 [|c2 [|? ?]]]; try done.
  destruct (digit_of a1) as [w|] eqn:E1; [|done].
  destruct (digit_of a2) as [x|] eqn:E2; [|done].
  destruct (digit_of a3) as [y|] eqn:E3; [|done].
  destruct (digit_of a4) as [z|] eqn:E4; [|done].
  destruct (digit_of b1) as [m1|] eqn:E5; [|done].
  destruct (digit_of b2) as [m2|] eqn:E6; [|done].
  destruct (digit_of c1) as [d1|] eqn:E7; [|done].
  destruct (digit_of c2) as [d2|] eqn:E8; [|done].
  apply andb_true_iff in Fy as [Fy _]. apply Z.eqb_eq in Fy, Fm, Fd.
  exists a1, a2, a3, a4, b1, b2, c1, c2, w, x, y, z, m1, m2, d1, d2.
  pose proof (digit_of_range a1 w E1). pose proof (digit_of_range a2 x E2).
  pose proof (digit_of_range a3 y E3). pose proof (digit_of_range a4 z E4).
  pose proof (digit_of_range b1 m1 E5). pose proof (digit_of_range b2 m2 E6).
  pose proof (digit_of_range c1 d1 E7). pose proof (digit_of_range c2 d2 E8).
  repeat split; try done; lia.
Qed.

(** On the texts of two dates the order of strings is the order of the
    dates. *)
Lemma isoformat_ltb a b :
  valid_date a = true -> valid_date b = true ->
  String.ltb (isoformat a) (isoformat b) = negb (date_le b a).
Proof.
  intros Va Vb.
  destruct (isoformat_digits a Va)
    as (a1 & a2 & a3 & a4 & b1 & b2 & c1 & c2 & w & x & y & z & m1 & m2 & d1 & d2
        & -> & E1 & E2 & E3 & E4 & E5 & E6 & E7 & E8 & Hy & Hm & Hd & R).
  destruct (isoformat_digits b Vb)
    as (a1' & a2' & a3' & a4' & b1' & b2' & c1' & c2' & w' & x' & y' & z' & m1' & m2'
        & d1' & d2' & -> & E1' & E2' & E3' & E4' & E5' & E6' & E7' & E8' & Hy' & Hm'
        & Hd' & R').
  unfold String.ltb. cbn [String.compare].
  rewrite (digit_compare _ _ _ _ E1 E1'), (digit_compare _ _ _ _ E2 E2'),
    (digit_compare _ _ _ _ E3 E3'), (digit_compare _ _ _ _ E4 E4'),
    (digit_compare _ _ _ _ E5 E5'), (digit_compare _ _ _ _ E6 E6'),
    (digit_compare _ _ _ _ E7 E7'), (digit_compare _ _ _ _ E8 E8').
  change (Ascii.compare "-" "-") with Eq. cbv iota.
  destruct (date_le b a) eqn:E; unfold date_le in E;
    [rewrite !orb_true_iff, !andb_true_iff, ?orb_true_iff, ?andb_true_iff,
       !Z.ltb_lt, !Z.eqb_eq, !Z.leb_le in E
    |rewrite !orb_false_iff, !andb_false_iff, ?orb_false_iff, ?andb_false_iff,
       !Z.ltb_ge, !Z.eqb_neq, !Z.leb_gt in E];
    destruct (Z.compare_spec w w'); try (cbn; first [done|exfalso; lia]);
    destruct (Z.compare_spec x x'); try (cbn; first [done|exfalso; lia]);
    destruct (Z.compare_spec y y'); try (cbn; first [done|exfalso; lia]);
    destruct (Z.compare_spec z z'); try (cbn; first [done|exfalso; lia]);
    destruct (Z.compare_spec m1 m1'); try (cbn; first [done|exfalso; lia]);
    destruct (Z.compare_spec m2 m2'); try (cbn; first [done|exfalso; lia]);
    destruct (Z.compare_spec d1 d1'); try (cbn; first [done|exfalso; lia]);
    destruct (Z.compare_spec d2 d2'); cbn; first [done|exfalso; lia].
Qed.

Lemma earliest_valid ds : forall d,
  Forall (fun x => valid_date x = true) (d :: ds) ->
  valid_date (earliest d ds) = true.
Proof.
  unfold earliest. induction ds as [|y ds IH]; intros d Hv; cbn [fold_left].
  - by inversion Hv.
  - inversion Hv as [|? ? Hd Hrest]; subst. inversion Hrest as [|? ? Hy Hds]; subst.
    apply IH. constructor; [by destruct (date_le d y)|done].
Qed.

Lemma latest_valid ds : forall d,
  Forall (fun x => valid_date x = true) (d :: ds) ->
  valid_date (latest d ds) = true.
Proof.
  unfold latest. induction ds as [|y ds IH]; intros d Hv; cbn [fold_left].
  - by inversion Hv.
  - inversion Hv as [|? ? Hd Hrest]; subst. inversion Hrest as [|? ? Hy Hds]; subst.
    apply IH. constructor; [by destruct (date_le y d)|done].
Qed.

(** [min] and [max] of the texts are the texts of the earliest and the
    latest date. *)
Lemma str_min_isoformat ds : forall d,
  Forall (fun x => valid_date x = true) (d :: ds) ->
  str_min (isoformat d) (map isoformat ds) = isoformat (earliest d ds).
Proof.
  unfold str_min, earliest. induction ds as [|y ds IH]; intros d Hv; [done|].
  inversion Hv as [|? ? Hd Hrest]; subst. inversion Hrest as [|? ? Hy Hds]; subst.
  cbn [map fold_left]. rewrite (isoformat_ltb y d Hy Hd).
  destruct (date_le d y); cbn [negb]; apply IH; by constructor.
Qed.

Lemma str_max_isoformat ds : forall d,
  Forall (fun x => valid_date x = true) (d :: ds) ->
  str_max (isoformat d) (map isoformat ds) = isoformat (latest d ds).
Proof.
  unfold str_max, latest. induction ds as [|y ds IH]; intros d Hv; [done|].
  inversion Hv as [|? ? Hd Hrest]; subst. inversion Hrest as [|? ? Hy Hds]; subst.
  cbn [map fold_left]. rewrite (isoformat_ltb d y Hd Hy).
  destruct (date_le y d); cbn [negb]; apply IH; by constructor.
Qed.

Lemma earliest_least ds : forall d,
  Forall (fun x => valid_date x = true) (d :: ds) ->
  In (earliest d ds) (d :: ds)
  /\ forall x, In x (d :: ds) -> ymd2ord (earliest d ds) <= ymd2ord x.
Proof.
  unfold earliest. induction ds as [|y ds IH]; intros d Hv; cbn [fold_left].
  - split; [by left|]. intros x [<-|[]]. lia.
  - inversion Hv as [|? ? Hd Hrest]; subst. inversion Hrest as [|? ? Hy Hds]; subst.
    rewrite (date_le_ordinal d y Hd Hy).
    destruct (Z.leb_spec (ymd2ord d) (ymd2ord y)) as [Hle|Hgt].
    + destruct (IH d ltac:(by constructor)) as [Hin Hmin]. split.
      * destruct Hin as [<-|Hin]; [by left|right; by right].
      * intros x [<-|[<-|Hx]]; [apply Hmin; by left| |apply Hmin; by right].
        specialize (Hmin d ltac:(by left)). lia.
    + destruct (IH y ltac:(by constructor)) as [Hin Hmin]. split.
      * by right.
      * intros x [<-|[<-|Hx]]; [|apply Hmin; by left|apply Hmin; by right].
        specialize (Hmin y ltac:(by left)). lia.
Qed.

Lemma latest_greatest ds : forall d,
  Forall (fun x => valid_date x = true) (d :: ds) ->
  In (latest d ds) (d :: ds)
  /\ forall x, In x (d :: ds) -> ymd2ord x <= ymd2ord (latest d ds).
Proof.
  unfold latest. induction ds as [|y ds IH]; intros d Hv; cbn [fold_left].
  - split; [by left|]. intros x [<-|[]]. lia.
  - inversion Hv as [|? ? Hd Hrest]; subst. inversion Hrest as [|? ? Hy Hds]; subst.
    rewrite (date_le_ordinal y d Hy Hd).
    destruct (Z.leb_spec (ymd2ord y) (ymd2ord d)) as [Hle|Hgt].
    + destruct (IH d ltac:(by constructor)) as [Hin Hmax]. split.
      * destruct Hin as [<-|Hin]; [by left|right; by right].
      * intros x [<-|[<-|Hx]]; [apply Hmax; by left| |apply Hmax; by right].
        specialize (Hmax d ltac:(by left)). lia.
    + destruct (IH y ltac:(by constructor)) as [Hin Hmax]. split.
      * by right.
      * intros x [<-|[<-|Hx]]; [|apply Hmax; by left|apply Hmax; by right].
        specialize (Hmax y ltac:(by left)). lia.
Qed.

Lemma Forall2_isoformat (items : list (gmap string attr)) (ds : list date) :
  Forall2 (fun item x => item !! "deleted_date" = Some (AttrS (isoformat x))) items ds ->
  Forall2 (fun item s => item !! "deleted_date" = Some (AttrS s)) items (map isoformat ds).
Proof. induction 1; constructor; done. Qed.

(** X17: the date range of a ledger whose dates are written as the Reaper
    writes them, [YYYY-MM-DD]. When the savings of every item convert and
    its resource type can be hashed (the Reaper writes text), the
    Aggregator answers with status 200; the first and the last deletion
    date are the texts of the earliest and of the latest date of the
    ledger (on such texts the order of strings is the order of dates), and
    the days of operation are the days from the earliest to the latest,
    both counted: at least 1. *)
Theorem date_range_of_an_iso_ledger (w : world) (items : list (gmap string attr))
    (d : date) (ds : list date) :
  scan w [] = Ok items ->
  Forall2 (fun item x => item !! "deleted_date" = Some (AttrS (isoformat x)))
    items (d :: ds) ->
  Forall (fun x => valid_date x = true) (d :: ds) ->
  savings_convert items ->
  kinds_hashable items ->
  exists s first last,
    (run (lambda_handler w)).1 = Status200 s
    /\ In first (d :: ds) /\ In last (d :: ds)
    /\ (forall x, In x (d :: ds) -> date_le first x = true /\ date_le x last = true)
    /\ first_deletion_date s = isoformat first
    /\ last_deletion_date s = isoformat last
    /\ days_operating s = date_diff_days last first + 1
    /\ 1 <= days_operating s.
Proof.
  intros Hscan Hdates Hv Hconv Hkinds. rewrite (lambda_handler_scanned w items Hscan).
  destruct (proj2 (tally_converts items (Int 0) initial_counts) (conj Hconv Hkinds))
    as [[total counts] Ht].
  pose proof (Forall2_isoformat _ _ Hdates) as Htexts. cbn [map] in Htexts.
  apply deleted_dates_texts in Htexts as (attrs & Hd & Hx).
  destruct (earliest_least ds d Hv) as [Hin1 Hmin].
  destruct (latest_greatest ds d Hv) as [Hin2 Hmax].
  pose proof (earliest_valid ds d Hv) as V1. pose proof (latest_valid ds d Hv) as V2.
  destruct (strptime_isoformat _ V1) as [R1 _].
  destruct (strptime_isoformat _ V2) as [R2 _].
  unfold summarize, date_range. rewrite Ht.
  destruct items as [|item items]; [by inversion Hdates|].
  rewrite Hd, Hx, (str_min_isoformat ds d Hv), (str_max_isoformat ds d Hv), R1, R2.
  eexists _, (earliest d ds), (latest d ds). split; [reflexivity|].
  cbn [first_deletion_date last_deletion_date days_operating].
  split; [exact Hin1|]. split; [exact Hin2|]. split.
  { intros x Hx'. assert (Vx : valid_date x = true) by exact (proj1 (List.Forall_forall _ _) Hv x Hx').
    rewrite (date_le_ordinal _ _ V1 Vx), (date_le_ordinal _ _ Vx V2).
    split; apply Z.leb_le; [by apply Hmin|by apply Hmax]. }
  split; [done|]. split; [done|]. split; [done|].
  unfold date_diff_days. specialize (Hmin _ Hin2). lia.
Qed.

(** ** The keys of the ledger *)

Lemma length_append s t :
  String.length (s +:+ t) = (String.length s + String.length t)%nat.
Proof.
  induction s as [|c s IH]; [done|].
  change (String c s +:+ t) with (String c (s +:+ t)). cbn [String.length].
  by rewrite IH.
Qed.

(** Two texts that end in tails of the same length are equal part by
    part. *)
Lemma append_inj_tail s1 : forall s2 t1 t2,
  String.length t1 = String.length t2 ->
  s1 +:+ t1 = s2 +:+ t2 -> s1 = s2 /\ t1 = t2.
Proof.
  induction s1 as [|c s1 IH]; intros [|c' s2] t1 t2 Hlen E.
  - done.
  - exfalso. change ("" +:+ t1) with t1 in E. rewrite E in Hlen.
    change (String c' s2 +:+ t2) with (String c' (s2 +:+ t2)) in Hlen.
    cbn [String.length] in Hlen. rewrite length_append in Hlen. lia.
  - exfalso. change ("" +:+ t2) with t2 in E. rewrite <- E in Hlen.
    change (String c s1 +:+ t1) with (String c (s1 +:+ t1)) in Hlen.
    cbn [String.length] in Hlen. rewrite length_append in Hlen. lia.
  - change (String c s1 +:+ t1) with (String c (s1 +:+ t1)) in E.
    change (String c' s2 +:+ t2) with (String c' (s2 +:+ t2)) in E.
    injection E as -> E. destruct (IH s2 t1 t2 Hlen E) as [-> ->]. done.
Qed.

Lemma isoformat_length d : valid_date d = true -> String.length (isoformat d) = 10%nat.
Proof.
  intros Hv.
  destruct (isoformat_digits d Hv)
    as (a1 & a2 & a3 & a4 & b1 & b2 & c1 & c2 & w & x & y & z & m1 & m2 & d1 & d2
        & -> & _).
  done.
Qed.

Lemma key_inj (prefix id1 id2 date1 date2 : string) :
  String.length date1 = String.length date2 ->
  prefix +:+ id1 +:+ "-" +:+ date1 = prefix +:+ id2 +:+ "-" +:+ date2 ->
  id1 = id2 /\ date1 = date2.
Proof.
  intros Hlen E.
  assert (E' : id1 +:+ "-" +:+ date1 = id2 +:+ "-" +:+ date2).
  { revert E. induction prefix as [|c p IH]; [done|].
    change (String c p +:+ ?s) with (String c (p +:+ s)). intros [= E]. by apply IH. }
  apply append_inj_tail in E' as [-> E']; [|by rewrite !length_append, Hlen].
  change ("-" +:+ date1) with (String "-" date1) in E'.
  change ("-" +:+ date2) with (String "-" date2) in E'. by injection E' as ->.
Qed.

(** X18: the key of a ledger entry, [prefix-id-date]. Two volume entries
    whose dates have the same length have the same key exactly when they
    name the same volume and the same date; the same for two snapshot
    entries and for two address entries; and entries of different kinds
    never have the same key. The dates the Reaper writes are ISO dates, all
    ten characters long: among its entries a key names one resource of one
    kind on one day. *)
Theorem ledger_keys_tell_deletions_apart :
  (forall e1 e2 : ResourceCleanup.deleted_volume,
      String.length (ResourceCleanup.dv_deleted_date e1)
      = String.length (ResourceCleanup.dv_deleted_date e2) ->
      (ResourceCleanup.volume_item e1 !! "deletion_id"
       = ResourceCleanup.volume_item e2 !! "deletion_id"
       <-> ResourceCleanup.dv_volume_id e1 = ResourceCleanup.dv_volume_id e2
           /\ ResourceCleanup.dv_deleted_date e1 = ResourceCleanup.dv_deleted_date e2))
  /\ (forall e1 e2 : ResourceCleanup.deleted_snapshot,
        String.length (ResourceCleanup.ds_deleted_date e1)
        = String.length (ResourceCleanup.ds_deleted_date e2) ->
        (ResourceCleanup.snapshot_item e1 !! "deletion_id"
         = ResourceCleanup.snapshot_item e2 !! "deletion_id"
         <-> ResourceCleanup.ds_snapshot_id e1 = ResourceCleanup.ds_snapshot_id e2
             /\ ResourceCleanup.ds_deleted_date e1 = ResourceCleanup.ds_deleted_date e2))
  /\ (forall e1 e2 : ResourceCleanup.released_eip,
        String.length (ResourceCleanup.re_released_date e1)
        = String.length (ResourceCleanup.re_released_date e2) ->
        (ResourceCleanup.eip_item e1 !! "deletion_id"
         = ResourceCleanup.eip_item e2 !! "deletion_id"
         <-> ResourceCleanup.re_allocation_id e1 = ResourceCleanup.re_allocation_id e2
             /\ ResourceCleanup.re_released_date e1
                = ResourceCleanup.re_released_date e2))
  /\ (forall v s e,
        ResourceCleanup.volume_item v !! "deletion_id"
        <> ResourceCleanup.snapshot_item s !! "deletion_id"
        /\ ResourceCleanup.volume_item v !! "deletion_id"
           <> ResourceCleanup.eip_item e !! "deletion_id"
        /\ ResourceCleanup.snapshot_item s !! "deletion_id"
           <> ResourceCleanup.eip_item e !! "deletion_id")
  /\ (forall d, valid_date d = true -> String.length (isoformat d) = 10%nat).
Proof.
  split; [|split; [|split; [|split; [|exact isoformat_length]]]].
  - intros e1 e2 Hlen.
    change (ResourceCleanup.volume_item e1 !! "deletion_id")
      with (Some (AttrS ("volume-" +:+ ResourceCleanup.dv_volume_id e1 +:+ "-"
                         +:+ ResourceCleanup.dv_deleted_date e1))).
    change (ResourceCleanup.volume_item e2 !! "deletion_id")
      with (Some (AttrS ("volume-" +:+ ResourceCleanup.dv_volume_id e2 +:+ "-"
                         +:+ ResourceCleanup.dv_deleted_date e2))).
    split; [|by intros [-> ->]]. intros E. apply (key_inj "volume-"); [done|congruence].
  - intros e1 e2 Hlen.
    change (ResourceCleanup.snapshot_item e1 !! "deletion_id")
      with (Some (AttrS ("snapshot-" +:+ ResourceCleanup.ds_snapshot_id e1 +:+ "-"
                         +:+ ResourceCleanup.ds_deleted_date e1))).
    change (ResourceCleanup.snapshot_item e2 !! "deletion_id")
      with (Some (AttrS ("snapshot-" +:+ ResourceCleanup.ds_snapshot_id e2 +:+ "-"
                         +:+ ResourceCleanup.ds_deleted_date e2))).
    split; [|by intros [-> ->]]. intros E. apply (key_inj "snapshot-"); [done|congruence].
  - intros e1 e2 Hlen.
    change (ResourceCleanup.eip_item e1 !! "deletion_id")
      with (Some (AttrS ("eip-" +:+ ResourceCleanup.re_allocation_id e1 +:+ "-"
                         +:+ ResourceCleanup.re_released_date e1))).
    change (ResourceCleanup.eip_item e2 !! "deletion_id")
      with (Some (AttrS ("eip-" +:+ ResourceCleanup.re_allocation_id e2 +:+ "-"
                         +:+ ResourceCleanup.re_released_date e2))).
    split; [|by intros [-> ->]]. intros E. apply (key_inj "eip-"); [done|congruence].
  - intros v s e.
    change (ResourceCleanup.volume_item v !! "deletion_id")
      with (Some (AttrS ("volume-" +:+ ResourceCleanup.dv_volume_id v +:+ "-"
                         +:+ ResourceCleanup.dv_deleted_date v))).
    change (ResourceCleanup.snapshot_item s !! "deletion_id")
      with (Some (AttrS ("snapshot-" +:+ ResourceCleanup.ds_snapshot_id s +:+ "-"
                         +:+ ResourceCleanup.ds_deleted_date s))).
    change (ResourceCleanup.eip_item e !! "deletion_id")
      with (Some (AttrS ("eip-" +:+ ResourceCleanup.re_allocation_id e +:+ "-"
                         +:+ ResourceCleanup.re_released_date e))).
    repeat split; intros [= E]; revert E;
      repeat match goal with
             | |- context [String ?c ?p +:+ ?s] =>
                 change (String c p +:+ s) with (String c (p +:+ s))
             end; done.
Qed.

(** ** The sample ledger *)

Import Examples.

(** C8 on the sample ledger, whose two entries are written as the Reaper
    writes them. *)
Lemma aggregator_sums_the_example_witness :
  (run (CostSavingsQuery.lambda_handler estate)).1
  = Status200
      (Summary 2 (Float 8.60) (Float 103.2)
         {[ "ebs_volume" := 1%nat; "elastic_ip" := 1%nat; "snapshot" := 0%nat ]}
         "2025-01-01" "2025-01-10" 10 (Float 0.29)).
Proof.
  pose proof (aggregator_sums_the_example estate volume_entry address_entry
                [volume_entry; address_entry]) as H.
  destruct H as [H _].
  - vm_compute. reflexivity.
  - reflexivity.
  - reflexivity.
  - vm_compute. reflexivity.
  - reflexivity.
  - reflexivity.
  - left. reflexivity.
  - reflexivity.
  - exact H.
Defined.

(** C9 on a sample account with an empty ledger. *)
Lemma aggregator_on_empty_ledger_witness :
  (run (CostSavingsQuery.lambda_handler fresh)).1
  = Status200 (Summary 0 (Int 0) (Int 0) initial_counts "N/A" "N/A" 0 (Int 0)).
Proof. exact (proj1 (aggregator_on_empty_ledger fresh eq_refl)). Defined.

(** X15 on the sample ledger: two resources, one volume, one address. *)
Lemma aggregator_counts_by_kind_witness :
  exists s,
    (run (CostSavingsQuery.lambda_handler estate)).1 = Status200 s
    /\ total_resources_deleted s = 2%nat
    /\ resource_breakdown s !! "ebs_volume" = Some 1%nat
    /\ resource_breakdown s !! "snapshot" = Some 0%nat
    /\ resource_breakdown s !! "elastic_ip" = Some 1%nat
    /\ resource_breakdown s !! "unknown" = None.
Proof.
  exists (Summary 2 (Float 8.60) (Float 103.2)
            {[ "ebs_volume" := 1%nat; "elastic_ip" := 1%nat; "snapshot" := 0%nat ]}
            "2025-01-01" "2025-01-10" 10 (Float 0.29)).
  assert (Hs : (run (CostSavingsQuery.lambda_handler estate)).1
               = Status200
                   (Summary 2 (Float 8.60) (Float 103.2)
                      {[ "ebs_volume" := 1%nat; "elastic_ip" := 1%nat;
                         "snapshot" := 0%nat ]}
                      "2025-01-01" "2025-01-10" 10 (Float 0.29)))
    by (vm_compute; reflexivity).
  destruct (aggregator_counts_by_kind estate [volume_entry; address_entry] _
              eq_refl Hs)
    as (H1 & H2 & H3 & H4 & H5 & _).
  split; [exact Hs|].
  split; [exact H1|]. split; [exact H2|]. split; [exact H3|]. split; [exact H4|].
  by apply H5.
Defined.

(** X16 on sample ledgers: an entry that has lost its date gives
    [KeyError: deleted_date]; an entry whose resource type is a list gives
    status 500; an entry whose savings are written in full-width digits
    is summed up, with status 200. *)
Lemma malformed_ledger_fails_the_query_witness :
  (run (CostSavingsQuery.lambda_handler torn)).1 = Status500 (KeyError "deleted_date")
  /\ (exists e,
         (run (CostSavingsQuery.lambda_handler (with_ledger [nested_entry]))).1
         = Status500 e)
  /\ (exists s,
         (run (CostSavingsQuery.lambda_handler (with_ledger [wide_entry]))).1
         = Status200 s).
Proof.
  split; [|split].
  - destruct (malformed_ledger_fails_the_query torn) as (_ & _ & H & _).
    destruct (H [volume_entry; undated_entry]) as (_ & _ & _ & _ & _ & _ & H7).
    + reflexivity.
    + apply (H7 undated_entry).
      * repeat constructor; eexists; vm_compute; reflexivity.
      * repeat constructor; intros v Hv; vm_compute in Hv; injection Hv as <-;
          reflexivity.
      * right. left. reflexivity.
      * vm_compute. reflexivity.
  - destruct (malformed_ledger_fails_the_query (with_ledger [nested_entry]))
      as (_ & _ & H & _).
    destruct (H [nested_entry]) as (_ & _ & _ & _ & H5 & _).
    + reflexivity.
    + apply (H5 nested_entry (AttrL [AttrS "ebs_volume"])).
      * left. reflexivity.
      * vm_compute. reflexivity.
      * reflexivity.
  - destruct (malformed_ledger_fails_the_query (with_ledger [wide_entry]))
      as (_ & _ & H & _).
    destruct (H [wide_entry]) as (H1 & _).
    + reflexivity.
    + apply H1. split; [|split].
      * repeat constructor; eexists; vm_compute; reflexivity.
      * repeat constructor; intros v Hv; vm_compute in Hv; injection Hv as <-;
          reflexivity.
      * right. exists "2025-01-01", []. split; [repeat constructor|].
        split; vm_compute; discriminate.
Defined.

(** X17 on the sample ledger: from 2025-01-01 to 2025-01-10, 10 days. *)
Lemma date_range_of_an_iso_ledger_witness :
  exists s,
    (run (CostSavingsQuery.lambda_handler estate)).1 = Status200 s
    /\ first_deletion_date s = "2025-01-01"
    /\ last_deletion_date s = "2025-01-10"
    /\ days_operating s = 10.
Proof.
  destruct (date_range_of_an_iso_ledger estate [volume_entry; address_entry]
              (Date 2025 1 1) [Date 2025 1 10])
    as (s & first & last & Hs & H1 & H2 & Hle & Hf & Hl & Hd & _).
  - reflexivity.
  - repeat constructor.
  - repeat constructor.
  - repeat constructor; eexists; vm_compute; reflexivity.
  - repeat constructor; intros v Hv; vm_compute in Hv; injection Hv as <-; reflexivity.
  - exists s. split; [exact Hs|].
    assert (first = Date 2025 1 1) as ->.
    { destruct H1 as [<-|[<-|[]]]; [done|].
      by destruct (Hle (Date 2025 1 1) ltac:(by left)) as [? _]. }
    assert (last = Date 2025 1 10) as ->.
    { destruct H2 as [<-|[<-|[]]]; [|done].
      by destruct (Hle (Date 2025 1 10) ltac:(right; by left)) as [_ ?]. }
    split; [exact Hf|]. split; [exact Hl|]. rewrite Hd. reflexivity.
Defined.

End AggregatorFacts.
